(** * pyxsim: event catalogs and emission models

    A shallow embedding of [pyxsim/event_list.py] and
    [pyxsim/source_models.py], and the properties of the specification
    settled against it.

    Conventions of the embedding.
    - A float64 is an exact rational ([Q]); rounding, infinities and NaN
      are outside the model.  Equality of computed numbers is [Qeq].
    - A one-dimensional numpy array is a [list Q]; a boolean array is a
      [list bool]; an integer array is a [list nat] or a [list Z].
    - A Python exception is a value of [exn]; a function that may raise
      returns a [result].
    - A Python [dict] keeps insertion order and [EventList.__add__] reads
      that order, so a dict is an association list with unique keys.
    - numpy, yt, h5py and the world-coordinate library are not part of the
      repository; the functions used from them are written out after
      their documented behaviour, or taken as parameters of a section. *)

From Stdlib Require Import String Ascii Bool Arith ZArith NArith QArith Qround List.
From Stdlib Require Import Lia Lqa.
Import ListNotations.

Close Scope Q_scope.
Open Scope string_scope.
Open Scope list_scope.
Open Scope nat_scope.

Set Implicit Arguments.

(** ** Exceptions and the result type *)

Inductive exn : Type :=
| KeyError (key : string)
| IndexError
| ValueError
| TypeError
| AttributeError
| AssertionError
| RuntimeError (msg : string)
| OSError
| UnboundLocalError
| YTFieldNotFound.

Inductive result (A : Type) : Type :=
| Ok (a : A)
| Raise (e : exn).

Arguments Ok {A} a.
Arguments Raise {A} e.

Definition bind {A B : Type} (m : result A) (k : A -> result B) : result B :=
  match m with
  | Ok a => k a
  | Raise e => Raise e
  end.

Notation "x <- m ;; k" := (bind m (fun x => k))
  (at level 61, m at next level, right associativity).
Notation "' pat <- m ;; k" := (bind m (fun x => match x with pat => k end))
  (at level 61, pat pattern, m at next level, right associativity).

Definition of_option {A : Type} (e : exn) (o : option A) : result A :=
  match o with
  | Some a => Ok a
  | None => Raise e
  end.

(** ** The numpy operations the two modules use *)

Module np.

Definition ndarray := list Q.

(** Two arrays hold the same numbers. *)
Definition allclose (a b : list Q) : Prop := Forall2 Qeq a b.

Fixpoint array_equal (a b : list Q) : bool :=
  match a, b with
  | [], [] => true
  | x :: a', y :: b' => Qeq_bool x y && array_equal a' b'
  | _, _ => false
  end.

Definition zeros (n : nat) : list Q := repeat 0%Q n.
Definition ones (n : nat) : list Q := repeat 1%Q n.

(** [a.sum()], accumulated from the left. *)
Definition sum (a : list Q) : Q := fold_left Qplus a 0%Q.

(** [a.sum()] of an integer array and of a boolean array. *)
Definition isum (a : list nat) : nat := fold_right Nat.add 0%nat a.
Definition count_nonzero (m : list bool) : nat :=
  fold_right (fun (b : bool) (n : nat) => if b then S n else n) 0%nat m.

(** [np.cumsum(a)]. *)
Fixpoint cumsum_from (acc : Q) (a : list Q) : list Q :=
  match a with
  | [] => []
  | x :: r => (acc + x)%Q :: cumsum_from (acc + x)%Q r
  end.
Definition cumsum (a : list Q) : list Q := cumsum_from 0%Q a.

(** [np.insert(a, 0, v)]. *)
Definition insert0 (a : list Q) (v : Q) : list Q := v :: a.

(** [a[-1]]; an empty array raises IndexError. *)
Definition last_item (a : list Q) : result Q :=
  match a with
  | [] => Raise IndexError
  | _ => Ok (last a 0%Q)
  end.

(** [a[i]] for a non-negative position. *)
Definition item {A : Type} (a : list A) (i : nat) : result A :=
  of_option IndexError (nth_error a i).

(** [a[i:j]] for non-negative bounds. *)
Definition slice {A : Type} (a : list A) (i j : nat) : list A :=
  firstn (j - i) (skipn i a).

(** [a[mask]] with a boolean mask: the entries at the true positions, in
    order.  numpy raises IndexError when the mask and the array differ in
    length. *)
Fixpoint compress {A : Type} (mask : list bool) (a : list A) : list A :=
  match mask, a with
  | b :: m', x :: a' => if b then x :: compress m' a' else compress m' a'
  | _, _ => []
  end.

Definition getmask {A : Type} (a : list A) (mask : list bool)
  : result (list A) :=
  if Nat.eqb (length mask) (length a) then Ok (compress mask a)
  else Raise IndexError.

(** [a[idxs]] with an array of positions. *)
Fixpoint take {A : Type} (a : list A) (idxs : list nat)
  : result (list A) :=
  match idxs with
  | [] => Ok []
  | i :: r =>
      x <- item a i ;;
      xs <- take a r ;;
      Ok (x :: xs)
  end.

(** Element-wise binary operation; operands of different lengths do not
    broadcast (the broadcast of a one-element array is not used by the
    sources and is left out). *)
Fixpoint map2 {A B C : Type} (f : A -> B -> C) (a : list A) (b : list B)
  : list C :=
  match a, b with
  | x :: a', y :: b' => f x y :: map2 f a' b'
  | _, _ => []
  end.

Definition ew2 {A B C : Type} (f : A -> B -> C) (a : list A) (b : list B)
  : result (list C) :=
  if Nat.eqb (length a) (length b) then Ok (map2 f a b)
  else Raise ValueError.

(** [a[i:j] = v]: the slice must lie inside [a] and [v] must have its
    length. *)
Definition set_slice {A : Type} (a : list A) (i j : nat) (v : list A)
  : result (list A) :=
  if Nat.eqb (length (slice a i j)) (length v)
  then Ok (firstn i a ++ v ++ skipn (i + length v) a)
  else Raise ValueError.

(** [np.searchsorted(a, v)] (side left) on a sorted array: the number of
    entries below [v]. *)
Fixpoint searchsorted (a : list Q) (v : Q) : nat :=
  match a with
  | [] => 0
  | x :: r => if Qle_bool v x then 0 else S (searchsorted r v)
  end.

(** [np.digitize(x, bins)] for increasing bins: for each entry the number
    of bin edges at or below it. *)
Fixpoint digitize1 (bins : list Q) (v : Q) : nat :=
  match bins with
  | [] => 0
  | b :: r => if Qle_bool b v then S (digitize1 r v) else 0
  end.
Definition digitize (x bins : list Q) : list nat :=
  map (digitize1 bins) x.

(** [np.argsort(a)]: positions of the entries in increasing order of the
    entries (insertion sort; numpy leaves the order of ties open). *)
Fixpoint insert_by (a : list Q) (i : nat) (sorted : list nat) : list nat :=
  match sorted with
  | [] => [i]
  | j :: r =>
      if Qle_bool (nth i a 0%Q) (nth j a 0%Q) then i :: j :: r
      else j :: insert_by a i r
  end.
Definition argsort (a : list Q) : list nat :=
  fold_right (insert_by a) [] (seq 0 (length a)).

(** [np.bincount(x)] for non-negative integers: how often each value
    0..max(x) occurs. *)
Definition bincount (x : list Z) : result (list nat) :=
  if forallb (fun v => Z.leb 0 v) x then
    let m := fold_right Z.max (-1)%Z x in
    Ok (map (fun b => count_occ Z.eq_dec x (Z.of_nat b))
            (seq 0 (Z.to_nat (m + 1))))
  else Raise ValueError.

(** [np.unique(x)]: the sorted distinct values. *)
Fixpoint insert_uniq (v : Z) (s : list Z) : list Z :=
  match s with
  | [] => [v]
  | w :: r =>
      if Z.ltb v w then v :: w :: r
      else if Z.eqb v w then w :: r
      else w :: insert_uniq v r
  end.
Definition unique (x : list Z) : list Z := fold_right insert_uniq [] x.

(** [np.interp(x, xp, fp)]: piecewise linear interpolation through the
    points [(xp, fp)], constant outside them. *)
Fixpoint interp_seg (v : Q) (x0 f0 : Q) (xp fp : list Q) : Q :=
  match xp, fp with
  | x1 :: xp', f1 :: fp' =>
      if Qle_bool x1 v then interp_seg v x1 f1 xp' fp'
      else (f0 + (f1 - f0) / (x1 - x0) * (v - x0))%Q
  | _, _ => f0
  end.
Definition interp1 (xp fp : list Q) (v : Q) : Q :=
  match xp, fp with
  | x0 :: xp', f0 :: fp' =>
      if Qle_bool v x0 then f0 else interp_seg v x0 f0 xp' fp'
  | _, _ => 0%Q
  end.
Definition interp (x xp fp : list Q) : result (list Q) :=
  if Nat.eqb (length xp) (length fp) then
    match xp with
    | [] => Raise ValueError
    | _ => Ok (map (interp1 xp fp) x)
    end
  else Raise ValueError.

(** [a.sort()] in place: the sorted array (insertion sort). *)
Fixpoint insert_sorted (v : Q) (s : list Q) : list Q :=
  match s with
  | [] => [v]
  | w :: r => if Qle_bool v w then v :: w :: r else w :: insert_sorted v r
  end.
Definition sort (a : list Q) : list Q := fold_right insert_sorted [] a.

(** [np.uint64(x)] of a float: the fraction is dropped and the integer is
    kept modulo 2^64. *)
Definition uint64 (x : Q) : Z :=
  Z.modulo (Z.quot (Qnum x) (Zpos (Qden x))) (2 ^ 64).

(** [np.arange(n)] and [a.astype('int32')] of an integer. *)
Definition arange (n : Z) : list Z := map Z.of_nat (seq 0 (Z.to_nat n)).

Definition int32 (z : Z) : Z := ((z + 2 ^ 31) mod 2 ^ 32 - 2 ^ 31)%Z.

(** [a.min()] and [a.max()]: an empty array has neither. *)
Definition amin (a : list Q) : result Q :=
  match a with
  | [] => Raise ValueError
  | x :: r => Ok (fold_left (fun m v => if Qle_bool v m then v else m) r x)
  end.

Definition amax (a : list Q) : result Q :=
  match a with
  | [] => Raise ValueError
  | x :: r => Ok (fold_left (fun m v => if Qle_bool m v then v else m) r x)
  end.

(** [np.linspace(start, stop, num)]: [num] evenly spaced samples, the last
    of which is [stop] itself. *)
Definition linspace (start stop : Q) (num : nat) : list Q :=
  match num with
  | 0 => []
  | 1 => [start]
  | S div =>
      let step := ((stop - start) / inject_Z (Z.of_nat div))%Q in
      map (fun i => (inject_Z (Z.of_nat i) * step + start)%Q) (seq 0 div)
      ++ [stop]
  end.

(** The number of entries of [a] in each bin of [edges]: a bin holds its
    left edge and not its right edge, except the last bin, which holds
    both. *)
Fixpoint bin_counts (a : list Q) (edges : list Q) : list Z :=
  match edges with
  | lo :: ((hi :: rest) as tail) =>
      let inside x :=
        Qle_bool lo x
        && match rest with
           | [] => Qle_bool x hi
           | _ => negb (Qle_bool hi x)
           end in
      Z.of_nat (length (filter inside a)) :: bin_counts a tail
  | _ => []
  end.

(** [np.histogram(a, bins=bins, range=(first, last))] with an integer
    [bins]: the counts and the [bins + 1] edges.  A range of width zero is
    widened by one half on both sides. *)
Definition histogram (a : list Q) (bins : Z) (range : Q * Q)
  : result (list Z * list Q) :=
  if (bins <? 1)%Z then Raise ValueError
  else
    let (first, last) := range in
    if negb (Qle_bool first last) then Raise ValueError
    else
      let (first, last) :=
        if Qeq_bool first last then ((first - 0.5)%Q, (last + 0.5)%Q)
        else (first, last) in
      let edges := linspace first last (Z.to_nat bins + 1) in
      Ok (bin_counts a edges, edges).

(** [np.diff(a)]: the differences of consecutive entries. *)
Fixpoint diff (a : list Q) : list Q :=
  match a with
  | x :: ((y :: _) as r) => (y - x)%Q :: diff r
  | _ => []
  end.

End np.

(** ** Python dictionaries

    Insertion-ordered, with unique keys: [set] overwrites the value of a
    key that is present and appends a new key at the end. *)

Module dict.
Section Dict.
Variable V : Type.

Definition t := list (string * V).

Definition empty : t := [].

Fixpoint get (m : t) (k : string) : option V :=
  match m with
  | [] => None
  | (k', v) :: r => if String.eqb k k' then Some v else get r k
  end.

(** [m[k]] *)
Definition getitem (m : t) (k : string) : result V :=
  of_option (KeyError k) (get m k).

(** [k in m] *)
Definition contains (m : t) (k : string) : bool :=
  match get m k with Some _ => true | None => false end.

(** [m[k] = v] *)
Fixpoint set (m : t) (k : string) (v : V) : t :=
  match m with
  | [] => [(k, v)]
  | (k', v') :: r =>
      if String.eqb k k' then (k', v) :: r else (k', v') :: set r k v
  end.

Definition keys (m : t) : list string := map fst m.
Definition values (m : t) : list V := map snd m.
Definition items (m : t) : list (string * V) := m.

(** The representation invariant of a dictionary. *)
Definition wf (m : t) : Prop := NoDup (keys m).
End Dict.
End dict.

(** ** Random sources

    [numpy.random.RandomState] and the module [numpy.random] offer the same
    sampling methods; a generator is a state of some type [G] threaded
    through the draws.  Which numbers are drawn is left to the instance. *)

Class RandomState (G : Type) : Type := {
  (** [random_sample(size)]: floats of the half-open interval from 0 to 1 *)
  random_sample : nat -> G -> list Q * G;
  (** [poisson(lam)] for an array of rates *)
  poisson : list Q -> G -> list nat * G;
  (** [choice(n, size, p)]: positions below [n] drawn with weights [p] *)
  choice : nat -> nat -> list Q -> G -> list nat * G;
  (** [normal(loc, scale, size)] *)
  normal : Q -> Q -> nat -> G -> list Q * G
}.

(** What numpy documents of the draws and the proofs rely on. *)
Class RandomStateSpec (G : Type) `{RandomState G} : Prop := {
  random_sample_length :
    forall n g, length (fst (random_sample n g)) = n;
  random_sample_range :
    forall n g, Forall (fun u => 0 <= u /\ u < 1)%Q
                       (fst (random_sample n g));
  poisson_length :
    forall lam g, length (fst (poisson lam g)) = length lam;
  poisson_zero :
    forall lam g i, (nth i lam 0 == 0)%Q -> nth i (fst (poisson lam g)) 0%nat = 0%nat;
  choice_length :
    forall n size p g, length (fst (choice n size p g)) = size;
  choice_range :
    forall n size p g,
      0 < n -> Forall (fun i => i < n) (fst (choice n size p g));
  normal_length :
    forall loc scale size g, length (fst (normal loc scale size g)) = size
}.

Arguments RandomStateSpec G {_}.

(** [uniform(low, high, size)] is [low + (high - low) * random_sample()]. *)
Definition uniform {G : Type} `{RandomState G} (low high : Q) (size : nat)
  (g : G) : list Q * G :=
  let (u, g') := random_sample size g in
  (map (fun r => low + (high - low) * r)%Q u, g').

(** A generator to run the models on examples: a linear congruential
    sequence of 31 bits.  [poisson] rounds the rate at random, up or down;
    [choice] inverts the cumulative weights; [normal] spreads the draw
    around [loc] over two widths. *)

Module lcg.

Definition next (g : N) : N := ((1103515245 * g + 12345) mod 2 ^ 31)%N.

Definition sample (g : N) : Q := Z.of_N g # 2 ^ 31.

Fixpoint random_sample (n : nat) (g : N) : list Q * N :=
  match n with
  | O => ([], g)
  | S n' =>
      let g1 := next g in
      let (r, g2) := random_sample n' g1 in
      (sample g1 :: r, g2)
  end.

Definition poisson (lam : list Q) (g : N) : list nat * N :=
  let (u, g') := random_sample (length lam) g in
  (np.map2 (fun l r => Z.to_nat (Qfloor (l + r))) lam u, g').

Definition choice (n size : nat) (p : list Q) (g : N) : list nat * N :=
  let (u, g') := random_sample size g in
  (map (fun r => Nat.min (np.digitize1 (np.cumsum p) r) (n - 1)) u, g').

Definition normal (loc scale : Q) (size : nat) (g : N) : list Q * N :=
  let (u, g') := random_sample size g in
  (map (fun r => loc + scale * (2 * r - 1))%Q u, g').

#[global] Instance generator : RandomState N :=
  Build_RandomState random_sample poisson choice normal.

End lcg.

(** * event_list.py *)

Module event_list.

(** ** Values *)

(** A numpy array, or a [YTArray] when it carries a unit. *)
Record array : Type := mk_array { d : list Q; units : option string }.

Definition ndarray (a : list Q) : array := mk_array a None.
Definition YTArray (a : list Q) (u : string) : array := mk_array a (Some u).

Definition is_YTArray (a : array) : bool :=
  match units a with Some _ => true | None => false end.

Definition same_units (a b : array) : bool :=
  match units a, units b with
  | Some u, Some v => String.eqb u v
  | None, None => true
  | _, _ => false
  end.

(** [yt.units.yt_array.uconcatenate]: [np.concatenate] of the data, with
    the check yt makes on the units of the operands. *)
Definition uconcatenate (arrs : list array) : result array :=
  match arrs with
  | [] => Raise ValueError
  | a1 :: rest =>
      let v := concat (map d arrs) in
      if negb (existsb is_YTArray arrs) then Ok (ndarray v)
      else if negb (forallb is_YTArray arrs) then
        Raise (RuntimeError "Not all of your arrays are YTArrays.")
      else if negb (forallb (same_units a1) rest) then
        Raise (RuntimeError "Your arrays must have identical units.")
      else Ok (mk_array v (units a1))
  end.

(** The value of an entry of [parameters]: a bare number, a [YTQuantity],
    or an array. *)
Inductive pvalue : Type :=
| PFloat (v : Q)
| YTQuantity (v : Q) (u : string)
| PArray (a : array).

(** [float(p)] drops the unit of a quantity. *)
Definition float (p : pvalue) : result Q :=
  match p with
  | PFloat v => Ok v
  | YTQuantity v _ => Ok v
  | PArray a => match d a with [v] => Ok v | _ => Raise TypeError end
  end.

(** [p.d] and [p.value]: the data without the unit. *)
Definition dot_d (p : pvalue) : result (list Q) :=
  match p with
  | YTQuantity v _ => Ok [v]
  | PArray (mk_array a (Some _)) => Ok a
  | _ => Raise AttributeError
  end.

Definition dot_value (p : pvalue) : result Q :=
  match p with
  | YTQuantity v _ => Ok v
  | PArray (mk_array [v] (Some _)) => Ok v
  | PArray (mk_array _ (Some _)) => Raise TypeError
  | _ => Raise AttributeError
  end.

(** [p[i]] *)
Definition index (p : pvalue) (i : nat) : result Q :=
  match p with
  | PArray a => np.item (d a) i
  | _ => Raise TypeError
  end.

Definition as_vector (p : pvalue) : result (list Q) :=
  match p with
  | PArray a => Ok (d a)
  | _ => Raise TypeError
  end.

(** The tangent-plane world-coordinate mapping ([astropy.wcs.WCS]). *)
Record WCS : Type := mk_WCS {
  crpix : list Q;
  crval : list Q;
  cdelt : list Q;
  ctype : list string;
  cunit : list string
}.

Record EventList : Type := mk_EventList {
  events : dict.t array;
  parameters : dict.t pvalue;
  num_events : nat;
  wcs : WCS
}.

(** ** The checkpoint file (h5py) *)

Inductive h5dataset : Type :=
| H5Scalar (v : Q)
| H5Array (a : list Q).

Definition h5group := dict.t h5dataset.
Definition h5file := dict.t h5group.
Definition filesystem := string -> option h5file.

Definition fs_write (fs : filesystem) (name : string) (f : h5file)
  : filesystem :=
  fun n => if String.eqb n name then Some f else fs n.

(** [g.create_dataset(name, data=data)] *)
Definition create_dataset (g : h5group) (name : string) (data : h5dataset)
  : result h5group :=
  if dict.contains g name then Raise ValueError
  else Ok (dict.set g name data).

Definition dataset_of (p : pvalue) : h5dataset :=
  match p with
  | PFloat v => H5Scalar v
  | YTQuantity v _ => H5Scalar v
  | PArray a => H5Array (d a)
  end.

(** [YTQuantity(ds.value, u)] needs a scalar, [ds.value] alone keeps what
    the dataset holds, and [ds[:]] needs an array. *)
Definition scalar_value (ds : h5dataset) : result Q :=
  match ds with
  | H5Scalar v => Ok v
  | H5Array _ => Raise (RuntimeError "YTQuantity values must be numeric")
  end.

Definition dot_value_h5 (ds : h5dataset) : pvalue :=
  match ds with
  | H5Scalar v => PFloat v
  | H5Array a => PArray (ndarray a)
  end.

Definition read_all (ds : h5dataset) : result (list Q) :=
  match ds with
  | H5Scalar _ => Raise ValueError
  | H5Array a => Ok a
  end.

Section Methods.

(** The generator type of [numpy.random] and of the [prng] arguments. *)
Context {G : Type} `{RandomState G}.

(** Functions of other packages: the unit parser of [pyxsim.utils], the
    two compatibility checks of [__add__], and the two projections of
    the world-coordinate mapping (pixel origin 1). *)
Variable parse_value : pvalue -> string -> pvalue.
Variable assert_same_wcs : WCS -> WCS -> result unit.
Variable validate_parameters :
  dict.t pvalue -> dict.t pvalue -> result unit.
Variable wcs_pix2world : WCS -> list Q -> list Q -> list Q * list Q.
Variable wcs_world2pix : WCS -> Q -> Q -> Q * Q.

(** The world-coordinate mapping [__init__] derives from the parameters
    when it is given none. *)
Definition default_wcs (parameters : dict.t pvalue) : result WCS :=
  pc <- dict.getitem parameters "pix_center" ;;
  crpix <- as_vector pc ;;
  sc <- dict.getitem parameters "sky_center" ;;
  crval <- dot_d sc ;;
  dt <- dict.getitem parameters "dtheta" ;;
  dtheta <- dot_value dt ;;
  Ok (mk_WCS crpix crval [(- dtheta)%Q; dtheta]
             ["RA---TAN"; "DEC--TAN"] ["deg"; "deg"]).

(** [EventList.__init__] *)
Definition __init__ (events : dict.t array) (parameters : dict.t pvalue)
  (wcs : option WCS) : result EventList :=
  xpix <- dict.getitem events "xpix" ;;
  let num_events := length (d xpix) in
  w <- match wcs with
       | None => default_wcs parameters
       | Some w => Ok w
       end ;;
  Ok (mk_EventList events parameters num_events w).

(** [EventList.create_empty_list] *)
Definition create_empty_list (exp_time area : pvalue) (wcs : WCS)
  (parameters : option (dict.t pvalue)) : result EventList :=
  let events :=
    dict.set (dict.set (dict.set (dict.empty array)
      "xpix" (ndarray []))
      "ypix" (ndarray []))
      "eobs" (YTArray [] "keV") in
  let parameters :=
    match parameters with None => dict.empty pvalue | Some p => p end in
  let parameters :=
    dict.set parameters "ExposureTime" (parse_value exp_time "s") in
  let parameters :=
    dict.set parameters "Area" (parse_value area "cm**2") in
  let parameters :=
    dict.set parameters "pix_center" (PArray (ndarray (crpix wcs))) in
  let parameters :=
    dict.set parameters "sky_center" (PArray (YTArray (crval wcs) "deg")) in
  cdelt0 <- np.item (cdelt wcs) 0 ;;
  let parameters :=
    dict.set parameters "dtheta" (YTQuantity cdelt0 "deg") in
  __init__ events parameters None.

Definition keys (self : EventList) : list string :=
  dict.keys (events self).
Definition has_key (self : EventList) (key : string) : bool :=
  dict.contains (events self) key.
Definition items (self : EventList) : list (string * array) :=
  dict.items (events self).
Definition values (self : EventList) : list array :=
  dict.values (events self).

(** [EventList.__getitem__]: the sky coordinates are computed on first
    access and cached in [events], so the catalog after the call is
    returned with the value.  When the call raises, nothing has been
    stored and the catalog is the one before the call. *)
Definition __getitem__ (self : EventList) (key : string)
  : result (array * EventList) :=
  self' <-
    (if negb (dict.contains (events self) key)
        && (String.eqb key "xsky" || String.eqb key "ysky")
     then
       xpix <- dict.getitem (events self) "xpix" ;;
       ypix <- dict.getitem (events self) "ypix" ;;
       let (x, y) := wcs_pix2world (wcs self) (d xpix) (d ypix) in
       let ev := dict.set (events self) "xsky" (YTArray x "degree") in
       let ev := dict.set ev "ysky" (YTArray y "degree") in
       Ok (mk_EventList ev (parameters self) (num_events self) (wcs self))
     else Ok self) ;;
  v <- dict.getitem (events self') key ;;
  Ok (v, self').

Definition __contains__ (self : EventList) (key : string) : bool :=
  dict.contains (events self) key.

(** The loop of [__add__]: the items of the two catalogs are paired by
    position, and the pair is stored under the key of the first. *)
Fixpoint add_loop (pairs : list ((string * array) * (string * array)))
  (events : dict.t array) : result (dict.t array) :=
  match pairs with
  | [] => Ok events
  | ((k1, v1), (k2, v2)) :: rest =>
      v <- uconcatenate [v1; v2] ;;
      add_loop rest (dict.set events k1 v)
  end.

(** [EventList.__add__] *)
Definition __add__ (self other : EventList) : result EventList :=
  _ <- assert_same_wcs (wcs self) (wcs other) ;;
  _ <- validate_parameters (parameters self) (parameters other) ;;
  events <- add_loop (combine (items self) (items other))
                     (dict.empty array) ;;
  __init__ events (parameters self) None.

(** A foreground absorption model: [absorb_photons(e, prng)] returns the
    mask of the photons that are detected. *)
Definition AbsorptionModel := list Q -> G -> list bool * G.

(** The generators in scope of a method: the module [numpy.random] and
    the [prng] argument ([None] stands for [numpy.random] itself). *)
Record generators : Type := mk_generators {
  np_random : G;
  prng : option G
}.

Definition with_prng {A : Type} (f : G -> A * G) (gs : generators)
  : A * generators :=
  match prng gs with
  | None =>
      let (a, g') := f (np_random gs) in (a, mk_generators g' None)
  | Some g =>
      let (a, g') := f g in (a, mk_generators (np_random gs) (Some g'))
  end.

Definition with_np_random {A : Type} (f : G -> A * G) (gs : generators)
  : A * generators :=
  let (a, g') := f (np_random gs) in (a, mk_generators g' (prng gs)).

(** [EventList._add_events] *)
Definition _add_events (self : EventList) (ebins : list Q)
  (spectrum : list Q) (absorb_model : option AbsorptionModel)
  (gs : generators) : result (array * generators) :=
  exp_time <- dict.getitem (parameters self) "ExposureTime" ;;
  area <- dict.getitem (parameters self) "Area" ;;
  let flux := np.sum spectrum in
  exp_time <- float exp_time ;;
  area <- float area ;;
  let num_photons := Z.to_nat (np.uint64 (exp_time * area * flux)%Q) in
  let cumspec := np.cumsum spectrum in
  let cumspec := np.insert0 cumspec 0%Q in
  last <- np.last_item cumspec ;;
  let cumspec := map (fun c => c / last)%Q cumspec in
  let (randvec, gs) := with_prng (uniform 0%Q 1%Q num_photons) gs in
  let randvec := np.sort randvec in
  e <- np.interp randvec cumspec ebins ;;
  let (detected, gs) :=
    match absorb_model with
    | None => (repeat true (length e), gs)
    | Some absorb_photons => with_prng (absorb_photons e) gs
    end in
  detected_e <- np.getmask e detected ;;
  Ok (YTArray detected_e "keV", gs).

(** The loop of [add_point_sources] over the zipped positions and
    spectra; [x], [y] and [e] are the lists of arrays collected so
    far. *)
Fixpoint point_sources_loop (self : EventList) (energy_bins : list Q)
  (absorb_model : option AbsorptionModel)
  (sources : list ((Q * Q) * list Q))
  (x y e : list array) (gs : generators)
  : result (list array * list array * list array * generators) :=
  match sources with
  | [] => Ok (x, y, e, gs)
  | (pos, spectrum) :: rest =>
      '(eobs, gs) <- _add_events self energy_bins spectrum absorb_model gs ;;
      let (xpix, ypix) := wcs_world2pix (wcs self) (fst pos) (snd pos) in
      let ne := length (d eobs) in
      point_sources_loop self energy_bins absorb_model rest
        (x ++ [ndarray (repeat xpix ne)])
        (y ++ [ndarray (repeat ypix ne)])
        (e ++ [eobs]) gs
  end.

(** [EventList.add_point_sources] *)
Definition add_point_sources (self : EventList) (positions : list (Q * Q))
  (energy_bins : list Q) (spectra : list (list Q))
  (absorb_model : option AbsorptionModel) (gs : generators)
  : result (EventList * generators) :=
  x0 <- dict.getitem (events self) "xpix" ;;
  y0 <- dict.getitem (events self) "ypix" ;;
  e0 <- dict.getitem (events self) "eobs" ;;
  '(x, y, e, gs) <-
    point_sources_loop self energy_bins absorb_model
      (combine positions spectra) [x0] [y0] [e0] gs ;;
  xs <- uconcatenate x ;;
  let new_events := dict.set (dict.empty array) "xpix" xs in
  ys <- uconcatenate y ;;
  let new_events := dict.set new_events "ypix" ys in
  es <- uconcatenate e ;;
  let new_events := dict.set new_events "eobs" es in
  new <- __init__ new_events (parameters self) None ;;
  Ok (new, gs).

(** [EventList.add_background]: the energies are drawn from [prng], the
    positions from the module [numpy.random]. *)
Definition add_background (self : EventList) (energy_bins : list Q)
  (spectrum : list Q) (absorb_model : option AbsorptionModel)
  (gs : generators) : result (EventList * generators) :=
  '(eobs, gs) <- _add_events self energy_bins spectrum absorb_model gs ;;
  let ne := length (d eobs) in
  pix_center <- dict.getitem (parameters self) "pix_center" ;;
  pc0 <- index pix_center 0 ;;
  let (x, gs) :=
    with_np_random (uniform 0.5%Q (2 * pc0 - 0.5)%Q ne) gs in
  pix_center <- dict.getitem (parameters self) "pix_center" ;;
  pc1 <- index pix_center 1 ;;
  let (y, gs) :=
    with_np_random (uniform 0.5%Q (2 * pc1 - 0.5)%Q ne) gs in
  xpix <- dict.getitem (events self) "xpix" ;;
  xs <- uconcatenate [ndarray x; xpix] ;;
  let new_events := dict.set (dict.empty array) "xpix" xs in
  ypix <- dict.getitem (events self) "ypix" ;;
  ys <- uconcatenate [ndarray y; ypix] ;;
  let new_events := dict.set new_events "ypix" ys in
  eobs0 <- dict.getitem (events self) "eobs" ;;
  es <- uconcatenate [eobs; eobs0] ;;
  let new_events := dict.set new_events "eobs" es in
  new <- __init__ new_events (parameters self) None ;;
  Ok (new, gs).

(** What [filter_events] obtains from pyregion for a region (a file
    name or a region string) and the header of the world-coordinate
    mapping: the test of a pixel position, or an exception. *)
Variable get_filter : string -> WCS -> result (Q -> Q -> bool).

(** The loop of [filter_events] over the items of the catalog. *)
Fixpoint filter_loop (its : list (string * array)) (idxs : list bool)
  (new_events : dict.t array) : result (dict.t array) :=
  match its with
  | [] => Ok new_events
  | (k, v) :: rest =>
      vi <- np.getmask (d v) idxs ;;
      filter_loop rest idxs (dict.set new_events k (mk_array vi (units v)))
  end.

(** [EventList.filter_events]: the outcome of the call and the catalog
    [self] after it. *)
Definition filter_events (self : EventList) (region : string)
  : result EventList * EventList :=
  match get_filter region (wcs self) with
  | Raise e => (Raise e, self)
  | Ok f =>
      match __getitem__ self "xpix" with
      | Raise e => (Raise e, self)
      | Ok (xpix, self) =>
          match __getitem__ self "ypix" with
          | Raise e => (Raise e, self)
          | Ok (ypix, self) =>
              match np.ew2 f (d xpix) (d ypix) with
              | Raise e => (Raise e, self)
              | Ok idxs =>
                  if Nat.eqb (np.count_nonzero idxs) 0 then
                    (Raise (RuntimeError
                              "No events are inside this region!"), self)
                  else
                    (new_events <- filter_loop (items self) idxs
                                     (dict.empty array) ;;
                     __init__ new_events (parameters self) None,
                     self)
              end
          end
      end
  end.

(** The block of [from_h5_file] that reads the group [parameters]. *)
Definition read_parameters (p : h5group) : result (dict.t pvalue) :=
  ds <- dict.getitem p "exp_time" ;;
  v <- scalar_value ds ;;
  let parameters :=
    dict.set (dict.empty pvalue) "ExposureTime" (YTQuantity v "s") in
  ds <- dict.getitem p "area" ;;
  v <- scalar_value ds ;;
  let parameters := dict.set parameters "Area" (YTQuantity v "cm**2") in
  parameters <-
    (if dict.contains p "redshift" then
       ds <- dict.getitem p "redshift" ;;
       Ok (dict.set parameters "Redshift" (dot_value_h5 ds))
     else Ok parameters) ;;
  parameters <-
    (if dict.contains p "d_a" then
       ds <- dict.getitem p "d_a" ;;
       v <- scalar_value ds ;;
       Ok (dict.set parameters "AngularDiameterDistance"
                    (YTQuantity v "Mpc"))
     else Ok parameters) ;;
  ds <- dict.getitem p "sky_center" ;;
  a <- read_all ds ;;
  let parameters :=
    dict.set parameters "sky_center" (PArray (YTArray a "deg")) in
  ds <- dict.getitem p "dtheta" ;;
  v <- scalar_value ds ;;
  let parameters := dict.set parameters "dtheta" (YTQuantity v "deg") in
  ds <- dict.getitem p "pix_center" ;;
  a <- read_all ds ;;
  Ok (dict.set parameters "pix_center" (PArray (ndarray a))).

(** The block of [from_h5_file] that reads the group [data]. *)
Definition read_events (dg : h5group) : result (dict.t array) :=
  ds <- dict.getitem dg "xpix" ;;
  a <- read_all ds ;;
  let events := dict.set (dict.empty array) "xpix" (ndarray a) in
  ds <- dict.getitem dg "ypix" ;;
  a <- read_all ds ;;
  let events := dict.set events "ypix" (ndarray a) in
  ds <- dict.getitem dg "eobs" ;;
  a <- read_all ds ;;
  Ok (dict.set events "eobs" (YTArray a "keV")).

(** [EventList.from_h5_file] *)
Definition from_h5_file (h5file : string) (fs : filesystem)
  : result EventList :=
  f <- of_option OSError (fs h5file) ;;
  p <- dict.getitem f "parameters" ;;
  parameters <- read_parameters p ;;
  dg <- dict.getitem f "data" ;;
  events <- read_events dg ;;
  __init__ events parameters None.

(** [a.d] of an event array. *)
Definition array_d (a : array) : result (list Q) :=
  if is_YTArray a then Ok (d a) else Raise AttributeError.

(** The block of [write_h5_file] that fills the group [parameters]. *)
Definition write_parameters (self : EventList) : result h5group :=
  let p := dict.empty h5dataset in
  v <- dict.getitem (parameters self) "ExposureTime" ;;
  v <- float v ;;
  p <- create_dataset p "exp_time" (H5Scalar v) ;;
  v <- dict.getitem (parameters self) "Area" ;;
  v <- float v ;;
  p <- create_dataset p "area" (H5Scalar v) ;;
  p <- (if dict.contains (parameters self) "Redshift" then
          v <- dict.getitem (parameters self) "Redshift" ;;
          create_dataset p "redshift" (dataset_of v)
        else Ok p) ;;
  p <- (if dict.contains (parameters self) "AngularDiameterDistance" then
          v <- dict.getitem (parameters self) "AngularDiameterDistance" ;;
          v <- float v ;;
          create_dataset p "d_a" (H5Scalar v)
        else Ok p) ;;
  v <- dict.getitem (parameters self) "sky_center" ;;
  a <- dot_d v ;;
  p <- create_dataset p "sky_center" (H5Array a) ;;
  v <- dict.getitem (parameters self) "pix_center" ;;
  p <- create_dataset p "pix_center" (dataset_of v) ;;
  v <- dict.getitem (parameters self) "dtheta" ;;
  v <- float v ;;
  create_dataset p "dtheta" (H5Scalar v).

(** The block of [write_h5_file] that fills the group [data]; reading
    [self["xsky"]] caches the sky coordinates in the catalog. *)
Definition write_events (self : EventList) : result (h5group * EventList) :=
  let dg := dict.empty h5dataset in
  '(a, self) <- __getitem__ self "xpix" ;;
  dg <- create_dataset dg "xpix" (H5Array (d a)) ;;
  '(a, self) <- __getitem__ self "ypix" ;;
  dg <- create_dataset dg "ypix" (H5Array (d a)) ;;
  '(a, self) <- __getitem__ self "xsky" ;;
  a <- array_d a ;;
  dg <- create_dataset dg "xsky" (H5Array a) ;;
  '(a, self) <- __getitem__ self "ysky" ;;
  a <- array_d a ;;
  dg <- create_dataset dg "ysky" (H5Array a) ;;
  '(a, self) <- __getitem__ self "eobs" ;;
  a <- array_d a ;;
  dg <- create_dataset dg "eobs" (H5Array a) ;;
  Ok (dg, self).

(** [EventList.write_h5_file], as run by the process that writes (the
    decorator [parallel_root_only] of yt lets only one process of a
    parallel run execute the body).  The file system after the call is
    returned with the catalog, in which the sky coordinates are now
    cached. *)
Definition write_h5_file (self : EventList) (h5file : string)
  (fs : filesystem) : result (filesystem * EventList) :=
  p <- write_parameters self ;;
  '(dg, self) <- write_events self ;;
  let f := dict.set (dict.set (dict.empty h5group) "parameters" p)
                    "data" dg in
  Ok (fs_write fs h5file f, self).

End Methods.

(** ** FITS files (astropy.io.fits)

    A header card holds a number, a truth value or text.  A table column
    holds integers or floats under a format code: ['E'] is single
    precision, ['D'] double precision, ['J'] a 32-bit integer.  A file is
    the list of its header-data units.  The cards the library adds on its
    own (table layout, checksums) are no part of the model. *)

Inductive card : Type :=
| CFloat (v : Q)
| CInt (n : Z)
| CBool (b : bool)
| CString (s : string).

Inductive coldata : Type :=
| ColumnZ (a : list Z)
| ColumnQ (a : list Q).

Record Column : Type := mk_Column {
  col_name : string;
  col_format : string;
  col_unit : option string;
  col_array : coldata
}.

Record HDU : Type := mk_HDU {
  extname : string;
  header : dict.t card;
  columns : list Column
}.

Definition fits_files := string -> option (list HDU).

Definition PrimaryHDU : HDU := mk_HDU "PRIMARY" (dict.empty card) [].

Definition col_length (a : coldata) : nat :=
  match a with
  | ColumnZ v => length v
  | ColumnQ v => length v
  end.

(** [hdu.update_ext_name(name)] and [hdu.header[key] = value] *)
Definition update_ext_name (hdu : HDU) (name : string) : HDU :=
  mk_HDU name (header hdu) (columns hdu).

Definition set_card (hdu : HDU) (key : string) (value : card) : HDU :=
  mk_HDU (extname hdu) (dict.set (header hdu) key value) (columns hdu).

(** [hdulist[name]], [hdu.data[name]] *)
Fixpoint hdu_by_name (hdulist : list HDU) (name : string) : result HDU :=
  match hdulist with
  | [] => Raise (KeyError name)
  | hdu :: rest =>
      if String.eqb (extname hdu) name then Ok hdu else hdu_by_name rest name
  end.

Fixpoint column_by_name (cols : list Column) (name : string)
  : result Column :=
  match cols with
  | [] => Raise (KeyError name)
  | c :: rest =>
      if String.eqb (col_name c) name then Ok c else column_by_name rest name
  end.

(** A header value has to be a scalar of Python or numpy: the library
    refuses a quantity or an array with [ValueError]. *)
Definition card_of (p : pvalue) : result card :=
  match p with
  | PFloat v => Ok (CFloat v)
  | _ => Raise ValueError
  end.

(** [p[i]] as a header value: an element of a plain array is a numpy
    scalar, an element of an array with a unit is a quantity. *)
Definition card_of_item (p : pvalue) (i : nat) : result card :=
  v <- index p i ;;
  match p with
  | PArray (mk_array _ None) => Ok (CFloat v)
  | _ => Raise ValueError
  end.

(** The number [YTQuantity(c, u)] is built from: yt accepts any Python
    number ([True] counts as 1) and refuses text. *)
Definition card_number (c : card) : result Q :=
  match c with
  | CFloat v => Ok v
  | CInt n => Ok (inject_Z n)
  | CBool b => Ok (if b then 1%Q else 0%Q)
  | CString _ => Raise (RuntimeError "YTQuantity values must be numeric")
  end.

(** The elements of an array built from header values.  An array of text
    is outside the data model (the source builds it and fails when the
    world-coordinate mapping is set up from it); the model reports it
    where the card is read. *)
Definition card_element (c : card) : result Q :=
  match c with
  | CString _ => Raise ValueError
  | _ => card_number c
  end.

(** A header value kept as it is.  Text is not a parameter value of the
    data model; the model reports it as [TypeError] where the source would
    store the string. *)
Definition pvalue_of_card (c : card) : result pvalue :=
  match c with
  | CString _ => Raise TypeError
  | _ => v <- card_number c ;; Ok (PFloat v)
  end.

Section Files.

(** The world-coordinate projection, the unit conversion of yt
    ([in_units data from to]), the rounding of a float64 to single
    precision, the float a header card gives back for the float written to
    it (the text of a card has a fixed width), and the SIMPUT writer of
    soxs. *)
Variable wcs_pix2world : WCS -> list Q -> list Q -> list Q * list Q.
Variable in_units : list Q -> string -> string -> result (list Q).
Variable float32 : Q -> Q.
Variable card_float : Q -> Q.

(** [a.in_units(u).d] of an event array *)
Definition in_units_d (a : array) (u : string) : result (list Q) :=
  match units a with
  | None => Raise AttributeError
  | Some from => in_units (d a) from u
  end.

(** The data a column holds once the table is built: a float column of
    format ['E'] is kept in single precision. *)
Definition stored (format : string) (a : coldata) : coldata :=
  match a with
  | ColumnQ v =>
      if String.eqb format "E" then ColumnQ (map float32 v) else ColumnQ v
  | ColumnZ v => ColumnZ v
  end.

(** Columns shorter than the longest one are filled with zeros. *)
Definition pad (nrows : nat) (a : coldata) : coldata :=
  match a with
  | ColumnZ v => ColumnZ (v ++ repeat 0%Z (nrows - length v))
  | ColumnQ v => ColumnQ (v ++ repeat 0%Q (nrows - length v))
  end.

(** [BinTableHDU.from_columns(ColDefs(cols))] *)
Definition from_columns (cols : list Column) : HDU :=
  let nrows :=
    fold_right Nat.max 0 (map (fun c => col_length (col_array c)) cols) in
  mk_HDU "" (dict.empty card)
    (map (fun c =>
            mk_Column (col_name c) (col_format c) (col_unit c)
              (pad nrows (stored (col_format c) (col_array c))))
         cols).

(** What a file keeps of a header-data unit. *)
Definition on_disk (hdu : HDU) : HDU :=
  mk_HDU (extname hdu)
    (map (fun kv =>
            match snd kv with
            | CFloat v => (fst kv, CFloat (card_float v))
            | _ => kv
            end)
         (header hdu))
    (columns hdu).

(** [HDUList(hdulist).writeto(name, clobber=clobber)]: an existing file is
    replaced only when [clobber] is set. *)
Definition writeto (hdulist : list HDU) (name : string) (clobber : bool)
  (fs : fits_files) : result fits_files :=
  let fs' :=
    fun n => if String.eqb n name then Some (map on_disk hdulist)
             else fs n in
  match fs name with
  | Some _ => if clobber then Ok fs' else Raise OSError
  | None => Ok fs'
  end.

(** [column / 1000.]: numpy keeps single precision when a single-precision
    array is divided by a Python float. *)
Definition divide_column (c : Column) (x : Q) : list Q :=
  match col_array c with
  | ColumnQ v =>
      if String.eqb (col_format c) "E" then map (fun e => float32 (e / x)) v
      else map (fun e => e / x) v
  | ColumnZ v => map (fun n => inject_Z n / x) v
  end%Q.

Definition column_values (c : Column) : list Q :=
  match col_array c with
  | ColumnQ v => v
  | ColumnZ v => map inject_Z v
  end.

(** [EventList.from_fits_file] *)
Definition from_fits_file (fitsfile : string) (fs : fits_files)
  : result EventList :=
  hdulist <- of_option OSError (fs fitsfile) ;;
  tblhdu <- hdu_by_name hdulist "EVENTS" ;;
  c <- dict.getitem (header tblhdu) "EXPOSURE" ;;
  v <- card_number c ;;
  let parameters :=
    dict.set (dict.empty pvalue) "ExposureTime" (YTQuantity v "s") in
  c <- dict.getitem (header tblhdu) "AREA" ;;
  v <- card_number c ;;
  let parameters := dict.set parameters "Area" (YTQuantity v "cm**2") in
  parameters <-
    (if dict.contains (header tblhdu) "REDSHIFT" then
       c <- dict.getitem (header tblhdu) "REDSHIFT" ;;
       v <- pvalue_of_card c ;;
       Ok (dict.set parameters "Redshift" v)
     else Ok parameters) ;;
  parameters <-
    (if dict.contains (header tblhdu) "D_A" then
       c <- dict.getitem (header tblhdu) "D_A" ;;
       v <- card_number c ;;
       Ok (dict.set parameters "AngularDiameterDistance"
                    (YTQuantity v "Mpc"))
     else Ok parameters) ;;
  c2 <- dict.getitem (header tblhdu) "TCRVL2" ;;
  c3 <- dict.getitem (header tblhdu) "TCRVL3" ;;
  v2 <- card_element c2 ;;
  v3 <- card_element c3 ;;
  let parameters :=
    dict.set parameters "sky_center" (PArray (YTArray [v2; v3] "deg")) in
  c2 <- dict.getitem (header tblhdu) "TCRVL2" ;;
  c3 <- dict.getitem (header tblhdu) "TCRVL3" ;;
  v2 <- card_element c2 ;;
  v3 <- card_element c3 ;;
  let parameters :=
    dict.set parameters "pix_center" (PArray (ndarray [v2; v3])) in
  c <- dict.getitem (header tblhdu) "TCRVL3" ;;
  v <- card_number c ;;
  let parameters := dict.set parameters "dtheta" (YTQuantity v "deg") in
  c <- column_by_name (columns tblhdu) "X" ;;
  let events := dict.set (dict.empty array) "xpix"
                         (ndarray (column_values c)) in
  c <- column_by_name (columns tblhdu) "Y" ;;
  let events := dict.set events "ypix" (ndarray (column_values c)) in
  c <- column_by_name (columns tblhdu) "ENERGY" ;;
  let events := dict.set events "eobs"
                         (YTArray (divide_column c 1000) "keV") in
  __init__ events parameters None.

(** The block of [write_fits_file] that fills the header of the table. *)
Definition write_header (self : EventList) (exp_time : Q) (tbhdu : HDU)
  : result HDU :=
  let tbhdu := set_card tbhdu "MTYPE1" (CString "sky") in
  let tbhdu := set_card tbhdu "MFORM1" (CString "x,y") in
  let tbhdu := set_card tbhdu "MTYPE2" (CString "EQPOS") in
  let tbhdu := set_card tbhdu "MFORM2" (CString "RA,DEC") in
  let tbhdu := set_card tbhdu "TCTYP2" (CString "RA---TAN") in
  let tbhdu := set_card tbhdu "TCTYP3" (CString "DEC--TAN") in
  p <- dict.getitem (parameters self) "sky_center" ;;
  v <- index p 0 ;;
  let tbhdu := set_card tbhdu "TCRVL2" (CFloat v) in
  p <- dict.getitem (parameters self) "sky_center" ;;
  v <- index p 1 ;;
  let tbhdu := set_card tbhdu "TCRVL3" (CFloat v) in
  p <- dict.getitem (parameters self) "dtheta" ;;
  v <- float p ;;
  let tbhdu := set_card tbhdu "TCDLT2" (CFloat (- v)) in
  p <- dict.getitem (parameters self) "dtheta" ;;
  v <- float p ;;
  let tbhdu := set_card tbhdu "TCDLT3" (CFloat v) in
  p <- dict.getitem (parameters self) "pix_center" ;;
  c <- card_of_item p 0 ;;
  let tbhdu := set_card tbhdu "TCRPX2" c in
  p <- dict.getitem (parameters self) "pix_center" ;;
  c <- card_of_item p 1 ;;
  let tbhdu := set_card tbhdu "TCRPX3" c in
  let tbhdu := set_card tbhdu "TLMIN2" (CFloat 0.5) in
  let tbhdu := set_card tbhdu "TLMIN3" (CFloat 0.5) in
  p <- dict.getitem (parameters self) "pix_center" ;;
  v <- index p 0 ;;
  let tbhdu := set_card tbhdu "TLMAX2" (CFloat (2 * v - 0.5)) in
  p <- dict.getitem (parameters self) "pix_center" ;;
  v <- index p 1 ;;
  let tbhdu := set_card tbhdu "TLMAX3" (CFloat (2 * v - 0.5)) in
  let tbhdu := set_card tbhdu "EXPOSURE" (CFloat exp_time) in
  let tbhdu := set_card tbhdu "TSTART" (CFloat 0) in
  let tbhdu := set_card tbhdu "TSTOP" (CFloat exp_time) in
  p <- dict.getitem (parameters self) "Area" ;;
  v <- float p ;;
  let tbhdu := set_card tbhdu "AREA" (CFloat v) in
  tbhdu <-
    (if dict.contains (parameters self) "AngularDiameterDistance" then
       p <- dict.getitem (parameters self) "AngularDiameterDistance" ;;
       v <- float p ;;
       Ok (set_card tbhdu "D_A" (CFloat v))
     else Ok tbhdu) ;;
  tbhdu <-
    (if dict.contains (parameters self) "Redshift" then
       p <- dict.getitem (parameters self) "Redshift" ;;
       c <- card_of p ;;
       Ok (set_card tbhdu "REDSHIFT" c)
     else Ok tbhdu) ;;
  let tbhdu := set_card tbhdu "HDUVERS" (CString "1.1.0") in
  let tbhdu := set_card tbhdu "RADECSYS" (CString "FK5") in
  let tbhdu := set_card tbhdu "EQUINOX" (CFloat 2000) in
  let tbhdu := set_card tbhdu "HDUCLASS" (CString "OGIP") in
  let tbhdu := set_card tbhdu "HDUCLAS1" (CString "EVENTS") in
  Ok (set_card tbhdu "HDUCLAS2" (CString "ACCEPTED")).

(** [EventList.write_fits_file], as run by the process that writes. *)
Definition write_fits_file (self : EventList) (fitsfile : string)
  (clobber : bool) (fs : fits_files) : result fits_files :=
  p <- dict.getitem (parameters self) "ExposureTime" ;;
  exp_time <- float p ;;
  '(a, self) <- __getitem__ wcs_pix2world self "eobs" ;;
  e <- in_units_d a "eV" ;;
  let col_e := mk_Column "ENERGY" "E" (Some "eV") (ColumnQ e) in
  '(a, self) <- __getitem__ wcs_pix2world self "xpix" ;;
  let col_x := mk_Column "X" "D" (Some "pixel") (ColumnQ (d a)) in
  '(a, self) <- __getitem__ wcs_pix2world self "ypix" ;;
  let col_y := mk_Column "Y" "D" (Some "pixel") (ColumnQ (d a)) in
  let cols := [col_e; col_x; col_y] in
  let tbhdu := from_columns cols in
  let tbhdu := update_ext_name tbhdu "EVENTS" in
  tbhdu <- write_header self exp_time tbhdu ;;
  let hdulist := [PrimaryHDU; tbhdu] in
  writeto hdulist fitsfile clobber fs.

(** The block of [write_spectrum] that fills the header of the table. *)
Definition spectrum_header (self : EventList) (spec : list Z) (tbhdu : HDU)
  : result HDU :=
  let tbhdu :=
    set_card tbhdu "DETCHANS" (CInt (Z.of_nat (length spec))) in
  let tbhdu := set_card tbhdu "TOTCTS" (CInt (fold_right Z.add 0%Z spec)) in
  p <- dict.getitem (parameters self) "ExposureTime" ;;
  v <- float p ;;
  let tbhdu := set_card tbhdu "EXPOSURE" (CFloat v) in
  p <- dict.getitem (parameters self) "ExposureTime" ;;
  v <- float p ;;
  let tbhdu := set_card tbhdu "LIVETIME" (CFloat v) in
  let tbhdu := set_card tbhdu "CONTENT" (CString "pi") in
  let tbhdu := set_card tbhdu "HDUCLASS" (CString "OGIP") in
  let tbhdu := set_card tbhdu "HDUCLAS1" (CString "SPECTRUM") in
  let tbhdu := set_card tbhdu "HDUCLAS2" (CString "TOTAL") in
  let tbhdu := set_card tbhdu "HDUCLAS3" (CString "TYPE:I") in
  let tbhdu := set_card tbhdu "HDUCLAS4" (CString "COUNT") in
  let tbhdu := set_card tbhdu "HDUVERS" (CString "1.1.0") in
  let tbhdu := set_card tbhdu "HDUVERS1" (CString "1.1.0") in
  let tbhdu := set_card tbhdu "CHANTYPE" (CString "pi") in
  let tbhdu := set_card tbhdu "BACKFILE" (CString "none") in
  let tbhdu := set_card tbhdu "CORRFILE" (CString "none") in
  let tbhdu := set_card tbhdu "POISSERR" (CBool true) in
  let tbhdu := set_card tbhdu "RESPFILE" (CString "none") in
  let tbhdu := set_card tbhdu "ANCRFILE" (CString "none") in
  let tbhdu := set_card tbhdu "MISSION" (CString "none") in
  let tbhdu := set_card tbhdu "TELESCOP" (CString "none") in
  let tbhdu := set_card tbhdu "INSTRUME" (CString "none") in
  let tbhdu := set_card tbhdu "AREASCAL" (CFloat 1) in
  let tbhdu := set_card tbhdu "CORRSCAL" (CFloat 0) in
  Ok (set_card tbhdu "BACKSCAL" (CFloat 1)).

(** [EventList.write_spectrum], as run by the process that writes. *)
Definition write_spectrum (self : EventList) (specfile : string)
  (emin emax : Q) (nchan : Z) (clobber : bool) (fs : fits_files)
  : result fits_files :=
  '(a, self) <- __getitem__ wcs_pix2world self "eobs" ;;
  espec <- array_d a ;;
  '(spec, ee) <- np.histogram espec nchan (emin, emax) ;;
  let bins :=
    np.map2 (fun hi lo => 0.5 * (hi + lo))%Q (tl ee) (removelast ee) in
  let col1 :=
    mk_Column "CHANNEL" "1J" None
      (ColumnZ (map (fun i => np.int32 (np.int32 i + 1)) (np.arange nchan))) in
  let col2 := mk_Column "ENERGY" "1D" None (ColumnQ bins) in
  let col3 := mk_Column "COUNTS" "1J" None (ColumnZ (map np.int32 spec)) in
  p <- dict.getitem (parameters self) "ExposureTime" ;;
  t <- float p ;;
  let col4 :=
    mk_Column "COUNT_RATE" "1D" None
      (ColumnQ (map (fun c => inject_Z c / t)%Q spec)) in
  let tbhdu := from_columns [col1; col2; col3; col4] in
  let tbhdu := update_ext_name tbhdu "SPECTRUM" in
  tbhdu <- spectrum_header self spec tbhdu ;;
  let hdulist := [PrimaryHDU; tbhdu] in
  writeto hdulist specfile clobber fs.

(** [soxs.simput.write_photon_list(simput_prefix, phlist_prefix, flux,
    ra, dec, energy, clobber=clobber)] *)
Variable write_photon_list :
  string -> string -> Q -> list Q -> list Q -> list Q -> bool ->
  fits_files -> result fits_files.

(** [self["eobs"].min().value] and [.max().value]: the reduction comes
    first, and its result has a [value] only when the array has a unit. *)
Definition extreme_value (f : list Q -> result Q) (a : array) : result Q :=
  v <- f (d a) ;;
  if is_YTArray a then Ok v else Raise AttributeError.

(** [self[key][idxs].d] *)
Definition masked_d (a : array) (idxs : list bool) : result (list Q) :=
  v <- np.getmask (d a) idxs ;;
  if is_YTArray a then Ok v else Raise AttributeError.

(** [EventList.write_simput_file], as run by the process that writes.
    Reading [self["xsky"]] caches the sky coordinates, so the catalog
    after the call is returned with the files.  The exposure time and the
    area divide the summed energy as numbers; an array there is outside
    the data model of the parameters. *)
Definition write_simput_file (self : EventList) (prefix : string)
  (clobber : bool) (emin emax : option Q) (fs : fits_files)
  : result (fits_files * EventList) :=
  '(emin, self) <-
    match emin with
    | None => '(a, self) <- __getitem__ wcs_pix2world self "eobs" ;;
              v <- extreme_value np.amin a ;; Ok (v, self)
    | Some v => Ok (v, self)
    end ;;
  '(emax, self) <-
    match emax with
    | None => '(a, self) <- __getitem__ wcs_pix2world self "eobs" ;;
              v <- extreme_value np.amax a ;; Ok (v, self)
    | Some v => Ok (v, self)
    end ;;
  '(a, self) <- __getitem__ wcs_pix2world self "eobs" ;;
  lo <- array_d a ;;
  '(a, self) <- __getitem__ wcs_pix2world self "eobs" ;;
  hi <- array_d a ;;
  idxs <- np.ew2 andb (map (fun e => Qle_bool emin e) lo)
                      (map (fun e => Qle_bool e emax) hi) ;;
  '(a, self) <- __getitem__ wcs_pix2world self "eobs" ;;
  selected <- np.getmask (d a) idxs ;;
  erg <- in_units_d (mk_array selected (units a)) "erg" ;;
  t <- dict.getitem (parameters self) "ExposureTime" ;;
  t <- float t ;;
  area <- dict.getitem (parameters self) "Area" ;;
  area <- float area ;;
  let flux := (np.sum erg / t / area)%Q in
  '(a, self) <- __getitem__ wcs_pix2world self "xsky" ;;
  xsky <- masked_d a idxs ;;
  '(a, self) <- __getitem__ wcs_pix2world self "ysky" ;;
  ysky <- masked_d a idxs ;;
  '(a, self) <- __getitem__ wcs_pix2world self "eobs" ;;
  eobs <- masked_d a idxs ;;
  fs <- write_photon_list prefix prefix flux xsky ysky eobs clobber fs ;;
  Ok (fs, self).

End Files.

End event_list.

(** * source_models.py *)

Module source_models.

Definition solar_H_abund : Q := 0.74%Q.

Definition Qlt_bool (x y : Q) : bool := negb (Qle_bool y x).

(** A field of the data set, named by a string or by a pair. *)
Inductive field : Type :=
| FName (fname : string)
| FTuple (ftype fname : string).

(** A chunk exposes the arrays of its fields, one entry per cell. *)
Definition Chunk := field -> option (list Q).

(** [chunk[f]] for an attribute [f] of the model that may still be
    [None]. *)
Definition chunk_get (chunk : Chunk) (f : option field)
  : result (list Q) :=
  match f with
  | None => Raise YTFieldNotFound
  | Some f => of_option YTFieldNotFound (chunk f)
  end.

(** A configuration value that is a float or the name of a field. *)
Inductive float_or_field : Type :=
| Float (v : Q)
| Field (f : field).

(** An attribute that is read before it was set. *)
Definition attr {A : Type} (a : option A) : result A :=
  of_option AttributeError a.

(** ** The progress reporter *)

Inductive ProgressBar : Type :=
| ParallelProgressBar (title : string)
| tqdm (total : nat) (desc : string) (n : nat) (closed : bool).

(** The log of [mylog.info]. *)
Definition mylog := list string.

Definition new_ParallelProgressBar (title : string) (log : mylog)
  : ProgressBar * mylog :=
  (ParallelProgressBar title, log ++ ["Starting '" ++ title ++ "'"]%string).

Definition update (pbar : ProgressBar) (k : nat) : ProgressBar :=
  match pbar with
  | ParallelProgressBar title => ParallelProgressBar title
  | tqdm total desc n closed => tqdm total desc (n + k) closed
  end.

Definition close (pbar : ProgressBar) (log : mylog) : ProgressBar * mylog :=
  match pbar with
  | ParallelProgressBar title =>
      (ParallelProgressBar title,
       log ++ ["Finishing '" ++ title ++ "'"]%string)
  | tqdm total desc n _ => (tqdm total desc n true, log)
  end.

(** ** The spectral table of the thermal model (pyxsim.spectral_models) *)

Record SpectralModel : Type := mk_SpectralModel {
  emid : list Q;
  ebins : list Q;
  (** continuum, metal and per-element spectra at a temperature; every
      call returns new arrays *)
  get_spectrum : Q -> list Q * list Q * option (list (list Q));
  var_elem_names : list string;
  var_ion_names : list string
}.

(** ** The output buffer of the thermal model

    [energies] starts as [np.zeros(10000000)] and is written from the
    front.  The array is kept as its size and the written front; the
    entries behind the front are zero. *)
Record buffer : Type := mk_buffer { size : N; front : list Q }.

Definition buffer_zeros (n : N) : buffer := mk_buffer n [].

(** [energies.resize(n, refcheck=False)] *)
Definition resize (b : buffer) (n : N) : buffer :=
  mk_buffer n (firstn (N.to_nat n) (front b)).

(** [energies[i:j] = v]: the slice is cut at the size of the array, and
    [v] must have the length of the slice. *)
Definition buffer_set_slice (b : buffer) (i j : nat) (v : list Q)
  : result buffer :=
  let i' := Nat.min i (N.to_nat (size b)) in
  let j' := Nat.min j (N.to_nat (size b)) in
  if Nat.eqb (j' - i') (length v) then
    let padded := front b ++ np.zeros (i' - length (front b)) in
    Ok (mk_buffer (size b)
          (firstn i' padded ++ v ++ skipn (i' + length v) padded))
  else Raise ValueError.

(** [energies[:n].copy()] *)
Definition buffer_prefix (b : buffer) (n : nat) : list Q :=
  let n' := Nat.min n (N.to_nat (size b)) in
  firstn n' (front b ++ np.zeros (n' - length (front b))).

(** [while ei+cn > num_photons_max: num_photons_max *= 2]; the loop runs
    at most once per binary digit of the target. *)
Fixpoint double_until (fuel : nat) (num_photons_max target : N) : N :=
  match fuel with
  | O => num_photons_max
  | S fuel' =>
      if N.ltb num_photons_max target
      then double_until fuel' (num_photons_max * 2)%N target
      else num_photons_max
  end.

Definition grow (num_photons_max target : N) : N :=
  double_until (S (N.to_nat (N.size target))) num_photons_max target.

(** ** ThermalSourceModel *)

Record ThermalSourceModel : Type := mk_ThermalSourceModel {
  temperature_field : option field;
  Zmet : float_or_field;
  nei : bool;
  ftype : option string;
  num_var_elem : nat;
  var_elem : dict.t float_or_field;
  spectral_model : SpectralModel;
  var_elem_keys : list string;
  var_ion_keys : list string;
  method : string;
  kT_min : Q;
  kT_max : Q;
  kT_scale : string;
  n_kT : nat;
  spectral_norm : option Q;
  redshift : option Q;
  pbar : option ProgressBar;
  kT_bins : option (list Q);
  dkT : option (list Q);
  emission_measure_field : option field;
  Zconvert : Q;
  mconvert : dict.t Q;
  max_density : option Q;
  density_field : option field;
  tot_num_cells : nat
}.

Definition set_pbar (self : ThermalSourceModel) (p : option ProgressBar)
  : ThermalSourceModel :=
  mk_ThermalSourceModel
    (temperature_field self) (Zmet self) (nei self) (ftype self)
    (num_var_elem self) (var_elem self) (spectral_model self)
    (var_elem_keys self) (var_ion_keys self) (method self)
    (kT_min self) (kT_max self) (kT_scale self) (n_kT self)
    (spectral_norm self) (redshift self) p
    (kT_bins self) (dkT self) (emission_measure_field self)
    (Zconvert self) (mconvert self) (max_density self)
    (density_field self) (tot_num_cells self).

Definition clear_fields (self : ThermalSourceModel) : ThermalSourceModel :=
  mk_ThermalSourceModel
    None (Zmet self) (nei self) (ftype self)
    (num_var_elem self) (var_elem self) (spectral_model self)
    (var_elem_keys self) (var_ion_keys self) (method self)
    (kT_min self) (kT_max self) (kT_scale self) (n_kT self)
    (spectral_norm self) (redshift self) (pbar self)
    (kT_bins self) (dkT self) None
    (Zconvert self) (mconvert self) (max_density self)
    (density_field self) (tot_num_cells self).

(** *** Teardown

    The class body defines [cleanup_model] twice.  A class body is run
    top to bottom and every [def] binds its name in the namespace of the
    class, so the [def] that comes last is the method of the class. *)

Definition teardown :=
  ThermalSourceModel * mylog -> result (ThermalSourceModel * mylog).

(** [self.pbar.close()] *)
Definition pbar_close : teardown :=
  fun '(self, log) =>
    p <- attr (pbar self) ;;
    let (p, log) := close p log in
    Ok (set_pbar self (Some p), log).

(** The [cleanup_model] defined before [__call__]. *)
Definition cleanup_model_first : teardown :=
  fun '(self, log) => pbar_close (clear_fields self, log).

(** The [cleanup_model] defined after [__call__]. *)
Definition cleanup_model_second : teardown :=
  fun st => pbar_close st.

(** [SourceModel.cleanup_model]: [pass]. *)
Definition cleanup_model_base : teardown := fun st => Ok st.

(** The definitions of a class body; of the methods that are not a
    teardown only the name is kept. *)
Inductive method_def : Type :=
| Teardown (body : teardown)
| OtherMethod.

Definition class_body := list (string * method_def).

Definition SourceModel_body : class_body :=
  [ ("__init__", OtherMethod);
    ("__call__", OtherMethod);
    ("setup_model", OtherMethod);
    ("cleanup_model", Teardown cleanup_model_base) ].

Definition ThermalSourceModel_body : class_body :=
  [ ("__init__", OtherMethod);
    ("setup_model", OtherMethod);
    ("cleanup_model", Teardown cleanup_model_first);
    ("__call__", OtherMethod);
    ("cleanup_model", Teardown cleanup_model_second) ].

(** The namespace a class body leaves behind. *)
Definition class_namespace (body : class_body) : dict.t method_def :=
  fold_left (fun ns def => dict.set ns (fst def) (snd def)) body
            (dict.empty method_def).

(** Attribute lookup along the classes of the method resolution order. *)
Fixpoint lookup_method (mro : list class_body) (name : string)
  : option method_def :=
  match mro with
  | [] => None
  | c :: rest =>
      match dict.get (class_namespace c) name with
      | Some m => Some m
      | None => lookup_method rest name
      end
  end.

(** [ThermalSourceModel.cleanup_model], as a call on an instance finds
    it. *)
Definition cleanup_model : teardown :=
  match lookup_method [ThermalSourceModel_body; SourceModel_body]
                      "cleanup_model" with
  | Some (Teardown body) => body
  | _ => fun _ => Raise AttributeError
  end.

Section Thermal.

Context {G : Type} `{RandomState G}.

(** The conversion of a temperature of the data set to keV
    ([to_value("keV", "thermal")] of yt). *)
Variable kelvin_to_keV : Q -> Q.

(** *** The per-cell sampling tables

    The arrays bound in one pass of the loop over the temperature
    bins.  [cspec], [mspec] and [vspec] are the arrays [get_spectrum]
    returned ([.d] is a view of the array, not a copy), [cumspec_c],
    [cumspec_m] and [cumspec_v] the cumulative tables built from them.
    In the loop over the cells [cumspec = cumspec_c] and
    [tot_spec = cspec.d] bind a second name to the same array, and
    [+=] and [*=] update an array in place: what a cell stores through
    [cumspec] or [tot_spec] is what the next cell of the bin finds in
    [cumspec_c] or [cspec]. *)
Record bin_arrays : Type := mk_bin_arrays {
  cspec : list Q;
  mspec : list Q;
  vspec : option (list (list Q));
  cumspec_c : list Q;
  cumspec_m : list Q;
  cumspec_v : option (list (list Q))
}.

(** [elemZ[j, icell]] *)
Definition elemZ_item (elemZ : option (list (list Q))) (j icell : nat)
  : result Q :=
  match elemZ with
  | None => Raise TypeError
  | Some rows => row <- np.item rows j ;; np.item row icell
  end.

(** [for j in range(num_var_elem): acc += elemZ[j, icell]*rows[j, :]] *)
Fixpoint add_elements (acc : list Q) (elemZ : option (list (list Q)))
  (rows : list (list Q)) (icell : nat) (js : list nat)
  : result (list Q) :=
  match js with
  | [] => Ok acc
  | j :: rest =>
      z <- elemZ_item elemZ j icell ;;
      row <- np.item rows j ;;
      acc <- np.ew2 Qplus acc (map (Qmult z) row) ;;
      add_elements acc elemZ rows icell rest
  end.

(** [acc += metalZ[icell] * metal] followed by the loop over the
    variable elements when their table is not [None]. *)
Definition accumulate (acc metal : list Q)
  (rows : option (list (list Q))) (metalZ : list Q)
  (elemZ : option (list (list Q))) (num_var_elem icell : nat)
  : result (list Q) :=
  z <- np.item metalZ icell ;;
  acc <- np.ew2 Qplus acc (map (Qmult z) metal) ;;
  match rows with
  | None => Ok acc
  | Some rows => add_elements acc elemZ rows icell (seq 0 num_var_elem)
  end.

(** The body of the loop over the cells for a cell that drew [cn]
    photons: the energies of the cell, the arrays and the generator
    after it, and (for the record) the table the energies were drawn
    from. *)
Definition sample_cell (self : ThermalSourceModel)
  (metalZ : list Q) (elemZ : option (list (list Q)))
  (icell cn : nat) (arrs : bin_arrays) (g : G)
  : result (list Q * bin_arrays * G * list Q) :=
  let nchan := length (emid (spectral_model self)) in
  if String.eqb (method self) "invert_cdf" then
    (* cumspec is cumspec_c *)
    cumspec <- accumulate (cumspec_c arrs) (cumspec_m arrs)
                 (cumspec_v arrs) metalZ elemZ (num_var_elem self)
                 icell ;;
    last <- np.last_item cumspec ;;
    let norm_factor := (1 / last)%Q in
    let cumspec := map (fun c => c * norm_factor)%Q cumspec in
    let (randvec, g) := uniform 0%Q 1%Q cn g in
    let randvec := np.sort randvec in
    cell_e <- np.interp randvec cumspec (ebins (spectral_model self)) ;;
    Ok (cell_e,
        mk_bin_arrays (cspec arrs) (mspec arrs) (vspec arrs)
                      cumspec (cumspec_m arrs) (cumspec_v arrs),
        g, cumspec)
  else if String.eqb (method self) "accept_reject" then
    (* tot_spec is cspec.d *)
    tot_spec <- accumulate (cspec arrs) (mspec arrs) (vspec arrs)
                  metalZ elemZ (num_var_elem self) icell ;;
    let norm_factor := (1 / np.sum tot_spec)%Q in
    let tot_spec := map (fun c => c * norm_factor)%Q tot_spec in
    let (eidxs, g) := choice nchan cn tot_spec g in
    cell_e <- np.take (emid (spectral_model self)) eidxs ;;
    Ok (cell_e,
        mk_bin_arrays tot_spec (mspec arrs) (vspec arrs)
                      (cumspec_c arrs) (cumspec_m arrs) (cumspec_v arrs),
        g, tot_spec)
  else Raise UnboundLocalError.

(** The state of [__call__] that the loops change.  The two logs are
    not variables of the source: [lam_log] records every cell with the rate
    passed to [poisson] for it, and [table_log] every cell that was
    sampled with the table its energies were drawn from. *)
Record call_state : Type := mk_call_state {
  number_of_photons : list nat;
  energies : buffer;
  num_photons_max : N;
  gen : G;
  bar : ProgressBar;
  lam_log : list (nat * Q);
  table_log : list (nat * list Q)
}.

(** [for icell in range(ibegin, iend)] *)
Fixpoint cell_loop (self : ThermalSourceModel)
  (metalZ : list Q) (elemZ : option (list (list Q)))
  (icells : list nat) (ei : nat) (arrs : bin_arrays) (st : call_state)
  : result (bin_arrays * call_state) :=
  match icells with
  | [] => Ok (arrs, st)
  | icell :: rest =>
      cn <- np.item (number_of_photons st) icell ;;
      if Nat.eqb cn 0 then cell_loop self metalZ elemZ rest ei arrs st
      else
        '(cell_e, arrs, g, table) <-
          sample_cell self metalZ elemZ icell cn arrs (gen st) ;;
        let npm := grow (num_photons_max st) (N.of_nat (ei + cn)) in
        let en := energies st in
        let en := if N.ltb (size en) npm then resize en npm else en in
        en <- buffer_set_slice en ei (ei + cn) cell_e ;;
        cell_loop self metalZ elemZ rest (ei + cn) arrs
          (mk_call_state (number_of_photons st) en npm g (bar st)
             (lam_log st) (table_log st ++ [(icell, table)]))
  end.

(** [for j in range(num_var_elem):
       cell_norm_v += vspec.d[j, :].sum()*elemZ[j, ibegin:iend]*cem] *)
Fixpoint cell_norm_v_loop (cell_norm_v cem : list Q)
  (rows : list (list Q)) (elemZ : option (list (list Q)))
  (ibegin iend : nat) (js : list nat) : result (list Q) :=
  match js with
  | [] => Ok cell_norm_v
  | j :: rest =>
      row <- np.item rows j ;;
      let tot_ph_v := np.sum row in
      ez <- match elemZ with
            | None => Raise TypeError
            | Some m => np.item m j
            end ;;
      term <- np.ew2 Qmult
                (map (Qmult tot_ph_v) (np.slice ez ibegin iend)) cem ;;
      cell_norm_v <- np.ew2 Qplus cell_norm_v term ;;
      cell_norm_v_loop cell_norm_v cem rows elemZ ibegin iend rest
  end.

(** The expected photon counts of the cells [ibegin:iend] of a bin. *)
Definition cell_norm_of (self : ThermalSourceModel)
  (cspec mspec : list Q) (vspec : option (list (list Q)))
  (cell_em metalZ : list Q) (elemZ : option (list (list Q)))
  (ibegin iend : nat) : result (list Q) :=
  let cem := np.slice cell_em ibegin iend in
  let tot_ph_c := np.sum cspec in
  let tot_ph_m := np.sum mspec in
  let cell_norm_c := map (Qmult tot_ph_c) cem in
  cell_norm_m <- np.ew2 Qmult
                   (map (Qmult tot_ph_m) (np.slice metalZ ibegin iend))
                   cem ;;
  cell_norm <- np.ew2 Qplus cell_norm_c cell_norm_m ;;
  match vspec with
  | None => Ok cell_norm
  | Some rows =>
      cell_norm_v <- cell_norm_v_loop (np.zeros (length cem)) cem rows
                       elemZ ibegin iend (seq 0 (num_var_elem self)) ;;
      np.ew2 Qplus cell_norm cell_norm_v
  end.

(** The cumulative tables of a bin, built when the method is
    [invert_cdf]. *)
Fixpoint cumspec_v_rows (nchan : nat) (rows : list (list Q))
  (js : list nat) : result (list (list Q)) :=
  match js with
  | [] => Ok []
  | j :: rest =>
      row <- np.item rows j ;;
      r <- np.set_slice (np.zeros (nchan + 1)) 1 (nchan + 1)
             (np.cumsum row) ;;
      rs <- cumspec_v_rows nchan rows rest ;;
      Ok (r :: rs)
  end.

Definition bin_tables (self : ThermalSourceModel)
  (cspec mspec : list Q) (vspec : option (list (list Q)))
  : result bin_arrays :=
  let nchan := length (emid (spectral_model self)) in
  if String.eqb (method self) "invert_cdf" then
    let cumspec_c := np.insert0 (np.cumsum cspec) 0%Q in
    let cumspec_m := np.insert0 (np.cumsum mspec) 0%Q in
    cumspec_v <- match vspec with
                 | None => Ok None
                 | Some rows =>
                     rs <- cumspec_v_rows nchan rows
                             (seq 0 (num_var_elem self)) ;;
                     Ok (Some rs)
                 end ;;
    Ok (mk_bin_arrays cspec mspec vspec cumspec_c cumspec_m cumspec_v)
  else Ok (mk_bin_arrays cspec mspec vspec [] [] None).

(** One pass of the loop over the temperature bins. *)
Definition bin_step (self : ThermalSourceModel)
  (kT_bins dkT cell_em metalZ : list Q)
  (elemZ : option (list (list Q)))
  (bin : nat * nat * nat * Z) (start_e end_e : nat) (st : call_state)
  : result (nat * nat * call_state) :=
  let '(ibegin, iend, bcount, ikT) := bin in
  let bar := update (bar st) bcount in
  edge <- np.item kT_bins (Z.to_nat ikT) ;;
  width <- np.item dkT (Z.to_nat ikT) ;;
  let kT := (edge + 0.5 * width)%Q in
  let '(cspec, mspec, vspec) := get_spectrum (spectral_model self) kT in
  cell_norm <- cell_norm_of self cspec mspec vspec cell_em metalZ elemZ
                 ibegin iend ;;
  let (cell_n, g) := poisson cell_norm (gen st) in
  nph <- np.set_slice (number_of_photons st) ibegin iend cell_n ;;
  let end_e := end_e + np.isum cell_n in
  arrs <- bin_tables self cspec mspec vspec ;;
  let st := mk_call_state nph (energies st) (num_photons_max st) g bar
              (lam_log st ++ combine (seq ibegin (length cell_norm)) cell_norm)
              (table_log st) in
  '(_, st) <- cell_loop self metalZ elemZ
                (seq ibegin (iend - ibegin)) start_e arrs st ;;
  Ok (end_e, end_e, st).

Fixpoint bin_loop (self : ThermalSourceModel)
  (kT_bins dkT cell_em metalZ : list Q)
  (elemZ : option (list (list Q)))
  (bins : list (nat * nat * nat * Z)) (start_e end_e : nat)
  (st : call_state) : result (nat * nat * call_state) :=
  match bins with
  | [] => Ok (start_e, end_e, st)
  | bin :: rest =>
      '(start_e, end_e, st) <-
        bin_step self kT_bins dkT cell_em metalZ elemZ bin
                 start_e end_e st ;;
      bin_loop self kT_bins dkT cell_em metalZ elemZ rest
               start_e end_e st
  end.

(** [bcell] and [ecell]: where the cells of each bin begin and end. *)
Fixpoint cell_ranges (n : nat) (bcounts : list nat)
  : list nat * list nat :=
  match bcounts with
  | [] => ([], [])
  | bcount :: rest =>
      let (bcell, ecell) := cell_ranges (n + bcount) rest in
      (n :: bcell, (n + bcount) :: ecell)
  end.

Definition zip4 {A B C D : Type} (a : list A) (b : list B) (c : list C)
  (d : list D) : list (A * B * C * D) :=
  combine (combine (combine a b) c) d.

(** [elemZ[j, :] = row] *)
Definition set_row (elemZ : list (list Q)) (j : nat) (row : list Q)
  : result (list (list Q)) :=
  old <- np.item elemZ j ;;
  if Nat.eqb (length old) (length row)
  then Ok (firstn j elemZ ++ row :: skipn (S j) elemZ)
  else Raise ValueError.

(** [for j, key in enumerate(elem_keys)] *)
Fixpoint elemZ_loop (self : ThermalSourceModel) (chunk : Chunk)
  (idxs : list nat) (num_cells : nat) (elemZ : list (list Q))
  (j : nat) (elem_keys : list string) : result (list (list Q)) :=
  match elem_keys with
  | [] => Ok elemZ
  | key :: rest =>
      value <- dict.getitem (var_elem self) key ;;
      row <- match value with
             | Float v => Ok (repeat v num_cells)
             | Field f =>
                 a <- chunk_get chunk (Some f) ;;
                 sel <- np.take a idxs ;;
                 mc <- dict.getitem (mconvert self) key ;;
                 Ok (map (fun x => x * mc)%Q sel)
             end ;;
      elemZ <- set_row elemZ j row ;;
      elemZ_loop self chunk idxs num_cells elemZ (S j) rest
  end.

(** What a call leaves for inspection next to its return value: the
    cells kept by the temperature selection in sorted order, the rate
    passed to [poisson] for each of them, and the sampling table of
    each cell that was sampled. *)
Record call_trace : Type := mk_call_trace {
  selected : list nat;
  rates : list (nat * Q);
  tables : list (nat * list Q)
}.

Definition returned := option (nat * list nat * list nat * list Q).

(** [ThermalSourceModel.__call__] with its trace; the model after the
    call differs in the progress reporter only. *)
Definition run (self : ThermalSourceModel) (chunk : Chunk) (g : G)
  : result (returned * ThermalSourceModel * G * call_trace) :=
  let num_photons_max := 10000000%N in
  temp <- chunk_get chunk (temperature_field self) ;;
  let orig_ncells := length temp in
  if Nat.eqb orig_ncells 0
  then Ok (None, self, g, mk_call_trace [] [] [])
  else
  dens_cut <- match max_density self with
              | None => Ok (repeat true orig_ncells)
              | Some max_density =>
                  dens <- chunk_get chunk (density_field self) ;;
                  Ok (map (fun x => Qlt_bool x max_density) dens)
              end ;;
  temp <- chunk_get chunk (temperature_field self) ;;
  let kT := map kelvin_to_keV temp in
  em <- chunk_get chunk (emission_measure_field self) ;;
  EM <- np.ew2 (fun e (b : bool) => e * (if b then 1 else 0))%Q
          em dens_cut ;;
  let idxs := np.argsort kT in
  kT_sorted <- np.take kT idxs ;;
  let idx_min := np.searchsorted kT_sorted (kT_min self) in
  let idx_max := np.searchsorted kT_sorted (kT_max self) in
  let idxs := np.slice idxs idx_min idx_max in
  let num_cells := length idxs in
  p <- attr (pbar self) ;;
  if Nat.eqb num_cells 0
  then Ok (None, set_pbar self (Some (update p orig_ncells)), g,
           mk_call_trace [] [] [])
  else
  let p := update p (orig_ncells - num_cells) in
  kT_sel <- np.take kT idxs ;;
  bins <- attr (kT_bins self) ;;
  let kT_idxs :=
    map (fun n => (Z.of_nat n - 1)%Z) (np.digitize kT_sel bins) in
  bcounts <- np.bincount kT_idxs ;;
  let bcounts := filter (fun c => Nat.ltb 0 c) bcounts in
  let (bcell, ecell) := cell_ranges 0 bcounts in
  let kT_idxs := np.unique kT_idxs in
  em_sel <- np.take EM idxs ;;
  norm <- attr (spectral_norm self) ;;
  let cell_em := map (fun e => e * norm)%Q em_sel in
  '(metalZ, elem_keys) <-
    (if nei self then Ok (np.zeros num_cells, var_ion_keys self)
     else
       match Zmet self with
       | Float z =>
           Ok (map (Qmult z) (np.ones num_cells), var_elem_keys self)
       | Field f =>
           a <- chunk_get chunk (Some f) ;;
           sel <- np.take a idxs ;;
           Ok (map (fun x => x * Zconvert self)%Q sel,
               var_elem_keys self)
       end) ;;
  elemZ <-
    (if Nat.ltb 0 (num_var_elem self) then
       rows <- elemZ_loop self chunk idxs num_cells
                 (repeat (np.zeros num_cells) (num_var_elem self))
                 0 elem_keys ;;
       Ok (Some rows)
     else Ok None) ;;
  let st := mk_call_state (repeat 0 num_cells)
              (buffer_zeros num_photons_max) num_photons_max g p
              [] [] in
  widths <- attr (dkT self) ;;
  '(_, end_e, st) <-
    bin_loop self bins widths cell_em metalZ elemZ
             (zip4 bcell ecell bcounts kT_idxs) 0 0 st ;;
  let active_cells :=
    map (fun c => Nat.ltb 0 c) (number_of_photons st) in
  active_idxs <- np.getmask idxs active_cells ;;
  let ncells := length active_idxs in
  counts <- np.getmask (number_of_photons st) active_cells ;;
  Ok (Some (ncells, counts, active_idxs,
            buffer_prefix (energies st) end_e),
      set_pbar self (Some (bar st)), gen st,
      mk_call_trace idxs (lam_log st) (table_log st)).

(** [ThermalSourceModel.__call__] *)
Definition __call__ (self : ThermalSourceModel) (chunk : Chunk) (g : G)
  : result (returned * ThermalSourceModel * G) :=
  '(r, self, g, _) <- run self chunk g ;;
  Ok (r, self, g).

End Thermal.

(** *** ThermalSourceModel.setup_model *)

(** What [data_source.ds._get_field_info(f)] tells about a field, and the
    data source: the fields of its data set and its chunks. *)
Record FieldInfo : Type := mk_FieldInfo {
  info_name : string * string;
  info_units : string
}.

Record ThermalDataSource : Type := mk_ThermalDataSource {
  _get_field_info : field -> result FieldInfo;
  chunks : list Chunk
}.

(** [str(f)] of a field name (names without quotes). *)
Definition str_field (f : field) : string :=
  match f with
  | FName fname => fname
  | FTuple ftype fname => "('" ++ ftype ++ "', '" ++ fname ++ "')"
  end.

(** ["^" in key] and [key.split("^")[0]] *)
Fixpoint has_caret (key : string) : bool :=
  match key with
  | EmptyString => false
  | String c rest => Ascii.eqb c "^"%char || has_caret rest
  end.

Fixpoint before_caret (key : string) : string :=
  match key with
  | EmptyString => EmptyString
  | String c rest =>
      if Ascii.eqb c "^"%char then EmptyString
      else String c (before_caret rest)
  end.

(** [names.index(elem)] *)
Fixpoint index_of (elem : string) (names : list string) : result nat :=
  match names with
  | [] => Raise ValueError
  | n :: rest =>
      if String.eqb n elem then Ok 0
      else i <- index_of elem rest ;; Ok (S i)
  end.

Definition mass_fraction_units (u : string) : bool :=
  String.eqb u "dimensionless" || String.eqb u ""
  || String.eqb u "code_metallicity".

Section ThermalSetup.

(** The abundance table of the spectral model ([self.atable]), the
    constants of soxs, the preparation of the spectral tables for a
    redshift and a temperature range, decimal logarithm and power, and the
    parallel run of yt: the chunks this process works on, the sum over
    the processes, and whether the run is parallel. *)
Variable atable : list Q.
Variable elem_names : list string.
Variable atomic_weights : list Q.
Variable metal_elem : list nat.
Variable prepare_spectrum : SpectralModel -> Q -> Q -> Q -> result SpectralModel.
Variable log10 : Q -> Q.
Variable pow10 : Q -> Q.
Variable parallel_objects : list Chunk -> list Chunk.
Variable mpi_allreduce : nat -> nat.
Variable parallel_capable : bool.

(** The block that sets [Zconvert]. *)
Definition Zconvert_of (self : ThermalSourceModel)
  (data_source : ThermalDataSource) : result Q :=
  match Zmet self with
  | Field f =>
      if negb (nei self) then
        info <- _get_field_info data_source f ;;
        let Z_units := info_units info in
        if mass_fraction_units Z_units then
          weighted <- np.ew2 Qmult atable atomic_weights ;;
          metals <- np.take weighted metal_elem ;;
          let Zsum := np.sum metals in
          hydrogen <- np.item atomic_weights 1 ;;
          Ok (hydrogen / (Zsum * solar_H_abund))%Q
        else if String.eqb Z_units "Zsun" then Ok 1%Q
        else Raise (RuntimeError
                      ("I don't understand metallicity units of "
                       ++ Z_units ++ "!"))
      else Ok (Zconvert self)
  | Float _ => Ok (Zconvert self)
  end.

(** [for key, value in self.var_elem.items()] *)
Fixpoint mconvert_loop (data_source : ThermalDataSource)
  (items : list (string * float_or_field)) (mconvert : dict.t Q)
  : result (dict.t Q) :=
  match items with
  | [] => Ok mconvert
  | (key, value) :: rest =>
      match value with
      | Float _ => mconvert_loop data_source rest mconvert
      | Field f =>
          let elem := if has_caret key then before_caret key else key in
          n_elem <- index_of elem elem_names ;;
          info <- _get_field_info data_source f ;;
          let m_units := info_units info in
          mc <-
            (if mass_fraction_units m_units then
               a <- np.item atable n_elem ;;
               w <- np.item atomic_weights n_elem ;;
               let m := (a * w)%Q in
               hydrogen <- np.item atomic_weights 1 ;;
               Ok (hydrogen / (m * solar_H_abund))%Q
             else if String.eqb m_units "Zsun" then Ok 1%Q
             else Raise (RuntimeError
                           ("I don't understand units of " ++ m_units
                            ++ " for element " ++ key ++ "!"))) ;;
          mconvert_loop data_source rest (dict.set mconvert key mc)
      end
  end.

(** [for chunk in parallel_objects(citer): num_cells += ...size] *)
Fixpoint count_cells (temperature_field : option field)
  (chunks : list Chunk) (num_cells : nat) : result nat :=
  match chunks with
  | [] => Ok num_cells
  | chunk :: rest =>
      temp <- chunk_get chunk temperature_field ;;
      count_cells temperature_field rest (num_cells + length temp)
  end.

(** [ThermalSourceModel.setup_model]: the model and the log after the
    call.  When the call raises, the attributes assigned before that are
    left assigned; the model does not keep them. *)
Definition setup_model (self : ThermalSourceModel)
  (data_source : ThermalDataSource) (redshift spectral_norm : Q)
  (log : mylog) : result (ThermalSourceModel * mylog) :=
  let shown :=
    match emission_measure_field self, ftype self with
    | Some f, _ => str_field f
    | None, Some ft => str_field (FTuple ft "emission_measure")
    | None, None => "(None, 'emission_measure')"
    end in
  let emission_measure_field' :=
    match emission_measure_field self, ftype self with
    | Some f, _ => Some f
    | None, Some ft => Some (FTuple ft "emission_measure")
    | None, None => None
    end in
  let not_found :=
    RuntimeError
      ("The " ++ shown ++ " field is not found. If you do not have species "
       ++ "fields in your dataset, you may need to set "
       ++ "default_species_fields='ionized' in the call to yt.load().") in
  ftype' <-
    match emission_measure_field' with
    | None => Raise not_found
    | Some f =>
        match _get_field_info data_source f with
        | Ok info => Ok (fst (info_name info))
        | Raise YTFieldNotFound => Raise not_found
        | Raise e => Raise e
        end
    end ;;
  Zconvert' <- Zconvert_of self data_source ;;
  mconvert' <-
    (if Nat.ltb 0 (num_var_elem self)
     then mconvert_loop data_source (dict.items (var_elem self))
                        (mconvert self)
     else Ok (mconvert self)) ;;
  let density_field' := Some (FTuple ftype' "density") in
  let log :=
    log ++ [("Using emission measure field '" ++ shown ++ "'.")%string] in
  let temperature_field' :=
    match temperature_field self with
    | None => FTuple ftype' "temperature"
    | Some f => f
    end in
  let log :=
    log ++ [("Using temperature field '" ++ str_field temperature_field'
             ++ "'.")%string] in
  spectral_model' <-
    prepare_spectrum (spectral_model self) redshift (kT_min self)
                     (kT_max self) ;;
  let kT_bins' :=
    if String.eqb (kT_scale self) "linear" then
      Some (np.linspace (kT_min self) (kT_max self) (n_kT self + 1))
    else if String.eqb (kT_scale self) "log" then
      Some (map pow10 (np.linspace (log10 (kT_min self))
                                   (log10 (kT_max self)) (n_kT self + 1)))
    else kT_bins self in
  dkT' <- match kT_bins' with
          | None => Raise ValueError
          | Some bins => Ok (np.diff bins)
          end ;;
  let citer := chunks data_source in
  num_cells <- count_cells (Some temperature_field')
                           (parallel_objects citer) 0 ;;
  let tot_num_cells' := mpi_allreduce num_cells in
  let (pbar', log) :=
    if parallel_capable
    then new_ParallelProgressBar "Processing cells/particles " log
    else (tqdm tot_num_cells' "Processing cells/particles " 0 false, log) in
  Ok (mk_ThermalSourceModel
        (Some temperature_field') (Zmet self) (nei self) (Some ftype')
        (num_var_elem self) (var_elem self) spectral_model'
        (var_elem_keys self) (var_ion_keys self) (method self)
        (kT_min self) (kT_max self) (kT_scale self) (n_kT self)
        (Some spectral_norm) (Some redshift) (Some pbar')
        kT_bins' (Some dkT') emission_measure_field'
        Zconvert' mconvert' (max_density self)
        density_field' tot_num_cells',
      log).

End ThermalSetup.

(** *** The sampling table of a cell in the words of the specification

    Step 10d of the specification: the composite spectrum of the cell,
    [cspec + metallicity*mspec + sum_elem abundance_elem*vspec_elem],
    normalized to sum 1; for [invert_cdf] the cumulative sum over the
    channels, prefixed with 0 and normalized to end at 1.  [abundances]
    holds the abundance of the cell for each row of [vspec]. *)

Definition composite_spec (cspec mspec : list Q) (vspec : list (list Q))
  (metallicity : Q) (abundances : list Q) : list Q :=
  fold_left (fun acc av => np.map2 Qplus acc (map (Qmult (fst av)) (snd av)))
            (combine abundances vspec)
            (np.map2 Qplus cspec (map (Qmult metallicity) mspec)).

Definition normalized_spectrum_spec (cspec mspec : list Q)
  (vspec : list (list Q)) (metallicity : Q) (abundances : list Q) : list Q :=
  let composite := composite_spec cspec mspec vspec metallicity abundances in
  map (fun x => x / np.sum composite)%Q composite.

Definition cumulative_spectrum_spec (cspec mspec : list Q)
  (vspec : list (list Q)) (metallicity : Q) (abundances : list Q) : list Q :=
  let composite := composite_spec cspec mspec vspec metallicity abundances in
  let cumulative := np.insert0 (np.cumsum composite) 0%Q in
  map (fun x => x / last cumulative 0)%Q cumulative.

(** What [setup_model] asks of the data source: the owner and the name
    of a field ([data_source.ds._get_field_info(f).name]). *)
Definition DataSource := field -> result (string * string).

(** ** PowerLawSourceModel *)

Module PowerLawSourceModel.

Record t : Type := mk {
  e0 : Q;
  emin : Q;
  emax : Q;
  emission_field : field;
  alpha : float_or_field;
  spectral_norm : option Q;
  redshift : option Q;
  ftype : option string;
  scale_factor : option Q
}.

Definition __init__ (e0 emin emax : Q) (emission_field : field)
  (alpha : float_or_field) : t :=
  mk e0 emin emax emission_field alpha None None None None.

Definition setup_model (self : t) (data_source : DataSource)
  (redshift spectral_norm : Q) : result t :=
  let scale_factor := (1 / (1 + redshift))%Q in
  name <- data_source (emission_field self) ;;
  Ok (mk (e0 self) (emin self) (emax self) (emission_field self)
         (alpha self) (Some spectral_norm) (Some redshift)
         (Some (fst name)) (Some scale_factor)).

Section Call.

Context {G : Type} `{RandomState G}.

(** [x**y] and [np.log(x)] on floats. *)
Variable pow : Q -> Q -> Q.
Variable log : Q -> Q.

(** [a[mask] = v] for a scalar [v]. *)
Definition fill_mask (a : list Q) (mask : list bool) (v : Q)
  : result (list Q) :=
  np.ew2 (fun x (b : bool) => if b then v else x) a mask.

(** [a[mask] = vals]: the values go to the true positions in order;
    there must be one value per true position. *)
Fixpoint place (a : list Q) (mask : list bool) (vals : list Q)
  : list Q :=
  match a, mask with
  | x :: a', true :: m' =>
      match vals with
      | v :: vs => v :: place a' m' vs
      | [] => x :: place a' m' []
      end
  | x :: a', false :: m' => x :: place a' m' vals
  | _, _ => a
  end.

Definition set_mask (a : list Q) (mask : list bool) (vals : list Q)
  : result (list Q) :=
  if Nat.eqb (length mask) (length a) then
    if Nat.eqb (length vals) (np.count_nonzero mask)
    then Ok (place a mask vals)
    else Raise ValueError
  else Raise IndexError.

(** The per-cell index [alpha] of a chunk. *)
Definition alpha_of (self : t) (chunk : Chunk) (num_cells : nat)
  : result (list Q) :=
  match alpha self with
  | Float a => Ok (map (Qmult a) (np.ones num_cells))
  | Field f => chunk_get chunk (Some f)
  end.

(** [norm_fac], after the assignment at the cells with
    [alpha == 1]. *)
Definition norm_fac_of (self : t) (alpha : list Q)
  : result (list Q) :=
  let norm_fac :=
    map (fun a => pow (emax self) (1 - a) - pow (emin self) (1 - a))%Q
        alpha in
  fill_mask norm_fac (map (fun a => Qeq_bool a 1) alpha)
            (log (emax self / emin self)%Q).

(** [norm], the array passed to [poisson]. *)
Definition norm_of (self : t) (chunk : Chunk) (alpha norm_fac : list Q)
  : result (list Q) :=
  rate <- chunk_get chunk (Some (emission_field self)) ;;
  norm <- np.ew2 Qmult norm_fac rate ;;
  norm <- np.ew2 Qmult norm (map (pow (e0 self)) alpha) ;;
  let ne1 := map (fun a => negb (Qeq_bool a 1)) alpha in
  sel <- np.getmask norm ne1 ;;
  asel <- np.getmask alpha ne1 ;;
  upd <- np.ew2 Qdiv sel (map (fun a => 1 - a)%Q asel) ;;
  norm <- set_mask norm ne1 upd ;;
  sn <- attr (spectral_norm self) ;;
  sf <- attr (scale_factor self) ;;
  Ok (map (fun x => x * (sn * sf))%Q norm).

(** [for i in range(num_cells)] *)
Fixpoint energy_loop (self : t) (sf : Q)
  (alpha norm_fac : list Q) (number_of_photons : list nat)
  (cells : list nat) (energies : list Q) (start_e end_e : nat)
  (g : G) : result (list Q * nat * G) :=
  match cells with
  | [] => Ok (energies, end_e, g)
  | i :: rest =>
      n <- np.item number_of_photons i ;;
      if Nat.ltb 0 n then
        let end_e := start_e + n in
        let (u, g) := uniform 0%Q 1%Q n g in
        a <- np.item alpha i ;;
        e <- (if Qeq_bool a 1 then
                Ok (map (fun u => emin self
                                  * pow (emax self / emin self) u)%Q u)
              else
                nf <- np.item norm_fac i ;;
                let e := map (fun u => pow (emin self) (1 - a)
                                       + u * nf)%Q u in
                Ok (map (fun x => pow x (1 / (1 - a))%Q) e)) ;;
        energies <- np.set_slice energies start_e end_e
                      (map (fun x => x * sf)%Q e) ;;
        energy_loop self sf alpha norm_fac number_of_photons rest
                    energies end_e end_e g
      else
        energy_loop self sf alpha norm_fac number_of_photons rest
                    energies start_e end_e g
  end.

(** [PowerLawSourceModel.__call__] *)
Definition __call__ (self : t) (chunk : Chunk) (g : G)
  : result (nat * list nat * list bool * list Q * G) :=
  rate <- chunk_get chunk (Some (emission_field self)) ;;
  let num_cells := length rate in
  alpha <- alpha_of self chunk num_cells ;;
  norm_fac <- norm_fac_of self alpha ;;
  norm <- norm_of self chunk alpha norm_fac ;;
  let (number_of_photons, g) := poisson norm g in
  let energies := np.zeros (np.isum number_of_photons) in
  sf <- attr (scale_factor self) ;;
  '(energies, end_e, g) <-
    energy_loop self sf alpha norm_fac number_of_photons
                (seq 0 num_cells) energies 0 0 g ;;
  let active_cells := map (fun c => Nat.ltb 0 c) number_of_photons in
  let ncells := np.count_nonzero active_cells in
  counts <- np.getmask number_of_photons active_cells ;;
  Ok (ncells, counts, active_cells, np.slice energies 0 end_e, g).

End Call.

End PowerLawSourceModel.

(** ** LineSourceModel *)

Module LineSourceModel.

(** The broadening: none, a constant width in keV, or a field. *)
Inductive broadening : Type :=
| NoSigma
| SigmaQuantity (sigma : Q)
| SigmaField (f : field).

Record t : Type := mk {
  e0 : Q;
  sigma : broadening;
  emission_field : field;
  spectral_norm : option Q;
  redshift : option Q;
  ftype : option string;
  scale_factor : option Q
}.

Definition setup_model (self : t) (data_source : DataSource)
  (redshift spectral_norm : Q) : result t :=
  let scale_factor := (1 / (1 + redshift))%Q in
  name <- data_source (emission_field self) ;;
  Ok (mk (e0 self) (sigma self) (emission_field self)
         (Some spectral_norm) (Some redshift)
         (Some (fst name)) (Some scale_factor)).

Section Call.

Context {G : Type} `{RandomState G}.

(** The unit conversions of yt: a rate to cgs units, and the product
    [chunk[sigma]*e0/clight] to keV. *)
Variable in_cgs : Q -> Q.
Variable in_keV : Q -> Q.
Variable clight : Q.

(** [for i in range(num_cells)] of the branch with a field of
    widths. *)
Fixpoint broaden_loop (sigma : list Q) (number_of_photons : list nat)
  (cells : list nat) (energies : list Q) (start_e : nat) (g : G)
  : result (list Q * G) :=
  match cells with
  | [] => Ok (energies, g)
  | i :: rest =>
      n <- np.item number_of_photons i ;;
      if Nat.ltb 0 n then
        let end_e := start_e + n in
        s <- np.item sigma i ;;
        let (dE, g) := normal 0%Q s n g in
        let dE := map (fun x => x * 1)%Q dE in
        upd <- np.ew2 Qplus (np.slice energies start_e end_e) dE ;;
        energies <- np.set_slice energies start_e end_e upd ;;
        broaden_loop sigma number_of_photons rest energies end_e g
      else
        broaden_loop sigma number_of_photons rest energies start_e g
  end.

(** [LineSourceModel.__call__] *)
Definition __call__ (self : t) (chunk : Chunk) (g : G)
  : result (nat * list nat * list bool * list Q * G) :=
  rate <- chunk_get chunk (Some (emission_field self)) ;;
  let num_cells := length rate in
  rate <- chunk_get chunk (Some (emission_field self)) ;;
  sn <- attr (spectral_norm self) ;;
  sf <- attr (scale_factor self) ;;
  let F := map (fun x => x * sn * sf)%Q rate in
  let (number_of_photons, g) := poisson (map in_cgs F) g in
  let total := np.isum number_of_photons in
  let energies := map (Qmult (e0 self)) (np.ones total) in
  '(energies, g) <-
    match sigma self with
    | SigmaQuantity s =>
        let (dE, g) := normal 0%Q s total g in
        let dE := map (fun x => x * 1)%Q dE in
        energies <- np.ew2 Qplus energies dE ;;
        Ok (energies, g)
    | SigmaField f =>
        v <- chunk_get chunk (Some f) ;;
        let sigma :=
          map (fun x => in_keV (x * e0 self / clight)%Q) v in
        broaden_loop sigma number_of_photons (seq 0 num_cells)
                     energies 0 g
    | NoSigma => Ok (energies, g)
    end ;;
  sf <- attr (scale_factor self) ;;
  let energies := map (fun x => x * sf)%Q energies in
  let active_cells := map (fun c => Nat.ltb 0 c) number_of_photons in
  let ncells := np.count_nonzero active_cells in
  counts <- np.getmask number_of_photons active_cells ;;
  Ok (ncells, counts, active_cells, energies, g).

End Call.

End LineSourceModel.

End source_models.

(** * Example inputs *)

Module examples.
Import source_models.

(** A table of two channels whose spectra do not depend on the
    temperature. *)
Definition table : SpectralModel :=
  mk_SpectralModel [1.5; 2.5]%Q [1; 2; 3]%Q
    (fun _ => ([1; 1]%Q, [0; 2]%Q, None)) [] [].

(** Four cells: two in the first temperature bin with metallicities 1 and
    0, one above the density cutoff, one above [kT_max]. *)
Definition chunk : Chunk :=
  fun f =>
    match f with
    | FTuple "gas" "temperature" => Some [0.5; 0.75; 2.5; 7]%Q
    | FTuple "gas" "density" => Some [1; 1; 9; 1]%Q
    | FTuple "gas" "emission_measure" => Some [2; 2; 2; 2]%Q
    | FTuple "gas" "metallicity" => Some [1; 0; 1; 1]%Q
    | FTuple "gas" "rate" => Some [3; 0; 5; 2]%Q
    | FTuple "gas" "index" => Some [1; 2; 1; 3]%Q
    | FTuple "gas" "width" => Some [1; 1; 2; 2]%Q
    | _ => None
    end.

Definition thermal (method : string) : ThermalSourceModel :=
  mk_ThermalSourceModel
    (Some (FTuple "gas" "temperature")) (Field (FTuple "gas" "metallicity"))
    false (Some "gas") 0 [] table [] [] method
    0%Q 4%Q "linear" 4 (Some 1%Q) (Some 0%Q)
    (Some (ParallelProgressBar "Processing cells/particles "))
    (Some [0; 1; 2; 3; 4]%Q) (Some [1; 1; 1; 1]%Q)
    (Some (FTuple "gas" "emission_measure")) 1%Q [] (Some 5%Q)
    (Some (FTuple "gas" "density")) 4.

(** The model as its constructor leaves it, a data source with the one
    chunk, and a serial run in which the spectral tables are ready. *)
Definition thermal_fresh : ThermalSourceModel :=
  mk_ThermalSourceModel
    None (Field (FTuple "gas" "metallicity"))
    false (Some "gas") 0 [] table [] [] "invert_cdf"
    0%Q 4%Q "linear" 4 None None None None None None 1%Q [] (Some 5%Q)
    None 0.

Definition data_source : ThermalDataSource :=
  mk_ThermalDataSource
    (fun f =>
       match f with
       | FTuple "gas" "emission_measure" =>
           Ok (mk_FieldInfo ("gas", "emission_measure") "cm**-3")
       | FTuple "gas" "metallicity" =>
           Ok (mk_FieldInfo ("gas", "metallicity") "Zsun")
       | _ => Raise YTFieldNotFound
       end)
    [chunk].


Definition prepare_spectrum (sm : SpectralModel) (z kT_min kT_max : Q)
  : result SpectralModel := Ok sm.
Definition serial (chunks : list Chunk) : list Chunk := chunks.
Definition one_process (n : nat) : nat := n.
Definition no_scale (x : Q) : Q := x.

(** The same cells, the first of them without emission measure. *)
Definition chunk_first_dark : Chunk :=
  fun f =>
    match f with
    | FTuple "gas" "emission_measure" => Some [0; 2; 2; 2]%Q
    | _ => chunk f
    end.

Definition seed : N := 2024%N.

Definition thermal_run (method : string) (chunk : Chunk) :=
  run (fun x => x) (thermal method) chunk seed.


(** The sampling tables a run recorded, and the energies it returned. *)
Definition tables_of
  (r : result (returned * ThermalSourceModel * N * call_trace))
  : list (nat * list Q) :=
  match r with
  | Ok (_, _, _, tr) => tables tr
  | Raise _ => []
  end.

Definition energies_of
  (r : result (returned * ThermalSourceModel * N * call_trace))
  : list Q :=
  match r with
  | Ok (Some (_, _, _, energies), _, _, _) => energies
  | _ => []
  end.

(** Stand-ins for the power and the logarithm of floats, to run the
    power-law model on rationals: the power with the exponent rounded
    down, and the first-order logarithm. *)
Definition pow (x y : Q) : Q := Qpower x (Qfloor y).
Definition log (x : Q) : Q := (x - 1)%Q.

Definition power_law : PowerLawSourceModel.t :=
  PowerLawSourceModel.mk 1%Q 1%Q 2%Q (FTuple "gas" "rate")
    (Field (FTuple "gas" "index")) (Some 1%Q) (Some 0%Q) (Some "gas")
    (Some 1%Q).

Definition line : LineSourceModel.t :=
  LineSourceModel.mk 6%Q (LineSourceModel.SigmaField (FTuple "gas" "width"))
    (FTuple "gas" "rate") (Some 1%Q) (Some 0%Q) (Some "gas") (Some 1%Q).


(** A catalog of two events on a field of three by three pixels. *)
Definition parameters : dict.t event_list.pvalue :=
  [ ("ExposureTime", event_list.YTQuantity 10 "s");
    ("Area", event_list.YTQuantity 2 "cm**2");
    ("pix_center", event_list.PArray (event_list.ndarray [2; 2]%Q));
    ("sky_center", event_list.PArray (event_list.YTArray [30; 45]%Q "deg"));
    ("dtheta", event_list.YTQuantity 0.01 "deg") ].

Definition wcs : event_list.WCS :=
  event_list.mk_WCS [2; 2]%Q [30; 45]%Q [-0.01; 0.01]%Q
                    ["RA---TAN"; "DEC--TAN"] ["deg"; "deg"].

Definition catalog : event_list.EventList :=
  event_list.mk_EventList
    [ ("xpix", event_list.ndarray [1; 2]%Q);
      ("ypix", event_list.ndarray [3; 1]%Q);
      ("eobs", event_list.YTArray [1.5; 2.5]%Q "keV") ]
    parameters 2 wcs.

(** The same events under a mapping given to the constructor, whose
    reference pixel is not the pixel centre of the parameters. *)
Definition shifted_wcs : event_list.WCS :=
  event_list.mk_WCS [5; 5]%Q [30; 45]%Q [-0.01; 0.01]%Q
                    ["RA---TAN"; "DEC--TAN"] ["deg"; "deg"].

Definition catalog_shifted : event_list.EventList :=
  event_list.mk_EventList (event_list.events catalog) parameters 2
                          shifted_wcs.

(** A second catalog whose dictionary was filled in another order. *)
Definition catalog_ypix_first : event_list.EventList :=
  event_list.mk_EventList
    [ ("ypix", event_list.ndarray [20]%Q);
      ("xpix", event_list.ndarray [10]%Q);
      ("eobs", event_list.YTArray [30]%Q "keV") ]
    parameters 1 wcs.


(** Generators: the module generator and a seeded [prng]. *)
Definition generators : event_list.generators :=
  event_list.mk_generators 7%N (Some seed).

(** Checks of [__add__] that pass, and projections for a flat sky. *)
Definition checks_pass {A : Type} (a b : A) : result unit := Ok tt.
Definition pix2world (w : event_list.WCS) (x y : list Q) := (x, y).
Definition world2pix (w : event_list.WCS) (ra dec : Q) := (ra, dec).
Definition no_conversion (p : event_list.pvalue) (unit : string) := p.
(** A second projection, which swaps the axes. *)
Definition pix2world_swapped (w : event_list.WCS) (x y : list Q) := (y, x).
Definition whole_field (region : string) (w : event_list.WCS)
  : result (Q -> Q -> bool) :=
  Ok (fun x y => true).

(** The region left of x = 1.5. *)
Definition left_half (region : string) (w : event_list.WCS)
  : result (Q -> Q -> bool) :=
  Ok (fun x y => Qle_bool x 1.5).

(** A background of 0.15 photons/s/cm**2 in two bins: 3 photons for the
    exposure and the area of the catalog. *)
(** Unit conversion between the energy units of the examples, a stand-in
    for single precision (the nearest multiple of 2^-10 below), and header
    cards that give floats back unchanged. *)
Definition in_units (a : list Q) (from to : string) : result (list Q) :=
  if String.eqb from to then Ok a
  else if String.eqb from "keV" && String.eqb to "eV"
       then Ok (map (Qmult 1000) a)
  else if String.eqb from "keV" && String.eqb to "erg"
       then Ok (map (Qmult (1602176634 # 1000000000000000000)) a)
  else Raise (RuntimeError "no conversion between these units").
Definition rounded (x : Q) : Q := (inject_Z (Qfloor (x * 1024)) / 1024)%Q.
Definition exact_card (x : Q) : Q := x.

(** A photon-list writer that keeps what it is given in one table. *)
Definition write_photon_list (simput_prefix phlist_prefix : string)
  (flux : Q) (ra dec energy : list Q) (clobber : bool)
  (fs : event_list.fits_files) : result event_list.fits_files :=
  let name := String.append phlist_prefix "_phlist.fits" in
  let table :=
    event_list.mk_HDU "PHLIST" [("FLUX", event_list.CFloat flux)]
      [event_list.mk_Column "RA" "D" (Some "deg") (event_list.ColumnQ ra);
       event_list.mk_Column "DEC" "D" (Some "deg") (event_list.ColumnQ dec);
       event_list.mk_Column "ENERGY" "D" (Some "keV")
                            (event_list.ColumnQ energy)] in
  let fs' := fun n => if String.eqb n name then Some [table] else fs n in
  match fs name with
  | Some _ => if clobber then Ok fs' else Raise OSError
  | None => Ok fs'
  end.

Definition background_bins : list Q := [1; 2; 3]%Q.
Definition background_spectrum : list Q := [0.1; 0.05]%Q.

End examples.

(** * Properties *)

Unset Implicit Arguments.

(** ** Facts about results and arrays *)

Lemma bind_Ok (A B : Type) (m : result A) (k : A -> result B) (b : B) :
  bind m k = Ok b -> exists a, m = Ok a /\ k a = Ok b.
Proof.
  destruct m as [a|e]; simpl; intros E; [exists a; auto | discriminate].
Qed.

(** Inversion of a bind that ends in [Ok]. *)
Ltac inv_bind E :=
  match type of E with
  | bind ?m ?k = Ok _ =>
      let a := fresh "a" in
      let Em := fresh "Em" in
      apply bind_Ok in E; destruct E as [a [Em E]]
  end.

Tactic Notation "bind_inv" hyp(E) "as" ident(x) ident(Ex) :=
  apply bind_Ok in E; destruct E as [x [Ex E]].

Ltac inv_Ok E := injection E as E; subst.

Section ArrayFacts.

Variables A B C : Type.

Lemma ew2_Ok (f : A -> B -> C) (a : list A) (b : list B) :
  length a = length b -> np.ew2 f a b = Ok (np.map2 f a b).
Proof.
  intros E. unfold np.ew2. rewrite E, Nat.eqb_refl. reflexivity.
Qed.

Lemma ew2_inv (f : A -> B -> C) (a : list A) (b : list B) (c : list C) :
  np.ew2 f a b = Ok c -> length a = length b /\ c = np.map2 f a b.
Proof.
  unfold np.ew2. destruct (Nat.eqb_spec (length a) (length b)).
  - intros E. inv_Ok E. auto.
  - discriminate.
Qed.

Lemma map2_length (f : A -> B -> C) (a : list A) (b : list B) :
  length (np.map2 f a b) = Nat.min (length a) (length b).
Proof.
  revert b. induction a as [|x a IH]; intros [|y b]; simpl; auto.
Qed.

Lemma map2_nth (f : A -> B -> C) (a : list A) (b : list B) da db dc i :
  i < length a -> i < length b ->
  nth i (np.map2 f a b) dc = f (nth i a da) (nth i b db).
Proof.
  revert b i. induction a as [|x a IH]; intros [|y b] [|i]; simpl;
    try lia; auto.
  intros. apply IH; lia.
Qed.

Lemma getmask_Ok (a : list A) (mask : list bool) :
  length mask = length a -> np.getmask a mask = Ok (np.compress mask a).
Proof.
  intros E. unfold np.getmask. rewrite E, Nat.eqb_refl. reflexivity.
Qed.

Lemma getmask_inv (a : list A) (mask : list bool) (r : list A) :
  np.getmask a mask = Ok r ->
  length mask = length a /\ r = np.compress mask a.
Proof.
  unfold np.getmask. destruct (Nat.eqb_spec (length mask) (length a)).
  - intros E. inv_Ok E. auto.
  - discriminate.
Qed.

Lemma compress_length (mask : list bool) (a : list A) :
  length mask = length a ->
  length (np.compress mask a) = np.count_nonzero mask.
Proof.
  revert a. induction mask as [|b m IH]; intros [|x a]; simpl; auto;
    try discriminate.
  intros E. destruct b; simpl; rewrite IH; auto.
Qed.

Lemma compress_all_true (a : list A) :
  np.compress (repeat true (length a)) a = a.
Proof.
  induction a as [|x a IH]; simpl; [reflexivity | now rewrite IH].
Qed.

Lemma item_Ok (a : list A) (i : nat) (x : A) :
  np.item a i = Ok x -> nth_error a i = Some x.
Proof.
  unfold np.item. destruct (nth_error a i); simpl; congruence.
Qed.

End ArrayFacts.

Lemma count_nonzero_repeat_true (n : nat) :
  np.count_nonzero (repeat true n) = n.
Proof.
  induction n; simpl; auto.
Qed.

(** The positive counts of an array of counts add up to the sum of the
    array. *)
Lemma isum_compress_positive (c : list nat) :
  np.isum (np.compress (map (fun n => Nat.ltb 0 n) c) c) = np.isum c.
Proof.
  induction c as [|n c IH]; simpl; auto.
  destruct (Nat.ltb_spec 0 n); simpl; lia.
Qed.

(** ** The thermal model: teardown *)

Module thermal_teardown.
Import source_models.

Lemma cleanup_model_is_second : cleanup_model = cleanup_model_second.
Proof. reflexivity. Qed.

(** The definition that the class body overwrites would have cleared the
    two field names. *)
Lemma cleanup_model_first_clears (self : ThermalSourceModel) (log : mylog)
  (self' : ThermalSourceModel) (log' : mylog) :
  cleanup_model_first (self, log) = Ok (self', log') ->
  emission_measure_field self' = None /\ temperature_field self' = None.
Proof.
  unfold cleanup_model_first, pbar_close. simpl.
  destruct (pbar self) as [p|]; simpl; [|discriminate].
  destruct (close p log) as [p' l']. intros E. inv_Ok E. auto.
Qed.

(** C8.  The teardown of the thermal model that a call reaches is the
    second definition of the class body.  It closes the progress reporter
    and changes no other attribute of the model: the emission-measure and
    temperature field names are the ones from before the call.  Without a
    progress reporter the call raises and the model is as before. *)
Theorem thermal_cleanup_model_only_closes_pbar :
  lookup_method [ThermalSourceModel_body; SourceModel_body]
                "cleanup_model" = Some (Teardown cleanup_model_second)
  /\ forall (self : ThermalSourceModel) (log : mylog),
       match pbar self with
       | Some p =>
           cleanup_model (self, log)
           = Ok (set_pbar self (Some (fst (close p log))),
                 snd (close p log))
           /\ emission_measure_field
                (set_pbar self (Some (fst (close p log))))
              = emission_measure_field self
           /\ temperature_field
                (set_pbar self (Some (fst (close p log))))
              = temperature_field self
       | None => cleanup_model (self, log) = Raise AttributeError
       end.
Proof.
  split; [reflexivity|].
  intros self log. rewrite cleanup_model_is_second.
  unfold cleanup_model_second, pbar_close.
  destruct (pbar self) as [p|]; simpl; [|reflexivity].
  destruct (close p log) as [p' l']. simpl. auto.
Qed.

End thermal_teardown.

(** ** The power-law model: the rate passed to the Poisson draw *)

Module power_law_rate.
Import source_models.
Import PowerLawSourceModel.

Section Rate.

Context {G : Type} `{RandomState G}.
Variable pow : Q -> Q -> Q.
Variable log : Q -> Q.

(** The expected count of a cell with index [a] and rate [r]. *)
Definition expected_count (self : t) (sn sf a r : Q) : Q :=
  if Qeq_bool a 1
  then (log (emax self / emin self) * r * pow (e0 self) a
        * (sn * sf))%Q
  else ((pow (emax self) (1 - a) - pow (emin self) (1 - a)) * r
        * pow (e0 self) a / (1 - a) * (sn * sf))%Q.

Lemma norm_fac_of_Ok (self : t) (alpha : list Q) :
  norm_fac_of pow log self alpha
  = Ok (map (fun a => if Qeq_bool a 1
                      then log (emax self / emin self)%Q
                      else (pow (emax self) (1 - a)
                            - pow (emin self) (1 - a))%Q) alpha).
Proof.
  unfold norm_fac_of, fill_mask.
  rewrite ew2_Ok by (now rewrite !length_map).
  f_equal. induction alpha as [|a alpha IH]; simpl; [reflexivity|].
  now rewrite IH.
Qed.

(** The masked division, cell by cell. *)
Lemma masked_division (self : t) (sn sf : Q) (alpha rate : list Q) :
  length alpha = length rate ->
  let norm_fac :=
    map (fun a => if Qeq_bool a 1
                  then log (emax self / emin self)%Q
                  else (pow (emax self) (1 - a)
                        - pow (emin self) (1 - a))%Q) alpha in
  let norm :=
    np.map2 Qmult (np.map2 Qmult norm_fac rate)
            (map (pow (e0 self)) alpha) in
  let ne1 := map (fun a => negb (Qeq_bool a 1)) alpha in
  map (fun x => x * (sn * sf))%Q
      (place norm ne1
         (np.map2 Qdiv (np.compress ne1 norm)
                  (map (fun a => 1 - a)%Q (np.compress ne1 alpha))))
  = np.map2 (expected_count self sn sf) alpha rate.
Proof.
  revert rate. induction alpha as [|a alpha IH]; intros [|r rate];
    simpl; try discriminate; [reflexivity|].
  intros E. injection E as E. specialize (IH rate E). simpl in IH.
  unfold expected_count at 1.
  destruct (Qeq_bool a 1); simpl; now rewrite IH.
Qed.

Lemma norm_of_Ok (self : t) (chunk : Chunk) (alpha rate : list Q)
  (sn sf : Q) :
  chunk (emission_field self) = Some rate ->
  length alpha = length rate ->
  spectral_norm self = Some sn ->
  scale_factor self = Some sf ->
  exists norm_fac,
    norm_fac_of pow log self alpha = Ok norm_fac
    /\ norm_of pow self chunk alpha norm_fac
       = Ok (np.map2 (expected_count self sn sf) alpha rate).
Proof.
  intros Hrate Hlen Hsn Hsf.
  eexists. split; [apply norm_fac_of_Ok|].
  unfold norm_of, chunk_get. rewrite Hrate. simpl.
  rewrite ew2_Ok by (now rewrite length_map). simpl.
  rewrite ew2_Ok
    by (now rewrite map2_length, !length_map, <- Hlen, Nat.min_id).
  simpl.
  set (norm := np.map2 Qmult _ (map (pow (e0 self)) alpha)).
  assert (Hn : length norm = length alpha).
  { unfold norm. rewrite !map2_length, !length_map, <- Hlen.
    now rewrite !Nat.min_id. }
  set (ne1 := map (fun a => negb (Qeq_bool a 1)) alpha).
  assert (Hm : length ne1 = length alpha)
    by (unfold ne1; now rewrite length_map).
  rewrite getmask_Ok by congruence. simpl.
  rewrite getmask_Ok by congruence. simpl.
  rewrite ew2_Ok
    by (rewrite length_map, !compress_length; congruence).
  simpl. unfold set_mask.
  replace (length ne1 =? length norm) with true
    by (symmetry; apply Nat.eqb_eq; congruence).
  rewrite map2_length, length_map, !compress_length by congruence.
  rewrite Nat.min_id, Nat.eqb_refl. simpl.
  rewrite Hsn, Hsf. simpl. f_equal.
  now apply masked_division.
Qed.


End Rate.


End power_law_rate.

(** ** The tuple returned by the per-chunk operations *)

Section SliceFacts.

Variable A : Type.

Lemma slice_length (a : list A) (i j : nat) :
  length (np.slice a i j) = Nat.min (j - i) (length a - i).
Proof.
  unfold np.slice. now rewrite length_firstn, length_skipn.
Qed.

Lemma set_slice_inv (a : list A) (i j : nat) (v a' : list A) :
  np.set_slice a i j v = Ok a' ->
  length v = Nat.min (j - i) (length a - i)
  /\ a' = firstn i a ++ v ++ skipn (i + length v) a.
Proof.
  unfold np.set_slice. rewrite slice_length.
  destruct (Nat.eqb_spec (Nat.min (j - i) (length a - i)) (length v));
    [|discriminate].
  intros E. inv_Ok E. auto.
Qed.

Lemma set_slice_length (a : list A) (i j : nat) (v a' : list A) :
  np.set_slice a i j v = Ok a' -> length a' = length a.
Proof.
  intros E. apply set_slice_inv in E. destruct E as [Hv ->].
  rewrite !length_app, length_firstn, length_skipn. lia.
Qed.

End SliceFacts.

(** The sum of the counts at the positions [cells]. *)
Definition counts_at (counts : list nat) (cells : list nat) : nat :=
  np.isum (map (fun i => nth i counts 0) cells).

Lemma counts_at_seq_from (k counts : list nat) :
  counts_at (k ++ counts) (seq (length k) (length counts)) = np.isum counts.
Proof.
  revert k. induction counts as [|c counts IH]; intros k; [reflexivity|].
  unfold counts_at in *. simpl.
  rewrite app_nth2, Nat.sub_diag by lia. simpl. f_equal.
  specialize (IH (k ++ [c])). rewrite <- app_assoc in IH. simpl in IH.
  rewrite length_app in IH. simpl in IH.
  now rewrite Nat.add_1_r in IH.
Qed.

Lemma counts_at_seq (counts : list nat) :
  counts_at counts (seq 0 (length counts)) = np.isum counts.
Proof.
  apply (counts_at_seq_from [] counts).
Qed.

Lemma item_nth (a : list nat) (i n : nat) :
  np.item a i = Ok n -> nth i a 0 = n /\ i < length a.
Proof.
  intros E. apply item_Ok in E. split.
  - now apply nth_error_nth.
  - apply nth_error_Some. congruence.
Qed.

(** What makes a returned tuple consistent: the count of active cells is
    the number of returned per-cell counts, and the number of energies is
    the sum of those counts. *)
Definition consistent (ncells : nat) (counts : list nat) (energies : list Q)
  : Prop :=
  ncells = length counts /\ length energies = np.isum counts.

Lemma active_counts (number_of_photons counts : list nat) :
  np.getmask number_of_photons
             (map (fun c => Nat.ltb 0 c) number_of_photons) = Ok counts ->
  length counts
  = np.count_nonzero (map (fun c => Nat.ltb 0 c) number_of_photons)
  /\ np.isum counts = np.isum number_of_photons.
Proof.
  intros E. apply getmask_inv in E. destruct E as [Hl ->]. split.
  - now apply compress_length.
  - apply isum_compress_positive.
Qed.

Module power_law_tuple.
Import source_models.
Import PowerLawSourceModel.

Section Tuple.

Context {G : Type} `{RandomStateSpec G}.
Variable pow : Q -> Q -> Q.
Variable log : Q -> Q.

Lemma place_length (a : list Q) (mask : list bool) (vals : list Q) :
  length (place a mask vals) = length a.
Proof.
  revert mask vals. induction a as [|x a IH]; intros [|[|] m] vals; simpl;
    auto.
  destruct vals; simpl; now rewrite IH.
Qed.

Lemma norm_of_length (self : t) (chunk : Chunk) (alpha norm_fac norm : list Q)
  (rate : list Q) :
  chunk (emission_field self) = Some rate ->
  norm_of pow self chunk alpha norm_fac = Ok norm ->
  length norm = length rate.
Proof.
  intros Hrate E. unfold norm_of, chunk_get in E. rewrite Hrate in E.
  simpl in E.
  inv_bind E. apply ew2_inv in Em. destruct Em as [L1 ->].
  inv_bind E. apply ew2_inv in Em. destruct Em as [L2 ->].
  inv_bind E. inv_bind E. inv_bind E. inv_bind E.
  inv_bind E. inv_bind E. inv_Ok E.
  unfold set_mask in Em2.
  destruct (Nat.eqb _ _); [|discriminate].
  destruct (Nat.eqb _ _); [|discriminate].
  inv_Ok Em2.
  rewrite map2_length, length_map in L2.
  rewrite length_map, place_length, !map2_length, length_map. lia.
Qed.

Lemma energy_loop_inv (self : t) (sf : Q) (alpha norm_fac : list Q)
  (nph : list nat) (cells : list nat) :
  forall (energies : list Q) (s : nat) (g : G) en' end' g',
    energy_loop pow self sf alpha norm_fac nph cells energies s s g
    = Ok (en', end', g') ->
    length en' = length energies /\ end' = s + counts_at nph cells.
Proof.
  induction cells as [|i cells IH]; intros energies s g en' end' g' E.
  - simpl in E. inv_Ok E. unfold counts_at. simpl. split; auto.
  - simpl in E. inv_bind E. apply item_nth in Em. destruct Em as [Hn _].
    unfold counts_at. simpl. rewrite Hn. fold (counts_at nph cells).
    destruct (Nat.ltb_spec 0 a).
    + destruct (uniform 0 1 a g) as [u g1].
      inv_bind E. inv_bind E. inv_bind E.
      apply set_slice_length in Em1.
      apply IH in E. destruct E as [L ->]. split; [congruence | lia].
    + apply IH in E. destruct E as [L ->]. split; [auto | lia].
Qed.

Lemma power_law_call_consistent (self : t) (chunk : Chunk) (g : G)
  ncells counts active energies g' :
  __call__ pow log self chunk g = Ok (ncells, counts, active, energies, g') ->
  consistent ncells counts energies
  /\ ncells = np.count_nonzero active.
Proof.
  intros E. unfold __call__ in E.
  inv_bind E. rename a into rate.
  assert (Hrate : chunk (emission_field self) = Some rate).
  { unfold chunk_get, of_option in Em.
    destruct (chunk (emission_field self)); congruence. }
  inv_bind E. inv_bind E. inv_bind E.
  pose proof (norm_of_length _ _ _ _ _ _ Hrate Em2) as Hnorm.
  pose proof (poisson_length a1 g) as Hp.
  destruct (poisson a1 g) as [nph g1]. simpl in Hp.
  inv_bind E. inv_bind E. destruct a3 as [[en end_e] g2].
  inv_bind E. inv_Ok E.
  apply active_counts in Em5. destruct Em5 as [Hc Hs].
  apply energy_loop_inv in Em4. destruct Em4 as [Hl ->].
  replace (length rate) with (length nph) by congruence.
  rewrite counts_at_seq. simpl.
  unfold consistent. repeat split; auto.
  rewrite slice_length, Hl. unfold np.zeros. rewrite repeat_length. lia.
Qed.

End Tuple.

End power_law_tuple.

Module line_tuple.
Import source_models.
Import LineSourceModel.

Section Tuple.

Context {G : Type} `{RandomState G}.
Variable in_cgs : Q -> Q.
Variable in_keV : Q -> Q.
Variable clight : Q.

Lemma broaden_loop_length (sigma : list Q) (nph : list nat)
  (cells : list nat) :
  forall (energies : list Q) (s : nat) (g : G) en' g',
    broaden_loop sigma nph cells energies s g = Ok (en', g') ->
    length en' = length energies.
Proof.
  induction cells as [|i cells IH]; intros energies s g en' g' E.
  - simpl in E. now inv_Ok E.
  - simpl in E. inv_bind E. destruct (Nat.ltb 0 a).
    + inv_bind E. destruct (normal 0 a0 a g) as [dE g1].
      inv_bind E. inv_bind E. apply set_slice_length in Em2.
      apply IH in E. congruence.
    + now apply IH in E.
Qed.

Lemma line_call_consistent (self : t) (chunk : Chunk) (g : G)
  ncells counts active energies g' :
  __call__ in_cgs in_keV clight self chunk g
  = Ok (ncells, counts, active, energies, g') ->
  consistent ncells counts energies
  /\ ncells = np.count_nonzero active.
Proof.
  intros E. unfold __call__ in E.
  inv_bind E. inv_bind E. inv_bind E. inv_bind E.
  destruct (poisson _ g) as [nph g1].
  inv_bind E. destruct a3 as [en g2].
  inv_bind E. inv_bind E. inv_Ok E.
  apply active_counts in Em5. destruct Em5 as [Hc Hs].
  assert (Hl : length en = np.isum nph).
  { destruct (sigma self) as [|s|f].
    - inv_Ok Em3. unfold np.ones. now rewrite length_map, repeat_length.
    - destruct (normal 0 s (np.isum nph) g1) as [dE g3].
      inv_bind Em3. inv_Ok Em3. apply ew2_inv in Em5.
      destruct Em5 as [L ->].
      rewrite map2_length, <- L, Nat.min_id. unfold np.ones.
      now rewrite length_map, repeat_length.
    - inv_bind Em3. apply broaden_loop_length in Em3. rewrite Em3.
      unfold np.ones. now rewrite length_map, repeat_length. }
  unfold consistent. repeat split; auto.
  rewrite length_map. congruence.
Qed.

End Tuple.

End line_tuple.

Module thermal_tuple.
Import source_models.

Lemma double_until_ge (fuel : nat) :
  forall npm target : N,
    (1 <= npm)%N -> (target < npm * 2 ^ N.of_nat fuel)%N ->
    (target <= double_until fuel npm target)%N.
Proof.
  induction fuel as [|fuel IH]; intros npm target Hpos Hlt.
  - simpl in *. lia.
  - simpl double_until. destruct (N.ltb_spec npm target); [|lia].
    apply IH; [lia|].
    rewrite Nat2N.inj_succ, N.pow_succ_r' in Hlt. lia.
Qed.

Lemma double_until_mono (fuel : nat) :
  forall npm target : N, (npm <= double_until fuel npm target)%N.
Proof.
  induction fuel as [|fuel IH]; intros npm target; simpl; [lia|].
  destruct (N.ltb_spec npm target); [|lia].
  specialize (IH (npm * 2)%N target). lia.
Qed.

(** The doubling loop ends with room for the target. *)
Lemma grow_ge (npm target : N) :
  (1 <= npm)%N -> (target <= grow npm target)%N /\ (npm <= grow npm target)%N.
Proof.
  intros Hpos. unfold grow. split; [|apply double_until_mono].
  apply double_until_ge; [assumption|].
  rewrite Nat2N.inj_succ, N2Nat.id, N.pow_succ_r'.
  pose proof (N.size_gt target). nia.
Qed.

Lemma buffer_set_slice_size (b : buffer) (i j : nat) (v : list Q)
  (b' : buffer) :
  buffer_set_slice b i j v = Ok b' -> size b' = size b.
Proof.
  unfold buffer_set_slice. destruct (Nat.eqb _ _); [|discriminate].
  intros E. now inv_Ok E.
Qed.

Lemma buffer_prefix_length (b : buffer) (n : nat) :
  n <= N.to_nat (size b) -> length (buffer_prefix b n) = n.
Proof.
  intros Hn. unfold buffer_prefix, np.zeros.
  rewrite length_firstn, length_app, repeat_length. lia.
Qed.

Lemma Forall_skipn_zero (a : list nat) (i j : nat) :
  Forall (eq 0) (skipn i a) -> i <= j -> Forall (eq 0) (skipn j a).
Proof.
  intros Hz Hij. replace j with ((j - i) + i) by lia.
  rewrite <- skipn_skipn. revert Hz. generalize (skipn i a) (j - i).
  intros l k Hl. revert l Hl. induction k as [|k IH]; intros [|x l] Hl;
    simpl; auto.
  apply IH. now inversion Hl.
Qed.

Lemma isum_app (a b : list nat) :
  np.isum (a ++ b) = np.isum a + np.isum b.
Proof.
  induction a as [|x a IH]; simpl; [reflexivity | rewrite IH; lia].
Qed.

Lemma isum_zeros (a : list nat) : Forall (eq 0) a -> np.isum a = 0.
Proof.
  induction 1 as [|x a Hx Ha IH]; simpl; [reflexivity | lia].
Qed.

(** Writing the draws of a bin into the part of [number_of_photons] that
    is still zero adds their sum to the sum of the array. *)
Lemma set_slice_counts (a : list nat) (i j : nat) (v a' : list nat) :
  np.set_slice a i j v = Ok a' ->
  Forall (eq 0) (skipn i a) -> i <= j ->
  np.isum a' = np.isum a + np.isum v
  /\ Forall (eq 0) (skipn j a')
  /\ length a' = length a.
Proof.
  intros E Hz Hij.
  pose proof E as Hl. apply set_slice_length in Hl.
  apply set_slice_inv in E. destruct E as [Hv ->].
  repeat split; auto.
  - rewrite !isum_app.
    rewrite <- (firstn_skipn i a) at 3. rewrite isum_app.
    rewrite (isum_zeros _ Hz).
    rewrite (isum_zeros _ (Forall_skipn_zero a i (i + length v) Hz
                           ltac:(lia))).
    lia.
  - destruct (Nat.le_gt_cases i (length a)) as [Hi|Hi].
    + rewrite skipn_app, length_firstn, Nat.min_l by assumption.
      rewrite skipn_all2 by (rewrite length_firstn; lia). simpl.
      rewrite skipn_app.
      rewrite skipn_all2 by lia. simpl.
      rewrite skipn_skipn.
      apply (Forall_skipn_zero a i); [assumption | lia].
    + rewrite skipn_all2; [constructor|].
      rewrite !length_app, length_firstn, length_skipn. lia.
Qed.

Lemma counts_at_middle (k counts rest : list nat) :
  counts_at (k ++ counts ++ rest) (seq (length k) (length counts))
  = np.isum counts.
Proof.
  revert k. induction counts as [|c counts IH]; intros k; [reflexivity|].
  unfold counts_at in *. simpl.
  rewrite app_nth2, Nat.sub_diag by lia. simpl. f_equal.
  specialize (IH (k ++ [c])). rewrite <- app_assoc in IH. simpl in IH.
  rewrite length_app in IH. simpl in IH.
  now rewrite Nat.add_1_r in IH.
Qed.

Section Tuple.

Context {G : Type} `{RandomState G}.
Variable kelvin_to_keV : Q -> Q.

(** The loop over the cells of a bin leaves the counts alone, and the
    buffer it leaves has room for every photon of the cells. *)
Lemma cell_loop_inv (self : ThermalSourceModel) (metalZ : list Q)
  (elemZ : option (list (list Q))) (icells : list nat) :
  forall (ei : nat) (arrs : bin_arrays) (st : call_state) arrs' st',
    cell_loop self metalZ elemZ icells ei arrs st = Ok (arrs', st') ->
    (1 <= num_photons_max st)%N ->
    ei <= N.to_nat (size (energies st)) ->
    number_of_photons st' = number_of_photons st
    /\ (1 <= num_photons_max st')%N
    /\ ei + counts_at (number_of_photons st) icells
       <= N.to_nat (size (energies st'))
    /\ Forall (fun i => i < length (number_of_photons st)) icells
    /\ lam_log st' = lam_log st
    /\ bar st' = bar st.
Proof.
  induction icells as [|icell rest IH]; intros ei arrs st arrs' st' E Hp He.
  - simpl in E. inv_Ok E. unfold counts_at. simpl.
    repeat split; auto. lia.
  - simpl in E. inv_bind E. apply item_nth in Em. destruct Em as [Hn Hi].
    unfold counts_at. simpl. rewrite Hn.
    fold (counts_at (number_of_photons st) rest).
    destruct (Nat.eqb_spec a 0) as [->|Hne].
    + apply IH in E; auto.
      destruct E as (E1 & E2 & E3 & E4 & E5 & E6).
      repeat split; auto.
    + inv_bind E. destruct a0 as [[[cell_e arrs1] g1] table].
      inv_bind E.
      pose proof Em0 as Hs. apply buffer_set_slice_size in Hs.
      destruct (grow_ge (num_photons_max st) (N.of_nat (ei + a)) Hp)
        as [Hg1 Hg2].
      apply IH in E; simpl.
      * simpl in E. destruct E as (E1 & E2 & E3 & E4 & E5 & E6).
        repeat split; auto. lia.
      * lia.
      * rewrite Hs.
        destruct (N.ltb_spec (size (energies st))
                    (grow (num_photons_max st) (N.of_nat (ei + a))));
          simpl; lia.
Qed.

(** Bins that follow one another: each begins where the one before it
    ends. *)
Inductive consecutive : nat -> list (nat * nat * nat * Z) -> Prop :=
| consecutive_nil n : consecutive n []
| consecutive_cons n e c k rest :
    n <= e -> consecutive e rest -> consecutive n ((n, e, c, k) :: rest).

Lemma cell_ranges_consecutive (bcounts : list nat) :
  forall (n : nat) (kT_idxs : list Z),
    consecutive n (zip4 (fst (cell_ranges n bcounts))
                        (snd (cell_ranges n bcounts)) bcounts kT_idxs).
Proof.
  induction bcounts as [|c bcounts IH]; intros n kT_idxs.
  - constructor.
  - simpl. specialize (IH (n + c)).
    destruct (cell_ranges (n + c) bcounts) as [bcell ecell]. simpl in *.
    destruct kT_idxs as [|k kT_idxs]; [constructor|].
    unfold zip4 in *. simpl. constructor; [lia | apply IH].
Qed.

(** What the loop over the bins keeps true: [start_e] and [end_e] agree
    and are the sum of the counts drawn so far, the counts of the cells
    not yet reached are zero, and the buffer has room for [end_e]
    energies. *)
Definition bins_inv (n s : nat) (st : @call_state G) : Prop :=
  s = np.isum (number_of_photons st)
  /\ Forall (eq 0) (skipn n (number_of_photons st))
  /\ s <= N.to_nat (size (energies st))
  /\ (1 <= num_photons_max st)%N.

Lemma bin_step_inv (self : ThermalSourceModel)
  (kT_bins dkT cell_em metalZ : list Q) (elemZ : option (list (list Q)))
  (ibegin iend bcount : nat) (ikT : Z) (s : nat) (st : call_state)
  start' end' st' :
  bin_step self kT_bins dkT cell_em metalZ elemZ
           (ibegin, iend, bcount, ikT) s s st = Ok (start', end', st') ->
  ibegin <= iend ->
  bins_inv ibegin s st ->
  start' = end' /\ bins_inv iend end' st'
  /\ length (number_of_photons st') = length (number_of_photons st).
Proof.
  intros E Hle (Hs & Hz & Hsz & Hp).
  unfold bin_step in E.
  inv_bind E. inv_bind E.
  destruct (get_spectrum _ _) as [[cs ms] vs].
  inv_bind E. destruct (poisson a1 (gen st)) as [cell_n g1].
  inv_bind E. inv_bind E. inv_bind E. destruct a4 as [arrs' st1].
  inv_Ok E.
  pose proof Em2 as Hsum. apply set_slice_counts in Hsum; auto.
  destruct Hsum as (Hsum & Hz' & Hlen).
  pose proof Em2 as Hset. apply set_slice_inv in Hset.
  destruct Hset as [Hv Hnph].
  apply cell_loop_inv in Em4; simpl; auto.
  simpl in Em4. destruct Em4 as (E1 & E2 & E3 & E4 & E5 & E6).
  assert (Hc : counts_at a2 (seq ibegin (iend - ibegin)) = np.isum cell_n).
  { destruct (Nat.eq_dec iend ibegin) as [->|Hne].
    - rewrite Nat.sub_diag in *. simpl in Hv.
      destruct cell_n; [reflexivity | simpl in Hv; lia].
    - assert (Hin : In (iend - 1) (seq ibegin (iend - ibegin)))
        by (apply in_seq; lia).
      rewrite Forall_forall in E4. apply E4 in Hin.
      rewrite Hlen in Hin.
      assert (Hcl : length cell_n = iend - ibegin) by lia.
      rewrite Hnph, <- Hcl.
      replace ibegin with (length (firstn ibegin (number_of_photons st)))
        at 3 by (rewrite length_firstn; lia).
      apply counts_at_middle. }
  rewrite Hc in E3.
  split; [reflexivity|]. split; [|congruence].
  unfold bins_inv. rewrite E1. repeat split; auto; lia.
Qed.

Lemma bin_loop_inv (self : ThermalSourceModel)
  (kT_bins dkT cell_em metalZ : list Q) (elemZ : option (list (list Q)))
  (bins : list (nat * nat * nat * Z)) :
  forall (n s : nat) (st : call_state) start' end' st',
    bin_loop self kT_bins dkT cell_em metalZ elemZ bins s s st
    = Ok (start', end', st') ->
    consecutive n bins ->
    bins_inv n s st ->
    end' = np.isum (number_of_photons st')
    /\ end' <= N.to_nat (size (energies st'))
    /\ length (number_of_photons st') = length (number_of_photons st).
Proof.
  induction bins as [|bin bins IH]; intros n s st start' end' st' E Hc Hi.
  - simpl in E. inv_Ok E. destruct Hi as (Hs & Hz & Hsz & Hp). auto.
  - simpl in E. inv_bind E. destruct a as [[s1 e1] st1].
    inversion Hc as [|n0 e c k rest Hle Hrest]; subst.
    apply bin_step_inv in Em; auto. destruct Em as (-> & Hi1 & Hl1).
    apply (IH e) in E; auto.
    destruct E as (E1 & E2 & E3). repeat split; auto. congruence.
Qed.

(** The tuple returned by the thermal model. *)
Lemma thermal_call_consistent (self : ThermalSourceModel) (chunk : Chunk)
  (g : G) ncells counts idxs energies self' g' :
  __call__ kelvin_to_keV self chunk g
  = Ok (Some (ncells, counts, idxs, energies), self', g') ->
  consistent ncells counts energies /\ ncells = length idxs.
Proof.
  intros E. unfold __call__ in E. bind_inv E as r Erun.
  destruct r as [[[r self1] g1] tr]. inv_Ok E.
  unfold run in Erun.
  bind_inv Erun as temp Etemp.
  destruct (Nat.eqb (length temp) 0); [discriminate|].
  bind_inv Erun as dens_cut Ecut. bind_inv Erun as temp2 Etemp2.
  bind_inv Erun as em Eem. bind_inv Erun as EM EEM.
  bind_inv Erun as kT_sorted Esorted. bind_inv Erun as p Ep.
  match type of Erun with
  | (if ?c then _ else _) = _ => destruct c; [discriminate|]
  end.
  bind_inv Erun as kT_sel Esel. bind_inv Erun as bins Ebins.
  bind_inv Erun as bcounts Ebc.
  destruct (cell_ranges 0 _) as [bcell ecell] eqn:Hcr.
  bind_inv Erun as em_sel Eems. bind_inv Erun as norm Enorm.
  bind_inv Erun as mz EmZ. destruct mz as [metalZ elem_keys].
  bind_inv Erun as elemZ EeZ. bind_inv Erun as widths Ew.
  bind_inv Erun as fin Eloop. destruct fin as [[s1 end_e] st].
  bind_inv Erun as active_idxs Eai. bind_inv Erun as cts Ects.
  inv_Ok Erun.
  pose proof (cell_ranges_consecutive
                (filter (fun c => 0 <? c) bcounts) 0
                (np.unique (map (fun n => (Z.of_nat n - 1)%Z)
                                (np.digitize kT_sel bins)))) as Hc.
  rewrite Hcr in Hc. simpl in Hc.
  eapply bin_loop_inv in Hc; [|exact Eloop|].
  - destruct Hc as (He & Hsz & Hl). simpl in Hl.
    rewrite repeat_length in Hl.
    pose proof Eai as Hidx. apply getmask_inv in Hidx.
    destruct Hidx as [Hil ->].
    apply active_counts in Ects. destruct Ects as [Hcl Hcs].
    unfold consistent. repeat split.
    + rewrite Hcl. apply compress_length. assumption.
    + rewrite buffer_prefix_length by assumption. congruence.
  - unfold bins_inv. simpl. repeat split; try lia.
    + generalize (length (np.slice (np.argsort (map kelvin_to_keV temp2))
        (np.searchsorted kT_sorted (kT_min self))
        (np.searchsorted kT_sorted (kT_max self)))).
      intros n. induction n; simpl; auto.
    + generalize (length (np.slice (np.argsort (map kelvin_to_keV temp2))
        (np.searchsorted kT_sorted (kT_min self))
        (np.searchsorted kT_sorted (kT_max self)))).
      intros n. induction n; simpl; auto.
Qed.

End Tuple.

End thermal_tuple.

(** ** The example generator meets what is assumed of a random source *)

Module lcg_facts.

Lemma random_sample_length (n : nat) :
  forall g, length (fst (lcg.random_sample n g)) = n.
Proof.
  induction n as [|n IH]; intros g; simpl; [reflexivity|].
  specialize (IH (lcg.next g)).
  destruct (lcg.random_sample n (lcg.next g)) as [r g2]. simpl in *.
  now rewrite IH.
Qed.

Lemma sample_range (g : N) :
  (0 <= lcg.sample (lcg.next g) /\ lcg.sample (lcg.next g) < 1)%Q.
Proof.
  assert (Hlt : (lcg.next g < 2 ^ 31)%N)
    by (apply N.mod_lt; discriminate).
  unfold lcg.sample, Qle, Qlt. simpl Qnum. simpl Qden.
  split; [lia|].
  change (Z.pos (2 ^ 31)) with (Z.of_N (2 ^ 31)%N). lia.
Qed.

Lemma random_sample_range (n : nat) :
  forall g, Forall (fun u => 0 <= u /\ u < 1)%Q
                   (fst (lcg.random_sample n g)).
Proof.
  induction n as [|n IH]; intros g; simpl; [constructor|].
  specialize (IH (lcg.next g)).
  destruct (lcg.random_sample n (lcg.next g)) as [r g2]. simpl in *.
  constructor; [apply sample_range | assumption].
Qed.

Lemma Qfloor_unit (x : Q) : (0 <= x)%Q -> (x < 1)%Q -> Qfloor x = 0%Z.
Proof.
  intros H0 H1.
  pose proof (Qfloor_resp_le _ _ H0) as Hlo.
  change (Qfloor 0) with 0%Z in Hlo.
  pose proof (Qfloor_le x) as Hx.
  assert (Hhi : (inject_Z (Qfloor x) < inject_Z 1)%Q)
    by (eapply Qle_lt_trans; eauto).
  rewrite <- Zlt_Qlt in Hhi. lia.
Qed.

#[global] Instance generator_spec : RandomStateSpec N.
Proof.
  constructor.
  - intros n g. apply random_sample_length.
  - intros n g. apply random_sample_range.
  - intros lam g. simpl. unfold lcg.poisson.
    pose proof (random_sample_length (length lam) g) as Hl.
    destruct (lcg.random_sample (length lam) g) as [u g']. simpl in *.
    rewrite map2_length, Hl. apply Nat.min_id.
  - intros lam g i Hz. simpl. unfold lcg.poisson.
    pose proof (random_sample_length (length lam) g) as Hl.
    pose proof (random_sample_range (length lam) g) as Hr.
    destruct (lcg.random_sample (length lam) g) as [u g']. cbn [fst] in *.
    destruct (Nat.lt_ge_cases i (length lam)) as [Hi|Hi].
    + rewrite (map2_nth _ _ _ _ lam u 0%Q 0%Q) by lia.
      rewrite Forall_forall in Hr.
      destruct (Hr (nth i u 0%Q)) as [H0 H1];
        [apply nth_In; lia|].
      rewrite (Qfloor_comp _ (nth i u 0%Q)).
      * now rewrite Qfloor_unit.
      * rewrite Hz. ring.
    + apply nth_overflow. rewrite map2_length. lia.
  - intros n size p g. simpl. unfold lcg.choice.
    pose proof (random_sample_length size g) as Hl.
    destruct (lcg.random_sample size g) as [u g']. simpl in *.
    now rewrite length_map.
  - intros n size p g Hn. simpl. unfold lcg.choice.
    destruct (lcg.random_sample size g) as [u g']. simpl.
    apply Forall_forall. intros i Hi. apply in_map_iff in Hi.
    destruct Hi as [r [<- _]]. lia.
  - intros loc scale size g. simpl. unfold lcg.normal.
    pose proof (random_sample_length size g) as Hl.
    destruct (lcg.random_sample size g) as [u g']. simpl in *.
    now rewrite length_map.
Qed.

End lcg_facts.

(** ** The three per-chunk operations return consistent tuples *)

Module per_chunk_tuple.
Import source_models.

(** C10.  Whenever the per-chunk operation of the thermal, the power-law
    or the line model returns a tuple, the count of active cells is the
    number of returned per-cell counts and the number of cells the
    selector picks (index positions for the thermal model, true entries of
    the mask for the other two), and the number of returned energies is
    the sum of the returned counts. *)
Theorem per_chunk_tuple_consistent (G : Type) `{RandomStateSpec G}
  (kelvin_to_keV ln in_cgs in_keV : Q -> Q)
  (pow : Q -> Q -> Q) (clight : Q) (chunk : Chunk) (g : G) :
  (forall self ncells counts idxs energies self' g',
      __call__ kelvin_to_keV self chunk g
      = Ok (Some (ncells, counts, idxs, energies), self', g') ->
      ncells = length counts /\ ncells = length idxs
      /\ length energies = np.isum counts)
  /\ (forall self ncells counts active energies g',
        PowerLawSourceModel.__call__ pow ln self chunk g
        = Ok (ncells, counts, active, energies, g') ->
        ncells = length counts /\ ncells = np.count_nonzero active
        /\ length energies = np.isum counts)
  /\ (forall self ncells counts active energies g',
        LineSourceModel.__call__ in_cgs in_keV clight self chunk g
        = Ok (ncells, counts, active, energies, g') ->
        ncells = length counts /\ ncells = np.count_nonzero active
        /\ length energies = np.isum counts).
Proof.
  split; [|split].
  - intros self ncells counts idxs energies self' g' E.
    apply thermal_tuple.thermal_call_consistent in E.
    destruct E as [[E1 E2] E3]. auto.
  - intros self ncells counts active energies g' E.
    apply power_law_tuple.power_law_call_consistent in E.
    destruct E as [[E1 E2] E3]. auto.
  - intros self ncells counts active energies g' E.
    apply line_tuple.line_call_consistent in E.
    destruct E as [[E1 E2] E3]. auto.
Qed.

(** The three models run on the example chunk and return consistent
    tuples. *)
Lemma per_chunk_tuple_consistent_witness :
  match __call__ (fun x => x) (examples.thermal "invert_cdf")
                 examples.chunk examples.seed with
  | Ok (Some (ncells, counts, idxs, energies), _, _) =>
      ncells = length counts /\ ncells = length idxs
      /\ length energies = np.isum counts
  | _ => False
  end
  /\ match PowerLawSourceModel.__call__ examples.pow examples.log
             examples.power_law examples.chunk examples.seed with
     | Ok (ncells, counts, active, energies, _) =>
         ncells = length counts /\ ncells = np.count_nonzero active
         /\ length energies = np.isum counts
     | Raise _ => False
     end
  /\ match LineSourceModel.__call__ (fun x => x) (fun x => x) 1%Q
             examples.line examples.chunk examples.seed with
     | Ok (ncells, counts, active, energies, _) =>
         ncells = length counts /\ ncells = np.count_nonzero active
         /\ length energies = np.isum counts
     | Raise _ => False
     end.
Proof.
  pose proof (per_chunk_tuple_consistent N (fun x => x)
                examples.log (fun x => x) (fun x => x) examples.pow 1%Q
                examples.chunk examples.seed) as [T [P L]].
  split; [|split].
  - destruct (__call__ _ _ _ _) as [[[[[[[n c] i] e]|] s'] g']|x] eqn:E.
    + apply T in E. exact E.
    + vm_compute in E. discriminate E.
    + vm_compute in E. discriminate E.
  - destruct (PowerLawSourceModel.__call__ _ _ _ _ _)
      as [[[[[n c] a] e] g']|x] eqn:E.
    + apply P in E. exact E.
    + vm_compute in E. discriminate E.
  - destruct (LineSourceModel.__call__ _ _ _ _ _ _)
      as [[[[[n c] a] e] g']|x] eqn:E.
    + apply L in E. exact E.
    + vm_compute in E. discriminate E.
Defined.

End per_chunk_tuple.

(** ** The thermal model: the density cutoff *)

Module thermal_cutoff.
Import source_models.

(** [a] has the length of [cem] and is zero wherever [cem] is. *)
Definition vanishes (cem a : list Q) : Prop :=
  length a = length cem
  /\ forall q, (nth q cem 0 == 0)%Q -> (nth q a 0 == 0)%Q.

Lemma nth_map_Q (f : Q -> Q) (a : list Q) (q : nat) :
  q < length a -> nth q (map f a) 0%Q = f (nth q a 0%Q).
Proof.
  intros Hq. rewrite (nth_indep _ 0%Q (f 0%Q)) by (now rewrite length_map).
  apply map_nth.
Qed.

Lemma vanishes_scale (t : Q) (cem : list Q) :
  vanishes cem (map (Qmult t) cem).
Proof.
  split; [apply length_map|].
  intros q Hz. destruct (Nat.lt_ge_cases q (length cem)) as [Hq|Hq].
  - rewrite nth_map_Q by assumption. rewrite Hz. ring.
  - rewrite nth_overflow by (now rewrite length_map). reflexivity.
Qed.

Lemma vanishes_mult (x cem : list Q) :
  length x = length cem -> vanishes cem (np.map2 Qmult x cem).
Proof.
  intros Hl. split; [rewrite map2_length; lia|].
  intros q Hz. destruct (Nat.lt_ge_cases q (length cem)) as [Hq|Hq].
  - rewrite (map2_nth _ _ _ Qmult x cem 0%Q 0%Q) by lia.
    rewrite Hz. ring.
  - rewrite nth_overflow by (rewrite map2_length; lia). reflexivity.
Qed.

Lemma vanishes_plus (cem a b : list Q) :
  vanishes cem a -> vanishes cem b -> vanishes cem (np.map2 Qplus a b).
Proof.
  intros [La Ha] [Lb Hb]. split; [rewrite map2_length; lia|].
  intros q Hz. destruct (Nat.lt_ge_cases q (length cem)) as [Hq|Hq].
  - rewrite (map2_nth _ _ _ Qplus a b 0%Q 0%Q) by lia.
    rewrite (Ha q Hz), (Hb q Hz). ring.
  - rewrite nth_overflow by (rewrite map2_length; lia). reflexivity.
Qed.

Lemma vanishes_zeros (cem : list Q) : vanishes cem (np.zeros (length cem)).
Proof.
  split; [apply repeat_length|].
  intros q _. unfold np.zeros.
  destruct (Nat.lt_ge_cases q (length cem)) as [Hq|Hq].
  - now rewrite nth_repeat_lt.
  - rewrite nth_overflow by (now rewrite repeat_length). reflexivity.
Qed.

Lemma cell_norm_v_loop_vanishes (cem : list Q) (rows : list (list Q))
  (elemZ : option (list (list Q))) (ibegin iend : nat) (js : list nat) :
  forall acc r,
    vanishes cem acc ->
    cell_norm_v_loop acc cem rows elemZ ibegin iend js = Ok r ->
    vanishes cem r.
Proof.
  induction js as [|j js IH]; intros acc r Hacc E; simpl in E.
  - now inv_Ok E.
  - bind_inv E as row Erow. bind_inv E as ez Eez.
    bind_inv E as term Eterm. bind_inv E as acc' Eacc.
    apply ew2_inv in Eterm. destruct Eterm as [Lt ->].
    apply ew2_inv in Eacc. destruct Eacc as [La ->].
    apply (IH _ _ (vanishes_plus _ _ _ Hacc (vanishes_mult _ _ Lt)) E).
Qed.

(** The expected counts of a bin are zero at the cells whose scaled
    emission measure is zero. *)
Lemma cell_norm_of_vanishes (self : ThermalSourceModel)
  (cspec mspec : list Q) (vspec : option (list (list Q)))
  (cell_em metalZ : list Q) (elemZ : option (list (list Q)))
  (ibegin iend : nat) (cell_norm : list Q) :
  cell_norm_of self cspec mspec vspec cell_em metalZ elemZ ibegin iend
  = Ok cell_norm ->
  vanishes (np.slice cell_em ibegin iend) cell_norm.
Proof.
  unfold cell_norm_of. intros E.
  bind_inv E as cm Ecm. bind_inv E as cn Ecn.
  apply ew2_inv in Ecm. destruct Ecm as [Lm ->].
  apply ew2_inv in Ecn. destruct Ecn as [Ln ->].
  pose proof (vanishes_plus _ _ _
                (vanishes_scale (np.sum cspec) (np.slice cell_em ibegin iend))
                (vanishes_mult _ _ Lm)) as Hcn.
  destruct vspec as [rows|].
  - bind_inv E as cv Ecv.
    apply cell_norm_v_loop_vanishes in Ecv; [|apply vanishes_zeros].
    apply ew2_inv in E. destruct E as [Lv ->].
    now apply vanishes_plus.
  - now inv_Ok E.
Qed.

Lemma slice_nth (a : list Q) (i j q : nat) :
  q < length (np.slice a i j) -> nth q (np.slice a i j) 0%Q = nth (i + q) a 0%Q.
Proof.
  unfold np.slice. intros Hq. rewrite length_firstn in Hq.
  rewrite nth_firstn.
  destruct (Nat.ltb_spec q (j - i)); [|lia].
  apply nth_skipn.
Qed.

Lemma set_slice_nth (a : list nat) (i j : nat) (v a' : list nat) (p : nat) :
  np.set_slice a i j v = Ok a' ->
  nth p a' 0 = if (i <=? p) && (p <? i + length v)
               then nth (p - i) v 0 else nth p a 0.
Proof.
  intros E. apply set_slice_inv in E. destruct E as [Hv ->].
  destruct (Nat.le_gt_cases i (length a)) as [Hi|Hi].
  - assert (Hf : length (firstn i a) = i) by (rewrite length_firstn; lia).
    destruct (Nat.leb_spec i p); simpl.
    + rewrite app_nth2 by lia. rewrite Hf.
      destruct (Nat.ltb_spec p (i + length v)).
      * rewrite app_nth1 by lia. reflexivity.
      * rewrite app_nth2 by lia. rewrite nth_skipn. f_equal. lia.
    + rewrite app_nth1 by lia. rewrite nth_firstn.
      destruct (Nat.ltb_spec p i); [reflexivity | lia].
  - assert (Hv0 : v = []) by (destruct v; [reflexivity | simpl in Hv; lia]).
    subst v. simpl. rewrite Nat.add_0_r.
    rewrite firstn_all2, skipn_all2, app_nil_r by lia.
    destruct (Nat.leb_spec i p); simpl; [|reflexivity].
    destruct (Nat.ltb_spec p i); [lia | reflexivity].
Qed.

Section Cutoff.

Context {G : Type} `{RandomStateSpec G}.
Variable kelvin_to_keV : Q -> Q.

(** What the loop over the bins keeps true of the cells with a zero
    emission measure: every rate recorded for one is zero, and its photon
    count is zero. *)
Definition cut_inv (cell_em : list Q) (st : @call_state G) : Prop :=
  (forall p lam, In (p, lam) (lam_log st) ->
                 (nth p cell_em 0 == 0)%Q -> (lam == 0)%Q)
  /\ (forall p, (nth p cell_em 0 == 0)%Q ->
                nth p (number_of_photons st) 0 = 0).

Lemma cell_loop_keeps (self : ThermalSourceModel) (metalZ : list Q)
  (elemZ : option (list (list Q))) (icells : list nat) :
  forall (ei : nat) (arrs : bin_arrays) (st : call_state) arrs' st',
    cell_loop self metalZ elemZ icells ei arrs st = Ok (arrs', st') ->
    number_of_photons st' = number_of_photons st
    /\ lam_log st' = lam_log st.
Proof.
  induction icells as [|icell rest IH]; intros ei arrs st arrs' st' E.
  - simpl in E. inv_Ok E. auto.
  - simpl in E. bind_inv E as cn Ecn.
    destruct (Nat.eqb cn 0); [now apply IH in E|].
    bind_inv E as r Er. destruct r as [[[cell_e arrs1] g1] table].
    bind_inv E as en Een. apply IH in E. simpl in E. exact E.
Qed.

Lemma bin_step_cut (self : ThermalSourceModel)
  (kT_bins dkT cell_em metalZ : list Q) (elemZ : option (list (list Q)))
  (bin : nat * nat * nat * Z) (s e : nat) (st : call_state) s' e' st' :
  bin_step self kT_bins dkT cell_em metalZ elemZ bin s e st
  = Ok (s', e', st') ->
  cut_inv cell_em st -> cut_inv cell_em st'.
Proof.
  destruct bin as [[[ibegin iend] bcount] ikT].
  intros E [Hlam Hnph]. unfold bin_step in E.
  bind_inv E as edge Eedge. bind_inv E as width Ewidth.
  destruct (get_spectrum _ _) as [[cs ms] vs].
  bind_inv E as cell_norm Enorm.
  pose proof (poisson_length cell_norm (gen st)) as Hpl.
  pose proof (poisson_zero cell_norm (gen st)) as Hpz.
  destruct (poisson cell_norm (gen st)) as [cell_n g1].
  simpl in Hpl, Hpz.
  bind_inv E as nph Enph. bind_inv E as arrs Earrs.
  bind_inv E as fin Eloop. destruct fin as [arrs' st1]. inv_Ok E.
  apply cell_loop_keeps in Eloop. simpl in Eloop.
  destruct Eloop as [Hn1 Hl1].
  apply cell_norm_of_vanishes in Enorm. destruct Enorm as [Lc Hc].
  assert (Hcem : forall q, q < length cell_norm ->
                           (nth (ibegin + q) cell_em 0 == 0)%Q ->
                           (nth q cell_norm 0 == 0)%Q).
  { intros q Hq Hz. apply Hc. rewrite slice_nth by lia. exact Hz. }
  split.
  - intros p lam Hin Hz. rewrite Hl1 in Hin. apply in_app_or in Hin.
    destruct Hin as [Hin|Hin]; [eauto|].
    apply In_nth with (d := (0, 0%Q)) in Hin.
    destruct Hin as [q [Hq Hnth]].
    rewrite length_combine, length_seq, Nat.min_id in Hq.
    rewrite combine_nth in Hnth by (now rewrite length_seq).
    rewrite seq_nth in Hnth by assumption.
    injection Hnth as <- <-. now apply Hcem.
  - intros p Hz. rewrite Hn1.
    rewrite (set_slice_nth _ _ _ _ _ p Enph).
    destruct (Nat.leb_spec ibegin p); simpl; [|now apply Hnph].
    destruct (Nat.ltb_spec p (ibegin + length cell_n)); [|now apply Hnph].
    apply Hpz. apply Hcem; [lia|].
    now replace (ibegin + (p - ibegin)) with p by lia.
Qed.

Lemma bin_loop_cut (self : ThermalSourceModel)
  (kT_bins dkT cell_em metalZ : list Q) (elemZ : option (list (list Q)))
  (bins : list (nat * nat * nat * Z)) :
  forall (s e : nat) (st : call_state) s' e' st',
    bin_loop self kT_bins dkT cell_em metalZ elemZ bins s e st
    = Ok (s', e', st') ->
    cut_inv cell_em st -> cut_inv cell_em st'.
Proof.
  induction bins as [|bin bins IH]; intros s e st s' e' st' E Hinv.
  - simpl in E. now inv_Ok E.
  - simpl in E. bind_inv E as r Estep. destruct r as [[s1 e1] st1].
    apply bin_step_cut in Estep; [|assumption].
    now apply IH in E.
Qed.

Lemma take_nth_error (a : list Q) (idxs : list nat) :
  forall r, np.take a idxs = Ok r ->
            forall p c, nth_error idxs p = Some c ->
                        c < length a /\ nth p r 0%Q = nth c a 0%Q.
Proof.
  induction idxs as [|i idxs IH]; intros r E p c Hp; simpl in E.
  - destruct p; discriminate.
  - bind_inv E as x Ex. bind_inv E as xs Exs. inv_Ok E.
    apply item_Ok in Ex.
    destruct p as [|p]; simpl in *.
    + injection Hp as ->. split.
      * apply nth_error_Some. congruence.
      * symmetry. now apply nth_error_nth.
    + now apply (IH _ Exs).
Qed.

Lemma nth_error_lt (A : Type) (l : list A) (p : nat) (x : A) :
  nth_error l p = Some x -> p < length l.
Proof.
  intros E. apply nth_error_Some. congruence.
Qed.

Lemma take_length (a : list Q) (idxs : list nat) :
  forall r, np.take a idxs = Ok r -> length r = length idxs.
Proof.
  induction idxs as [|i idxs IH]; intros r E; simpl in E.
  - now inv_Ok E.
  - bind_inv E as x Ex. bind_inv E as xs Exs. inv_Ok E.
    simpl. f_equal. now apply IH.
Qed.

Lemma compress_In (mask : list bool) (a : list nat) (x : nat) :
  In x (np.compress mask a) ->
  exists p, nth_error a p = Some x /\ nth p mask false = true.
Proof.
  revert a. induction mask as [|b mask IH]; intros [|y a] Hin;
    simpl in Hin; try contradiction.
  destruct b.
  - destruct Hin as [->|Hin].
    + exists 0. auto.
    + destruct (IH _ Hin) as [p [Hp Hm]]. exists (S p). auto.
  - destruct (IH _ Hin) as [p [Hp Hm]]. exists (S p). auto.
Qed.

(** C6.  With a density cutoff configured, a cell whose density is not
    below the cutoff has a zero rate passed to the Poisson draw, whatever
    its temperature, metallicity and abundances, and it is not among the
    cells that the call returns as having drawn a photon. *)
Theorem thermal_density_cutoff (self : ThermalSourceModel) (chunk : Chunk)
  (g : G) (max_dens : Q) (dens : list Q) r self' g' tr :
  max_density self = Some max_dens ->
  chunk_get chunk (density_field self) = Ok dens ->
  run kelvin_to_keV self chunk g = Ok (r, self', g', tr) ->
  forall c, Qlt_bool (nth c dens 0%Q) max_dens = false ->
    (forall p lam, nth_error (selected tr) p = Some c ->
                   In (p, lam) (rates tr) -> (lam == 0)%Q)
    /\ (forall ncells counts idxs energies,
           r = Some (ncells, counts, idxs, energies) -> ~ In c idxs).
Proof.
  intros Hmax Hdens Erun c Hcut. unfold run in Erun.
  bind_inv Erun as temp Etemp.
  destruct (Nat.eqb (length temp) 0).
  { inv_Ok Erun. simpl. split.
    - intros p lam Hp. destruct p; discriminate.
    - discriminate. }
  rewrite Hmax, Hdens in Erun. simpl in Erun.
  bind_inv Erun as temp2 Etemp2.
  bind_inv Erun as em Eem. bind_inv Erun as EM EEM.
  bind_inv Erun as kT_sorted Esorted. bind_inv Erun as p0 Ep.
  match type of Erun with
  | (if ?b then _ else _) = _ => destruct b
  end.
  { inv_Ok Erun. simpl. split.
    - intros p lam Hp. destruct p; discriminate.
    - discriminate. }
  bind_inv Erun as kT_sel Esel. bind_inv Erun as bins Ebins.
  bind_inv Erun as bcounts Ebc.
  destruct (cell_ranges 0 _) as [bcell ecell].
  bind_inv Erun as em_sel Eems. bind_inv Erun as norm Enorm.
  bind_inv Erun as mz EmZ. destruct mz as [metalZ elem_keys].
  bind_inv Erun as elemZ EeZ. bind_inv Erun as widths Ew.
  bind_inv Erun as fin Eloop. destruct fin as [[s1 end_e] st].
  bind_inv Erun as active_idxs Eai. bind_inv Erun as cts Ects.
  inv_Ok Erun. simpl.
  set (idxs := np.slice (np.argsort (map kelvin_to_keV temp2))
                        (np.searchsorted kT_sorted (kT_min self))
                        (np.searchsorted kT_sorted (kT_max self))) in *.
  apply bin_loop_cut in Eloop.
  2:{ split; simpl.
      - intros p lam [].
      - intros p _. destruct (Nat.lt_ge_cases p (length idxs)).
        + now apply nth_repeat_lt.
        + apply nth_overflow. now rewrite repeat_length. }
  destruct Eloop as [Hlam Hnph].
  (* the scaled emission measure of a selected cell above the cutoff *)
  assert (Hem : forall p, nth_error idxs p = Some c ->
                  (nth p (map (fun e => e * norm) em_sel) 0 == 0)%Q).
  { intros p Hp.
    destruct (take_nth_error _ _ _ Eems p c Hp) as [Hc Hnth].
    assert (Hpl : p < length em_sel).
    { rewrite (take_length _ _ _ Eems). now apply nth_error_lt in Hp. }
    rewrite nth_map_Q by assumption. rewrite Hnth.
    apply ew2_inv in EEM. destruct EEM as [Ll ->].
    rewrite map2_length, length_map in Hc.
    rewrite length_map in Ll.
    rewrite (map2_nth _ _ _ _ em _ 0%Q false) by (rewrite ?length_map; lia).
    rewrite (nth_indep _ false (Qlt_bool 0 max_dens))
      by (rewrite length_map; lia).
    rewrite (map_nth (fun x => Qlt_bool x max_dens)), Hcut. ring. }
  split.
  - intros p lam Hp Hin. eapply Hlam; eauto.
  - intros ncells counts idxs' energies E. inv_Ok E.
    apply getmask_inv in Eai. destruct Eai as [Lm ->].
    intros Hin. apply compress_In in Hin. destruct Hin as [p [Hp Hm]].
    specialize (Hnph p (Hem p Hp)).
    assert (Hpl : p < length (number_of_photons st)).
    { rewrite length_map in Lm. rewrite Lm.
      now apply nth_error_lt in Hp. }
    rewrite (nth_indep _ false (0 <? 0)) in Hm
      by (now rewrite length_map).
    rewrite (map_nth (fun c => 0 <? c)), Hnph in Hm. discriminate.
Qed.

End Cutoff.

End thermal_cutoff.

(** The cutoff on the example chunk: its third cell has density 9, above
    the cutoff 5. *)
Lemma thermal_density_cutoff_witness :
  match examples.thermal_run "invert_cdf" examples.chunk with
  | Ok (r, _, _, tr) =>
      (forall p lam, nth_error (source_models.selected tr) p = Some 2 ->
                     In (p, lam) (source_models.rates tr) -> (lam == 0)%Q)
      /\ (forall ncells counts idxs energies,
             r = Some (ncells, counts, idxs, energies) -> ~ In 2 idxs)
  | Raise _ => False
  end.
Proof.
  destruct (examples.thermal_run "invert_cdf" examples.chunk)
    as [[[[r self'] g'] tr]|e] eqn:E.
  - apply (thermal_cutoff.thermal_density_cutoff (fun x => x)
             (examples.thermal "invert_cdf") examples.chunk examples.seed
             5%Q [1; 1; 9; 1]%Q r self' g' tr eq_refl eq_refl E 2).
    reflexivity.
  - vm_compute in E. discriminate E.
Defined.

(** ** The thermal model: the sampling table of a cell *)

Module thermal_sampling.
Import source_models.

Lemma array_equal_allclose (a b : list Q) :
  np.array_equal a b = true <-> np.allclose a b.
Proof.
  revert b. induction a as [|x a IH]; intros [|y b]; simpl.
  - split; [constructor | reflexivity].
  - split; [discriminate | intros E; inversion E].
  - split; [discriminate | intros E; inversion E].
  - rewrite andb_true_iff, Qeq_bool_iff, IH. split.
    + intros [Hx Hab]. now constructor.
    + intros E. inversion E. auto.
Qed.

(** C1 fails on the code.  On the example chunk the first two cells fall
    into one temperature bin and both draw photons; their metallicities
    are 1 and 0.  The first cell is sampled from the table of the
    specification.  The second is not: the first cell has overwritten the
    array the table is built from, and the second is sampled from the
    table of the first ([0, 1/4, 1] for [invert_cdf], [1/4, 3/4] for
    [accept_reject]) instead of its own ([0, 1/2, 1] and [1/2, 1/2]).
    When the first cell draws no photon, the second is sampled from its
    own table. *)
Theorem thermal_table_depends_on_earlier_cells :
  let cspec := [1; 1]%Q in
  let mspec := [0; 2]%Q in
  (* invert_cdf *)
  (let tabs := examples.tables_of
                 (examples.thermal_run "invert_cdf" examples.chunk) in
   map fst tabs = [0; 1]
   /\ np.array_equal (nth 0 (map snd tabs) [])
        (cumulative_spectrum_spec cspec mspec [] 1 []) = true
   /\ np.array_equal (nth 1 (map snd tabs) [])
        (cumulative_spectrum_spec cspec mspec [] 0 []) = false
   /\ np.array_equal (nth 1 (map snd tabs) []) [0; 1 # 4; 1]%Q = true)
  /\ (let tabs := examples.tables_of
                    (examples.thermal_run "invert_cdf"
                                          examples.chunk_first_dark) in
      map fst tabs = [1]
      /\ np.array_equal (nth 0 (map snd tabs) [])
           (cumulative_spectrum_spec cspec mspec [] 0 []) = true)
  (* accept_reject *)
  /\ (let tabs := examples.tables_of
                    (examples.thermal_run "accept_reject" examples.chunk) in
      map fst tabs = [0; 1]
      /\ np.array_equal (nth 0 (map snd tabs) [])
           (normalized_spectrum_spec cspec mspec [] 1 []) = true
      /\ np.array_equal (nth 1 (map snd tabs) [])
           (normalized_spectrum_spec cspec mspec [] 0 []) = false
      /\ np.array_equal (nth 1 (map snd tabs) []) [1 # 4; 3 # 4]%Q = true)
  /\ (let tabs := examples.tables_of
                    (examples.thermal_run "accept_reject"
                                          examples.chunk_first_dark) in
      map fst tabs = [1]
      /\ np.array_equal (nth 0 (map snd tabs) [])
           (normalized_spectrum_spec cspec mspec [] 0 []) = true).
Proof.
  vm_compute. repeat split.
Qed.

End thermal_sampling.

(** ** Facts about dictionaries *)

Module dict_facts.

Section Facts.

Variable V : Type.

Lemma get_set_same (m : dict.t V) (k : string) (v : V) :
  dict.get (dict.set m k v) k = Some v.
Proof.
  induction m as [|[k' v'] m IH]; simpl.
  - now rewrite String.eqb_refl.
  - destruct (String.eqb k k') eqn:E; simpl; rewrite E; auto.
Qed.

Lemma get_set_other (m : dict.t V) (k k' : string) (v : V) :
  k <> k' -> dict.get (dict.set m k' v) k = dict.get m k.
Proof.
  intros Hne. induction m as [|[k0 v0] m IH]; simpl.
  - destruct (String.eqb_spec k k'); congruence.
  - destruct (String.eqb_spec k' k0); simpl.
    + subst. destruct (String.eqb_spec k k0); congruence.
    + destruct (String.eqb_spec k k0); auto.
Qed.

Lemma get_In (m : dict.t V) (k : string) (v : V) :
  dict.get m k = Some v -> In (k, v) m.
Proof.
  induction m as [|[k' v'] m IH]; simpl; [discriminate|].
  destruct (String.eqb_spec k k').
  - intros E. injection E as ->. subst. auto.
  - auto.
Qed.

Lemma get_None (m : dict.t V) (k : string) :
  dict.get m k = None <-> ~ In k (dict.keys m).
Proof.
  induction m as [|[k' v'] m IH]; simpl.
  - tauto.
  - destruct (String.eqb_spec k k').
    + subst. split; [discriminate | tauto].
    + rewrite IH. split.
      * intros Hn [E|Hin]; [congruence | tauto].
      * intros Hn Hin. apply Hn. now right.
Qed.

(** Setting a key that is not present appends it. *)
Lemma set_fresh (m : dict.t V) (k : string) (v : V) :
  ~ In k (dict.keys m) -> dict.set m k v = m ++ [(k, v)].
Proof.
  induction m as [|[k' v'] m IH]; simpl; [reflexivity|].
  intros Hn. destruct (String.eqb_spec k k') as [->|Hne];
    [exfalso; apply Hn; now left|].
  rewrite IH; [reflexivity|]. intros Hin. apply Hn. now right.
Qed.

End Facts.

End dict_facts.

(** ** The event catalog *)

Module catalog.
Import event_list.

(** The invariant of the data model: the three per-photon arrays are
    present and have [num_events] entries each. *)
Definition lengths_ok (C : EventList) : Prop :=
  exists x y e,
    dict.get (events C) "xpix" = Some x
    /\ dict.get (events C) "ypix" = Some y
    /\ dict.get (events C) "eobs" = Some e
    /\ length (d x) = num_events C
    /\ length (d y) = num_events C
    /\ length (d e) = num_events C.

(** The items of two dictionaries agree in their keys, position by
    position, as far as both reach. *)
Definition same_order (ev ev' : dict.t array) : Prop :=
  Forall (fun p => fst (fst p) = fst (snd p)) (combine ev ev').

Lemma getitem_Ok (V : Type) (m : dict.t V) (k : string) (v : V) :
  dict.getitem m k = Ok v <-> dict.get m k = Some v.
Proof.
  unfold dict.getitem, of_option. destruct (dict.get m k); split; congruence.
Qed.

Lemma init_Ok (ev : dict.t array) (params : dict.t pvalue)
  (w : option WCS) (C : EventList) :
  __init__ ev params w = Ok C ->
  events C = ev /\ parameters C = params
  /\ exists x, dict.get ev "xpix" = Some x /\ num_events C = length (d x).
Proof.
  unfold __init__. intros E. bind_inv E as x Ex. bind_inv E as w' Ew.
  inv_Ok E. simpl. apply getitem_Ok in Ex. eauto.
Qed.

Lemma uconcatenate_d (arrs : list array) (u : array) :
  uconcatenate arrs = Ok u -> d u = concat (map d arrs).
Proof.
  unfold uconcatenate. destruct arrs as [|a1 rest]; [discriminate|].
  destruct (negb _); [intros E; now inv_Ok E|].
  destruct (negb _); [discriminate|].
  destruct (negb _); [discriminate|].
  intros E. now inv_Ok E.
Qed.


Section Add.

Variable assert_same_wcs : WCS -> WCS -> result unit.
Variable validate_parameters : dict.t pvalue -> dict.t pvalue -> result unit.

Lemma add_loop_keeps (ev ev' : dict.t array) :
  forall acc R k,
    add_loop (combine ev ev') acc = Ok R ->
    ~ In k (dict.keys ev) ->
    dict.get R k = dict.get acc k.
Proof.
  revert ev'. induction ev as [|[k1 v1] ev IH]; intros ev' acc R k E Hk.
  - simpl in E. now inv_Ok E.
  - destruct ev' as [|[k2 v2] ev']; simpl in E; [now inv_Ok E|].
    bind_inv E as u Eu.
    rewrite (IH _ _ _ _ E) by (intros Hin; apply Hk; now right).
    apply dict_facts.get_set_other. intros ->. apply Hk. now left.
Qed.

(** When the keys of the two catalogs come in the same order, every key
    of both holds the concatenation of the two arrays. *)
Lemma add_loop_get (ev ev' : dict.t array) :
  forall acc R k v v',
    add_loop (combine ev ev') acc = Ok R ->
    same_order ev ev' ->
    dict.wf ev ->
    dict.get ev k = Some v ->
    dict.get ev' k = Some v' ->
    exists u, uconcatenate [v; v'] = Ok u /\ dict.get R k = Some u.
Proof.
  revert ev'. induction ev as [|[k1 v1] ev IH];
    intros ev' acc R k v v' E Hso Hwf Hv Hv'; [discriminate|].
  destruct ev' as [|[k2 v2] ev']; [discriminate|].
  simpl in E. bind_inv E as u Eu.
  inversion Hso as [|p l Hk Hso']; subst. simpl in Hk. subst k2.
  inversion Hwf as [|k0 l Hnin Hwf']; subst.
  simpl in Hv, Hv'. destruct (String.eqb_spec k k1) as [->|Hne].
  - injection Hv as ->. injection Hv' as ->.
    exists u. split; [assumption|].
    rewrite (add_loop_keeps _ _ _ _ _ E Hnin).
    apply dict_facts.get_set_same.
  - eapply IH; eauto.
Qed.

Lemma add_same_order (self other R : EventList) (k : string) (v v' : array) :
  __add__ assert_same_wcs validate_parameters self other = Ok R ->
  same_order (events self) (events other) ->
  dict.wf (events self) ->
  dict.get (events self) k = Some v ->
  dict.get (events other) k = Some v' ->
  exists u, dict.get (events R) k = Some u
            /\ d u = d v ++ d v' /\ units u = units v.
Proof.
  unfold __add__. intros E Hso Hwf Hv Hv'.
  bind_inv E as t1 E1. bind_inv E as t2 E2. bind_inv E as ev Eev.
  apply init_Ok in E. destruct E as (-> & _).
  destruct (add_loop_get _ _ _ _ _ _ _ Eev Hso Hwf Hv Hv') as [u [Eu Hu]].
  exists u. split; [assumption|]. split.
  - rewrite (uconcatenate_d _ _ Eu). simpl. now rewrite app_nil_r.
  - clear - Eu. unfold uconcatenate in Eu.
    destruct (existsb is_YTArray [v; v']) eqn:E1; simpl in Eu.
    + destruct (negb (is_YTArray v && (is_YTArray v' && true)));
        [discriminate|].
      destruct (negb (same_units v v' && true)); [discriminate|].
      now inv_Ok Eu.
    + inv_Ok Eu. simpl in *. unfold is_YTArray in E1.
      destruct (units v); [discriminate | reflexivity].
Qed.

Lemma add_lengths_ok (self other R : EventList) :
  __add__ assert_same_wcs validate_parameters self other = Ok R ->
  same_order (events self) (events other) ->
  dict.wf (events self) ->
  lengths_ok self -> lengths_ok other ->
  lengths_ok R /\ num_events R = num_events self + num_events other.
Proof.
  intros E Hso Hwf (x & y & e & Hx & Hy & He & Lx & Ly & Le)
         (x' & y' & e' & Hx' & Hy' & He' & Lx' & Ly' & Le').
  destruct (add_same_order _ _ _ _ _ _ E Hso Hwf Hx Hx') as (ux & Hux & Dx & _).
  destruct (add_same_order _ _ _ _ _ _ E Hso Hwf Hy Hy') as (uy & Huy & Dy & _).
  destruct (add_same_order _ _ _ _ _ _ E Hso Hwf He He') as (ue & Hue & De & _).
  unfold __add__ in E.
  bind_inv E as t1 E1. bind_inv E as t2 E2. bind_inv E as ev Eev.
  pose proof E as Ei. apply init_Ok in Ei.
  destruct Ei as (Eev' & _ & x0 & Hx0 & Hn).
  rewrite Eev' in *. rewrite Hux in Hx0. injection Hx0 as <-.
  assert (Hnum : num_events R = num_events self + num_events other)
    by (rewrite Hn, Dx, length_app; lia).
  split; [|assumption].
  exists ux, uy, ue. rewrite Eev'.
  repeat split; auto; rewrite ?Dx, ?Dy, ?De, length_app; lia.
Qed.

End Add.

Section Sources.

Context {G : Type} `{RandomStateSpec G}.
Variable wcs_world2pix : WCS -> Q -> Q -> Q * Q.





(** The arrays the loop of [add_point_sources] collects have the same
    total length for the three keys. *)
Definition total (arrs : list array) : nat := length (concat (map d arrs)).




End Sources.

(** *** Region selection *)

(** Every array of the catalog has [num_events] entries. *)
Definition uniform_lengths (C : EventList) : Prop :=
  Forall (fun kv => length (d (snd kv)) = num_events C) (events C).

(** What [filter_events] stores for an item of the catalog. *)
Definition select (idxs : list bool) (kv : string * array)
  : string * array :=
  (fst kv, mk_array (np.compress idxs (d (snd kv))) (units (snd kv))).

Lemma filter_loop_Ok (idxs : list bool) (its : list (string * array)) :
  forall acc,
    NoDup (dict.keys (acc ++ its)) ->
    Forall (fun kv => length (d (snd kv)) = length idxs) its ->
    filter_loop its idxs acc = Ok (acc ++ map (select idxs) its).
Proof.
  induction its as [|[k v] its IH]; intros acc Hnd Hl; simpl.
  - now rewrite app_nil_r.
  - inversion Hl as [|kv l Hv Hl']; subst. simpl in Hv.
    rewrite getmask_Ok by congruence. simpl.
    assert (Hk : ~ In k (dict.keys acc)).
    { unfold dict.keys in *. rewrite map_app in Hnd. simpl in Hnd.
      apply NoDup_remove_2 in Hnd. intros Hin. apply Hnd.
      apply in_or_app. now left. }
    rewrite dict_facts.set_fresh by assumption.
    rewrite IH; auto.
    + now rewrite <- app_assoc.
    + unfold dict.keys in *. rewrite <- app_assoc. simpl.
      rewrite !map_app in *. simpl in *. exact Hnd.
Qed.

Lemma get_select (idxs : list bool) (ev : dict.t array) (k : string) :
  dict.get (map (select idxs) ev) k
  = option_map (fun v => mk_array (np.compress idxs (d v)) (units v))
               (dict.get ev k).
Proof.
  induction ev as [|[k' v'] ev IH]; simpl; [reflexivity|].
  destruct (String.eqb k k'); auto.
Qed.

Lemma select_all (ev : dict.t array) (n : nat) :
  Forall (fun kv => length (d (snd kv)) = n) ev ->
  map (select (repeat true n)) ev = ev.
Proof.
  induction 1 as [|[k [a u]] ev Hv Hev IH]; simpl; [reflexivity|].
  rewrite IH. unfold select. simpl in *. subst n.
  now rewrite compress_all_true.
Qed.

Lemma all_true_repeat (m : list bool) :
  Forall (eq true) m -> m = repeat true (length m).
Proof.
  induction 1 as [|b m Hb Hm IH]; simpl; [reflexivity|].
  subst b. now rewrite <- IH.
Qed.

Section Filter.

Variable wcs_pix2world : WCS -> list Q -> list Q -> list Q * list Q.
Variable get_filter : string -> WCS -> result (Q -> Q -> bool).

Lemma getitem_present (self : EventList) (key : string) (v : array) :
  dict.get (events self) key = Some v ->
  __getitem__ wcs_pix2world self key = Ok (v, self).
Proof.
  intros Hv. unfold __getitem__, dict.contains, dict.getitem.
  rewrite Hv. simpl. now rewrite Hv.
Qed.

(** C4.  For a catalog with unique keys whose arrays all have
    [num_events] entries: [filter_events] leaves the catalog as it is; it
    raises the error "No events are inside this region!" exactly when no
    event lies inside the region; otherwise it returns a new catalog with
    the same keys and parameters in which every array holds the entries of
    the events inside the region, in their order; and when all events lie
    inside, the new catalog has the same [num_events] and the same
    arrays. *)
Theorem filter_events_selects (self : EventList) (region : string)
  (f : Q -> Q -> bool) (x y : array) (w : WCS) :
  get_filter region (wcs self) = Ok f ->
  dict.wf (events self) ->
  uniform_lengths self ->
  dict.get (events self) "xpix" = Some x ->
  dict.get (events self) "ypix" = Some y ->
  default_wcs (parameters self) = Ok w ->
  let inside := np.map2 f (d x) (d y) in
  let outcome := fst (filter_events wcs_pix2world get_filter self region) in
  snd (filter_events wcs_pix2world get_filter self region) = self
  /\ (outcome = Raise (RuntimeError "No events are inside this region!")
      <-> np.count_nonzero inside = 0)
  /\ (np.count_nonzero inside <> 0 ->
      exists new,
        outcome = Ok new
        /\ num_events new = np.count_nonzero inside
        /\ parameters new = parameters self
        /\ dict.keys (events new) = dict.keys (events self)
        /\ forall k v,
             dict.get (events self) k = Some v ->
             dict.get (events new) k
             = Some (mk_array (np.compress inside (d v)) (units v)))
  /\ (0 < num_events self -> Forall (eq true) inside ->
      exists new,
        outcome = Ok new
        /\ num_events new = num_events self
        /\ events new = events self).
Proof.
  intros Hf Hwf Hlen Hx Hy Hw inside outcome.
  assert (Lx : length (d x) = num_events self).
  { unfold uniform_lengths in Hlen. rewrite Forall_forall in Hlen.
    apply (Hlen ("xpix", x)). now apply dict_facts.get_In. }
  assert (Ly : length (d y) = num_events self).
  { unfold uniform_lengths in Hlen. rewrite Forall_forall in Hlen.
    apply (Hlen ("ypix", y)). now apply dict_facts.get_In. }
  assert (Li : length inside = num_events self).
  { unfold inside. rewrite map2_length. lia. }
  assert (Hrun : filter_events wcs_pix2world get_filter self region
                 = (if Nat.eqb (np.count_nonzero inside) 0
                    then Raise (RuntimeError
                                  "No events are inside this region!")
                    else Ok (mk_EventList
                               (map (select inside) (events self))
                               (parameters self)
                               (np.count_nonzero inside) w),
                    self)).
  { unfold filter_events. rewrite Hf.
    rewrite (getitem_present _ _ _ Hx), (getitem_present _ _ _ Hy).
    rewrite ew2_Ok by congruence. fold inside.
    destruct (Nat.eqb (np.count_nonzero inside) 0); [reflexivity|].
    f_equal. unfold items, dict.items.
    rewrite (filter_loop_Ok inside (events self) (dict.empty array));
      [|exact Hwf
       |unfold uniform_lengths in Hlen; now rewrite Li].
    simpl. unfold __init__, dict.getitem.
    rewrite get_select, Hx. simpl. rewrite Hw. simpl.
    now rewrite compress_length by congruence. }
  unfold outcome. rewrite Hrun. simpl.
  split; [reflexivity|]. split; [|split].
  - destruct (Nat.eqb_spec (np.count_nonzero inside) 0); split; intros E;
      auto; congruence.
  - intros Hne.
    destruct (Nat.eqb_spec (np.count_nonzero inside) 0); [contradiction|].
    eexists. split; [reflexivity|]. simpl. repeat split.
    + unfold dict.keys. rewrite map_map. reflexivity.
    + intros k v Hv. now rewrite get_select, Hv.
  - intros Hpos Hall.
    apply all_true_repeat in Hall. rewrite Li in Hall.
    assert (Hc : np.count_nonzero inside = num_events self)
      by (rewrite Hall; apply count_nonzero_repeat_true).
    rewrite Hc.
    destruct (Nat.eqb_spec (num_events self) 0); [lia|].
    eexists. split; [reflexivity|]. simpl. split; [reflexivity|].
    rewrite Hall. now apply select_all.
Qed.


End Filter.

(** The left half of the field holds the first of the two example
    events. *)
Lemma filter_events_selects_witness :
  exists new,
    fst (filter_events examples.pix2world examples.left_half
                       examples.catalog "left") = Ok new
    /\ num_events new = 1
    /\ dict.get (events new) "eobs" = Some (YTArray [1.5]%Q "keV")
    /\ snd (filter_events examples.pix2world examples.left_half
                          examples.catalog "left") = examples.catalog.
Proof.
  destruct (filter_events_selects examples.pix2world examples.left_half
              examples.catalog "left" (fun x y => Qle_bool x 1.5)
              (ndarray [1; 2]%Q) (ndarray [3; 1]%Q) examples.wcs)
    as (Hself & _ & Hsel & _).
  - reflexivity.
  - repeat constructor; simpl; intuition discriminate.
  - repeat constructor.
  - reflexivity.
  - reflexivity.
  - reflexivity.
  - destruct Hsel as (new & Hnew & Hn & _ & _ & Hk);
      [vm_compute; discriminate|].
    exists new. repeat split; auto.
    apply (Hk "eobs" (YTArray [1.5; 2.5]%Q "keV")). reflexivity.
Defined.

(** *** Construction and deserialization *)

Section Build.

Variable parse_value : pvalue -> string -> pvalue.


End Build.




End catalog.

(** ** The invariant of the catalog under its operations *)

Module catalog_invariant.
Import event_list catalog.



Lemma example_catalog_lengths_ok : lengths_ok examples.catalog.
Proof.
  exists (ndarray [1; 2]%Q), (ndarray [3; 1]%Q), (YTArray [1.5; 2.5]%Q "keV").
  repeat split.
Qed.


End catalog_invariant.

(** ** Merging two catalogs *)

Module catalog_merge.
Import event_list catalog.

(** C2 fails on the code when the two dictionaries list their keys in
    different orders: [__add__] pairs the items by position and stores
    each pair under the key of the first catalog.  The example catalogs
    hold [xpix = [1, 2]], [ypix = [3, 1]] and, filled in the order
    [ypix], [xpix], [eobs], [xpix = [10]], [ypix = [20]].  Their sum holds
    [xpix = [1, 2, 20]] and [ypix = [3, 1, 10]], not the concatenations
    [[1, 2, 10]] and [[3, 1, 20]]. *)
Theorem add_pairs_items_by_position :
  exists R,
    __add__ examples.checks_pass examples.checks_pass
            examples.catalog examples.catalog_ypix_first = Ok R
    /\ dict.get (events examples.catalog) "xpix" = Some (ndarray [1; 2]%Q)
    /\ dict.get (events examples.catalog_ypix_first) "xpix"
       = Some (ndarray [10]%Q)
    /\ dict.get (events R) "xpix" = Some (ndarray [1; 2; 20]%Q)
    /\ dict.get (events examples.catalog) "ypix" = Some (ndarray [3; 1]%Q)
    /\ dict.get (events examples.catalog_ypix_first) "ypix"
       = Some (ndarray [20]%Q)
    /\ dict.get (events R) "ypix" = Some (ndarray [3; 1; 10]%Q)
    /\ num_events R = 3.
Proof.
  eexists. split; [reflexivity|]. simpl. repeat split.
Qed.

(** When the two dictionaries list their keys in the same order, the sum
    has [num_events] equal to the sum of the two, and under every key of
    both the array of the first catalog followed by the array of the
    second, with the unit of the first.  The operands are values of the
    model and are not changed. *)
Theorem add_concatenates_in_key_order
  (assert_same_wcs : WCS -> WCS -> result unit)
  (validate_parameters : dict.t pvalue -> dict.t pvalue -> result unit)
  (self other R : EventList) :
  __add__ assert_same_wcs validate_parameters self other = Ok R ->
  same_order (events self) (events other) ->
  dict.wf (events self) ->
  lengths_ok self -> lengths_ok other ->
  num_events R = num_events self + num_events other
  /\ parameters R = parameters self
  /\ forall k v v',
       dict.get (events self) k = Some v ->
       dict.get (events other) k = Some v' ->
       exists u, dict.get (events R) k = Some u
                 /\ d u = d v ++ d v' /\ units u = units v.
Proof.
  intros E Hso Hwf Hs Ho. split; [|split].
  - now apply (add_lengths_ok _ _ _ _ _ E Hso Hwf Hs Ho).
  - unfold __add__ in E. bind_inv E as t1 E1. bind_inv E as t2 E2.
    bind_inv E as ev Eev. apply init_Ok in E. tauto.
  - intros k v v'. now apply (add_same_order _ _ _ _ _ _ _ _ E Hso Hwf).
Qed.

Lemma add_concatenates_in_key_order_witness :
  match __add__ examples.checks_pass examples.checks_pass
                examples.catalog examples.catalog with
  | Ok R =>
      num_events R = 4
      /\ exists u, dict.get (events R) "eobs" = Some u
                   /\ d u = [1.5; 2.5; 1.5; 2.5]%Q /\ units u = Some "keV"
  | Raise _ => False
  end.
Proof.
  destruct (__add__ _ _ _ _) as [R|e] eqn:E.
  - destruct (add_concatenates_in_key_order _ _ _ _ _ E) as (Hn & _ & Hk).
    + repeat constructor.
    + repeat constructor; simpl; intuition discriminate.
    + apply catalog_invariant.example_catalog_lengths_ok.
    + apply catalog_invariant.example_catalog_lengths_ok.
    + split; [exact Hn|].
      apply (Hk "eobs" (YTArray [1.5; 2.5]%Q "keV")
                (YTArray [1.5; 2.5]%Q "keV")); reflexivity.
  - vm_compute in E. discriminate E.
Defined.

End catalog_merge.

(** ** Background events *)

Module background.
Import event_list catalog.

Lemma insert_sorted_length (v : Q) (s : list Q) :
  length (np.insert_sorted v s) = S (length s).
Proof.
  induction s as [|w s IH]; simpl; [reflexivity|].
  destruct (Qle_bool v w); simpl; auto.
Qed.

Lemma sort_length (a : list Q) : length (np.sort a) = length a.
Proof.
  induction a as [|x a IH]; simpl; [reflexivity|].
  unfold np.sort in *. simpl. now rewrite insert_sorted_length, IH.
Qed.

Lemma cumsum_from_length (a : list Q) :
  forall acc, length (np.cumsum_from acc a) = length a.
Proof.
  induction a as [|x a IH]; intros acc; simpl; auto.
Qed.


Lemma interp_Ok (x xp fp : list Q) :
  length xp = length fp -> xp <> [] ->
  np.interp x xp fp = Ok (map (np.interp1 xp fp) x).
Proof.
  intros Hl Hne. unfold np.interp. rewrite Hl, Nat.eqb_refl.
  destruct xp; [contradiction | reflexivity].
Qed.


Section Background.

Context {G : Type} `{RandomStateSpec G}.




End Background.


End background.

(** ** The checkpoint format: writing and reading back *)

Module checkpoint.
Import event_list catalog.

(** The parameters the checkpoint format stores. *)
Definition stored_parameters : list string :=
  ["ExposureTime"; "Area"; "Redshift"; "AngularDiameterDistance";
   "sky_center"; "dtheta"; "pix_center"].

(** The parameters of a catalog in the units of the data model and of the
    checkpoint format. *)
Definition parameters_in_units (params : dict.t pvalue)
  (t a dt : Q) (sc pc : list Q) : Prop :=
  dict.get params "ExposureTime" = Some (YTQuantity t "s")
  /\ dict.get params "Area" = Some (YTQuantity a "cm**2")
  /\ dict.get params "sky_center" = Some (PArray (YTArray sc "deg"))
  /\ dict.get params "pix_center" = Some (PArray (ndarray pc))
  /\ dict.get params "dtheta" = Some (YTQuantity dt "deg")
  /\ (forall v, dict.get params "Redshift" = Some v ->
                exists z, v = PFloat z)
  /\ (forall v, dict.get params "AngularDiameterDistance" = Some v ->
                exists q, v = YTQuantity q "Mpc").

(** The cached sky coordinates, when present, are [YTArray]s (as
    [__getitem__] stores them). *)
Definition sky_cache_ok (ev : dict.t array) : Prop :=
  forall k v, k = "xsky" \/ k = "ysky" ->
              dict.get ev k = Some v -> is_YTArray v = true.

Lemma parameters_round_trip (self : EventList) (t a dt : Q)
  (sc pc : list Q) :
  parameters_in_units (parameters self) t a dt sc pc ->
  exists p params,
    write_parameters self = Ok p
    /\ read_parameters p = Ok params
    /\ default_wcs params
       = Ok (mk_WCS pc sc [(- dt)%Q; dt] ["RA---TAN"; "DEC--TAN"]
                    ["deg"; "deg"])
    /\ forall k, In k stored_parameters ->
                 dict.get params k = dict.get (parameters self) k.
Proof.
  intros (Ht & Ha & Hsc & Hpc & Hdt & Hz & Hda).
  unfold write_parameters, dict.getitem, dict.contains.
  rewrite Ht, Ha, Hsc, Hpc, Hdt. simpl.
  destruct (dict.get (parameters self) "Redshift") as [vz|] eqn:Ez;
    destruct (dict.get (parameters self) "AngularDiameterDistance")
      as [vd|] eqn:Ed;
    try (destruct (Hz _ eq_refl) as [z ->]);
    try (destruct (Hda _ eq_refl) as [q ->]);
    simpl; eexists; eexists; (split; [reflexivity|]);
    (split; [reflexivity|]); (split; [reflexivity|]);
    intros k Hk; simpl in Hk;
    repeat (destruct Hk as [<-|Hk]; [simpl; congruence|]);
    contradiction.
Qed.

Section RoundTrip.

Variable wcs_pix2world : WCS -> list Q -> list Q -> list Q * list Q.

(** Reading a sky coordinate returns a [YTArray] and leaves the other
    arrays of the catalog as they are. *)
Lemma getitem_sky (self : EventList) (key : string) (xp yp : array) :
  key = "xsky" \/ key = "ysky" ->
  dict.get (events self) "xpix" = Some xp ->
  dict.get (events self) "ypix" = Some yp ->
  sky_cache_ok (events self) ->
  exists v self',
    __getitem__ wcs_pix2world self key = Ok (v, self')
    /\ is_YTArray v = true
    /\ sky_cache_ok (events self')
    /\ parameters self' = parameters self
    /\ forall k, k <> "xsky" -> k <> "ysky" ->
                 dict.get (events self') k = dict.get (events self) k.
Proof.
  intros Hkey Hx Hy Hsky. unfold __getitem__, dict.contains.
  destruct (dict.get (events self) key) as [v|] eqn:Ev.
  - simpl. unfold dict.getitem. rewrite Ev. simpl.
    exists v, self. repeat split; eauto.
  - assert (Hk : (String.eqb key "xsky" || String.eqb key "ysky") = true)
      by (destruct Hkey as [-> | ->]; reflexivity).
    rewrite Hk. simpl. unfold dict.getitem at 1 2. rewrite Hx, Hy. simpl.
    destruct (wcs_pix2world _ _ _) as [sx sy]. simpl.
    set (ev' := dict.set (dict.set (events self) "xsky" _) "ysky" _).
    assert (Hgx : dict.get ev' "xsky" = Some (YTArray sx "degree")).
    { unfold ev'. rewrite dict_facts.get_set_other by discriminate.
      apply dict_facts.get_set_same. }
    assert (Hgy : dict.get ev' "ysky" = Some (YTArray sy "degree"))
      by apply dict_facts.get_set_same.
    unfold dict.getitem.
    destruct Hkey as [-> | ->]; [rewrite Hgx | rewrite Hgy]; simpl;
      eexists; eexists; (split; [reflexivity|]); simpl;
      (split; [reflexivity|]); (split; [|split; [reflexivity|]]).
    + intros k v [-> | ->] Hv; [rewrite Hgx in Hv | rewrite Hgy in Hv];
        injection Hv as <-; reflexivity.
    + intros k Hk1 Hk2. unfold ev'.
      now rewrite !dict_facts.get_set_other by assumption.
    + intros k v [-> | ->] Hv; [rewrite Hgx in Hv | rewrite Hgy in Hv];
        injection Hv as <-; reflexivity.
    + intros k Hk1 Hk2. unfold ev'.
      now rewrite !dict_facts.get_set_other by assumption.
Qed.

Lemma events_round_trip (self : EventList) (x y e : list Q) :
  dict.get (events self) "xpix" = Some (ndarray x) ->
  dict.get (events self) "ypix" = Some (ndarray y) ->
  dict.get (events self) "eobs" = Some (YTArray e "keV") ->
  sky_cache_ok (events self) ->
  exists dg self',
    write_events wcs_pix2world self = Ok (dg, self')
    /\ read_events dg
       = Ok [("xpix", ndarray x); ("ypix", ndarray y);
             ("eobs", YTArray e "keV")]
    /\ parameters self' = parameters self
    /\ forall k, k <> "xsky" -> k <> "ysky" ->
                 dict.get (events self') k = dict.get (events self) k.
Proof.
  intros Hx Hy He Hsky. unfold write_events.
  rewrite (getitem_present _ _ _ _ Hx). simpl.
  rewrite (getitem_present _ _ _ _ Hy). simpl.
  destruct (getitem_sky self "xsky" _ _ (or_introl eq_refl) Hx Hy Hsky)
    as (vx & self1 & E1 & Yx & Hsky1 & Hp1 & Hk1).
  rewrite E1. simpl. unfold array_d at 1. rewrite Yx. simpl.
  assert (Hx1 : dict.get (events self1) "xpix" = Some (ndarray x))
    by (rewrite Hk1; [assumption | discriminate | discriminate]).
  assert (Hy1 : dict.get (events self1) "ypix" = Some (ndarray y))
    by (rewrite Hk1; [assumption | discriminate | discriminate]).
  destruct (getitem_sky self1 "ysky" _ _ (or_intror eq_refl) Hx1 Hy1 Hsky1)
    as (vy & self2 & E2 & Yy & Hsky2 & Hp2 & Hk2).
  rewrite E2. simpl. unfold array_d at 1. rewrite Yy. simpl.
  assert (He2 : dict.get (events self2) "eobs" = Some (YTArray e "keV")).
  { rewrite Hk2, Hk1; [assumption | discriminate..]. }
  rewrite (getitem_present _ _ _ _ He2). simpl.
  eexists. eexists. split; [reflexivity|]. split; [reflexivity|].
  split; [congruence|].
  intros k Hn1 Hn2. now rewrite Hk2, Hk1.
Qed.

(** C3.  For a catalog whose parameters are in the units of the data
    model, writing it with [write_h5_file] and reading the file back with
    [from_h5_file] succeeds and yields a catalog with the same [xpix],
    [ypix] and [eobs] arrays and the same exposure time, area, sky centre,
    pixel centre, angular scale and, when present, redshift and
    angular-diameter distance. *)
Theorem h5_round_trip (self : EventList) (h5file : string)
  (fs : filesystem) (t a dt : Q) (sc pc x y e : list Q) :
  parameters_in_units (parameters self) t a dt sc pc ->
  dict.get (events self) "xpix" = Some (ndarray x) ->
  dict.get (events self) "ypix" = Some (ndarray y) ->
  dict.get (events self) "eobs" = Some (YTArray e "keV") ->
  sky_cache_ok (events self) ->
  exists fs' self' R,
    write_h5_file wcs_pix2world self h5file fs = Ok (fs', self')
    /\ from_h5_file h5file fs' = Ok R
    /\ dict.get (events R) "xpix" = dict.get (events self) "xpix"
    /\ dict.get (events R) "ypix" = dict.get (events self) "ypix"
    /\ dict.get (events R) "eobs" = dict.get (events self) "eobs"
    /\ num_events R = length x
    /\ forall k, In k stored_parameters ->
                 dict.get (parameters R) k = dict.get (parameters self) k.
Proof.
  intros Hpar Hx Hy He Hsky.
  destruct (parameters_round_trip self t a dt sc pc Hpar)
    as (p & params & Ewp & Erp & Ew & Hk).
  destruct (events_round_trip self x y e Hx Hy He Hsky)
    as (dg & self' & Ewe & Ere & _ & _).
  unfold write_h5_file. rewrite Ewp. simpl. rewrite Ewe. simpl.
  eexists. eexists. eexists. split; [reflexivity|].
  unfold from_h5_file, fs_write. rewrite String.eqb_refl. simpl.
  rewrite Erp. simpl. rewrite Ere. simpl.
  unfold __init__. simpl. rewrite Ew. simpl.
  split; [reflexivity|]. simpl. rewrite Hx, Hy, He.
  repeat split; auto.
Qed.

End RoundTrip.

(** The example catalog written to and read back from a file. *)
Lemma h5_round_trip_witness :
  exists fs' self' R,
    write_h5_file examples.pix2world examples.catalog "events.h5"
                  (fun _ => None) = Ok (fs', self')
    /\ from_h5_file "events.h5" fs' = Ok R
    /\ dict.get (events R) "xpix" = dict.get (events examples.catalog) "xpix"
    /\ dict.get (events R) "ypix" = dict.get (events examples.catalog) "ypix"
    /\ dict.get (events R) "eobs" = dict.get (events examples.catalog) "eobs"
    /\ num_events R = length [1; 2]%Q
    /\ forall k, In k stored_parameters ->
                 dict.get (parameters R) k
                 = dict.get (parameters examples.catalog) k.
Proof.
  apply (h5_round_trip examples.pix2world examples.catalog "events.h5"
           (fun _ => None) 10 2 0.01 [30; 45]%Q [2; 2]%Q
           [1; 2]%Q [3; 1]%Q [1.5; 2.5]%Q).
  - unfold parameters_in_units. simpl.
    repeat split; try reflexivity; discriminate.
  - reflexivity.
  - reflexivity.
  - reflexivity.
  - intros k v [-> | ->]; discriminate.
Defined.

End checkpoint.

(** ** The cached sky coordinates *)

Module sky_cache.
Import event_list catalog.

(** [EventList.__getitem__]: a key that is neither stored nor a sky
    coordinate raises [KeyError].  The first read of [xsky] projects the
    pixel positions with the world-coordinate mapping and stores both sky
    coordinates, in degrees, next to the arrays the catalog had; every
    later read of [xsky] or [ysky] returns the stored array without
    consulting the mapping, and leaves the catalog as it is. *)
Theorem sky_coordinates_computed_once
  (wcs_pix2world : WCS -> list Q -> list Q -> list Q * list Q)
  (self : EventList) (xp yp : array) :
  dict.get (events self) "xpix" = Some xp ->
  dict.get (events self) "ypix" = Some yp ->
  dict.get (events self) "xsky" = None ->
  let sky := wcs_pix2world (wcs self) (d xp) (d yp) in
  (forall key,
      dict.get (events self) key = None -> key <> "xsky" -> key <> "ysky" ->
      __getitem__ wcs_pix2world self key = Raise (KeyError key))
  /\ exists self',
       __getitem__ wcs_pix2world self "xsky"
       = Ok (YTArray (fst sky) "degree", self')
       /\ (forall other,
              __getitem__ other self' "xsky"
              = Ok (YTArray (fst sky) "degree", self')
              /\ __getitem__ other self' "ysky"
                 = Ok (YTArray (snd sky) "degree", self'))
       /\ (forall k, k <> "xsky" -> k <> "ysky" ->
                     dict.get (events self') k = dict.get (events self) k)
       /\ parameters self' = parameters self
       /\ num_events self' = num_events self
       /\ wcs self' = wcs self.
Proof.
  intros Hx Hy Hsky sky. split.
  - intros key Hk Hn1 Hn2. unfold __getitem__, dict.contains.
    rewrite Hk. simpl.
    destruct (String.eqb_spec key "xsky"); [contradiction|].
    destruct (String.eqb_spec key "ysky"); [contradiction|].
    simpl. unfold dict.getitem. now rewrite Hk.
  - unfold __getitem__ at 1. unfold dict.contains. rewrite Hsky. simpl.
    unfold dict.getitem at 1 2. rewrite Hx, Hy. simpl.
    fold sky. destruct sky as [sx sy] eqn:Esky. simpl.
    set (ev' := dict.set (dict.set (events self) "xsky" _) "ysky" _).
    assert (Hgx : dict.get ev' "xsky" = Some (YTArray sx "degree")).
    { unfold ev'. rewrite dict_facts.get_set_other by discriminate.
      apply dict_facts.get_set_same. }
    assert (Hgy : dict.get ev' "ysky" = Some (YTArray sy "degree"))
      by apply dict_facts.get_set_same.
    unfold dict.getitem. rewrite Hgx. simpl.
    eexists. split; [reflexivity|]. split; [|split; [|auto]].
    + intros other. split.
      * apply getitem_present. exact Hgx.
      * apply getitem_present. exact Hgy.
    + intros k Hk1 Hk2. simpl. unfold ev'.
      now rewrite !dict_facts.get_set_other by assumption.
Qed.

(** The example catalog on a flat sky. *)
Lemma sky_coordinates_computed_once_witness :
  exists self',
    __getitem__ examples.pix2world examples.catalog "xsky"
    = Ok (YTArray [1; 2]%Q "degree", self')
    /\ __getitem__ examples.pix2world_swapped self' "ysky"
       = Ok (YTArray [3; 1]%Q "degree", self')
    /\ __getitem__ examples.pix2world examples.catalog "zsky"
       = Raise (KeyError "zsky").
Proof.
  destruct (sky_coordinates_computed_once examples.pix2world
              examples.catalog (ndarray [1; 2]%Q) (ndarray [3; 1]%Q)
              eq_refl eq_refl eq_refl) as [Hkey (self' & E1 & E2 & _)].
  exists self'. split; [exact E1|]. split.
  - apply (E2 examples.pix2world_swapped).
  - apply Hkey; [reflexivity | discriminate | discriminate].
Defined.

End sky_cache.

(** ** The catalogs derived from a catalog *)

Module derived_catalogs.
Import event_list catalog.

Lemma init_default_wcs (ev : dict.t array) (params : dict.t pvalue)
  (C : EventList) :
  __init__ ev params None = Ok C ->
  default_wcs params = Ok (wcs C) /\ parameters C = params /\ events C = ev.
Proof.
  unfold __init__. intros E. bind_inv E as x Ex. bind_inv E as w Ew.
  inv_Ok E. simpl. auto.
Qed.

(** [add_background], [add_point_sources], [filter_events] and [+] build
    their result with [EventList(events, self.parameters)]: the new
    catalog carries the parameters of [self] (for [+], not those of the
    other operand) and the world-coordinate mapping derived from these
    parameters, not the mapping of [self].  The two methods that add
    events store the three per-photon arrays only, so sky coordinates
    cached in [self] are not carried over. *)
Theorem derived_catalog_takes_default_wcs (G : Type) `{RandomState G}
  (assert_same_wcs : WCS -> WCS -> result unit)
  (validate_parameters : dict.t pvalue -> dict.t pvalue -> result unit)
  (wcs_pix2world : WCS -> list Q -> list Q -> list Q * list Q)
  (wcs_world2pix : WCS -> Q -> Q -> Q * Q)
  (get_filter : string -> WCS -> result (Q -> Q -> bool)) :
  (forall self energy_bins spectrum absorb_model (gs gs' : generators) R,
      add_background self energy_bins spectrum absorb_model gs
      = Ok (R, gs') ->
      default_wcs (parameters self) = Ok (wcs R)
      /\ parameters R = parameters self
      /\ dict.keys (events R) = ["xpix"; "ypix"; "eobs"])
  /\ (forall self positions energy_bins spectra absorb_model
             (gs gs' : generators) R,
         add_point_sources wcs_world2pix self positions energy_bins spectra
                           absorb_model gs = Ok (R, gs') ->
         default_wcs (parameters self) = Ok (wcs R)
         /\ parameters R = parameters self
         /\ dict.keys (events R) = ["xpix"; "ypix"; "eobs"])
  /\ (forall self region R,
         fst (filter_events wcs_pix2world get_filter self region) = Ok R ->
         default_wcs (parameters self) = Ok (wcs R)
         /\ parameters R = parameters self)
  /\ (forall self other R,
         __add__ assert_same_wcs validate_parameters self other = Ok R ->
         default_wcs (parameters self) = Ok (wcs R)
         /\ parameters R = parameters self).
Proof.
  split; [|split; [|split]].
  - intros self energy_bins spectrum absorb_model gs gs' R E.
    unfold add_background in E.
    bind_inv E as r Eadd. destruct r as [eobs gs1].
    bind_inv E as pix_center Epc. bind_inv E as pc0 Epc0.
    destruct (with_np_random _ gs1) as [x gs2].
    bind_inv E as pix_center' Epc'. bind_inv E as pc1 Epc1.
    destruct (with_np_random _ gs2) as [y gs3].
    bind_inv E as xpix Exp. bind_inv E as xs Exs.
    bind_inv E as ypix Eyp. bind_inv E as ys Eys.
    bind_inv E as eobs0 Eeo. bind_inv E as es Ees.
    bind_inv E as new Enew. inv_Ok E.
    apply init_default_wcs in Enew. destruct Enew as (Hw & Hp & ->).
    auto.
  - intros self positions energy_bins spectra absorb_model gs gs' R E.
    unfold add_point_sources in E.
    bind_inv E as x1 Ex1. bind_inv E as y1 Ey1. bind_inv E as e1 Ee1.
    bind_inv E as r Eloop. destruct r as [[[x y] e] gs1].
    bind_inv E as xs Exs. bind_inv E as ys Eys. bind_inv E as es Ees.
    bind_inv E as new Enew. inv_Ok E.
    apply init_default_wcs in Enew. destruct Enew as (Hw & Hp & ->).
    auto.
  - intros self region R E. unfold filter_events in E.
    destruct (get_filter region (wcs self)) as [f|e]; [|discriminate].
    destruct (__getitem__ wcs_pix2world self "xpix") as [[xpix self1]|e]
      eqn:Ex; [|discriminate].
    assert (Hs1 : parameters self1 = parameters self).
    { unfold __getitem__ in Ex. simpl in Ex.
      rewrite andb_false_r in Ex. simpl in Ex.
      bind_inv Ex as v Ev. now inv_Ok Ex. }
    destruct (__getitem__ wcs_pix2world self1 "ypix") as [[ypix self2]|e]
      eqn:Ey; [|discriminate].
    assert (Hs2 : parameters self2 = parameters self1).
    { unfold __getitem__ in Ey. simpl in Ey.
      rewrite andb_false_r in Ey. simpl in Ey.
      bind_inv Ey as v Ev. now inv_Ok Ey. }
    destruct (np.ew2 f (d xpix) (d ypix)) as [idxs|e]; [|discriminate].
    destruct (Nat.eqb (np.count_nonzero idxs) 0); [discriminate|].
    simpl in E. bind_inv E as new_events Enew.
    apply init_default_wcs in E. destruct E as (Hw & Hp & _).
    rewrite Hs2, Hs1 in *. auto.
  - intros self other R E. unfold __add__ in E.
    bind_inv E as t1 E1. bind_inv E as t2 E2. bind_inv E as ev Eev.
    apply init_default_wcs in E. tauto.
Qed.

(** A catalog built with a mapping of its own: the background added to
    it comes back under the mapping of the parameters. *)
Lemma derived_catalog_takes_default_wcs_witness :
  match add_background examples.catalog_shifted examples.background_bins
                       examples.background_spectrum None
                       examples.generators with
  | Ok (R, _) =>
      wcs R = examples.wcs /\ wcs R <> wcs examples.catalog_shifted
  | Raise _ => False
  end.
Proof.
  destruct (add_background _ _ _ _ _) as [[R gs']|e] eqn:E.
  - destruct (derived_catalog_takes_default_wcs N examples.checks_pass
                examples.checks_pass examples.pix2world examples.world2pix
                examples.whole_field) as (Hbg & _).
    destruct (Hbg _ _ _ _ _ _ _ E) as (Hw & _).
    assert (Hd : default_wcs (parameters examples.catalog_shifted)
                 = Ok examples.wcs) by reflexivity.
    rewrite Hd in Hw. injection Hw as Hw. split.
    + now rewrite <- Hw.
    + rewrite <- Hw. discriminate.
  - vm_compute in E. discriminate E.
Defined.

End derived_catalogs.

(** ** The events drawn from a spectrum *)

Module drawn_events.
Import event_list catalog.

(** The table [_add_events] inverts: the cumulative spectrum, prefixed
    with 0 and divided by its last entry. *)
Definition cumulative (spectrum : list Q) : list Q :=
  map (fun c => c / last (np.insert0 (np.cumsum spectrum) 0) 0)%Q
      (np.insert0 (np.cumsum spectrum) 0%Q).

(** *** Interpolation in an ascending table *)

(** An array in ascending order: no entry is above a later one. *)
Inductive ascending : list Q -> Prop :=
| ascending_nil : ascending []
| ascending_cons x r :
    Forall (fun y => x <= y)%Q r -> ascending r -> ascending (x :: r).

Lemma Qle_bool_false (x y : Q) : Qle_bool x y = false -> (y < x)%Q.
Proof.
  intros E. apply Qnot_le_lt. intros Hle.
  apply Qle_bool_iff in Hle. congruence.
Qed.


Lemma compress_In_Q (mask : list bool) (a : list Q) (x : Q) :
  In x (np.compress mask a) -> In x a.
Proof.
  revert a. induction mask as [|b m IH]; intros [|y a]; simpl; try tauto.
  destruct b; simpl; intros Hin; [destruct Hin as [->|Hin]|]; auto.
Qed.

Lemma ascending_compress (mask : list bool) (a : list Q) :
  ascending a -> ascending (np.compress mask a).
Proof.
  intros Ha. revert mask. induction Ha as [|x r Hx Hr IH];
    intros [|b m]; simpl; try constructor.
  destruct b; [constructor|]; auto.
  apply Forall_forall. intros y Hy. apply compress_In_Q in Hy.
  rewrite Forall_forall in Hx. now apply Hx.
Qed.

Lemma insert_sorted_In (v : Q) (s : list Q) (x : Q) :
  In x (np.insert_sorted v s) -> x = v \/ In x s.
Proof.
  induction s as [|w s IH]; simpl.
  - intros [<-|[]]. now left.
  - destruct (Qle_bool v w); simpl.
    + intros [<-|[<-|Hin]]; auto.
    + intros [<-|Hin]; auto. destruct (IH Hin); auto.
Qed.

Lemma insert_sorted_ascending (v : Q) (s : list Q) :
  ascending s -> ascending (np.insert_sorted v s).
Proof.
  induction 1 as [|w r Hw Hr IH]; simpl.
  - repeat constructor.
  - destruct (Qle_bool v w) eqn:E.
    + apply Qle_bool_iff in E. constructor.
      * constructor; [assumption|].
        eapply Forall_impl; [|exact Hw]. simpl. intros y Hy. lra.
      * now constructor.
    + apply Qle_bool_false in E. constructor; [|assumption].
      apply Forall_forall. intros y Hy. apply insert_sorted_In in Hy.
      destruct Hy as [->|Hy]; [lra|].
      rewrite Forall_forall in Hw. now apply Hw.
Qed.

Lemma sort_ascending (a : list Q) : ascending (np.sort a).
Proof.
  induction a as [|x a IH]; [constructor|].
  unfold np.sort in *. simpl. now apply insert_sorted_ascending.
Qed.

Lemma sort_In (a : list Q) (x : Q) : In x (np.sort a) -> In x a.
Proof.
  induction a as [|y a IH]; [auto|].
  unfold np.sort in *. simpl. intros Hin.
  apply insert_sorted_In in Hin. destruct Hin as [->|Hin]; auto.
Qed.

(** A point on the segment between two values lies between them. *)
Lemma segment_between (x0 x1 v f0 f1 lo hi : Q) :
  (x0 <= v)%Q -> (v < x1)%Q ->
  (lo <= f0 <= hi)%Q -> (lo <= f1 <= hi)%Q ->
  (lo <= f0 + (f1 - f0) / (x1 - x0) * (v - x0) <= hi)%Q.
Proof.
  intros H0 H1 Hf0 Hf1.
  set (t := ((v - x0) / (x1 - x0))%Q).
  assert (Hpos : (0 < x1 - x0)%Q) by lra.
  assert (Ht0 : (0 <= t)%Q).
  { unfold t. apply Qle_shift_div_l; [assumption | lra]. }
  assert (Ht1 : (t <= 1)%Q).
  { unfold t. apply Qle_shift_div_r; [assumption | lra]. }
  assert (E : (f0 + (f1 - f0) / (x1 - x0) * (v - x0)
               == f0 + (f1 - f0) * t)%Q).
  { unfold t. field. lra. }
  rewrite E. split; nra.
Qed.

Lemma interp_seg_between (xp fp : list Q) :
  forall (v x0 f0 lo hi : Q),
    (x0 <= v)%Q -> (lo <= f0 <= hi)%Q ->
    Forall (fun f => lo <= f <= hi)%Q fp ->
    (lo <= np.interp_seg v x0 f0 xp fp <= hi)%Q.
Proof.
  revert fp. induction xp as [|x1 xp IH]; intros [|f1 fp] v x0 f0 lo hi
    Hv Hf0 Hfp; simpl; auto.
  inversion Hfp as [|f l Hf1 Hfp']; subst.
  destruct (Qle_bool x1 v) eqn:E.
  - apply Qle_bool_iff in E. now apply IH.
  - apply Qle_bool_false in E. now apply segment_between.
Qed.

Lemma ascending_bounds (a : list Q) :
  ascending a ->
  Forall (fun f => hd 0 a <= f /\ f <= last a 0)%Q a.
Proof.
  induction 1 as [|x r Hx Hr IH]; [constructor|].
  assert (Hlast : (x <= last (x :: r) 0)%Q).
  { destruct r as [|y r]; [simpl; lra|].
    rewrite Forall_forall in Hx. apply Hx.
    change (last (x :: y :: r) 0%Q) with (last (y :: r) 0%Q).
    destruct (@exists_last _ (y :: r) ltac:(discriminate)) as [l [z E]].
    rewrite E, last_last. apply in_or_app. right. now left. }
  constructor; [simpl hd; split; [lra | assumption]|].
  destruct r as [|y r]; [constructor|].
  change (last (x :: y :: r) 0%Q) with (last (y :: r) 0%Q).
  eapply Forall_impl; [|exact IH]. simpl. intros f [Hf1 Hf2].
  split; [|assumption].
  inversion Hx; subst. lra.
Qed.



Lemma interp1_between (xp fp : list Q) (v : Q) :
  length xp = length fp -> xp <> [] -> ascending fp ->
  (hd 0 fp <= np.interp1 xp fp v <= last fp 0)%Q.
Proof.
  intros Hl Hne Hasc. unfold np.interp1.
  destruct xp as [|x0 xp]; [contradiction|].
  destruct fp as [|f0 fp]; [discriminate|].
  pose proof (ascending_bounds (f0 :: fp) Hasc) as Hb.
  simpl hd in *. inversion Hb as [|z l Hb1 Hb2]; subst.
  destruct (Qle_bool v x0) eqn:E; [assumption|].
  apply Qle_bool_false in E.
  apply interp_seg_between; auto. lra.
Qed.




Section Drawn.

Context {G : Type} `{RandomStateSpec G}.





End Drawn.



End drawn_events.

(** ** Point sources *)

Module point_sources.
Import event_list catalog.

Section Sources.

Context {G : Type} `{RandomStateSpec G}.
Variable wcs_world2pix : WCS -> Q -> Q -> Q * Q.





End Sources.


End point_sources.

(** ** The power-law and the line model: a call after the setup *)

Section ItemFacts.

Variable A : Type.

Lemma item_lt (a : list A) (i : nat) (dflt : A) :
  i < length a -> np.item a i = Ok (nth i a dflt).
Proof.
  intros Hi. unfold np.item.
  rewrite (nth_error_nth' a dflt Hi). reflexivity.
Qed.

Lemma set_slice_Ok (a : list A) (i j : nat) (v : list A) :
  i <= j -> j <= length a -> length v = j - i ->
  np.set_slice a i j v = Ok (firstn i a ++ v ++ skipn (i + length v) a).
Proof.
  intros Hij Hj Hv. unfold np.set_slice. rewrite slice_length.
  replace (Nat.min (j - i) (length a - i)) with (length v) by lia.
  now rewrite Nat.eqb_refl.
Qed.

End ItemFacts.

Lemma positive_counts (nph : list nat) :
  Forall (fun c => 0 < c) (np.compress (map (fun c => Nat.ltb 0 c) nph) nph).
Proof.
  induction nph as [|n nph IH]; simpl; [constructor|].
  destruct (Nat.ltb_spec 0 n); [constructor|]; auto.
Qed.

Lemma uniform_length (G : Type) `{RandomStateSpec G} (low high : Q)
  (n : nat) (g : G) :
  length (fst (uniform low high n g)) = n.
Proof.
  unfold uniform. pose proof (random_sample_length n g) as Hl.
  destruct (random_sample n g) as [u g']. simpl in *.
  now rewrite length_map.
Qed.

Module power_law_call.
Import source_models.
Import PowerLawSourceModel.

Section Call.

Context {G : Type} `{RandomStateSpec G}.
Variable pow : Q -> Q -> Q.
Variable log : Q -> Q.

Lemma energy_loop_total (self : t) (sf : Q) (alpha norm_fac : list Q)
  (nph : list nat) (cells : list nat) :
  forall (energies : list Q) (s e : nat) (g : G),
    Forall (fun i => i < length nph /\ i < length alpha
                     /\ i < length norm_fac) cells ->
    s + counts_at nph cells <= length energies ->
    exists en' end' g',
      energy_loop pow self sf alpha norm_fac nph cells energies s e g
      = Ok (en', end', g').
Proof.
  induction cells as [|i cells IH]; intros energies s e g Hc Hs.
  - simpl. eauto.
  - inversion Hc as [|i' l (Hi1 & Hi2 & Hi3) Hc']; subst.
    unfold counts_at in Hs. simpl in Hs.
    fold (counts_at nph cells) in Hs.
    simpl. rewrite (item_lt _ nph i 0 Hi1). simpl.
    destruct (Nat.ltb_spec 0 (nth i nph 0)) as [Hpos|Hzero].
    + pose proof (uniform_length G 0 1 (nth i nph 0) g) as Hu.
      destruct (uniform 0 1 (nth i nph 0) g) as [u g1]. simpl in Hu.
      rewrite (item_lt _ alpha i 0%Q Hi2). simpl.
      destruct (Qeq_bool (nth i alpha 0%Q) 1).
      * simpl. rewrite set_slice_Ok; [|lia|lia|].
        2:{ rewrite !length_map. lia. }
        simpl. apply IH; [assumption|].
        rewrite !length_app, length_firstn, length_skipn, !length_map.
        lia.
      * rewrite (item_lt _ norm_fac i 0%Q Hi3). simpl.
        rewrite set_slice_Ok; [|lia|lia|].
        2:{ rewrite !length_map. lia. }
        simpl. apply IH; [assumption|].
        rewrite !length_app, length_firstn, length_skipn, !length_map.
        lia.
    + apply IH; [assumption | lia].
Qed.

(** [PowerLawSourceModel.__call__] on a model that was set up and a
    chunk that holds the emission field and one index per cell, when no
    expected count is negative (numpy refuses a negative rate): the call
    returns.  The mask has one entry per cell and marks the cells that
    drew a photon, the counts are the draws of these cells, each at
    least 1, and there is one energy per photon. *)
Theorem power_law_call_returns (self : t) (chunk : Chunk) (g : G)
  (alpha rate : list Q) (sn sf : Q) :
  chunk (emission_field self) = Some rate ->
  alpha_of self chunk (length rate) = Ok alpha ->
  length alpha = length rate ->
  spectral_norm self = Some sn ->
  scale_factor self = Some sf ->
  let norm :=
    np.map2 (power_law_rate.expected_count pow log self sn sf) alpha rate in
  Forall (fun l => 0 <= l)%Q norm ->
  let nph := fst (poisson norm g) in
  let active := map (fun c => Nat.ltb 0 c) nph in
  exists energies g',
    __call__ pow log self chunk g
    = Ok (np.count_nonzero active, np.compress active nph, active,
          energies, g')
    /\ length active = length rate
    /\ Forall (fun c => 0 < c) (np.compress active nph)
    /\ length energies = np.isum nph.
Proof.
  intros Hrate Halpha Hlen Hsn Hsf norm Hnorm nph active.
  destruct (power_law_rate.norm_of_Ok pow log self chunk alpha rate sn sf
              Hrate Hlen Hsn Hsf) as [norm_fac [Hnf Hno]].
  assert (Hnfl : length norm_fac = length alpha).
  { rewrite power_law_rate.norm_fac_of_Ok in Hnf. inv_Ok Hnf.
    now rewrite length_map. }
  assert (Hnl : length norm = length rate).
  { unfold norm. rewrite map2_length, Hlen. apply Nat.min_id. }
  pose proof (poisson_length norm g) as Hpl. fold nph in Hpl.
  destruct (energy_loop_total self sf alpha norm_fac nph
              (seq 0 (length rate)) (np.zeros (np.isum nph)) 0 0
              (snd (poisson norm g))) as (en & end_e & g' & Eloop).
  { apply Forall_forall. intros i Hi. apply in_seq in Hi. lia. }
  { replace (length rate) with (length nph) by congruence.
    rewrite counts_at_seq. unfold np.zeros. rewrite repeat_length. lia. }
  pose proof Eloop as Hinv.
  apply power_law_tuple.energy_loop_inv in Hinv.
  destruct Hinv as [Hel Hend].
  replace (length rate) with (length nph) in Hend by congruence.
  rewrite counts_at_seq in Hend. simpl in Hend.
  exists (np.slice en 0 end_e), g'.
  split; [|split; [|split]].
  - unfold __call__, chunk_get. rewrite Hrate. simpl.
    rewrite Halpha. simpl. rewrite Hnf. simpl. rewrite Hno. simpl.
    fold norm. unfold nph in *.
    destruct (poisson norm g) as [n g1]. simpl in *.
    rewrite Hsf. simpl. rewrite Eloop. simpl.
    rewrite getmask_Ok by (now rewrite length_map). reflexivity.
  - unfold active. rewrite length_map. congruence.
  - apply positive_counts.
  - rewrite slice_length, Hel. unfold np.zeros. rewrite repeat_length. lia.
Qed.

End Call.

(** The example chunk: the rates 3, 0, 5, 2 with the stand-ins for the
    power and the logarithm. *)
Lemma power_law_call_returns_witness :
  exists ncells counts active energies g',
    __call__ examples.pow examples.log examples.power_law examples.chunk
             examples.seed
    = Ok (ncells, counts, active, energies, g')
    /\ length active = 4
    /\ Forall (fun c => 0 < c) counts.
Proof.
  destruct (power_law_call_returns examples.pow examples.log
              examples.power_law examples.chunk examples.seed
              [1; 2; 1; 3]%Q [3; 0; 5; 2]%Q 1 1
              eq_refl eq_refl eq_refl eq_refl eq_refl)
    as (energies & g' & E & Hl & Hc & _).
  - vm_compute. repeat constructor; discriminate.
  - eexists. eexists. eexists. eexists. eexists.
    split; [exact E|]. split; [exact Hl | exact Hc].
Defined.

End power_law_call.

Module line_call.
Import source_models.
Import LineSourceModel.

Section Call.

Context {G : Type} `{RandomStateSpec G}.
Variable in_cgs : Q -> Q.
Variable in_keV : Q -> Q.
Variable clight : Q.

Lemma broaden_loop_total (sigma : list Q) (nph : list nat)
  (cells : list nat) :
  forall (energies : list Q) (s : nat) (g : G),
    Forall (fun i => i < length nph /\ i < length sigma) cells ->
    s + counts_at nph cells <= length energies ->
    exists en' g',
      broaden_loop sigma nph cells energies s g = Ok (en', g').
Proof.
  induction cells as [|i cells IH]; intros energies s g Hc Hs.
  - simpl. eauto.
  - inversion Hc as [|i' l (Hi1 & Hi2) Hc']; subst.
    unfold counts_at in Hs. simpl in Hs.
    fold (counts_at nph cells) in Hs.
    simpl. rewrite (item_lt _ nph i 0 Hi1). simpl.
    destruct (Nat.ltb_spec 0 (nth i nph 0)) as [Hpos|Hzero].
    + rewrite (item_lt _ sigma i 0%Q Hi2). simpl.
      pose proof (normal_length 0 (nth i sigma 0%Q) (nth i nph 0) g) as Hn.
      destruct (normal 0 (nth i sigma 0%Q) (nth i nph 0) g) as [dE g1].
      simpl in Hn.
      rewrite ew2_Ok by (rewrite slice_length, length_map; lia). simpl.
      rewrite set_slice_Ok; [|lia|lia|].
      2:{ rewrite map2_length, slice_length, length_map. lia. }
      simpl. apply IH; [assumption|].
      rewrite !length_app, length_firstn, length_skipn, map2_length,
        slice_length, length_map.
      lia.
    + apply IH; [assumption | lia].
Qed.

(** What the broadening asks of the model and the chunk: numpy refuses a
    negative width, and a field of widths has one entry per cell. *)
Definition widths_ok (self : t) (chunk : Chunk) (num_cells : nat) : Prop :=
  match sigma self with
  | NoSigma => True
  | SigmaQuantity s => (0 <= s)%Q
  | SigmaField f =>
      exists v,
        chunk f = Some v /\ length v = num_cells
        /\ Forall (fun x => 0 <= in_keV (x * e0 self / clight))%Q v
  end.

(** [LineSourceModel.__call__] on a model that was set up and a chunk
    that holds the emission field (and one width per cell, when the
    broadening is a field), when no expected count is negative: the call
    returns.  The mask has one entry per cell and marks the cells that
    drew a photon, the counts are the draws of these cells, each at
    least 1, and there is one energy per photon.  Without broadening
    every energy is [e0 * scale_factor] and the generator is used for
    the Poisson draw only. *)
Theorem line_call_returns (self : t) (chunk : Chunk) (g : G)
  (rate : list Q) (sn sf : Q) :
  chunk (emission_field self) = Some rate ->
  spectral_norm self = Some sn ->
  scale_factor self = Some sf ->
  let lam := map in_cgs (map (fun x => x * sn * sf)%Q rate) in
  Forall (fun l => 0 <= l)%Q lam ->
  widths_ok self chunk (length rate) ->
  let nph := fst (poisson lam g) in
  let active := map (fun c => Nat.ltb 0 c) nph in
  exists energies g',
    __call__ in_cgs in_keV clight self chunk g
    = Ok (np.count_nonzero active, np.compress active nph, active,
          energies, g')
    /\ length active = length rate
    /\ Forall (fun c => 0 < c) (np.compress active nph)
    /\ length energies = np.isum nph
    /\ (sigma self = NoSigma ->
        energies = repeat (e0 self * 1 * sf)%Q (np.isum nph)
        /\ g' = snd (poisson lam g)).
Proof.
  intros Hrate Hsn Hsf lam Hlam Hw nph active.
  pose proof (poisson_length lam g) as Hpl. fold nph in Hpl.
  assert (Hll : length lam = length rate)
    by (unfold lam; now rewrite !length_map).
  assert (Hones : forall n,
             map (Qmult (e0 self)) (np.ones n) = repeat (e0 self * 1)%Q n).
  { intros n. unfold np.ones. induction n; simpl; congruence. }
  assert (Hstart :
    exists en g',
      match sigma self with
      | SigmaQuantity s =>
          let (dE, g0) := normal 0 s (np.isum nph) (snd (poisson lam g)) in
          let dE0 := map (fun x => (x * 1)%Q) dE in
          energies <- np.ew2 Qplus
                        (map (Qmult (e0 self)) (np.ones (np.isum nph))) dE0 ;;
          Ok (energies, g0)
      | SigmaField f =>
          v <- chunk_get chunk (Some f) ;;
          broaden_loop
            (map (fun x => in_keV (x * e0 self / clight)%Q) v) nph
            (seq 0 (length rate))
            (map (Qmult (e0 self)) (np.ones (np.isum nph))) 0
            (snd (poisson lam g))
      | NoSigma =>
          Ok (map (Qmult (e0 self)) (np.ones (np.isum nph)),
              snd (poisson lam g))
      end = Ok (en, g')
      /\ length en = np.isum nph
      /\ (sigma self = NoSigma ->
          en = repeat (e0 self * 1)%Q (np.isum nph)
          /\ g' = snd (poisson lam g))).
  { unfold widths_ok in Hw. destruct (sigma self) as [|s|f].
    - eexists. eexists. split; [reflexivity|]. rewrite Hones.
      split; [apply repeat_length | auto].
    - pose proof (normal_length 0 s (np.isum nph) (snd (poisson lam g)))
        as Hn.
      destruct (normal 0 s (np.isum nph) (snd (poisson lam g)))
        as [dE g1]. simpl in Hn.
      eexists. eexists. split; [|split].
      + cbv zeta.
        rewrite ew2_Ok
          by (rewrite Hones, repeat_length, length_map; congruence).
        reflexivity.
      + rewrite map2_length, Hones, repeat_length, length_map. lia.
      + discriminate.
    - destruct Hw as (v & Hv & Hvl & _).
      unfold chunk_get. rewrite Hv. simpl.
      destruct (broaden_loop_total
                  (map (fun x => in_keV (x * e0 self / clight)%Q) v) nph
                  (seq 0 (length rate))
                  (map (Qmult (e0 self)) (np.ones (np.isum nph))) 0
                  (snd (poisson lam g))) as (en & g' & Eloop).
      { apply Forall_forall. intros i Hi. apply in_seq in Hi.
        rewrite length_map. lia. }
      { replace (length rate) with (length nph) by congruence.
        rewrite counts_at_seq, Hones, repeat_length. lia. }
      exists en, g'. split; [exact Eloop|]. split; [|discriminate].
      apply line_tuple.broaden_loop_length in Eloop.
      now rewrite Eloop, Hones, repeat_length. }
  destruct Hstart as (en & g' & Estart & Hel & Hno).
  exists (map (fun x => x * sf)%Q en), g'.
  split; [|split; [|split; [|split]]].
  - unfold __call__, chunk_get. rewrite Hrate. simpl.
    rewrite Hsn, Hsf. simpl. fold lam. unfold nph in *.
    destruct (poisson lam g) as [n g1]. simpl in *.
    rewrite Estart. simpl.
    rewrite getmask_Ok by (now rewrite length_map). reflexivity.
  - unfold active. rewrite length_map. congruence.
  - apply positive_counts.
  - now rewrite length_map.
  - intros Hs. destruct (Hno Hs) as [-> ->]. split; [|reflexivity].
    generalize (np.isum nph). intros n. induction n; simpl; congruence.
Qed.


End Call.

(** The example line with its field of widths. *)
Lemma line_call_returns_witness :
  exists ncells counts active energies g',
    __call__ (fun x => x) (fun x => x) 1%Q examples.line examples.chunk
             examples.seed
    = Ok (ncells, counts, active, energies, g')
    /\ length active = 4
    /\ Forall (fun c => 0 < c) counts.
Proof.
  destruct (line_call_returns (fun x => x) (fun x => x) 1%Q
              examples.line examples.chunk examples.seed
              [3; 0; 5; 2]%Q 1 1 eq_refl eq_refl eq_refl)
    as (energies & g' & E & Hl & Hc & _).
  - vm_compute. repeat constructor; discriminate.
  - exists [1; 1; 2; 2]%Q. split; [reflexivity|]. split; [reflexivity|].
    vm_compute. repeat constructor; discriminate.
  - eexists. eexists. eexists. eexists. eexists.
    split; [exact E|]. split; [exact Hl | exact Hc].
Defined.


End line_call.

(** ** Cells without emission *)

Module dark_cells.
Import source_models.

Lemma nth_active (nph : list nat) (i : nat) :
  nth i nph 0 = 0 ->
  nth i (map (fun c => Nat.ltb 0 c) nph) false = false.
Proof.
  revert i. induction nph as [|n nph IH]; intros [|i]; simpl; auto.
  intros ->. reflexivity.
Qed.

(** In the power-law and in the line model a cell whose emission rate is
    zero is never marked active, whatever the index, the normalization
    and the redshift: the rate passed to the Poisson draw for it is
    zero.  (For the line model the conversion to cgs units is taken to
    keep zero at zero.) *)
Theorem zero_rate_cells_stay_dark (G : Type) `{RandomStateSpec G}
  (pow : Q -> Q -> Q) (log in_cgs in_keV : Q -> Q) (clight : Q)
  (chunk : Chunk) (g : G) :
  (forall self rate ncells counts active energies g' i,
      PowerLawSourceModel.__call__ pow log self chunk g
      = Ok (ncells, counts, active, energies, g') ->
      chunk (PowerLawSourceModel.emission_field self) = Some rate ->
      (nth i rate 0 == 0)%Q -> i < length rate ->
      nth i active false = false)
  /\ (forall self rate ncells counts active energies g' i,
         (forall x, x == 0 -> in_cgs x == 0)%Q ->
         LineSourceModel.__call__ in_cgs in_keV clight self chunk g
         = Ok (ncells, counts, active, energies, g') ->
         chunk (LineSourceModel.emission_field self) = Some rate ->
         (nth i rate 0 == 0)%Q -> i < length rate ->
         nth i active false = false).
Proof.
  split.
  - intros self rate ncells counts active energies g' i E Hrate Hz Hi.
    unfold PowerLawSourceModel.__call__, chunk_get in E.
    rewrite Hrate in E. simpl in E.
    bind_inv E as alpha Ealpha. bind_inv E as norm_fac Enf.
    bind_inv E as norm Enorm.
    assert (Hpar : length alpha = length rate
                   /\ exists sn sf,
                        PowerLawSourceModel.spectral_norm self = Some sn
                        /\ PowerLawSourceModel.scale_factor self = Some sf).
    { rewrite power_law_rate.norm_fac_of_Ok in Enf. inv_Ok Enf.
      unfold PowerLawSourceModel.norm_of, chunk_get in Enorm.
      rewrite Hrate in Enorm. simpl in Enorm.
      bind_inv Enorm as n1 En1. apply ew2_inv in En1.
      destruct En1 as [L1 _]. rewrite length_map in L1.
      bind_inv Enorm as n2 En2. bind_inv Enorm as sel Esel.
      bind_inv Enorm as asel Easel. bind_inv Enorm as upd Eupd.
      bind_inv Enorm as n3 En3. bind_inv Enorm as sn Esn.
      bind_inv Enorm as sf Esf.
      split; [assumption|]. exists sn, sf. unfold attr, of_option in *.
      destruct (PowerLawSourceModel.spectral_norm self); [|discriminate].
      destruct (PowerLawSourceModel.scale_factor self); [|discriminate].
      inv_Ok Esn. inv_Ok Esf. auto. }
    destruct Hpar as (Hlen & sn & sf & Hsn & Hsf).
    destruct (power_law_rate.norm_of_Ok pow log self chunk alpha rate
                sn sf Hrate Hlen Hsn Hsf) as [nf' [Hnf' Hno]].
    rewrite Enf in Hnf'. injection Hnf' as <-.
    rewrite Enorm in Hno. injection Hno as ->.
    pose proof (poisson_zero
                  (np.map2 (power_law_rate.expected_count pow log self sn sf)
                           alpha rate) g i) as Hp.
    destruct (poisson _ g) as [nph g1]. simpl in Hp.
    bind_inv E as sf' Esf'. bind_inv E as r Eloop.
    destruct r as [[en end_e] g2]. bind_inv E as cts Ects. inv_Ok E.
    apply nth_active. apply Hp.
    rewrite (map2_nth _ _ _
               (power_law_rate.expected_count pow log self sn sf)
               alpha rate 0%Q 0%Q 0%Q) by lia.
    unfold power_law_rate.expected_count.
    destruct (Qeq_bool (nth i alpha 0%Q) 1); rewrite Hz; unfold Qdiv; ring.
  - intros self rate ncells counts active energies g' i Hcgs E Hrate Hz Hi.
    unfold LineSourceModel.__call__, chunk_get in E.
    rewrite Hrate in E. simpl in E.
    bind_inv E as sn Esn. bind_inv E as sf Esf.
    pose proof (poisson_zero
                  (map in_cgs (map (fun x => x * sn * sf)%Q rate)) g i)
      as Hp.
    destruct (poisson _ g) as [nph g1]. simpl in Hp.
    bind_inv E as r Er. destruct r as [en g2].
    bind_inv E as sf' Esf'. bind_inv E as cts Ects. inv_Ok E.
    apply nth_active. apply Hp.
    rewrite map_map.
    rewrite (nth_indep _ 0%Q (in_cgs (0 * sn * sf)%Q))
      by (now rewrite length_map).
    rewrite (map_nth (fun x => in_cgs (x * sn * sf)%Q) rate 0%Q i).
    apply Hcgs. rewrite Hz. ring.
Qed.

(** The second cell of the example chunk has the rate 0. *)
Lemma zero_rate_cells_stay_dark_witness :
  match PowerLawSourceModel.__call__ examples.pow examples.log
          examples.power_law examples.chunk examples.seed with
  | Ok (_, _, active, _, _) => nth 1 active false = false
  | Raise _ => False
  end
  /\ match LineSourceModel.__call__ (fun x => x) (fun x => x) 1%Q
             examples.line examples.chunk examples.seed with
     | Ok (_, _, active, _, _) => nth 1 active false = false
     | Raise _ => False
     end.
Proof.
  destruct (zero_rate_cells_stay_dark N examples.pow examples.log
              (fun x => x) (fun x => x) 1%Q examples.chunk examples.seed)
    as [Hp Hl].
  split.
  - destruct (PowerLawSourceModel.__call__ _ _ _ _ _)
      as [[[[[n c] a] en] g']|e] eqn:E.
    + apply (Hp _ [3; 0; 5; 2]%Q _ _ _ _ _ 1 E eq_refl);
        [reflexivity | simpl; lia].
    + vm_compute in E. discriminate E.
  - destruct (LineSourceModel.__call__ _ _ _ _ _ _)
      as [[[[[n c] a] en] g']|e] eqn:E.
    + apply (Hl _ [3; 0; 5; 2]%Q _ _ _ _ _ 1 (fun x Hx => Hx) E eq_refl);
        [reflexivity | simpl; lia].
    + vm_compute in E. discriminate E.
Defined.

End dark_cells.

(** ** The thermal model: which cells a call works on *)

Module thermal_selection.
Import source_models.
Import drawn_events.

(** *** Sorting by position *)

Lemma seq_nth_map (a : list Q) :
  map (fun i => nth i a 0%Q) (seq 0 (length a)) = a.
Proof.
  induction a as [|x a IH]; [reflexivity|].
  simpl. f_equal. rewrite <- seq_shift, map_map. exact IH.
Qed.

Lemma insert_by_values (a : list Q) (i : nat) (s : list nat) :
  map (fun j => nth j a 0%Q) (np.insert_by a i s)
  = np.insert_sorted (nth i a 0%Q) (map (fun j => nth j a 0%Q) s).
Proof.
  induction s as [|j s IH]; simpl; [reflexivity|].
  destruct (Qle_bool (nth i a 0%Q) (nth j a 0%Q)); simpl; congruence.
Qed.

Lemma fold_insert_by_values (a : list Q) (l : list nat) :
  map (fun j => nth j a 0%Q) (fold_right (np.insert_by a) [] l)
  = np.sort (map (fun j => nth j a 0%Q) l).
Proof.
  induction l as [|i l IH]; [reflexivity|].
  simpl. rewrite insert_by_values, IH. reflexivity.
Qed.

(** The values at the positions [np.argsort] returns are the sorted
    array. *)
Lemma argsort_values (a : list Q) :
  map (fun j => nth j a 0%Q) (np.argsort a) = np.sort a.
Proof.
  unfold np.argsort. rewrite fold_insert_by_values. now rewrite seq_nth_map.
Qed.

Lemma insert_by_In (a : list Q) (i : nat) (s : list nat) (j : nat) :
  In j (np.insert_by a i s) <-> j = i \/ In j s.
Proof.
  induction s as [|k s IH]; simpl.
  - intuition.
  - destruct (Qle_bool _ _); simpl; [intuition|].
    rewrite IH. intuition.
Qed.

Lemma insert_by_NoDup (a : list Q) (i : nat) (s : list nat) :
  ~ In i s -> NoDup s -> NoDup (np.insert_by a i s).
Proof.
  intros Hi Hs. induction Hs as [|k s Hk Hs IH]; simpl.
  - constructor; [tauto | constructor].
  - destruct (Qle_bool _ _).
    + constructor; [assumption | now constructor].
    + constructor.
      * rewrite insert_by_In. intros [->|Hin]; [|contradiction].
        apply Hi. now left.
      * apply IH. intros Hin. apply Hi. now right.
Qed.

Lemma fold_insert_by_perm (a : list Q) (l : list nat) :
  NoDup l ->
  NoDup (fold_right (np.insert_by a) [] l)
  /\ forall j, In j (fold_right (np.insert_by a) [] l) <-> In j l.
Proof.
  induction 1 as [|i l Hi Hl [IH1 IH2]]; simpl.
  - split; [constructor | tauto].
  - split.
    + apply insert_by_NoDup; [|assumption]. now rewrite IH2.
    + intros j. rewrite insert_by_In, IH2. intuition.
Qed.

(** [np.argsort] returns every position of the array once. *)
Lemma argsort_perm (a : list Q) :
  NoDup (np.argsort a)
  /\ forall j, In j (np.argsort a) <-> j < length a.
Proof.
  destruct (fold_insert_by_perm a (seq 0 (length a)) (seq_NoDup _ _))
    as [H1 H2].
  split; [exact H1|]. intros j. unfold np.argsort. rewrite H2, in_seq. lia.
Qed.

Lemma take_values (a : list Q) (idxs : list nat) :
  Forall (fun i => i < length a) idxs ->
  np.take a idxs = Ok (map (fun i => nth i a 0%Q) idxs).
Proof.
  induction 1 as [|i idxs Hi Hr IH]; simpl; [reflexivity|].
  rewrite (item_lt _ a i 0%Q Hi). simpl. rewrite IH. reflexivity.
Qed.

Lemma take_inv (a : list Q) (idxs : list nat) (r : list Q) :
  np.take a idxs = Ok r ->
  Forall (fun i => i < length a) idxs
  /\ r = map (fun i => nth i a 0%Q) idxs.
Proof.
  revert r. induction idxs as [|i idxs IH]; intros r E; simpl in E.
  - inv_Ok E. auto.
  - bind_inv E as x Ex. bind_inv E as xs Exs. inv_Ok E.
    destruct (IH _ Exs) as [H1 ->]. apply item_Ok in Ex.
    split.
    + constructor; [|assumption]. apply nth_error_Some. congruence.
    + simpl. f_equal. symmetry. now apply nth_error_nth.
Qed.

(** *** Searching a sorted array *)

Lemma searchsorted_split (a : list Q) (v : Q) :
  ascending a ->
  Forall (fun x => x < v)%Q (firstn (np.searchsorted a v) a)
  /\ Forall (fun x => v <= x)%Q (skipn (np.searchsorted a v) a).
Proof.
  induction 1 as [|x r Hx Hr [IH1 IH2]]; simpl.
  - split; constructor.
  - destruct (Qle_bool v x) eqn:E; simpl.
    + apply Qle_bool_iff in E. split; [constructor|].
      constructor; [assumption|].
      eapply Forall_impl; [|exact Hx]. simpl. intros y Hy. lra.
    + apply Qle_bool_false in E. split; [|assumption].
      constructor; assumption.
Qed.

Section Lists.

Variable A : Type.

Lemma slice_In_skipn (a : list A) (i j : nat) (x : A) :
  In x (np.slice a i j) -> In x (skipn i a).
Proof.
  unfold np.slice. intros Hin.
  rewrite <- (firstn_skipn (j - i) (skipn i a)).
  apply in_or_app. now left.
Qed.

Lemma slice_In_firstn (a : list A) (i j : nat) (x : A) :
  In x (np.slice a i j) -> In x (firstn j a).
Proof.
  unfold np.slice. revert a j. induction i as [|i IH]; intros a j.
  - now rewrite Nat.sub_0_r.
  - destruct a as [|y a]; simpl.
    + now rewrite firstn_nil.
    + destruct j as [|j]; simpl; [tauto|].
      intros Hin. right. now apply IH.
Qed.

Lemma slice_nth_error (a : list A) (i j p : nat) :
  i <= p -> p < j ->
  nth_error (np.slice a i j) (p - i) = nth_error a p.
Proof.
  intros Hi Hj. unfold np.slice.
  rewrite nth_error_firstn.
  destruct (Nat.ltb_spec (p - i) (j - i)); [|lia].
  rewrite nth_error_skipn. f_equal. lia.
Qed.

Lemma NoDup_firstn (a : list A) (n : nat) : NoDup a -> NoDup (firstn n a).
Proof.
  intros Ha. revert n. induction Ha as [|x a Hx Ha IH]; intros [|n]; simpl;
    try constructor; auto.
  intros Hin. apply Hx.
  rewrite <- (firstn_skipn n a). apply in_or_app. now left.
Qed.

Lemma NoDup_skipn (a : list A) (n : nat) : NoDup a -> NoDup (skipn n a).
Proof.
  intros Ha. revert n. induction Ha as [|x a Hx Ha IH]; intros [|n]; simpl;
    try constructor; auto.
Qed.

Lemma NoDup_slice (a : list A) (i j : nat) : NoDup a -> NoDup (np.slice a i j).
Proof.
  intros Ha. unfold np.slice. now apply NoDup_firstn, NoDup_skipn.
Qed.

Lemma compress_sub (mask : list bool) (a : list A) (x : A) :
  In x (np.compress mask a) -> In x a.
Proof.
  revert a. induction mask as [|b m IH]; intros [|y a]; simpl; try tauto.
  destruct b; simpl; intros Hin; [destruct Hin as [->|Hin]|]; auto.
Qed.

Lemma NoDup_compress (mask : list bool) (a : list A) :
  NoDup a -> NoDup (np.compress mask a).
Proof.
  intros Ha. revert mask. induction Ha as [|x a Hx Ha IH];
    intros [|b m]; simpl; try constructor.
  destruct b; [constructor|]; auto.
  intros Hin. apply Hx. now apply compress_sub in Hin.
Qed.

Lemma compress_map (B : Type) (f : A -> B) (mask : list bool) (a : list A) :
  map f (np.compress mask a) = np.compress mask (map f a).
Proof.
  revert a. induction mask as [|b m IH]; intros [|y a]; simpl; auto.
  destruct b; simpl; now rewrite IH.
Qed.

End Lists.

Lemma ascending_firstn (a : list Q) (n : nat) :
  ascending a -> ascending (firstn n a).
Proof.
  intros Ha. revert n. induction Ha as [|x r Hx Hr IH]; intros [|n]; simpl;
    try constructor; auto.
  apply Forall_forall. intros y Hy. rewrite Forall_forall in Hx. apply Hx.
  rewrite <- (firstn_skipn n r). apply in_or_app. now left.
Qed.

Lemma ascending_skipn (a : list Q) (n : nat) :
  ascending a -> ascending (skipn n a).
Proof.
  intros Ha. revert n. induction Ha as [|x r Hx Hr IH]; intros [|n]; simpl;
    try constructor; auto.
Qed.

Lemma slice_map (A B : Type) (f : A -> B) (a : list A) (i j : nat) :
  map f (np.slice a i j) = np.slice (map f a) i j.
Proof.
  unfold np.slice. now rewrite skipn_map, firstn_map.
Qed.

(** *** What a call has done *)

Section Selection.

Context {G : Type} `{RandomState G}.
Variable kelvin_to_keV : Q -> Q.

(** The cells [__call__] keeps, in the order it works on them: the
    positions of the chunk sorted by temperature, cut to the
    temperatures from [kT_min] up to, but not including, [kT_max]. *)
Definition selection (self : ThermalSourceModel) (temp : list Q)
  : list nat :=
  let kT := map kelvin_to_keV temp in
  np.slice (np.argsort kT)
           (np.searchsorted (np.sort kT) (kT_min self))
           (np.searchsorted (np.sort kT) (kT_max self)).

(** The bins of a call: the digitized temperatures of the selection, how
    often each occurs, and the list the loop over the bins runs
    through. *)
Definition digitized (temp : list Q) (idxs : list nat) (bins : list Q)
  : list Z :=
  map (fun n => (Z.of_nat n - 1)%Z)
      (np.digitize (map (fun i => nth i (map kelvin_to_keV temp) 0%Q) idxs)
                   bins).

Definition bins_of (kT_idxs : list Z) (bc : list nat)
  : list (nat * nat * nat * Z) :=
  let bcounts := filter (fun c => Nat.ltb 0 c) bc in
  zip4 (fst (cell_ranges 0 bcounts)) (snd (cell_ranges 0 bcounts)) bcounts
       (np.unique kT_idxs).

Definition start_state (g : G) (p : ProgressBar) (num_cells : nat)
  : call_state :=
  mk_call_state (repeat 0 num_cells) (buffer_zeros 10000000) 10000000%N g p
                [] [].

(** The mask of the density cut, the emission measure of the selected
    cells scaled by the normalization, and their metallicity, as
    [__call__] computes them. *)
Definition dens_cut_of (self : ThermalSourceModel) (chunk : Chunk)
  (orig_ncells : nat) : result (list bool) :=
  match max_density self with
  | None => Ok (repeat true orig_ncells)
  | Some max_density =>
      dens <- chunk_get chunk (density_field self) ;;
      Ok (map (fun x => Qlt_bool x max_density) dens)
  end.

Definition cell_em_of (em : list Q) (dens_cut : list bool) (norm : Q)
  (idxs : list nat) : list Q :=
  map (fun e => e * norm)%Q
      (map (fun i =>
              nth i (np.map2 (fun e (b : bool) => e * (if b then 1 else 0))%Q
                             em dens_cut) 0%Q)
           idxs).

Definition metalZ_of (self : ThermalSourceModel) (chunk : Chunk)
  (idxs : list nat) : result (list Q) :=
  if nei self then Ok (np.zeros (length idxs))
  else
    match Zmet self with
    | Float z => Ok (map (Qmult z) (np.ones (length idxs)))
    | Field f =>
        a <- chunk_get chunk (Some f) ;;
        sel <- np.take a idxs ;;
        Ok (map (fun x => x * Zconvert self)%Q sel)
    end.

(** The three ways a call returns. *)
Inductive outcome (self : ThermalSourceModel) (chunk : Chunk)
  (temp : list Q) (g : G)
  : returned -> ThermalSourceModel -> G -> call_trace -> Prop :=
| empty_chunk :
    length temp = 0 ->
    outcome self chunk temp g None self g (mk_call_trace [] [] [])
| nothing_selected p :
    length temp <> 0 -> selection self temp = [] -> pbar self = Some p ->
    outcome self chunk temp g None
            (set_pbar self (Some (update p (length temp)))) g
            (mk_call_trace [] [] [])
| cells_processed p bins widths bc dens_cut em norm metalZ elemZ
                  s1 end_e st :
    length temp <> 0 -> selection self temp <> [] -> pbar self = Some p ->
    kT_bins self = Some bins -> dkT self = Some widths ->
    np.bincount (digitized temp (selection self temp) bins) = Ok bc ->
    dens_cut_of self chunk (length temp) = Ok dens_cut ->
    chunk_get chunk (emission_measure_field self) = Ok em ->
    length em = length dens_cut ->
    spectral_norm self = Some norm ->
    metalZ_of self chunk (selection self temp) = Ok metalZ ->
    (num_var_elem self = 0 -> elemZ = None) ->
    bin_loop self bins widths
             (cell_em_of em dens_cut norm (selection self temp))
             metalZ elemZ
             (bins_of (digitized temp (selection self temp) bins) bc) 0 0
             (start_state g
                (update p (length temp - length (selection self temp)))
                (length (selection self temp)))
    = Ok (s1, end_e, st) ->
    length (number_of_photons st) = length (selection self temp) ->
    let active := map (fun c => Nat.ltb 0 c) (number_of_photons st) in
    outcome self chunk temp g
            (Some (length (np.compress active (selection self temp)),
                   np.compress active (number_of_photons st),
                   np.compress active (selection self temp),
                   buffer_prefix (energies st) end_e))
            (set_pbar self (Some (bar st))) (gen st)
            (mk_call_trace (selection self temp) (lam_log st)
                           (table_log st)).

Lemma run_outcome (self : ThermalSourceModel) (chunk : Chunk) (g : G)
  (temp : list Q) r self' g' tr :
  run kelvin_to_keV self chunk g = Ok (r, self', g', tr) ->
  chunk_get chunk (temperature_field self) = Ok temp ->
  outcome self chunk temp g r self' g' tr.
Proof.
  intros Erun Htemp. unfold run in Erun. rewrite Htemp in Erun.
  cbn [bind] in Erun.
  destruct (Nat.eqb_spec (length temp) 0) as [Hz|Hnz].
  { inv_Ok Erun. now constructor. }
  fold (dens_cut_of self chunk (length temp)) in Erun.
  bind_inv Erun as dens_cut Ecut. bind_inv Erun as em Eem.
  bind_inv Erun as EM EEM. apply ew2_inv in EEM. destruct EEM as [Hel ->].
  bind_inv Erun as kT_sorted Esorted.
  apply take_inv in Esorted. destruct Esorted as [_ ->].
  rewrite argsort_values in Erun. fold (selection self temp) in Erun.
  bind_inv Erun as p Ep.
  assert (Hp : pbar self = Some p).
  { unfold attr, of_option in Ep. destruct (pbar self); congruence. }
  destruct (Nat.eqb_spec (length (selection self temp)) 0) as [Hsel|Hsel].
  { inv_Ok Erun. apply nothing_selected; auto.
    now apply length_zero_iff_nil. }
  bind_inv Erun as kT_sel Esel. apply take_inv in Esel.
  destruct Esel as [_ ->].
  bind_inv Erun as bins Ebins.
  assert (Hbins : kT_bins self = Some bins).
  { unfold attr, of_option in Ebins. destruct (kT_bins self); congruence. }
  fold (digitized temp (selection self temp) bins) in Erun.
  bind_inv Erun as bc Ebc.
  destruct (cell_ranges 0 _) as [bcell ecell] eqn:Hcr.
  bind_inv Erun as em_sel Eems. apply take_inv in Eems.
  destruct Eems as [_ ->].
  bind_inv Erun as norm Enorm.
  assert (Hnorm : spectral_norm self = Some norm).
  { unfold attr, of_option in Enorm.
    destruct (spectral_norm self); congruence. }
  fold (cell_em_of em dens_cut norm (selection self temp)) in Erun.
  bind_inv Erun as mz EmZ. destruct mz as [metalZ elem_keys].
  assert (HmZ : metalZ_of self chunk (selection self temp) = Ok metalZ).
  { unfold metalZ_of. destruct (nei self); [now inv_Ok EmZ|].
    destruct (Zmet self) as [z|f]; [now inv_Ok EmZ|].
    bind_inv EmZ as a Ea. bind_inv EmZ as sel Es. inv_Ok EmZ.
    rewrite Ea. simpl. rewrite Es. reflexivity. }
  bind_inv Erun as elemZ EeZ.
  assert (HeZ : num_var_elem self = 0 -> elemZ = None).
  { intros Hv. rewrite Hv in EeZ. simpl in EeZ. now inv_Ok EeZ. }
  bind_inv Erun as widths Ew.
  assert (Hw : dkT self = Some widths).
  { unfold attr, of_option in Ew. destruct (dkT self); congruence. }
  bind_inv Erun as fin Eloop. destruct fin as [[s1 end_e] st].
  bind_inv Erun as active_idxs Eai. bind_inv Erun as cts Ects.
  inv_Ok Erun.
  apply getmask_inv in Eai. destruct Eai as [Hal ->].
  apply getmask_inv in Ects. destruct Ects as [_ ->].
  rewrite length_map in Hal.
  eapply cells_processed; eauto.
  - intros Hnil. apply Hsel. now rewrite Hnil.
  - unfold bins_of. rewrite Hcr. simpl. exact Eloop.
Qed.

(** The temperature of a cell of the chunk, in keV. *)
Definition kT_of (temp : list Q) (c : nat) : Q :=
  nth c (map kelvin_to_keV temp) 0%Q.

Definition in_range (self : ThermalSourceModel) (temp : list Q) (c : nat)
  : Prop :=
  c < length temp
  /\ (kT_min self <= kT_of temp c)%Q /\ (kT_of temp c < kT_max self)%Q.

Lemma selection_spec (self : ThermalSourceModel) (temp : list Q) :
  (forall c, In c (selection self temp) <-> in_range self temp c)
  /\ NoDup (selection self temp)
  /\ ascending (map (kT_of temp) (selection self temp)).
Proof.
  unfold selection, in_range, kT_of.
  set (kT := map kelvin_to_keV temp).
  set (i := np.searchsorted (np.sort kT) (kT_min self)).
  set (j := np.searchsorted (np.sort kT) (kT_max self)).
  destruct (argsort_perm kT) as [Hnd Hin].
  pose proof (argsort_values kT) as Hval.
  pose proof (sort_ascending kT) as Hasc.
  destruct (searchsorted_split (np.sort kT) (kT_min self) Hasc)
    as [Hlo1 Hlo2].
  destruct (searchsorted_split (np.sort kT) (kT_max self) Hasc)
    as [Hhi1 Hhi2].
  fold i in Hlo1, Hlo2. fold j in Hhi1, Hhi2.
  assert (Hlen : length kT = length temp) by (unfold kT; apply length_map).
  split; [|split].
  - intros c. split.
    + intros Hc.
      assert (Hv : In (nth c kT 0%Q) (np.slice (np.sort kT) i j)).
      { rewrite <- Hval, <- slice_map.
        apply (in_map (fun k => nth k kT 0%Q)). exact Hc. }
      split; [|split].
      * rewrite <- Hlen. apply Hin.
        apply slice_In_firstn in Hc.
        rewrite <- (firstn_skipn j (np.argsort kT)).
        apply in_or_app. now left.
      * apply slice_In_skipn in Hv. rewrite Forall_forall in Hlo2.
        now apply Hlo2.
      * apply slice_In_firstn in Hv. rewrite Forall_forall in Hhi1.
        now apply Hhi1.
    + intros (Hc & Hmin & Hmax).
      assert (Hc' : In c (np.argsort kT)) by (apply Hin; lia).
      apply In_nth_error in Hc'. destruct Hc' as [q Hq].
      assert (Hq' : nth_error (np.sort kT) q = Some (nth c kT 0%Q)).
      { rewrite <- Hval.
        exact (map_nth_error (fun k => nth k kT 0%Q) q (np.argsort kT) Hq). }
      assert (Hiq : i <= q).
      { destruct (Nat.le_gt_cases i q) as [|Hlt]; [assumption|].
        exfalso. rewrite Forall_forall in Hlo1.
        specialize (Hlo1 (nth c kT 0%Q)).
        assert (Hf : In (nth c kT 0%Q) (firstn i (np.sort kT))).
        { apply (nth_error_In _ q). rewrite nth_error_firstn.
          destruct (Nat.ltb_spec q i); [assumption | lia]. }
        apply Hlo1 in Hf. lra. }
      assert (Hqj : q < j).
      { destruct (Nat.le_gt_cases j q) as [Hle|]; [|assumption].
        exfalso. rewrite Forall_forall in Hhi2.
        specialize (Hhi2 (nth c kT 0%Q)).
        assert (Hf : In (nth c kT 0%Q) (skipn j (np.sort kT))).
        { apply (nth_error_In _ (q - j)). rewrite nth_error_skipn.
          now replace (j + (q - j)) with q by lia. }
        apply Hhi2 in Hf. lra. }
      apply (nth_error_In _ (q - i)).
      now rewrite slice_nth_error.
  - now apply NoDup_slice.
  - rewrite slice_map. fold kT. rewrite Hval.
    unfold np.slice. now apply ascending_firstn, ascending_skipn.
Qed.

(** [ThermalSourceModel.__call__] works on the cells whose temperature
    lies in the half-open interval from [kT_min] to [kT_max].  A call
    that does not raise returns [None] exactly when the chunk has no
    such cell.  Otherwise it reports cells of that interval only, none
    of them twice, in ascending order of temperature (not of position),
    with one count per reported cell, each at least 1. *)
Theorem thermal_call_selects_by_temperature (self : ThermalSourceModel)
  (chunk : Chunk) (g : G) (temp : list Q) r self' g' tr :
  run kelvin_to_keV self chunk g = Ok (r, self', g', tr) ->
  chunk_get chunk (temperature_field self) = Ok temp ->
  (r = None <-> forall c, ~ in_range self temp c)
  /\ forall ncells counts idxs energies,
       r = Some (ncells, counts, idxs, energies) ->
       NoDup idxs
       /\ Forall (in_range self temp) idxs
       /\ ascending (map (kT_of temp) idxs)
       /\ Forall (fun n => 0 < n) counts
       /\ length counts = length idxs.
Proof.
  intros Erun Htemp.
  destruct (selection_spec self temp) as (Hin & Hnd & Hasc).
  destruct (run_outcome _ _ _ _ _ _ _ _ Erun Htemp)
    as [Hz | p Hnz Hsel Hp
        | p bins widths bc dens_cut em norm metalZ elemZ s1 end_e st
            Hnz Hsel Hp Hbins Hw Hbc Hcut Hem Hel Hnorm HmZ HeZ Eloop Hl
            active].
  - split.
    + split; [|reflexivity]. intros _ c (Hc & _). lia.
    + discriminate.
  - split.
    + split; [|reflexivity]. intros _ c Hc. apply Hin in Hc.
      rewrite Hsel in Hc. contradiction.
    + discriminate.
  - split.
    + split; [discriminate|]. intros Hno. exfalso.
      destruct (selection self temp) as [|c sel] eqn:Es; [contradiction|].
      apply (Hno c). apply Hin. now left.
    + intros ncells counts idxs energies E. inv_Ok E.
      split; [now apply NoDup_compress|]. split; [|split; [|split]].
      * apply Forall_forall. intros c Hc. apply compress_sub in Hc.
        now apply Hin.
      * rewrite compress_map. now apply ascending_compress.
      * apply positive_counts.
      * assert (Ha : length active = length (number_of_photons st))
          by (unfold active; now rewrite length_map).
        rewrite !compress_length; auto. congruence.
Qed.

End Selection.


(** The example chunk: the cell at 7 keV lies above [kT_max = 4] and is
    not reported. *)
Lemma thermal_call_selects_by_temperature_witness :
  match examples.thermal_run "invert_cdf" examples.chunk with
  | Ok (Some (_, counts, idxs, _), _, _, _) =>
      NoDup idxs /\ ~ In 3 idxs /\ Forall (fun n => 0 < n) counts
      /\ idxs <> []
  | _ => False
  end.
Proof.
  destruct (examples.thermal_run "invert_cdf" examples.chunk)
    as [[[[[[[[n c] i] e]|] self'] g'] tr]|x] eqn:E.
  - destruct (thermal_call_selects_by_temperature (fun x => x)
                (examples.thermal "invert_cdf") examples.chunk
                examples.seed [0.5; 0.75; 2.5; 7]%Q _ _ _ _ E eq_refl)
      as [_ Hsome].
    destruct (Hsome n c i e eq_refl) as (Hnd & Hr & _ & Hc & _).
    split; [exact Hnd|]. split; [|split; [exact Hc|]].
    + intros Hin. rewrite Forall_forall in Hr.
      destruct (Hr 3 Hin) as (_ & _ & Hmax).
      lazy in Hmax. discriminate Hmax.
    + lazy in E. inv_Ok E. discriminate.
  - lazy in E. discriminate E.
  - lazy in E. discriminate E.
Defined.

End thermal_selection.

(** ** The thermal model: the temperature bins of a call *)

Module thermal_bins.
Import source_models.
Import thermal_selection.

(** *** Counting the digitized temperatures *)

(** A strictly ascending list of integers. *)
Inductive increasing : list Z -> Prop :=
| increasing_nil : increasing []
| increasing_cons z r :
    Forall (fun y => z < y)%Z r -> increasing r -> increasing (z :: r).

Lemma increasing_ext (a b : list Z) :
  increasing a -> increasing b -> (forall z, In z a <-> In z b) -> a = b.
Proof.
  intros Ha. revert b. induction Ha as [|x a Hx Ha IH];
    intros b Hb Hab.
  - destruct b as [|y b]; [reflexivity|].
    exfalso. apply (Hab y). now left.
  - destruct Hb as [|y b Hy Hb].
    + exfalso. apply (Hab x). now left.
    + rewrite Forall_forall in Hx, Hy.
      assert (Exy : x = y).
      { destruct (proj1 (Hab x) (or_introl eq_refl)) as [E|Hin];
          [now symmetry|].
        destruct (proj2 (Hab y) (or_introl eq_refl)) as [E|Hin'];
          [assumption|].
        apply Hy in Hin. apply Hx in Hin'. lia. }
      subst y. f_equal. apply IH; [assumption|].
      intros z. split; intros Hz.
      * destruct (proj1 (Hab z) (or_intror Hz)) as [E|Hin]; [|assumption].
        apply Hx in Hz. lia.
      * destruct (proj2 (Hab z) (or_intror Hz)) as [E|Hin]; [|assumption].
        apply Hy in Hz. lia.
Qed.

Lemma insert_uniq_In (v : Z) (s : list Z) (z : Z) :
  In z (np.insert_uniq v s) <-> z = v \/ In z s.
Proof.
  induction s as [|w s IH]; simpl.
  - intuition.
  - destruct (Z.ltb_spec v w); simpl; [intuition|].
    destruct (Z.eqb_spec v w); simpl.
    + subst. intuition.
    + rewrite IH. intuition.
Qed.

Lemma insert_uniq_increasing (v : Z) (s : list Z) :
  increasing s -> increasing (np.insert_uniq v s).
Proof.
  induction 1 as [|w s Hw Hs IH]; simpl.
  - repeat constructor.
  - destruct (Z.ltb_spec v w).
    + constructor; [|now constructor].
      constructor; [assumption|].
      eapply Forall_impl; [|exact Hw]. simpl. intros y Hy. lia.
    + destruct (Z.eqb_spec v w); [now constructor|].
      constructor; [|assumption].
      apply Forall_forall. intros y Hy. apply insert_uniq_In in Hy.
      destruct Hy as [->|Hy]; [lia|].
      rewrite Forall_forall in Hw. now apply Hw.
Qed.

Lemma unique_spec (x : list Z) :
  increasing (np.unique x) /\ forall z, In z (np.unique x) <-> In z x.
Proof.
  induction x as [|v x [IH1 IH2]]; simpl.
  - split; [constructor | tauto].
  - split; [now apply insert_uniq_increasing|].
    intros z. rewrite insert_uniq_In, IH2. intuition.
Qed.

Lemma filter_seq_increasing (f : nat -> bool) (n : nat) :
  forall a,
    increasing (map Z.of_nat (filter f (seq a n)))
    /\ Forall (fun y => Z.of_nat a <= y)%Z
              (map Z.of_nat (filter f (seq a n))).
Proof.
  induction n as [|n IH]; intros a; simpl.
  - split; constructor.
  - destruct (IH (S a)) as [IH1 IH2].
    assert (Hgt : Forall (fun y => Z.of_nat a < y)%Z
                         (map Z.of_nat (filter f (seq (S a) n)))).
    { eapply Forall_impl; [|exact IH2]. simpl. intros y Hy. lia. }
    destruct (f a); simpl.
    + split; [now constructor|].
      constructor; [lia|].
      eapply Forall_impl; [|exact Hgt]. simpl. intros y Hy. lia.
    + split; [assumption|].
      eapply Forall_impl; [|exact Hgt]. simpl. intros y Hy. lia.
Qed.

Lemma fold_max_ge (x : list Z) (z : Z) :
  In z x -> (z <= fold_right Z.max (-1) x)%Z.
Proof.
  induction x as [|v x IH]; simpl; [tauto|].
  intros [->|Hin]; [lia|]. specialize (IH Hin). lia.
Qed.

Lemma filter_map_length (A B : Type) (f : A -> B) (p : B -> bool)
  (l : list A) :
  filter p (map f l) = map f (filter (fun a => p (f a)) l).
Proof.
  induction l as [|a l IH]; simpl; [reflexivity|].
  destruct (p (f a)); simpl; now rewrite IH.
Qed.

Lemma isum_map_plus (A : Type) (f g : A -> nat) (l : list A) :
  np.isum (map (fun b => f b + g b) l)
  = np.isum (map f l) + np.isum (map g l).
Proof.
  induction l as [|a l IH]; simpl; [reflexivity | rewrite IH; lia].
Qed.

Lemma isum_indicator (v : Z) (K : nat) :
  forall a,
    (Z.of_nat a <= v < Z.of_nat (a + K))%Z ->
    np.isum (map (fun b => if Z.eq_dec v (Z.of_nat b) then 1 else 0)
                 (seq a K)) = 1.
Proof.
  induction K as [|K IH]; intros a Hv; [lia|].
  simpl. destruct (Z.eq_dec v (Z.of_nat a)) as [E|E].
  - assert (Hz : forall n c,
               (v < Z.of_nat c)%Z ->
               np.isum (map (fun b => if Z.eq_dec v (Z.of_nat b)
                                      then 1 else 0) (seq c n)) = 0).
    { induction n as [|n IHn]; intros c Hc; simpl; [reflexivity|].
      destruct (Z.eq_dec v (Z.of_nat c)); [lia|].
      apply IHn. lia. }
    rewrite Hz by lia. reflexivity.
  - simpl. apply IH. lia.
Qed.

Lemma isum_count_occ (x : list Z) (K : nat) :
  Forall (fun v => 0 <= v < Z.of_nat K)%Z x ->
  np.isum (map (fun b => count_occ Z.eq_dec x (Z.of_nat b)) (seq 0 K))
  = length x.
Proof.
  induction 1 as [|v x Hv Hx IH]; simpl.
  - induction (seq 0 K); simpl; auto.
  - rewrite <- IH.
    transitivity
      (np.isum (map (fun b => if Z.eq_dec v (Z.of_nat b) then 1 else 0)
                    (seq 0 K))
       + np.isum (map (fun b => count_occ Z.eq_dec x (Z.of_nat b))
                      (seq 0 K))).
    + rewrite <- isum_map_plus. f_equal. apply map_ext. intros b.
      destruct (Z.eq_dec v (Z.of_nat b)); reflexivity.
    + rewrite (isum_indicator v K 0) by (simpl; lia). reflexivity.
Qed.

Lemma isum_filter_positive (l : list nat) :
  np.isum (filter (fun c => Nat.ltb 0 c) l) = np.isum l.
Proof.
  induction l as [|c l IH]; simpl; [reflexivity|].
  destruct (Nat.ltb_spec 0 c); simpl; lia.
Qed.

(** What [np.bincount] returns for the digitized temperatures [x]: the
    counts of the values that occur, in ascending order of the values,
    are as many as [np.unique] returns values, and they add up to the
    number of entries of [x]. *)
Lemma bincount_spec (x : list Z) (bc : list nat) :
  np.bincount x = Ok bc ->
  Forall (fun v => 0 <= v)%Z x
  /\ length (filter (fun c => Nat.ltb 0 c) bc) = length (np.unique x)
  /\ np.isum (filter (fun c => Nat.ltb 0 c) bc) = length x.
Proof.
  unfold np.bincount. destruct (forallb _ x) eqn:Hpos; [|discriminate].
  intros E. inv_Ok E.
  assert (Hx : Forall (fun v => 0 <= v)%Z x).
  { apply Forall_forall. intros v Hv.
    rewrite forallb_forall in Hpos. apply Hpos in Hv. lia. }
  set (K := Z.to_nat (fold_right Z.max (-1)%Z x + 1)).
  assert (Hr : Forall (fun v => 0 <= v < Z.of_nat K)%Z x).
  { apply Forall_forall. intros v Hv.
    pose proof (fold_max_ge x v Hv) as Hm.
    rewrite Forall_forall in Hx. specialize (Hx v Hv). unfold K. lia. }
  split; [assumption|]. split.
  - rewrite filter_map_length, length_map.
    rewrite <- (length_map Z.of_nat).
    f_equal. destruct (unique_spec x) as [Hinc Hmem].
    apply increasing_ext; [apply filter_seq_increasing | assumption |].
    intros z. rewrite Hmem, in_map_iff. split.
    + intros (b & <- & Hb). apply filter_In in Hb.
      destruct Hb as [_ Hb]. apply Nat.ltb_lt in Hb.
      apply (count_occ_In Z.eq_dec). lia.
    + intros Hz. exists (Z.to_nat z).
      rewrite Forall_forall in Hr. specialize (Hr z Hz).
      split; [lia|]. apply filter_In. split.
      * apply in_seq. lia.
      * apply Nat.ltb_lt. rewrite Z2Nat.id by lia.
        apply (count_occ_In Z.eq_dec) in Hz. lia.
  - rewrite isum_filter_positive. now apply isum_count_occ.
Qed.

(** *** The progress reporter *)

Lemma update_update (p : ProgressBar) (a b : nat) :
  update (update p a) b = update p (a + b).
Proof.
  destruct p; simpl; [reflexivity|]. now rewrite Nat.add_assoc.
Qed.

Lemma update_zero (p : ProgressBar) : update p 0 = p.
Proof.
  destruct p; simpl; [reflexivity|]. now rewrite Nat.add_0_r.
Qed.

Lemma cell_ranges_length (bcounts : list nat) :
  forall n,
    length (fst (cell_ranges n bcounts)) = length bcounts
    /\ length (snd (cell_ranges n bcounts)) = length bcounts.
Proof.
  induction bcounts as [|c bcounts IH]; intros n; simpl; [auto|].
  specialize (IH (n + c)). destruct (cell_ranges (n + c) bcounts).
  simpl in *. lia.
Qed.

(** The number of cells of a bin, as the loop over the bins reads it. *)
Definition bcount_of (bin : nat * nat * nat * Z) : nat :=
  let '(_, _, bcount, _) := bin in bcount.

Lemma zip4_bcounts (a b c : list nat) (d : list Z) :
  length a = length c -> length b = length c -> length d = length c ->
  map bcount_of (zip4 a b c d) = c.
Proof.
  unfold zip4. revert a b d.
  induction c as [|x c IH]; intros [|xa a] [|xb b] [|xd d]; simpl;
    try discriminate; auto.
  intros Ha Hb Hd. f_equal. apply IH; lia.
Qed.

(** The bins of a call hold every selected cell once. *)
Lemma bins_of_total (x : list Z) (bc : list nat) :
  np.bincount x = Ok bc ->
  np.isum (map bcount_of (bins_of x bc)) = length x.
Proof.
  intros E. apply bincount_spec in E. destruct E as (_ & Hl & Hs).
  unfold bins_of.
  destruct (cell_ranges_length (filter (fun c => Nat.ltb 0 c) bc) 0)
    as [H1 H2].
  rewrite zip4_bcounts; auto.
Qed.

Section Progress.

Context {G : Type} `{RandomState G}.
Variable kelvin_to_keV : Q -> Q.

Lemma cell_loop_bar (self : ThermalSourceModel) (metalZ : list Q)
  (elemZ : option (list (list Q))) (icells : list nat) :
  forall (ei : nat) (arrs : bin_arrays) (st : call_state) arrs' st',
    cell_loop self metalZ elemZ icells ei arrs st = Ok (arrs', st') ->
    bar st' = bar st.
Proof.
  induction icells as [|icell rest IH]; intros ei arrs st arrs' st' E.
  - simpl in E. now inv_Ok E.
  - simpl in E. bind_inv E as cn Ecn.
    destruct (Nat.eqb cn 0); [now apply IH in E|].
    bind_inv E as r Er. destruct r as [[[cell_e arrs1] g1] table].
    bind_inv E as en Een. now apply IH in E.
Qed.

Lemma bin_loop_bar (self : ThermalSourceModel)
  (kT_bins dkT cell_em metalZ : list Q) (elemZ : option (list (list Q)))
  (bins : list (nat * nat * nat * Z)) :
  forall (s e : nat) (st : call_state) s' e' st',
    bin_loop self kT_bins dkT cell_em metalZ elemZ bins s e st
    = Ok (s', e', st') ->
    bar st' = update (bar st) (np.isum (map bcount_of bins)).
Proof.
  induction bins as [|[[[ib ie] bcount] ikT] bins IH];
    intros s e st s' e' st' E.
  - simpl in E. inv_Ok E. simpl. now rewrite update_zero.
  - simpl in E. bind_inv E as r Estep. destruct r as [[s1 e1] st1].
    apply IH in E. rewrite E. simpl.
    rewrite <- update_update. f_equal.
    unfold bin_step in Estep.
    bind_inv Estep as edge Eedge. bind_inv Estep as width Ewidth.
    destruct (get_spectrum _ _) as [[cs ms] vs].
    bind_inv Estep as cell_norm Enorm.
    destruct (poisson cell_norm (gen st)) as [cell_n g1].
    bind_inv Estep as nph Enph. bind_inv Estep as arrs Earrs.
    bind_inv Estep as fin Ecells. destruct fin as [arrs' st2].
    inv_Ok Estep. apply cell_loop_bar in Ecells. now rewrite Ecells.
Qed.

(** A reporter that still counts: [tqdm] ignores updates once it was
    closed. *)
Definition still_open (p : ProgressBar) : Prop :=
  match p with
  | ParallelProgressBar _ => True
  | tqdm _ _ _ closed => closed = false
  end.

(** A call of [ThermalSourceModel.__call__] that does not raise advances
    the progress reporter by the number of cells of the chunk, whether
    the cells are dropped by the temperature selection or worked on bin
    by bin, and changes nothing else of the model. *)
Theorem thermal_call_advances_progress (self : ThermalSourceModel)
  (chunk : Chunk) (g : G) (temp : list Q) (p : ProgressBar)
  r self' g' tr :
  run kelvin_to_keV self chunk g = Ok (r, self', g', tr) ->
  chunk_get chunk (temperature_field self) = Ok temp ->
  pbar self = Some p ->
  still_open p ->
  self' = set_pbar self (Some (update p (length temp))).
Proof.
  intros Erun Htemp Hp _.
  destruct (run_outcome _ _ _ _ _ _ _ _ _ Erun Htemp)
    as [Hz | p' Hnz Hsel Hp'
        | p' bins widths bc dens_cut em norm metalZ elemZ s1 end_e st
            Hnz Hsel Hp' Hbins Hw Hbc Hcut Hem Hel Hnorm HmZ HeZ Eloop Hl
            active].
  - rewrite Hz, update_zero, <- Hp. now destruct self.
  - congruence.
  - rewrite Hp in Hp'. injection Hp' as <-.
    apply bin_loop_bar in Eloop. rewrite Eloop. simpl.
    rewrite (bins_of_total _ _ Hbc), update_update.
    unfold digitized, np.digitize. rewrite !length_map.
    do 3 f_equal.
    assert (Hle : length (selection kelvin_to_keV self temp) <= length temp).
    { destruct (selection_spec kelvin_to_keV self temp) as (Hin & Hnd & _).
      rewrite <- (length_seq (length temp) 0).
      apply NoDup_incl_length; [assumption|].
      intros c Hc. apply Hin in Hc. destruct Hc as [Hc _].
      apply in_seq. lia. }
    lia.
Qed.

End Progress.

(** The example model reports through a [tqdm] bar that stands at 10:
    the chunk of four cells moves it to 14, though only two cells draw
    photons. *)
Lemma thermal_call_advances_progress_witness :
  match run (fun x => x) (set_pbar (examples.thermal "invert_cdf")
                            (Some (tqdm 40 "cells" 10 false)))
            examples.chunk examples.seed with
  | Ok (_, self', _, _) => pbar self' = Some (tqdm 40 "cells" 14 false)
  | Raise _ => False
  end.
Proof.
  destruct (run _ _ _ _) as [[[[r self'] g'] tr]|e] eqn:E.
  - rewrite (thermal_call_advances_progress (fun x => x) _ _ _
               [0.5; 0.75; 2.5; 7]%Q (tqdm 40 "cells" 10 false)
               _ _ _ _ E eq_refl eq_refl eq_refl).
    reflexivity.
  - lazy in E. discriminate E.
Defined.

End thermal_bins.

(** ** The thermal model: the expected photon count of a cell *)

Module thermal_rates.
Import source_models.
Import drawn_events thermal_selection thermal_bins.

(** *** The bins hold the cells of one digitized temperature each *)

Inductive nondecreasing : list Z -> Prop :=
| nondecreasing_nil : nondecreasing []
| nondecreasing_cons z r :
    Forall (fun y => z <= y)%Z r -> nondecreasing r ->
    nondecreasing (z :: r).

Lemma digitize1_mono (bins : list Q) (v v' : Q) :
  (v <= v')%Q -> np.digitize1 bins v <= np.digitize1 bins v'.
Proof.
  intros Hvv. induction bins as [|b bins IH]; simpl; [lia|].
  destruct (Qle_bool b v) eqn:E; [|lia].
  apply Qle_bool_iff in E.
  assert (E' : Qle_bool b v' = true) by (apply Qle_bool_iff; lra).
  rewrite E'. lia.
Qed.

Lemma digitized_nondecreasing (kTs bins : list Q) :
  ascending kTs ->
  nondecreasing (map (fun n => (Z.of_nat n - 1)%Z) (np.digitize kTs bins)).
Proof.
  unfold np.digitize. induction 1 as [|v r Hv Hr IH]; simpl; constructor;
    auto.
  apply Forall_forall. intros y Hy.
  apply in_map_iff in Hy. destruct Hy as [n [<- Hn]].
  apply in_map_iff in Hn. destruct Hn as [w [<- Hw]].
  rewrite Forall_forall in Hv. specialize (Hv w Hw).
  pose proof (digitize1_mono bins v w Hv). lia.
Qed.

Lemma bincount_counts (x : list Z) (bc : list nat) :
  np.bincount x = Ok bc ->
  filter (fun c => Nat.ltb 0 c) bc
  = map (count_occ Z.eq_dec x) (np.unique x).
Proof.
  intros E. pose proof E as Hspec. apply bincount_spec in Hspec.
  destruct Hspec as (Hx & _ & _).
  unfold np.bincount in E. destruct (forallb _ x); [|discriminate].
  inv_Ok E.
  set (K := Z.to_nat (fold_right Z.max (-1)%Z x + 1)).
  assert (Hr : Forall (fun v => 0 <= v < Z.of_nat K)%Z x).
  { apply Forall_forall. intros v Hv.
    pose proof (fold_max_ge x v Hv) as Hm.
    rewrite Forall_forall in Hx. specialize (Hx v Hv). unfold K. lia. }
  rewrite filter_map_length.
  assert (HU : np.unique x
               = map Z.of_nat
                   (filter (fun b => 0 <? count_occ Z.eq_dec x (Z.of_nat b))
                           (seq 0 K))).
  { destruct (unique_spec x) as [Hinc Hmem].
    apply increasing_ext; [assumption | apply filter_seq_increasing |].
    intros z. rewrite Hmem, in_map_iff. split.
    - intros Hz. exists (Z.to_nat z).
      rewrite Forall_forall in Hr. specialize (Hr z Hz).
      split; [lia|]. apply filter_In. split.
      + apply in_seq. lia.
      + apply Nat.ltb_lt. rewrite Z2Nat.id by lia.
        apply (count_occ_In Z.eq_dec) in Hz. lia.
    - intros (b & <- & Hb). apply filter_In in Hb.
      destruct Hb as [_ Hb]. apply Nat.ltb_lt in Hb.
      apply (count_occ_In Z.eq_dec). lia. }
  rewrite HU, map_map. reflexivity.
Qed.

Lemma insert_uniq_least (v : Z) (U : list Z) :
  Forall (fun y => v <= y)%Z U ->
  np.insert_uniq v U
  = match U with
    | [] => [v]
    | w :: r => if Z.ltb v w then v :: w :: r else w :: r
    end.
Proof.
  intros HU. destruct U as [|w r]; simpl; [reflexivity|].
  destruct (Z.ltb_spec v w); [reflexivity|].
  inversion HU; subst.
  destruct (Z.eqb_spec v w); [reflexivity | lia].
Qed.

(** A nondecreasing array is, value by value, as many copies of the
    value as it occurs. *)
Lemma run_lengths (x : list Z) :
  nondecreasing x ->
  x = concat (map (fun z => repeat z (count_occ Z.eq_dec x z))
                  (np.unique x)).
Proof.
  induction 1 as [|v x Hv Hx IH]; [reflexivity|].
  destruct (unique_spec x) as [Hinc Hmem].
  assert (HvU : Forall (fun y => v <= y)%Z (np.unique x)).
  { apply Forall_forall. intros y Hy. apply Hmem in Hy.
    rewrite Forall_forall in Hv. now apply Hv. }
  change (np.unique (v :: x)) with (np.insert_uniq v (np.unique x)).
  rewrite (insert_uniq_least v _ HvU).
  destruct (np.unique x) as [|w r] eqn:EU.
  - assert (Hnil : x = []).
    { destruct x as [|y x]; [reflexivity|].
      exfalso. apply (proj2 (Hmem y)). now left. }
    subst x. simpl. destruct (Z.eq_dec v v); [reflexivity | contradiction].
  - inversion Hinc as [|w' r' Hw Hr]; subst.
    assert (Hrest : forall z, In z r ->
               count_occ Z.eq_dec (v :: x) z = count_occ Z.eq_dec x z).
    { intros z Hz. simpl. destruct (Z.eq_dec v z) as [E|E]; [|reflexivity].
      exfalso. rewrite Forall_forall in Hw. specialize (Hw z Hz).
      inversion HvU; subst. lia. }
    destruct (Z.ltb_spec v w) as [Hlt|Hge].
    + assert (Hnot : ~ In v x).
      { intros Hin. apply Hmem in Hin. destruct Hin as [E|Hin]; [lia|].
        rewrite Forall_forall in Hw. specialize (Hw v Hin). lia. }
      cbn [map concat].
      replace (count_occ Z.eq_dec (v :: x) v) with 1.
      2:{ simpl. destruct (Z.eq_dec v v); [|contradiction].
          now rewrite (proj1 (count_occ_not_In Z.eq_dec x v) Hnot). }
      replace (count_occ Z.eq_dec (v :: x) w) with (count_occ Z.eq_dec x w).
      2:{ simpl. destruct (Z.eq_dec v w); [lia | reflexivity]. }
      rewrite (map_ext_in _ (fun z => repeat z (count_occ Z.eq_dec x z)) r).
      2:{ intros z Hz. now rewrite Hrest. }
      simpl. f_equal. exact IH.
    + assert (Evw : v = w) by (inversion HvU; subst; lia).
      subst w. cbn [map concat].
      replace (count_occ Z.eq_dec (v :: x) v)
        with (S (count_occ Z.eq_dec x v)).
      2:{ simpl. destruct (Z.eq_dec v v); [reflexivity | contradiction]. }
      rewrite (map_ext_in _ (fun z => repeat z (count_occ Z.eq_dec x z)) r).
      2:{ intros z Hz. now rewrite Hrest. }
      simpl. f_equal. exact IH.
Qed.

(** What holds of a bin [(ibegin, iend, bcount, ikT)] of an array [x] of
    digitized temperatures: it has [bcount] cells, and [x] holds [ikT]
    at every position of the bin. *)
Definition bin_ok (x : list Z) (bin : nat * nat * nat * Z) : Prop :=
  let '(ib, ie, c, z) := bin in
  ie = ib + c /\ ie <= length x
  /\ forall p, ib <= p < ie -> nth_error x p = Some z.

Lemma ranges_cover (cnt : Z -> nat) (U : list Z) :
  forall (n : nat) (pre : list Z),
    length pre = n ->
    let x := pre ++ concat (map (fun z => repeat z (cnt z)) U) in
    let B := zip4 (fst (cell_ranges n (map cnt U)))
                  (snd (cell_ranges n (map cnt U))) (map cnt U) U in
    Forall (bin_ok x) B
    /\ thermal_tuple.consecutive n B
    /\ forall p, n <= p < length x ->
                 exists ib ie c z, In (ib, ie, c, z) B /\ ib <= p < ie.
Proof.
  induction U as [|z U IH]; intros n pre Hpre; simpl.
  - split; [constructor|]. split; [constructor|].
    intros p Hp. rewrite app_nil_r in Hp. lia.
  - specialize (IH (n + cnt z) (pre ++ repeat z (cnt z))).
    rewrite length_app, repeat_length, Hpre in IH.
    specialize (IH eq_refl). simpl in IH.
    rewrite <- app_assoc in IH.
    destruct (cell_ranges (n + cnt z) (map cnt U)) as [bcell ecell].
    simpl in *. destruct IH as (IH1 & IH2 & IH3).
    unfold zip4 in *. simpl.
    split; [|split].
    + constructor; [|exact IH1].
      unfold bin_ok. split; [reflexivity|]. split.
      * rewrite !length_app, repeat_length. lia.
      * intros p Hp. rewrite nth_error_app2 by lia.
        rewrite nth_error_app1 by (rewrite repeat_length; lia).
        apply nth_error_repeat. lia.
    + constructor; [lia | exact IH2].
    + intros p Hp.
      destruct (Nat.lt_ge_cases p (n + cnt z)) as [Hlt|Hge].
      * exists n, (n + cnt z), (cnt z), z. split; [now left | lia].
      * destruct (IH3 p) as (ib & ie & c & w & Hin & Hr).
        { rewrite !length_app, repeat_length in *. lia. }
        exists ib, ie, c, w. split; [now right | assumption].
Qed.

(** The bins of a call, for a selection in ascending order of
    temperature. *)
Lemma bins_of_cover (x : list Z) (bc : list nat) :
  np.bincount x = Ok bc -> nondecreasing x ->
  Forall (bin_ok x) (bins_of x bc)
  /\ thermal_tuple.consecutive 0 (bins_of x bc)
  /\ forall p, p < length x ->
               exists ib ie c z,
                 In (ib, ie, c, z) (bins_of x bc) /\ ib <= p < ie.
Proof.
  intros Ebc Hnd. unfold bins_of. rewrite (bincount_counts x bc Ebc).
  pose proof (ranges_cover (count_occ Z.eq_dec x) (np.unique x) 0 []
                eq_refl) as Hc.
  simpl in Hc. rewrite <- (run_lengths x Hnd) in Hc.
  destruct Hc as (H1 & H2 & H3). split; [exact H1|]. split; [exact H2|].
  intros p Hp. apply H3. lia.
Qed.





(** *** The rates of a bin *)

Section Rates.

Context {G : Type} `{RandomState G}.
Variable kelvin_to_keV : Q -> Q.







(** *** The rate of a cell *)

(** The metallicity [__call__] uses for a cell of the chunk, and its
    emission measure after the density cut. *)
Definition metallicity (self : ThermalSourceModel) (chunk : Chunk)
  (c : nat) : Q :=
  if nei self then 0%Q
  else
    match Zmet self with
    | Float z => (z * 1)%Q
    | Field f =>
        match chunk f with
        | Some a => (nth c a 0 * Zconvert self)%Q
        | None => 0%Q
        end
    end.





End Rates.


End thermal_rates.

(** ** The empty catalog *)

Module empty_catalog.
Import event_list catalog.

(** [EventList.create_empty_list] stores the first entry of [cdelt] of
    the given mapping as [dtheta], and the constructor derives the
    mapping of the catalog from the parameters as
    [cdelt = [-dtheta, dtheta]]: the catalog has no events, the
    reference pixel and the reference sky position of the given mapping,
    and the increments [[-cdelt[0], cdelt[0]]].  Unless [cdelt[0]] is
    zero, the first increment of the catalog's mapping is the opposite
    of that of the mapping it was made from. *)
Theorem create_empty_list_mirrors_mapping
  (parse_value : pvalue -> string -> pvalue)
  (exp_time area : pvalue) (w : WCS) (params : option (dict.t pvalue))
  (c0 : Q) :
  nth_error (cdelt w) 0 = Some c0 ->
  exists C,
    create_empty_list parse_value exp_time area w params = Ok C
    /\ num_events C = 0
    /\ events C = [("xpix", ndarray []); ("ypix", ndarray []);
                   ("eobs", YTArray [] "keV")]
    /\ dict.get (parameters C) "ExposureTime"
       = Some (parse_value exp_time "s")
    /\ dict.get (parameters C) "Area" = Some (parse_value area "cm**2")
    /\ dict.get (parameters C) "dtheta" = Some (YTQuantity c0 "deg")
    /\ wcs C = mk_WCS (crpix w) (crval w) [(- c0)%Q; c0]
                      ["RA---TAN"; "DEC--TAN"] ["deg"; "deg"]
    /\ (~ (c0 == 0)%Q ->
        ~ (nth 0 (cdelt (wcs C)) 0 == nth 0 (cdelt w) 0)%Q).
Proof.
  intros Hc. unfold create_empty_list, np.item. rewrite Hc. simpl.
  set (p0 := match params with
             | Some p => p
             | None => dict.empty pvalue
             end).
  unfold __init__, default_wcs, dict.getitem. simpl.
  rewrite !dict_facts.get_set_other by discriminate.
  rewrite dict_facts.get_set_same. simpl.
  rewrite dict_facts.get_set_other by discriminate.
  rewrite dict_facts.get_set_same. simpl.
  rewrite dict_facts.get_set_same. simpl.
  eexists. split; [reflexivity|]. simpl.
  split; [reflexivity|]. split; [reflexivity|].
  split.
  { rewrite !dict_facts.get_set_other by discriminate.
    apply dict_facts.get_set_same. }
  split.
  { rewrite !dict_facts.get_set_other by discriminate.
    apply dict_facts.get_set_same. }
  split; [apply dict_facts.get_set_same|].
  split; [reflexivity|].
  intros Hnz Heq. apply Hnz.
  destruct (cdelt w) as [|c rest]; [discriminate|].
  simpl in Hc. injection Hc as ->. simpl in Heq. lra.
Qed.

(** The mapping of the examples has the increments -0.01 and 0.01; the
    empty catalog made from it has 0.01 and -0.01. *)
Lemma create_empty_list_mirrors_mapping_witness :
  exists C,
    create_empty_list examples.no_conversion (YTQuantity 10 "s")
                      (YTQuantity 2 "cm**2") examples.wcs None = Ok C
    /\ cdelt examples.wcs = [-0.01; 0.01]%Q
    /\ cdelt (wcs C) = [- (-0.01); -0.01]%Q.
Proof.
  destruct (create_empty_list_mirrors_mapping examples.no_conversion
              (YTQuantity 10 "s") (YTQuantity 2 "cm**2") examples.wcs None
              (-0.01)%Q eq_refl)
    as (C & E & _ & _ & _ & _ & _ & Hw & _).
  exists C. split; [exact E|]. split; [reflexivity|].
  now rewrite Hw.
Defined.

End empty_catalog.

(** ** The FITS event file: writing and reading back *)

Module fits_events.
Import event_list.

Section RoundTrip.

Variable wcs_pix2world : WCS -> list Q -> list Q -> list Q * list Q.
Variable in_units : list Q -> string -> string -> result (list Q).
Variable float32 : Q -> Q.
Variable card_float : Q -> Q.

Lemma pad_same (n : nat) (v : list Q) :
  length v = n -> pad n (ColumnQ v) = ColumnQ v.
Proof.
  intros <-. unfold pad. now rewrite Nat.sub_diag, app_nil_r.
Qed.

(** What a parameter reads as after it went through a header card. *)
Definition reread (p : pvalue) : pvalue :=
  match p with
  | PFloat v => PFloat (card_float v)
  | YTQuantity v u => YTQuantity (card_float v) u
  | PArray a => PArray (mk_array (map card_float (d a)) (units a))
  end.

Definition on_card (c : card) : card :=
  match c with
  | CFloat v => CFloat (card_float v)
  | _ => c
  end.

Lemma on_disk_get (h : dict.t card) (k : string) :
  dict.get (map (fun kv : string * card =>
                   match snd kv with
                   | CFloat v => (fst kv, CFloat (card_float v))
                   | _ => kv
                   end) h) k
  = option_map on_card (dict.get h k).
Proof.
  induction h as [|[k' c] h IH]; simpl.
  - reflexivity.
  - destruct c; simpl; destruct (String.eqb k k'); auto.
Qed.

Lemma write_header_Ok (self : EventList) (cols : list Column)
  (t a dt ra dec p0 p1 : Q) :
  checkpoint.parameters_in_units (parameters self) t a dt [ra; dec] [p0; p1] ->
  exists tbhdu,
    write_header self t (update_ext_name (from_columns float32 cols) "EVENTS")
    = Ok tbhdu
    /\ extname tbhdu = "EVENTS"
    /\ columns tbhdu = columns (from_columns float32 cols)
    /\ dict.get (header tbhdu) "EXPOSURE" = Some (CFloat t)
    /\ dict.get (header tbhdu) "AREA" = Some (CFloat a)
    /\ dict.get (header tbhdu) "TCRVL2" = Some (CFloat ra)
    /\ dict.get (header tbhdu) "TCRVL3" = Some (CFloat dec)
    /\ dict.get (header tbhdu) "TCDLT3" = Some (CFloat dt)
    /\ dict.get (header tbhdu) "TCRPX2" = Some (CFloat p0)
    /\ dict.get (header tbhdu) "TCRPX3" = Some (CFloat p1)
    /\ dict.get (header tbhdu) "REDSHIFT"
       = match dict.get (parameters self) "Redshift" with
         | Some (PFloat z) => Some (CFloat z)
         | _ => None
         end
    /\ dict.get (header tbhdu) "D_A"
       = match dict.get (parameters self) "AngularDiameterDistance" with
         | Some (YTQuantity q _) => Some (CFloat q)
         | _ => None
         end.
Proof.
  intros (Ht & Ha & Hsc & Hpc & Hdt & Hz & Hda).
  unfold write_header, dict.getitem, dict.contains.
  rewrite Ha, Hsc, Hpc, Hdt. simpl.
  destruct (dict.get (parameters self) "Redshift") as [vz|] eqn:Ez;
    destruct (dict.get (parameters self) "AngularDiameterDistance")
      as [vd|] eqn:Ed;
    try (destruct (Hz _ eq_refl) as [z ->]);
    try (destruct (Hda _ eq_refl) as [q ->]);
    simpl; eexists; (split; [reflexivity|]); simpl;
    repeat split; reflexivity.
Qed.

Lemma from_columns_events (x y e : list Q) :
  length y = length x ->
  length e = length x ->
  columns (from_columns float32
             [mk_Column "ENERGY" "E" (Some "eV") (ColumnQ e);
              mk_Column "X" "D" (Some "pixel") (ColumnQ x);
              mk_Column "Y" "D" (Some "pixel") (ColumnQ y)])
  = [mk_Column "ENERGY" "E" (Some "eV") (ColumnQ (map float32 e));
     mk_Column "X" "D" (Some "pixel") (ColumnQ x);
     mk_Column "Y" "D" (Some "pixel") (ColumnQ y)].
Proof.
  intros Ly Le. unfold from_columns. simpl. rewrite Ly, Le.
  rewrite Nat.max_0_r, !Nat.max_id.
  unfold pad. rewrite length_map, Le, Nat.sub_diag. simpl.
  now rewrite !app_nil_r.
Qed.

(** The parameters the event file gives back as they were written. *)
Definition kept_parameters : list string :=
  ["ExposureTime"; "Area"; "Redshift"; "AngularDiameterDistance";
   "sky_center"].

(** A catalog whose parameters are in the units of the data model and
    whose three arrays have one entry per event is written by
    [write_fits_file] (to a new file, or over an old one with [clobber])
    and read back by [from_fits_file].  The pixel coordinates come back as
    they were and the energies as single-precision numbers; exposure
    time, area, sky centre, redshift and distance come back as the header
    cards hold them.  The pixel centre and the angular scale do not come
    back: [pix_center] reads as the sky centre and [dtheta] as the
    declination of the sky centre, and the mapping of the catalog is built
    from these. *)
Theorem fits_round_trip_loses_pixel_scale (self : EventList)
  (fitsfile : string) (clobber : bool)
  (fs : fits_files) (t a dt ra dec p0 p1 : Q) (x y e : list Q) :
  checkpoint.parameters_in_units (parameters self) t a dt [ra; dec] [p0; p1] ->
  dict.get (events self) "xpix" = Some (ndarray x) ->
  dict.get (events self) "ypix" = Some (ndarray y) ->
  dict.get (events self) "eobs" = Some (YTArray e "keV") ->
  length y = length x ->
  length e = length x ->
  in_units e "keV" "eV" = Ok (map (Qmult 1000) e) ->
  fs fitsfile = None \/ clobber = true ->
  exists fs' R,
    write_fits_file wcs_pix2world in_units float32 card_float
                    self fitsfile clobber fs = Ok fs'
    /\ (forall name, name <> fitsfile -> fs' name = fs name)
    /\ from_fits_file float32 fitsfile fs' = Ok R
    /\ events R
       = [("xpix", ndarray x); ("ypix", ndarray y);
          ("eobs",
           YTArray (map (fun v => float32 (float32 (1000 * v) / 1000)) e)
                   "keV")]%Q
    /\ num_events R = length x
    /\ (forall k, In k kept_parameters ->
                  dict.get (parameters R) k
                  = option_map reread (dict.get (parameters self) k))
    /\ dict.get (parameters R) "pix_center"
       = Some (PArray (ndarray [card_float ra; card_float dec]))
    /\ dict.get (parameters R) "dtheta"
       = Some (YTQuantity (card_float dec) "deg")
    /\ wcs R = mk_WCS [card_float ra; card_float dec]
                      [card_float ra; card_float dec]
                      [(- card_float dec)%Q; card_float dec]
                      ["RA---TAN"; "DEC--TAN"] ["deg"; "deg"].
Proof.
  intros Hpar Hx Hy He Ly Le Hu Hfs.
  pose proof Hpar as (Ht & Ha & Hsc & Hpc & Hdt & Hz & Hda).
  unfold write_fits_file, dict.getitem. rewrite Ht. simpl.
  rewrite (catalog.getitem_present _ _ _ _ He). simpl.
  unfold in_units_d. simpl. rewrite Hu. simpl.
  rewrite (catalog.getitem_present _ _ _ _ Hx). simpl.
  rewrite (catalog.getitem_present _ _ _ _ Hy). simpl.
  match goal with |- context [from_columns float32 ?c] =>
    destruct (write_header_Ok self c t a dt ra dec p0 p1 Hpar)
      as (tb & Ew & Hn & Hc & Hex & Har & H2 & H3 & Hd3 & Hp2 & Hp3 & Hr & Hd)
  end.
  rewrite Ew. simpl.
  rewrite from_columns_events in Hc
    by (rewrite ?length_map; assumption).
  set (fs' := fun n : string =>
                if String.eqb n fitsfile
                then Some (map (on_disk card_float) [PrimaryHDU; tb])
                else fs n).
  assert (Ewr : writeto card_float [PrimaryHDU; tb] fitsfile clobber fs
                = Ok fs').
  { unfold writeto. destruct Hfs as [-> | ->]; [reflexivity|].
    now destruct (fs fitsfile). }
  rewrite Ewr. exists fs'. 
  assert (Hother : forall name, name <> fitsfile -> fs' name = fs name).
  { intros name Hne. unfold fs'.
    destruct (String.eqb_spec name fitsfile); [contradiction | reflexivity]. }
  assert (Hfile : fs' fitsfile
                  = Some (map (on_disk card_float) [PrimaryHDU; tb]))
    by (unfold fs'; now rewrite String.eqb_refl).
  unfold from_fits_file. rewrite Hfile. simpl.
  rewrite Hn. simpl.
  unfold dict.getitem, dict.contains.
  rewrite !on_disk_get, Hex, Har, H2, H3, Hr, Hd, Hc. simpl.
unfold divide_column, column_values, __init__, default_wcs. simpl.
  rewrite !map_map.
  destruct (dict.get (parameters self) "Redshift") as [vz|] eqn:Ez;
    destruct (dict.get (parameters self) "AngularDiameterDistance")
      as [vd|] eqn:Ed;
    try (destruct (Hz _ eq_refl) as [z ->]);
    try (destruct (Hda _ eq_refl) as [q ->]);
    simpl; eexists; (split; [reflexivity|]); (split; [exact Hother|]);
    (split; [reflexivity|]); simpl;
    (split; [reflexivity|]); (split; [reflexivity|]);
    (split; [|repeat split; reflexivity]);
    intros k Hk;
    repeat (destruct Hk as [<-|Hk];
            [simpl; rewrite ?Ht, ?Ha, ?Hsc, ?Ez, ?Ed; reflexivity|]);
    contradiction.
Qed.

End RoundTrip.

(** The example catalog written to a new file and read back. *)
Lemma fits_round_trip_loses_pixel_scale_witness :
  exists fs' R,
    write_fits_file examples.pix2world examples.in_units examples.rounded
      examples.exact_card examples.catalog "events.fits" false
      (fun _ => None) = Ok fs'
    /\ (forall name, name <> "events.fits" -> fs' name = None)
    /\ from_fits_file examples.rounded "events.fits" fs' = Ok R
    /\ events R
       = [("xpix", ndarray [1; 2]); ("ypix", ndarray [3; 1]);
          ("eobs",
           YTArray (map (fun v => examples.rounded
                                    (examples.rounded (1000 * v) / 1000))
                        [1.5; 2.5])
                   "keV")]%Q
    /\ num_events R = 2
    /\ (forall k, In k kept_parameters ->
                  dict.get (parameters R) k
                  = option_map (reread examples.exact_card)
                               (dict.get (parameters examples.catalog) k))
    /\ dict.get (parameters R) "pix_center"
       = Some (PArray (ndarray [30; 45]%Q))
    /\ dict.get (parameters R) "dtheta" = Some (YTQuantity 45 "deg")
    /\ wcs R = mk_WCS [30; 45]%Q [30; 45]%Q [(- 45)%Q; 45%Q]
                      ["RA---TAN"; "DEC--TAN"] ["deg"; "deg"].
Proof.
  apply (fits_round_trip_loses_pixel_scale examples.pix2world
           examples.in_units examples.rounded examples.exact_card
           examples.catalog "events.fits" false (fun _ => None)
           10 2 0.01 30 45 2 2 [1; 2]%Q [3; 1]%Q [1.5; 2.5]%Q);
    try reflexivity.
  - repeat split; try reflexivity; intros v Hv; discriminate.
  - now left.
Defined.

End fits_events.

(** ** The spectrum file *)

Module spectrum_file.
Import event_list.

(** Edges in ascending order. *)
Definition sorted_edges (edges : list Q) : Prop :=
  forall i j, i <= j < length edges -> (nth i edges 0 <= nth j edges 0)%Q.

Lemma sorted_edges_tail (x : Q) (edges : list Q) :
  sorted_edges (x :: edges) -> sorted_edges edges.
Proof.
  intros Hs i j Hij. apply (Hs (S i) (S j)). simpl. lia.
Qed.

Lemma bin_counts_length (a edges : list Q) :
  length (np.bin_counts a edges) = length edges - 1.
Proof.
  induction edges as [|lo [|hi rest] IH]; try reflexivity.
  change (S (length (np.bin_counts a (hi :: rest)))
          = length (lo :: hi :: rest) - 1).
  rewrite IH. simpl. lia.
Qed.

(** The interval of bin [i] of [edges]. *)
Definition in_bin (edges : list Q) (i : nat) (x : Q) : bool :=
  Qle_bool (nth i edges 0%Q) x
  && (if Nat.eqb (S (S i)) (length edges)
      then Qle_bool x (nth (S i) edges 0%Q)
      else negb (Qle_bool (nth (S i) edges 0%Q) x)).

Lemma bin_counts_nth (a : list Q) :
  forall edges i,
    S i < length edges ->
    nth i (np.bin_counts a edges) 0%Z
    = Z.of_nat (length (filter (in_bin edges i) a)).
Proof.
  induction edges as [|lo [|hi rest] IH]; intros i Hi;
    try (simpl in Hi; lia).
  destruct i as [|i].
  - destruct rest; reflexivity.
  - change (nth i (np.bin_counts a (hi :: rest)) 0%Z
            = Z.of_nat (length (filter (in_bin (lo :: hi :: rest) (S i)) a))).
    rewrite IH by (simpl in Hi |- *; lia). reflexivity.
Qed.

Lemma filter_split (p q r : Q -> bool) (a : list Q) :
  (forall x, r x = p x || q x) ->
  (forall x, p x = true -> q x = false) ->
  length (filter p a) + length (filter q a) = length (filter r a).
Proof.
  intros Hr Hpq. induction a as [|x a IH]; [reflexivity|].
  simpl. rewrite Hr. specialize (Hpq x).
  destruct (p x), (q x); simpl; lia.
Qed.

Lemma last_as_nth (l : list Q) :
  last l 0%Q = nth (length l - 1) l 0%Q.
Proof.
  induction l as [|x [|y l] IH]; try reflexivity.
  change (last (y :: l) 0%Q = nth (length (y :: l)) (x :: y :: l) 0%Q).
  rewrite IH. simpl. now rewrite Nat.sub_0_r.
Qed.

Lemma bin_counts_total (a : list Q) :
  forall edges,
    2 <= length edges ->
    sorted_edges edges ->
    fold_right Z.add 0%Z (np.bin_counts a edges)
    = Z.of_nat (length (filter (fun x => Qle_bool (hd 0%Q edges) x
                                         && Qle_bool x (last edges 0%Q)) a)).
Proof.
  induction edges as [|lo [|hi rest] IH]; intros Hlen Hs;
    try (simpl in Hlen; lia).
  destruct rest as [|e2 rest].
  - simpl. now rewrite Z.add_0_r.
  - change (Z.of_nat (length (filter (fun x => Qle_bool lo x
                                               && negb (Qle_bool hi x)) a))
            + fold_right Z.add 0%Z (np.bin_counts a (hi :: e2 :: rest))
            = Z.of_nat (length (filter
                 (fun x => Qle_bool lo x
                           && Qle_bool x (last (hi :: e2 :: rest) 0%Q)) a)))%Z.
    rewrite IH by (simpl; try lia; eapply sorted_edges_tail; eassumption).
    rewrite <- Nat2Z.inj_add. f_equal.
    apply filter_split.
    + intros x. simpl hd.
      assert (H01 : (lo <= hi)%Q) by (apply (Hs 0 1); simpl; lia).
      assert (H1n : (hi <= last (hi :: e2 :: rest) 0)%Q).
      { rewrite last_as_nth. apply (Hs 1 (S (length (hi :: e2 :: rest) - 1))).
        simpl. lia. }
      destruct (Qle_bool lo x) eqn:E0, (Qle_bool hi x) eqn:E1,
               (Qle_bool x (last (hi :: e2 :: rest) 0%Q)) eqn:E2;
        try reflexivity; exfalso;
        rewrite ?Qle_bool_iff in *;
        try (apply drawn_events.Qle_bool_false in E0);
        try (apply drawn_events.Qle_bool_false in E1);
        try (apply drawn_events.Qle_bool_false in E2); lra.
    + intros x Hp. apply andb_true_iff in Hp as [_ Hp].
      apply negb_true_iff in Hp. simpl hd. now rewrite Hp.
Qed.

Lemma bin_counts_bound (a : list Q) :
  forall edges,
    Forall (fun c => 0 <= c <= Z.of_nat (length a))%Z (np.bin_counts a edges).
Proof.
  induction edges as [|lo [|hi rest] IH]; try constructor.
  - split; [lia|]. apply inj_le, filter_length_le.
  - exact IH.
Qed.

Lemma int32_small (z : Z) : (0 <= z < 2 ^ 31)%Z -> np.int32 z = z.
Proof.
  intros Hz. unfold np.int32. rewrite Z.mod_small; lia.
Qed.

Lemma int32_counts (spec : list Z) (n : Z) :
  (n < 2 ^ 31)%Z ->
  Forall (fun c => 0 <= c <= n)%Z spec -> map np.int32 spec = spec.
Proof.
  intros Hn Hs. induction Hs as [|c spec Hc Hs IH]; [reflexivity|].
  simpl. rewrite IH, int32_small by lia. reflexivity.
Qed.

Lemma int32_channels (nchan : Z) :
  (nchan < 2 ^ 31)%Z ->
  map (fun i => np.int32 (np.int32 i + 1)) (np.arange nchan)
  = map (fun i => (Z.of_nat i + 1)%Z) (seq 0 (Z.to_nat nchan)).
Proof.
  intros Hn. unfold np.arange. rewrite map_map. apply map_ext_in.
  intros i Hi. apply in_seq in Hi.
  rewrite (int32_small (Z.of_nat i)) by lia. apply int32_small. lia.
Qed.

Lemma nth_map_in (A B : Type) (f : A -> B) (l : list A) (d : B) (d' : A)
  (i : nat) :
  i < length l -> nth i (map f l) d = f (nth i l d').
Proof.
  revert i. induction l as [|x l IH]; intros [|i] Hi; simpl in *;
    try lia; auto. apply IH. lia.
Qed.

(** The edges [np.linspace] gives for [n] bins. *)
Lemma linspace_length (start stop : Q) (n : nat) :
  length (np.linspace start stop (n + 1)) = n + 1.
Proof.
  rewrite Nat.add_1_r. destruct n as [|n]; [reflexivity|].
  unfold np.linspace. rewrite length_app, length_map, length_seq.
  simpl. lia.
Qed.

Lemma linspace_nth (start stop : Q) (n i : nat) :
  0 < n -> i <= n ->
  (nth i (np.linspace start stop (n + 1)) 0
   == start + inject_Z (Z.of_nat i) * ((stop - start) / inject_Z (Z.of_nat n)))%Q.
Proof.
  intros Hn Hi. rewrite Nat.add_1_r. destruct n as [|n]; [lia|].
  unfold np.linspace.
  destruct (Nat.eq_dec i (S n)) as [->|Hne].
  - rewrite app_nth2; rewrite length_map, length_seq; [|lia].
    rewrite Nat.sub_diag. simpl nth.
    field. intros H0. 
    assert (Hpos : (0 < inject_Z (Z.of_nat (S n)))%Q)
      by (rewrite <- (Zlt_Qlt 0); lia).
    lra.
  - rewrite app_nth1 by (rewrite length_map, length_seq; lia).
    rewrite (nth_map_in _ _ _ _ 0%Q 0) by (rewrite length_seq; lia).
    rewrite seq_nth by lia. simpl Nat.add. ring.
Qed.

Lemma linspace_last (start stop : Q) (n : nat) :
  0 < n -> last (np.linspace start stop (n + 1)) 0%Q = stop.
Proof.
  intros Hn. rewrite Nat.add_1_r. destruct n as [|n]; [lia|].
  unfold np.linspace. apply last_last.
Qed.

Lemma linspace_sorted (start stop : Q) (n : nat) :
  0 < n -> (start <= stop)%Q ->
  sorted_edges (np.linspace start stop (n + 1)).
Proof.
  intros Hn Hle i j Hij. rewrite linspace_length in Hij.
  rewrite !linspace_nth by lia.
  assert (Hpos : (0 < inject_Z (Z.of_nat n))%Q)
    by (rewrite <- (Zlt_Qlt 0); lia).
  assert (Hstep : (0 <= (stop - start) / inject_Z (Z.of_nat n))%Q).
  { apply Qle_shift_div_l; [assumption|]. lra. }
  assert (Hij' : (inject_Z (Z.of_nat i) <= inject_Z (Z.of_nat j))%Q)
    by (rewrite <- Zle_Qle; lia).
  nra.
Qed.

Section Spectrum.

Variable wcs_pix2world : WCS -> list Q -> list Q -> list Q * list Q.
Variable float32 : Q -> Q.
Variable card_float : Q -> Q.

(** The energy channels: [nchan] intervals of equal width from [emin] to
    [emax]; a channel holds its lower edge, and the last one [emax]
    too. *)
Definition width (emin emax : Q) (nchan : Z) : Q :=
  ((emax - emin) / inject_Z nchan)%Q.

Definition edge (emin emax : Q) (nchan : Z) (i : nat) : Q :=
  (emin + inject_Z (Z.of_nat i) * width emin emax nchan)%Q.

Definition in_channel (emin emax : Q) (nchan : Z) (i : nat) (v : Q) : bool :=
  Qle_bool (edge emin emax nchan i) v
  && (if Z.eqb (Z.of_nat (S i)) nchan then Qle_bool v emax
      else negb (Qle_bool (edge emin emax nchan (S i)) v)).

Definition in_window (emin emax : Q) (v : Q) : bool :=
  Qle_bool emin v && Qle_bool v emax.

Lemma from_columns_even (cols : list Column) (n : nat) :
  cols <> [] ->
  Forall (fun c => col_length (col_array c) = n
                   /\ String.eqb (col_format c) "E" = false) cols ->
  from_columns float32 cols = mk_HDU "" (dict.empty card) cols.
Proof.
  intros Hne Hall. unfold from_columns.
  assert (Hrows : fold_right Nat.max 0
                    (map (fun c => col_length (col_array c)) cols) = n).
  { induction Hall as [|c cols' [Hc _] Hall IH]; [congruence|].
    simpl. destruct cols' as [|c' cols'].
    - simpl. lia.
    - rewrite IH by discriminate. lia. }
  rewrite Hrows. clear Hrows Hne. f_equal.
  induction Hall as [|c cols' [Hc Hf] Hall IH]; [reflexivity|].
  simpl. rewrite IH. f_equal.
  destruct c as [nm fmt un [v|v]]; simpl in *; rewrite ?Hf;
    unfold pad; rewrite Hc, Nat.sub_diag, app_nil_r; reflexivity.
Qed.

Lemma nth_tl (l : list Q) (i : nat) : nth i (tl l) 0%Q = nth (S i) l 0%Q.
Proof. destruct l; [now destruct i | reflexivity]. Qed.

Lemma nth_removelast (l : list Q) (i : nat) :
  S i < length l -> nth i (removelast l) 0%Q = nth i l 0%Q.
Proof.
  revert i. induction l as [|x [|y l] IH]; intros i Hi;
    try (simpl in Hi; lia).
  destruct i as [|i]; [reflexivity|].
  change (nth i (removelast (y :: l)) 0%Q = nth i (y :: l) 0%Q).
  apply IH. simpl in Hi |- *. lia.
Qed.

Lemma filter_same (p q : Q -> bool) (a : list Q) :
  (forall x, p x = q x) -> filter p a = filter q a.
Proof. intros Hpq. apply filter_ext. exact Hpq. Qed.

(** What [np.histogram] counts in the channels of [write_spectrum]. *)
Lemma channel_counts (e : list Q) (emin emax : Q) (nchan : Z) :
  (0 < nchan)%Z -> (emin <= emax)%Q ->
  let n := Z.to_nat nchan in
  let edges := np.linspace emin emax (n + 1) in
  let spec := np.bin_counts e edges in
  fold_right Z.add 0%Z spec
  = Z.of_nat (length (filter (in_window emin emax) e))
  /\ forall i, i < n ->
       nth i spec 0%Z
       = Z.of_nat (length (filter (in_channel emin emax nchan i) e))
       /\ (nth i (np.map2 (fun hi lo : Q => 0.5 * (hi + lo))
                          (tl edges) (removelast edges)) 0
           == edge emin emax nchan i + width emin emax nchan / 2)%Q.
Proof.
  intros Hn Hle n edges spec.
  assert (Hn0 : 0 < n) by (unfold n; lia).
  assert (Ledges : length edges = n + 1) by apply linspace_length.
  assert (Hnth : forall i, i <= n ->
            (nth i edges 0 == edge emin emax nchan i)%Q).
  { intros i Hi. unfold edges. rewrite linspace_nth by lia.
    unfold edge, width, n. rewrite Z2Nat.id by lia. reflexivity. }
  assert (Hlast : nth n edges 0%Q = emax).
  { replace n with (length edges - 1) at 1 by lia.
    rewrite <- last_as_nth. now apply linspace_last. }
  split.
  - unfold spec. rewrite bin_counts_total;
      [| lia | now apply linspace_sorted].
    f_equal. f_equal. apply filter_same. intros x. unfold in_window.
    rewrite last_as_nth, Ledges.
    replace (n + 1 - 1) with n by lia. rewrite Hlast.
    f_equal. replace (hd 0%Q edges) with (nth 0 edges 0%Q)
      by (now destruct edges).
    rewrite (Hnth 0) by lia. unfold edge. simpl inject_Z.
    apply Qleb_comp; [ring | reflexivity].
  - intros i Hi. split.
    + unfold spec. rewrite bin_counts_nth by lia.
      f_equal. f_equal. apply filter_same. intros x.
      unfold in_bin, in_channel. rewrite Ledges.
      f_equal; [apply Qleb_comp; [now apply Hnth; lia | reflexivity]|].
      destruct (Nat.eqb_spec (S (S i)) (n + 1)) as [E|E].
      * replace (Z.of_nat (S i) =? nchan)%Z with true
          by (symmetry; apply Z.eqb_eq; unfold n in E; lia).
        replace (S i) with n by lia. now rewrite Hlast.
      * replace (Z.of_nat (S i) =? nchan)%Z with false
          by (symmetry; apply Z.eqb_neq; unfold n in E, Hi; lia).
        f_equal. apply Qleb_comp; [now apply Hnth; lia | reflexivity].
    + rewrite (map2_nth _ _ _ _ _ _ 0%Q 0%Q 0%Q).
      * rewrite nth_tl, nth_removelast by lia.
        rewrite (Hnth (S i)), (Hnth i) by lia.
        unfold edge. rewrite Nat2Z.inj_succ, <- Z.add_1_r, inject_Z_plus.
        simpl (inject_Z 1). field.
      * destruct edges; simpl in *; lia.
      * rewrite removelast_firstn_len, length_firstn, Ledges. lia.
Qed.

Lemma spectrum_header_Ok (self : EventList) (spec : list Z)
  (cols : list Column) (p : pvalue) (t : Q) :
  dict.get (parameters self) "ExposureTime" = Some p ->
  float p = Ok t ->
  exists tbhdu,
    spectrum_header self spec
      (update_ext_name (mk_HDU "" [] cols) "SPECTRUM") = Ok tbhdu
    /\ extname tbhdu = "SPECTRUM"
    /\ columns tbhdu = cols
    /\ dict.get (header tbhdu) "DETCHANS"
       = Some (CInt (Z.of_nat (length spec)))
    /\ dict.get (header tbhdu) "TOTCTS"
       = Some (CInt (fold_right Z.add 0%Z spec))
    /\ dict.get (header tbhdu) "EXPOSURE" = Some (CFloat t).
Proof.
  intros Hp Ht. unfold spectrum_header, dict.getitem.
  rewrite Hp. simpl. rewrite Ht. simpl.
  eexists. repeat split; reflexivity.
Qed.

(** [write_spectrum] with at least one channel and [emin < emax], on a
    catalog of fewer than 2^31 events whose energies carry a unit, writes
    a table SPECTRUM with one row per channel.  Channel [i] (numbered
    [i + 1]) counts the events whose energy lies in
    [emin + i*w <= e < emin + (i+1)*w], with [w = (emax - emin)/nchan];
    the last channel also counts the events at [emax].  The card TOTCTS is
    the number of events with [emin <= e <= emax], events outside the
    window are in no channel, the column ENERGY holds the middle of each
    channel and COUNT_RATE the counts divided by the exposure time.  An
    existing file is replaced only with [clobber]. *)
Theorem spectrum_counts_events_in_window (self : EventList)
  (specfile : string) (emin emax : Q)
  (nchan : Z) (clobber : bool) (fs : fits_files) (e : list Q) (u : string)
  (p : pvalue) (t : Q) :
  dict.get (events self) "eobs" = Some (YTArray e u) ->
  dict.get (parameters self) "ExposureTime" = Some p ->
  float p = Ok t ->
  (0 < nchan < 2 ^ 31)%Z ->
  (emin < emax)%Q ->
  (Z.of_nat (length e) < 2 ^ 31)%Z ->
  fs specfile = None \/ clobber = true ->
  exists fs' primary tbhdu counts energy,
    write_spectrum wcs_pix2world float32 card_float self specfile emin emax
                   nchan clobber fs = Ok fs'
    /\ fs' specfile = Some [primary; tbhdu]
    /\ (forall name, name <> specfile -> fs' name = fs name)
    /\ extname tbhdu = "SPECTRUM"
    /\ dict.get (header tbhdu) "DETCHANS" = Some (CInt nchan)
    /\ dict.get (header tbhdu) "TOTCTS"
       = Some (CInt (Z.of_nat (length (filter (in_window emin emax) e))))
    /\ dict.get (header tbhdu) "EXPOSURE" = Some (CFloat (card_float t))
    /\ columns tbhdu
       = [mk_Column "CHANNEL" "1J" None
            (ColumnZ (map (fun i => (Z.of_nat i + 1)%Z)
                          (seq 0 (Z.to_nat nchan))));
          mk_Column "ENERGY" "1D" None (ColumnQ energy);
          mk_Column "COUNTS" "1J" None (ColumnZ counts);
          mk_Column "COUNT_RATE" "1D" None
            (ColumnQ (map (fun c => (inject_Z c / t)%Q) counts))]
    /\ length counts = Z.to_nat nchan
    /\ length energy = Z.to_nat nchan
    /\ fold_right Z.add 0%Z counts
       = Z.of_nat (length (filter (in_window emin emax) e))
    /\ forall i, i < Z.to_nat nchan ->
         nth i counts 0%Z
         = Z.of_nat (length (filter (in_channel emin emax nchan i) e))
         /\ (nth i energy 0
             == edge emin emax nchan i + width emin emax nchan / 2)%Q.
Proof.
  intros He Hp Ht Hn Hlt Hlen Hfs.
  unfold write_spectrum.
  rewrite (catalog.getitem_present _ _ _ _ He). simpl.
  unfold np.histogram.
  destruct (Z.ltb_spec nchan 1) as [Hc|_]; [lia|].
  assert (Hle : Qle_bool emin emax = true)
    by (apply Qle_bool_iff; lra).
  rewrite Hle. simpl negb. cbv iota.
  assert (Hne : Qeq_bool emin emax = false).
  { destruct (Qeq_bool emin emax) eqn:E; [|reflexivity].
    apply Qeq_bool_iff in E. lra. }
  rewrite Hne. cbv beta iota zeta.
  unfold bind at 1.
  unfold dict.getitem at 1. rewrite Hp. simpl of_option.
  unfold bind at 1. rewrite Ht. unfold bind at 1.
  destruct (channel_counts e emin emax nchan) as [Htot Hchan];
    [lia | lra |].
  set (n := Z.to_nat nchan) in *.
  set (edges := np.linspace emin emax (n + 1)) in *.
  set (spec := np.bin_counts e edges) in *.
  assert (Hn0 : 0 < n) by (unfold n; lia).
  assert (Ledges : length edges = n + 1) by apply linspace_length.
  assert (Lspec : length spec = n)
    by (unfold spec; rewrite bin_counts_length, Ledges; lia).
  assert (Hbound : Forall (fun c => 0 <= c <= Z.of_nat (length e))%Z spec)
    by apply bin_counts_bound.
  rewrite (int32_counts spec (Z.of_nat (length e)) Hlen Hbound).
  rewrite int32_channels by lia. fold n.
  set (energy := np.map2 (fun hi lo : Q => (0.5 * (hi + lo))%Q)
                         (tl edges) (removelast edges)) in *.
  assert (Ltl : length (tl edges) = n).
  { destruct edges; simpl in *; lia. }
  assert (Lrl : length (removelast edges) = n).
  { rewrite removelast_firstn_len, length_firstn, Ledges. lia. }
  assert (Lenergy : length energy = n).
  { unfold energy. rewrite map2_length, Ltl, Lrl. lia. }
  rewrite (from_columns_even _ n);
    [| discriminate
     | repeat (apply Forall_cons;
                 [split; [simpl; rewrite ?length_map, ?length_seq;
                          first [assumption | reflexivity]
                         | reflexivity] |]);
       apply Forall_nil].
  match goal with |- context [mk_HDU "" _ ?c] =>
    destruct (spectrum_header_Ok self spec c p t Hp Ht)
      as (tbhdu & Eh & Hname & Hcols & Hdc & Htc & Hec)
  end.
  unfold dict.empty. rewrite Eh. unfold bind at 1.
  set (fs' := fun name : string =>
                if String.eqb name specfile
                then Some (map (on_disk card_float) [PrimaryHDU; tbhdu])
                else fs name).
  assert (Ewr : writeto card_float [PrimaryHDU; tbhdu] specfile clobber fs
                = Ok fs').
  { unfold writeto. destruct Hfs as [-> | ->]; [reflexivity|].
    now destruct (fs specfile). }
  rewrite Ewr.
  exists fs', (on_disk card_float PrimaryHDU), (on_disk card_float tbhdu),
    spec, energy.
  split; [reflexivity|].
  split; [unfold fs'; now rewrite String.eqb_refl|].
  split.
  { intros name Hother. unfold fs'.
    destruct (String.eqb_spec name specfile); [contradiction|reflexivity]. }
  split; [exact Hname|].
  assert (Hdet : Z.of_nat (length spec) = nchan)
    by (rewrite Lspec; unfold n; lia).
  unfold on_disk at 1 2 3. simpl header.
  rewrite !fits_events.on_disk_get, Hdc, Htc, Hec, Hdet, Htot.
  split; [reflexivity|].
  split; [reflexivity|].
  split; [reflexivity|].
  split; [exact Hcols|].
  repeat split; try assumption; now apply Hchan.
Qed.

End Spectrum.

(** The two events of the example catalog in two channels from 1 to 3
    keV. *)
Lemma spectrum_counts_events_in_window_witness :
  exists fs' primary tbhdu counts energy,
    write_spectrum examples.pix2world examples.rounded examples.exact_card
      examples.catalog "spectrum.fits" 1 3 2 false (fun _ => None) = Ok fs'
    /\ fs' "spectrum.fits" = Some [primary; tbhdu]
    /\ (forall name, name <> "spectrum.fits" -> fs' name = None)
    /\ extname tbhdu = "SPECTRUM"
    /\ dict.get (header tbhdu) "DETCHANS" = Some (CInt 2)
    /\ dict.get (header tbhdu) "TOTCTS"
       = Some (CInt (Z.of_nat (length (filter (in_window 1 3)
                                              [1.5; 2.5]%Q))))
    /\ dict.get (header tbhdu) "EXPOSURE"
       = Some (CFloat (examples.exact_card 10))
    /\ columns tbhdu
       = [mk_Column "CHANNEL" "1J" None
            (ColumnZ (map (fun i => (Z.of_nat i + 1)%Z)
                          (seq 0 (Z.to_nat 2))));
          mk_Column "ENERGY" "1D" None (ColumnQ energy);
          mk_Column "COUNTS" "1J" None (ColumnZ counts);
          mk_Column "COUNT_RATE" "1D" None
            (ColumnQ (map (fun c => (inject_Z c / 10)%Q) counts))]
    /\ length counts = Z.to_nat 2
    /\ length energy = Z.to_nat 2
    /\ fold_right Z.add 0%Z counts
       = Z.of_nat (length (filter (in_window 1 3) [1.5; 2.5]%Q))
    /\ forall i, i < Z.to_nat 2 ->
         nth i counts 0%Z
         = Z.of_nat (length (filter (in_channel 1 3 2 i) [1.5; 2.5]%Q))
         /\ (nth i energy 0 == edge 1 3 2 i + width 1 3 2 / 2)%Q.
Proof.
  apply (spectrum_counts_events_in_window examples.pix2world
           examples.rounded examples.exact_card examples.catalog
           "spectrum.fits" 1 3 2 false (fun _ => None) [1.5; 2.5]%Q "keV"
           (YTQuantity 10 "s") 10);
    try reflexivity; try (split; reflexivity); now left.
Defined.

End spectrum_file.

(** ** The SIMPUT export *)

Module simput_file.
Import event_list.

Lemma fold_min_le (r : list Q) :
  forall m0,
    let m := fold_left (fun m v => if Qle_bool v m then v else m) r m0 in
    (m <= m0)%Q /\ Forall (fun v => (m <= v)%Q) r.
Proof.
  induction r as [|x r IH]; intros m0; simpl.
  - split; [lra | constructor].
  - destruct (IH (if Qle_bool x m0 then x else m0)) as [H1 H2].
    destruct (Qle_bool x m0) eqn:E.
    + apply Qle_bool_iff in E. split; [lra|]. constructor; assumption.
    + apply drawn_events.Qle_bool_false in E.
      split; [assumption|]. constructor; [lra | assumption].
Qed.

Lemma fold_max_le (r : list Q) :
  forall m0,
    let m := fold_left (fun m v => if Qle_bool m v then v else m) r m0 in
    (m0 <= m)%Q /\ Forall (fun v => (v <= m)%Q) r.
Proof.
  induction r as [|x r IH]; intros m0; simpl.
  - split; [lra | constructor].
  - destruct (IH (if Qle_bool m0 x then x else m0)) as [H1 H2].
    destruct (Qle_bool m0 x) eqn:E.
    + apply Qle_bool_iff in E. split; [lra|]. constructor; assumption.
    + apply drawn_events.Qle_bool_false in E.
      split; [assumption|]. constructor; [lra | assumption].
Qed.

(** Every entry of a non-empty array lies between its minimum and its
    maximum, so the default window selects them all. *)
Lemma default_window (e : list Q) :
  e <> [] ->
  exists lo hi,
    np.amin e = Ok lo /\ np.amax e = Ok hi
    /\ np.ew2 andb (map (fun v => Qle_bool lo v) e)
                   (map (fun v => Qle_bool v hi) e)
       = Ok (repeat true (length e)).
Proof.
  intros Hne. destruct e as [|x r]; [congruence|].
  eexists. eexists. split; [reflexivity|]. split; [reflexivity|].
  destruct (fold_min_le r x) as [Hm0 Hm].
  destruct (fold_max_le r x) as [HM0 HM].
  set (lo := fold_left (fun m v => if Qle_bool v m then v else m) r x) in *.
  set (hi := fold_left (fun m v => if Qle_bool m v then v else m) r x) in *.
  assert (Hall : Forall (fun v => (lo <= v)%Q /\ (v <= hi)%Q) (x :: r)).
  { constructor; [split; assumption|].
    rewrite Forall_forall in *. intros v Hv. split; auto. }
  rewrite ew2_Ok by now rewrite !length_map.
  f_equal. clearbody lo hi. clear - Hall.
  induction Hall as [|v l [Hv1 Hv2] Hall IH]; [reflexivity|].
  simpl. rewrite IH. apply Qle_bool_iff in Hv1, Hv2.
  now rewrite Hv1, Hv2.
Qed.

Section Simput.

Variable wcs_pix2world : WCS -> list Q -> list Q -> list Q * list Q.
Variable in_units : list Q -> string -> string -> result (list Q).
Variable write_photon_list :
  string -> string -> Q -> list Q -> list Q -> list Q -> bool ->
  fits_files -> result fits_files.

(** The catalog once its sky coordinates are cached. *)
Definition with_sky (self : EventList) (sx sy : list Q) : EventList :=
  mk_EventList
    (dict.set (dict.set (events self) "xsky" (YTArray sx "degree"))
              "ysky" (YTArray sy "degree"))
    (parameters self) (num_events self) (wcs self).

(** [write_simput_file] without an energy window, on a catalog whose sky
    coordinates are not cached yet: an empty catalog raises [ValueError]
    (it has no minimum energy); otherwise every event is handed to the
    SIMPUT writer, with its two sky coordinates and its energy, together
    with the flux: the summed energy in erg divided by the exposure time
    and the area.  The catalog has its sky coordinates cached
    afterwards. *)
Theorem simput_default_window_exports_every_event (self : EventList)
  (prefix : string) (clobber : bool) (fs : fits_files)
  (e sx sy : list Q) (u : string) (xp yp : array) (pt pa : pvalue)
  (t a : Q) :
  dict.get (events self) "eobs" = Some (YTArray e u) ->
  dict.get (events self) "xpix" = Some xp ->
  dict.get (events self) "ypix" = Some yp ->
  dict.get (events self) "xsky" = None ->
  dict.get (events self) "ysky" = None ->
  wcs_pix2world (wcs self) (d xp) (d yp) = (sx, sy) ->
  length sx = length e ->
  length sy = length e ->
  dict.get (parameters self) "ExposureTime" = Some pt ->
  float pt = Ok t ->
  dict.get (parameters self) "Area" = Some pa ->
  float pa = Ok a ->
  ~ (t == 0)%Q ->
  ~ (a == 0)%Q ->
  (e = [] ->
   write_simput_file wcs_pix2world in_units write_photon_list self prefix
                     clobber None None fs = Raise ValueError)
  /\ (forall erg,
        e <> [] ->
        in_units e u "erg" = Ok erg ->
        write_simput_file wcs_pix2world in_units write_photon_list self
                          prefix clobber None None fs
        = (fs' <- write_photon_list prefix prefix
                    (np.sum erg / t / a)%Q sx sy e clobber fs ;;
           Ok (fs', with_sky self sx sy))).
Proof.
  intros He Hx Hy Hxs Hys Hw Lx Ly Hpt Ht Hpa Ha _ _.
  pose proof (catalog.getitem_present wcs_pix2world _ _ _ He) as Ge.
  split.
  - intros ->. unfold write_simput_file. rewrite Ge. reflexivity.
  - intros erg Hne Herg. unfold write_simput_file. rewrite Ge.
    destruct (default_window e Hne) as (lo & hi & Elo & Ehi & Emask).
    unfold extreme_value. simpl. rewrite Elo. simpl.
    rewrite Ge. simpl. rewrite Ehi. simpl.
    rewrite Ge. simpl. rewrite Ge. simpl.
    rewrite Emask. simpl. rewrite Ge. simpl.
    rewrite getmask_Ok by now rewrite repeat_length.
    rewrite compress_all_true. simpl.
    unfold in_units_d. simpl. rewrite Herg. simpl.
    unfold dict.getitem. rewrite Hpt. simpl. rewrite Ht. simpl.
    rewrite Hpa. simpl. rewrite Ha. simpl.
assert (Gx : __getitem__ wcs_pix2world self "xsky"
                 = Ok (YTArray sx "degree", with_sky self sx sy)).
    { unfold __getitem__, dict.contains, dict.getitem.
      rewrite Hxs, Hx, Hy. simpl. rewrite Hw. simpl.
      rewrite dict_facts.get_set_other by discriminate.
      now rewrite dict_facts.get_set_same. }
    assert (Gy : __getitem__ wcs_pix2world (with_sky self sx sy) "ysky"
                 = Ok (YTArray sy "degree", with_sky self sx sy)).
    { apply catalog.getitem_present. apply dict_facts.get_set_same. }
    assert (Ge' : __getitem__ wcs_pix2world (with_sky self sx sy) "eobs"
                  = Ok (YTArray e u, with_sky self sx sy)).
    { apply catalog.getitem_present. simpl.
      now rewrite !dict_facts.get_set_other by discriminate. }
    rewrite Gx. simpl. unfold masked_d. simpl.
    rewrite <- Lx at 1.
    rewrite getmask_Ok by now rewrite repeat_length.
    rewrite compress_all_true. simpl.
    rewrite Gy. simpl. rewrite <- Ly at 1.
    rewrite getmask_Ok by now rewrite repeat_length.
    rewrite compress_all_true. simpl.
    rewrite Ge'. simpl.
    rewrite getmask_Ok by now rewrite repeat_length.
    rewrite compress_all_true. reflexivity.
Qed.

End Simput.

(** The example catalog: both events are exported. *)
Lemma simput_default_window_exports_every_event_witness :
  (([1.5; 2.5]%Q : list Q) = [] ->
   write_simput_file examples.pix2world examples.in_units
     examples.write_photon_list examples.catalog "events" false None None
     (fun _ => None) = Raise ValueError)
  /\ (forall erg,
        ([1.5; 2.5]%Q : list Q) <> [] ->
        examples.in_units [1.5; 2.5]%Q "keV" "erg" = Ok erg ->
        write_simput_file examples.pix2world examples.in_units
          examples.write_photon_list examples.catalog "events" false
          None None (fun _ => None)
        = (fs' <- examples.write_photon_list "events" "events"
                    (np.sum erg / 10 / 2)%Q [1; 2]%Q [3; 1]%Q
                    [1.5; 2.5]%Q false (fun _ => None) ;;
           Ok (fs', with_sky examples.catalog [1; 2]%Q [3; 1]%Q))).
Proof.
  apply (simput_default_window_exports_every_event examples.pix2world
           examples.in_units examples.write_photon_list examples.catalog
           "events" false (fun _ => None) [1.5; 2.5]%Q [1; 2]%Q [3; 1]%Q
           "keV" (ndarray [1; 2]%Q) (ndarray [3; 1]%Q)
           (YTQuantity 10 "s") (YTQuantity 2 "cm**2") 10 2);
    try reflexivity; intros E; discriminate E.
Defined.

End simput_file.

(** ** The thermal model: what [setup_model] leaves for [__call__] *)

Module thermal_setup.
Import source_models.

Lemma diff_length (a : list Q) : length (np.diff a) = length a - 1.
Proof.
  induction a as [|x [|y r] IH]; try reflexivity.
  change (S (length (np.diff (y :: r))) = length (x :: y :: r) - 1).
  rewrite IH. simpl. lia.
Qed.

Lemma diff_nth (a : list Q) :
  forall i, S i < length a ->
            nth i (np.diff a) 0%Q = (nth (S i) a 0 - nth i a 0)%Q.
Proof.
  induction a as [|x [|y r] IH]; intros i Hi; try (simpl in Hi; lia).
  destruct i as [|i]; [reflexivity|].
  change (nth i (np.diff (y :: r)) 0%Q
          = (nth (S i) (y :: r) 0 - nth i (y :: r) 0)%Q).
  apply IH. simpl in Hi |- *. lia.
Qed.

Section Setup.

Variable atable : list Q.
Variable elem_names : list string.
Variable atomic_weights : list Q.
Variable metal_elem : list nat.
Variable prepare_spectrum : SpectralModel -> Q -> Q -> Q -> result SpectralModel.
Variable log10 : Q -> Q.
Variable pow10 : Q -> Q.
Variable parallel_objects : list Chunk -> list Chunk.
Variable mpi_allreduce : nat -> nat.
Variable parallel_capable : bool.

Local Notation "'setup'" :=
  (setup_model atable elem_names atomic_weights metal_elem prepare_spectrum
               log10 pow10 parallel_objects mpi_allreduce parallel_capable)
  (only parsing).

(** A progress reporter as [setup_model] makes it. *)
Definition fresh_bar (p : ProgressBar) : Prop :=
  match p with
  | ParallelProgressBar title => title = "Processing cells/particles "
  | tqdm _ desc n closed =>
      desc = "Processing cells/particles " /\ n = 0 /\ closed = false
  end.

Lemma setup_model_inv (self : ThermalSourceModel)
  (data_source : ThermalDataSource) (z sn : Q) (log : mylog)
  (self' : ThermalSourceModel) (log' : mylog) :
  setup self data_source z sn log = Ok (self', log') ->
  exists ef info tf bins p,
    emission_measure_field self' = Some ef
    /\ _get_field_info data_source ef = Ok info
    /\ ftype self' = Some (fst (info_name info))
    /\ density_field self' = Some (FTuple (fst (info_name info)) "density")
    /\ temperature_field self' = Some tf
    /\ prepare_spectrum (spectral_model self) z (kT_min self) (kT_max self)
       = Ok (spectral_model self')
    /\ kT_bins self' = Some bins
    /\ dkT self' = Some (np.diff bins)
    /\ (kT_scale self = "linear" ->
        bins = np.linspace (kT_min self) (kT_max self) (n_kT self + 1))
    /\ spectral_norm self' = Some sn
    /\ redshift self' = Some z
    /\ pbar self' = Some p /\ fresh_bar p
    /\ Zconvert_of atable atomic_weights metal_elem self data_source
       = Ok (Zconvert self')
    /\ Zmet self' = Zmet self /\ nei self' = nei self
    /\ num_var_elem self' = num_var_elem self
    /\ var_elem self' = var_elem self
    /\ method self' = method self
    /\ kT_min self' = kT_min self /\ kT_max self' = kT_max self
    /\ n_kT self' = n_kT self /\ kT_scale self' = kT_scale self
    /\ max_density self' = max_density self.
Proof.
  intros E. unfold setup_model in E.
  bind_inv E as ft Eft. bind_inv E as zc Ezc. bind_inv E as mc Emc.
  bind_inv E as sm Esm. bind_inv E as widths Ew. bind_inv E as nc Enc.
  set (ef := match emission_measure_field self, ftype self with
             | Some f, _ => Some f
             | None, Some ft => Some (FTuple ft "emission_measure")
             | None, None => None
             end) in *.
  destruct ef as [f|] eqn:Eef; [|discriminate Eft].
  destruct (_get_field_info data_source f) as [info|e] eqn:Einfo;
    [| destruct e; discriminate Eft].
  inv_Ok Eft.
  match type of Ew with
  | match ?b with _ => _ end = _ => destruct b as [bins|] eqn:Eb
  end; [|discriminate Ew].
  inv_Ok Ew.
  destruct parallel_capable; simpl in E; inv_Ok E; simpl;
    (exists f, info; eexists; exists bins; eexists;
     repeat split; try reflexivity; try assumption;
     try (intros Hlin; rewrite Hlin in Eb; simpl in Eb; congruence)).
Qed.

(** A [setup_model] that succeeds on a model with linear temperature
    scale and at least one bin leaves [n_kT + 1] bin edges, evenly spaced
    from [kT_min] to [kT_max] (the last edge is [kT_max] itself), and
    [n_kT] widths, each [(kT_max - kT_min)/n_kT].  It records the norm and
    the redshift, names the density field after the owner of the emission
    measure field, installs a new progress reporter, and keeps the
    configuration of the model. *)
Theorem setup_gives_even_temperature_bins (self : ThermalSourceModel)
  (data_source : ThermalDataSource) (z sn : Q) (log : mylog)
  (self' : ThermalSourceModel) (log' : mylog) :
  setup self data_source z sn log = Ok (self', log') ->
  kT_scale self = "linear" ->
  0 < n_kT self ->
  let n := n_kT self in
  let w := ((kT_max self - kT_min self) / inject_Z (Z.of_nat n))%Q in
  exists bins widths p ft,
    kT_bins self' = Some bins /\ dkT self' = Some widths
    /\ length bins = n + 1 /\ length widths = n
    /\ (forall i, i <= n ->
          (nth i bins 0 == kT_min self + inject_Z (Z.of_nat i) * w)%Q)
    /\ last bins 0%Q = kT_max self
    /\ (forall i, i < n -> (nth i widths 0 == w)%Q)
    /\ spectral_norm self' = Some sn /\ redshift self' = Some z
    /\ pbar self' = Some p /\ fresh_bar p
    /\ ftype self' = Some ft
    /\ density_field self' = Some (FTuple ft "density")
    /\ Zmet self' = Zmet self /\ nei self' = nei self
    /\ method self' = method self /\ max_density self' = max_density self
    /\ kT_min self' = kT_min self /\ kT_max self' = kT_max self
    /\ n_kT self' = n.
Proof.
  intros E Hlin Hn n w.
  destruct (setup_model_inv self data_source z sn log self' log' E)
    as (ef & info & tf & bins & p & Hef & Hinfo & Hft & Hdf & Htf & Hsm
        & Hb & Hd & Hbins & Hsn & Hz & Hp & Hfresh & Hzc & HZ & Hnei & Hnv
        & Hve & Hm & Hmin & Hmax & Hnk & Hsc & Hmd).
  specialize (Hbins Hlin). fold n in Hbins.
  assert (Lb : length bins = n + 1)
    by (subst bins; apply spectrum_file.linspace_length).
  assert (Hnth : forall i, i <= n ->
            (nth i bins 0 == kT_min self + inject_Z (Z.of_nat i) * w)%Q).
  { intros i Hi. subst bins. now apply spectrum_file.linspace_nth. }
  exists bins, (np.diff bins), p, (fst (info_name info)).
  repeat split; try assumption.
  - rewrite diff_length, Lb. lia.
  - subst bins. now apply spectrum_file.linspace_last.
  - intros i Hi. rewrite diff_nth by lia.
    rewrite (Hnth (S i)), (Hnth i) by lia.
    rewrite Nat2Z.inj_succ, <- Z.add_1_r, inject_Z_plus.
    simpl (inject_Z 1). ring.
Qed.

(** The emission measure field [setup_model] looks up: the one of the
    model, or [(ftype, 'emission_measure')]. *)
Definition emission_field (self : ThermalSourceModel) (ft : string)
  : field :=
  match emission_measure_field self with
  | Some f => f
  | None => FTuple ft "emission_measure"
  end.


End Setup.


(** The example model set up on the example data source: four bins of
    width 1 from 0 to 4. *)
Lemma setup_gives_even_temperature_bins_witness :
  exists self' log',
    setup_model [] [] [] [] examples.prepare_spectrum examples.no_scale
      examples.no_scale examples.serial examples.one_process false
      examples.thermal_fresh examples.data_source 0 1 [] = Ok (self', log')
    /\ exists bins widths p ft,
         kT_bins self' = Some bins /\ dkT self' = Some widths
         /\ length bins = 4 + 1 /\ length widths = 4
         /\ (forall i, i <= 4 ->
               (nth i bins 0
                == 0 + inject_Z (Z.of_nat i) * ((4 - 0) / inject_Z 4))%Q)
         /\ last bins 0%Q = 4%Q
         /\ (forall i, i < 4 ->
               (nth i widths 0 == (4 - 0) / inject_Z 4)%Q)
         /\ spectral_norm self' = Some 1%Q /\ redshift self' = Some 0%Q
         /\ pbar self' = Some p /\ fresh_bar p
         /\ ftype self' = Some ft
         /\ density_field self' = Some (FTuple ft "density")
         /\ Zmet self' = Field (FTuple "gas" "metallicity")
         /\ nei self' = false
         /\ method self' = "invert_cdf" /\ max_density self' = Some 5%Q
         /\ kT_min self' = 0%Q /\ kT_max self' = 4%Q
         /\ n_kT self' = 4.
Proof.
  eexists. eexists. split; [reflexivity|].
  apply (setup_gives_even_temperature_bins [] [] [] []
           examples.prepare_spectrum examples.no_scale examples.no_scale
           examples.serial examples.one_process false
           examples.thermal_fresh examples.data_source 0 1 [] _ _ eq_refl
           eq_refl).
  simpl. lia.
Defined.

End thermal_setup.

(** ** The thermal model: a call on a well-formed chunk returns *)

Module thermal_total.
Import source_models thermal_selection.

Lemma sum_from_nonneg (a : list Q) :
  forall acc, (0 <= acc)%Q -> Forall (fun x => 0 <= x)%Q a ->
              (0 <= fold_left Qplus a acc)%Q.
Proof.
  induction a as [|x a IH]; intros acc Hacc Ha; simpl; [assumption|].
  inversion Ha; subst. apply IH; [lra | assumption].
Qed.

Lemma sum_nonneg (a : list Q) :
  Forall (fun x => 0 <= x)%Q a -> (0 <= np.sum a)%Q.
Proof. intros Ha. apply sum_from_nonneg; [lra | assumption]. Qed.

Lemma Forall_slice (P : Q -> Prop) (a : list Q) (i j : nat) :
  Forall P a -> Forall P (np.slice a i j).
Proof.
  intros Ha. rewrite Forall_forall in *. intros x Hx. apply Ha.
  apply slice_In_skipn in Hx.
  rewrite <- (firstn_skipn i a). apply in_or_app. now right.
Qed.

Section Total.

Context {G : Type} `{RandomStateSpec G}.
Variable kelvin_to_keV : Q -> Q.

(** *** One cell *)

Lemma accumulate_Ok (acc metal : list Q) (rows : option (list (list Q)))
  (metalZ : list Q) (elemZ : option (list (list Q))) (icell : nat) :
  icell < length metalZ ->
  length acc = length metal ->
  accumulate acc metal rows metalZ elemZ 0 icell
  = Ok (np.map2 Qplus acc (map (Qmult (nth icell metalZ 0%Q)) metal)).
Proof.
  intros Hi Hl. unfold accumulate.
  rewrite (item_lt _ metalZ icell 0%Q Hi). simpl.
  rewrite ew2_Ok by now rewrite length_map.
  simpl. now destruct rows.
Qed.

Lemma sample_cell_Ok (self : ThermalSourceModel) (metalZ : list Q)
  (elemZ : option (list (list Q))) (icell cn : nat) (arrs : bin_arrays)
  (g : G) :
  method self = "invert_cdf" ->
  num_var_elem self = 0 ->
  icell < length metalZ ->
  length (cumspec_c arrs) = length (ebins (spectral_model self)) ->
  length (cumspec_m arrs) = length (ebins (spectral_model self)) ->
  ebins (spectral_model self) <> [] ->
  exists cell_e arrs' g' table,
    sample_cell self metalZ elemZ icell cn arrs g
    = Ok (cell_e, arrs', g', table)
    /\ length cell_e = cn
    /\ length (cumspec_c arrs') = length (ebins (spectral_model self))
    /\ cumspec_m arrs' = cumspec_m arrs.
Proof.
  intros Hm Hv Hi Lc Lm Hne. unfold sample_cell. rewrite Hm, Hv. simpl.
  rewrite accumulate_Ok by (try assumption; congruence). simpl.
  set (cumspec := np.map2 Qplus (cumspec_c arrs) _).
  assert (Lcum : length cumspec = length (ebins (spectral_model self))).
  { unfold cumspec. rewrite map2_length, length_map, Lc, Lm. lia. }
  assert (Hcne : cumspec <> []).
  { intros Hnil. rewrite Hnil in Lcum. simpl in Lcum.
    destruct (ebins (spectral_model self)); [congruence | discriminate]. }
  unfold np.last_item. destruct cumspec as [|c0 cs] eqn:Ecs; [congruence|].
  rewrite <- Ecs in *. simpl bind.
  pose proof (uniform_length G 0%Q 1%Q cn g) as Lu.
  destruct (uniform 0%Q 1%Q cn g) as [randvec g1]. simpl in Lu.
  rewrite background.interp_Ok;
    [| now rewrite length_map
     | intros Hnil; apply map_eq_nil in Hnil; congruence].
  simpl. eexists. eexists. eexists. eexists.
  split; [reflexivity|]. simpl.
  split; [now rewrite length_map, background.sort_length|].
  split; [now rewrite length_map | reflexivity].
Qed.

(** The output buffer is at least as large as the size the loop keeps
    for it. *)
Definition sizes_ok (st : @call_state G) : Prop :=
  (1 <= num_photons_max st)%N
  /\ (num_photons_max st <= size (energies st))%N.

Lemma buffer_set_slice_Ok (b : buffer) (i n : nat) (v : list Q) :
  (N.of_nat (i + n) <= size b)%N -> length v = n ->
  exists b', buffer_set_slice b i (i + n) v = Ok b' /\ size b' = size b.
Proof.
  intros Hs Hv. unfold buffer_set_slice.
  rewrite !Nat.min_l by lia.
  replace (i + n - i) with (length v) by lia.
  rewrite Nat.eqb_refl. eexists. split; reflexivity.
Qed.

Lemma cell_loop_Ok (self : ThermalSourceModel) (metalZ : list Q)
  (elemZ : option (list (list Q))) :
  method self = "invert_cdf" ->
  num_var_elem self = 0 ->
  ebins (spectral_model self) <> [] ->
  forall icells ei arrs (st : @call_state G),
    Forall (fun i => i < length (number_of_photons st)
                     /\ i < length metalZ) icells ->
    length (cumspec_c arrs) = length (ebins (spectral_model self)) ->
    length (cumspec_m arrs) = length (ebins (spectral_model self)) ->
    sizes_ok st ->
    exists arrs' st',
      cell_loop self metalZ elemZ icells ei arrs st = Ok (arrs', st')
      /\ number_of_photons st' = number_of_photons st
      /\ lam_log st' = lam_log st
      /\ bar st' = bar st
      /\ sizes_ok st'.
Proof.
  intros Hm Hv Hne. induction icells as [|icell rest IH];
    intros ei arrs st Hall Lc Lm Hsz.
  - exists arrs, st. simpl. repeat split; apply Hsz.
  - inversion Hall as [|? ? [Hi1 Hi2] Hrest]; subst.
    simpl. rewrite (item_lt _ (number_of_photons st) icell 0 Hi1). simpl.
    destruct (Nat.eqb (nth icell (number_of_photons st) 0) 0).
    + now apply IH.
    + set (cn := nth icell (number_of_photons st) 0).
      destruct (sample_cell_Ok self metalZ elemZ icell cn arrs (gen st)
                  Hm Hv Hi2 Lc Lm Hne)
        as (cell_e & arrs1 & g1 & table & Es & Le & Lc1 & Lm1).
      rewrite Es. simpl.
      destruct Hsz as [Hs1 Hs2].
      destruct (thermal_tuple.grow_ge (num_photons_max st)
                  (N.of_nat (ei + cn)) Hs1) as [Hg1 Hg2].
      set (npm := grow (num_photons_max st) (N.of_nat (ei + cn))) in *.
      set (en := if N.ltb (size (energies st)) npm
                 then resize (energies st) npm else energies st).
      assert (Hen : (npm <= size en)%N).
      { unfold en. destruct (N.ltb_spec (size (energies st)) npm);
          simpl; lia. }
      destruct (buffer_set_slice_Ok en ei cn cell_e) as (en' & Een & Hsize);
        [lia | assumption |].
      rewrite Een. simpl.
      edestruct (IH (ei + cn) arrs1
                    (mk_call_state (number_of_photons st) en' npm g1
                       (bar st) (lam_log st)
                       (table_log st ++ [(icell, table)])))
        as (arrs' & st' & El & Hn & Hl & Hb & Hsz');
        try eassumption.
      * simpl. congruence.
      * split; simpl; lia.
      * exists arrs', st'. repeat split; try assumption; apply Hsz'.
Qed.

(** *** One temperature bin *)

(** A spectral table as [__call__] needs it: one more bin edge than
    channels, and spectra with one non-negative entry per channel. *)
Definition table_ok (sm : SpectralModel) : Prop :=
  length (ebins sm) = length (emid sm) + 1
  /\ forall kT,
       let '(c, m, _) := get_spectrum sm kT in
       length c = length (emid sm) /\ length m = length (emid sm)
       /\ Forall (fun x => 0 <= x)%Q c /\ Forall (fun x => 0 <= x)%Q m.

Definition rates_nonneg (log : list (nat * Q)) : Prop :=
  Forall (fun r => 0 <= snd r)%Q log.

Lemma Forall_map2 (P1 P2 P3 : Q -> Prop) (f : Q -> Q -> Q) :
  (forall x y, P1 x -> P2 y -> P3 (f x y)) ->
  forall a b, Forall P1 a -> Forall P2 b -> Forall P3 (np.map2 f a b).
Proof.
  intros Hf a b Ha. revert b.
  induction Ha as [|x a Hx Ha IH]; intros b Hb; [constructor|].
  destruct Hb as [|y b Hy Hb]; simpl; [constructor|].
  constructor; auto.
Qed.

Lemma Forall_scale (c : Q) (a : list Q) :
  (0 <= c)%Q -> Forall (fun x => 0 <= x)%Q a ->
  Forall (fun x => 0 <= x)%Q (map (Qmult c) a).
Proof.
  intros Hc Ha. apply Forall_map. revert Ha. apply Forall_impl.
  intros x Hx. now apply Qmult_le_0_compat.
Qed.

Lemma cell_norm_of_Ok (self : ThermalSourceModel)
  (cspec mspec : list Q) (vspec : option (list (list Q)))
  (cell_em metalZ : list Q) (elemZ : option (list (list Q)))
  (ibegin iend : nat) :
  num_var_elem self = 0 ->
  length metalZ = length cell_em ->
  Forall (fun x => 0 <= x)%Q cspec ->
  Forall (fun x => 0 <= x)%Q mspec ->
  Forall (fun x => 0 <= x)%Q cell_em ->
  Forall (fun x => 0 <= x)%Q metalZ ->
  exists cell_norm,
    cell_norm_of self cspec mspec vspec cell_em metalZ elemZ ibegin iend
    = Ok cell_norm
    /\ length cell_norm = length (np.slice cell_em ibegin iend)
    /\ Forall (fun x => 0 <= x)%Q cell_norm.
Proof.
  intros Hv Hl Hc Hm Hem HmZ. unfold cell_norm_of. rewrite Hv.
  set (cem := np.slice cell_em ibegin iend).
  assert (Lz : length (np.slice metalZ ibegin iend) = length cem)
    by (unfold cem; rewrite !slice_length; lia).
  assert (Hcem : Forall (fun x => 0 <= x)%Q cem)
    by now apply Forall_slice.
  assert (Hmz : Forall (fun x => 0 <= x)%Q (np.slice metalZ ibegin iend))
    by now apply Forall_slice.
  rewrite ew2_Ok by now rewrite length_map.
  cbn [bind].
  rewrite ew2_Ok by (rewrite map2_length, !length_map; lia).
  cbn [bind].
  set (cell_norm := np.map2 Qplus _ _).
  assert (Ln : length cell_norm = length cem).
  { unfold cell_norm. rewrite !map2_length, !length_map. lia. }
  assert (Hn : Forall (fun x => 0 <= x)%Q cell_norm).
  { unfold cell_norm.
    apply (Forall_map2 (fun x => 0 <= x)%Q (fun x => 0 <= x)%Q).
    - intros x y Hx Hy. lra.
    - apply Forall_scale; [now apply sum_nonneg | assumption].
    - apply (Forall_map2 (fun x => 0 <= x)%Q (fun x => 0 <= x)%Q).
      + intros x y Hx Hy. now apply Qmult_le_0_compat.
      + apply Forall_scale; [now apply sum_nonneg | assumption].
      + assumption. }
  destruct vspec as [rows|].
  - simpl. rewrite ew2_Ok by (unfold np.zeros; now rewrite repeat_length).
    eexists. split; [reflexivity|]. split.
    + rewrite map2_length. unfold np.zeros. rewrite repeat_length. lia.
    + apply (Forall_map2 (fun x => 0 <= x)%Q (fun x => 0 <= x)%Q).
      * intros x y Hx Hy. lra.
      * assumption.
      * unfold np.zeros. apply Forall_forall. intros x Hx.
        apply repeat_spec in Hx. subst. lra.
  - exists cell_norm. repeat split; assumption.
Qed.

Lemma bin_tables_Ok (self : ThermalSourceModel) (cspec mspec : list Q)
  (vspec : option (list (list Q))) :
  method self = "invert_cdf" ->
  num_var_elem self = 0 ->
  exists arrs,
    bin_tables self cspec mspec vspec = Ok arrs
    /\ length (cumspec_c arrs) = length cspec + 1
    /\ length (cumspec_m arrs) = length mspec + 1.
Proof.
  intros Hm Hv. unfold bin_tables. rewrite Hm, Hv. simpl.
  destruct vspec; simpl; eexists; (split; [reflexivity|]); simpl;
    unfold np.cumsum; rewrite !background.cumsum_from_length; split; lia.
Qed.

(** A bin of the loop lies inside the selection and names a temperature
    bin of the model. *)
Definition bin_wf (ncells nbins : nat) (bin : nat * nat * nat * Z) : Prop :=
  let '(ibegin, iend, _, ikT) := bin in
  ibegin <= iend /\ iend <= ncells /\ Z.to_nat ikT < nbins.

Definition state_ok (ncells : nat) (st : @call_state G) : Prop :=
  length (number_of_photons st) = ncells
  /\ sizes_ok st /\ rates_nonneg (lam_log st).

Lemma bin_step_Ok (self : ThermalSourceModel)
  (bins widths cell_em metalZ : list Q) (elemZ : option (list (list Q)))
  (bin : nat * nat * nat * Z) (start_e end_e : nat) (st : @call_state G)
  (nbins : nat) :
  method self = "invert_cdf" ->
  num_var_elem self = 0 ->
  table_ok (spectral_model self) ->
  nbins <= length bins -> nbins <= length widths ->
  length metalZ = length cell_em ->
  Forall (fun x => 0 <= x)%Q cell_em ->
  Forall (fun x => 0 <= x)%Q metalZ ->
  bin_wf (length cell_em) nbins bin ->
  state_ok (length cell_em) st ->
  exists s e st',
    bin_step self bins widths cell_em metalZ elemZ bin start_e end_e st
    = Ok (s, e, st')
    /\ state_ok (length cell_em) st'.
Proof.
  intros Hm Hv [Leb Hspec] Hnb Hnw LmZ Hem HmZ Hwf (Ln & Hsz & Hr).
  destruct bin as [[[ib ie] bc] ikT]. destruct Hwf as (Hbe & Hie & Hk).
  unfold bin_step.
  rewrite (item_lt _ bins (Z.to_nat ikT) 0%Q) by lia.
  rewrite (item_lt _ widths (Z.to_nat ikT) 0%Q) by lia.
  cbn [bind].
  set (kT := (nth (Z.to_nat ikT) bins 0 + 0.5 * nth (Z.to_nat ikT) widths 0)%Q).
  specialize (Hspec kT).
  destruct (get_spectrum (spectral_model self) kT) as [[cspec mspec] vspec].
  destruct Hspec as (Lc & Lm & Hc & Hms).
  destruct (cell_norm_of_Ok self cspec mspec vspec cell_em metalZ elemZ
              ib ie Hv LmZ Hc Hms Hem HmZ) as (cell_norm & Ecn & Lcn & Hcn).
  rewrite Ecn. cbn [bind].
  pose proof (poisson_length cell_norm (gen st)) as Lp.
  destruct (poisson cell_norm (gen st)) as [cell_n g1]. simpl in Lp.
  assert (Lslice : length (np.slice cell_em ib ie) = ie - ib)
    by (rewrite slice_length; lia).
  rewrite set_slice_Ok by lia.
  cbn [bind].
  destruct (bin_tables_Ok self cspec mspec vspec Hm Hv)
    as (arrs & Ea & Lcc & Lcm).
  rewrite Ea. cbn [bind].
  set (nph := firstn ib (number_of_photons st) ++ cell_n
              ++ skipn (ib + length cell_n) (number_of_photons st)).
  assert (Lnph : length nph = length cell_em).
  { unfold nph. rewrite !length_app, length_firstn, length_skipn. lia. }
  set (st1 := mk_call_state nph (energies st) (num_photons_max st) g1
                (update (bar st) bc)
                (lam_log st
                 ++ combine (seq ib (length cell_norm)) cell_norm)
                (table_log st)).
  destruct (cell_loop_Ok self metalZ elemZ Hm Hv
              ltac:(intros Hnil; rewrite Hnil in Leb; simpl in Leb; lia)
              (seq ib (ie - ib)) start_e arrs st1)
    as (arrs' & st' & El & Hn' & Hl' & Hb' & Hsz').
  - apply Forall_forall. intros i Hi. apply in_seq in Hi.
    simpl. rewrite Lnph, LmZ. lia.
  - lia.
  - lia.
  - exact Hsz.
  - rewrite El. cbn [bind].
    eexists. eexists. eexists. split; [reflexivity|].
    split; [now rewrite Hn'|]. split; [assumption|].
    rewrite Hl'. simpl. unfold rates_nonneg in *.
    apply Forall_app. split; [assumption|].
    apply Forall_forall. intros [i lam] Hin. simpl.
    apply in_combine_r in Hin. rewrite Forall_forall in Hcn. now apply Hcn.
Qed.

Lemma bin_loop_Ok (self : ThermalSourceModel)
  (bins widths cell_em metalZ : list Q) (elemZ : option (list (list Q)))
  (nbins : nat) :
  method self = "invert_cdf" ->
  num_var_elem self = 0 ->
  table_ok (spectral_model self) ->
  nbins <= length bins -> nbins <= length widths ->
  length metalZ = length cell_em ->
  Forall (fun x => 0 <= x)%Q cell_em ->
  Forall (fun x => 0 <= x)%Q metalZ ->
  forall B start_e end_e (st : @call_state G),
    Forall (bin_wf (length cell_em) nbins) B ->
    state_ok (length cell_em) st ->
    exists s e st',
      bin_loop self bins widths cell_em metalZ elemZ B start_e end_e st
      = Ok (s, e, st')
      /\ state_ok (length cell_em) st'.
Proof.
  intros Hm Hv Ht Hnb Hnw LmZ Hem HmZ.
  induction B as [|bin B IH]; intros start_e end_e st HB Hst.
  - exists start_e, end_e, st. split; [reflexivity | assumption].
  - inversion HB as [|? ? Hbin HB']; subst.
    destruct (bin_step_Ok self bins widths cell_em metalZ elemZ bin
                start_e end_e st nbins Hm Hv Ht Hnb Hnw LmZ Hem HmZ
                Hbin Hst) as (s1 & e1 & st1 & E1 & Hst1).
    simpl. rewrite E1. cbn [bind]. now apply IH.
Qed.

(** *** The call *)

Lemma digitize1_lower (bins : list Q) (v : Q) :
  bins <> [] -> (hd 0 bins <= v)%Q -> 1 <= np.digitize1 bins v.
Proof.
  destruct bins as [|b r]; [congruence|]. intros _ Hb. simpl in *.
  apply Qle_bool_iff in Hb. rewrite Hb. lia.
Qed.

Lemma digitize1_all (bins : list Q) (v : Q) :
  np.digitize1 bins v = length bins -> Forall (fun b => b <= v)%Q bins.
Proof.
  induction bins as [|b r IH]; intros E; [constructor|].
  simpl in E. destruct (Qle_bool b v) eqn:Eb; [|discriminate].
  constructor; [now apply Qle_bool_iff | apply IH; lia].
Qed.

Lemma digitize1_le_length (bins : list Q) (v : Q) :
  np.digitize1 bins v <= length bins.
Proof.
  induction bins as [|b r IH]; simpl; [lia|].
  destruct (Qle_bool b v); lia.
Qed.

Lemma digitize1_upper (bins : list Q) (v : Q) :
  bins <> [] -> (v < last bins 0)%Q -> np.digitize1 bins v <= length bins - 1.
Proof.
  intros Hne Hv. pose proof (digitize1_le_length bins v) as Hle.
  destruct (Nat.eq_dec (np.digitize1 bins v) (length bins)) as [E|E];
    [|lia].
  exfalso. apply digitize1_all in E. rewrite Forall_forall in E.
  assert (Hin : In (last bins 0%Q) bins).
  { destruct bins as [|b r]; [congruence|].
    destruct (exists_last (l := b :: r) ltac:(discriminate))
      as (l' & x & El). rewrite El, last_last.
    apply in_or_app. right. now left. }
  specialize (E _ Hin). lra.
Qed.

Lemma bincount_Ok (x : list Z) :
  Forall (fun v => 0 <= v)%Z x -> exists bc, np.bincount x = Ok bc.
Proof.
  intros Hx. unfold np.bincount.
  assert (E : forallb (fun v => Z.leb 0 v) x = true).
  { apply forallb_forall. rewrite Forall_forall in Hx.
    intros v Hv. apply Z.leb_le. now apply Hx. }
  rewrite E. eexists. reflexivity.
Qed.

(** The metallicity the call reads is there and is not negative. *)
Definition metals_ok (self : ThermalSourceModel) (chunk : Chunk)
  (ncells : nat) : Prop :=
  nei self = true
  \/ match Zmet self with
     | Float z => (0 <= z)%Q
     | Field f =>
         exists a, chunk f = Some a /\ length a = ncells
                   /\ Forall (fun x => 0 <= x)%Q a
                   /\ (0 <= Zconvert self)%Q
     end.

Definition density_ok (self : ThermalSourceModel) (chunk : Chunk)
  (ncells : nat) : Prop :=
  match max_density self with
  | None => True
  | Some _ =>
      exists dens, chunk_get chunk (density_field self) = Ok dens
                   /\ length dens = ncells
  end.

Lemma metalZ_of_Ok (self : ThermalSourceModel) (chunk : Chunk)
  (idxs : list nat) (ncells : nat) :
  metals_ok self chunk ncells ->
  Forall (fun i => i < ncells) idxs ->
  exists metalZ,
    metalZ_of self chunk idxs = Ok metalZ
    /\ length metalZ = length idxs
    /\ Forall (fun x => 0 <= x)%Q metalZ.
Proof.
  intros Hok Hidx. unfold metalZ_of.
  destruct Hok as [Hnei | Hok].
  - rewrite Hnei. eexists. split; [reflexivity|]. unfold np.zeros.
    split; [apply repeat_length|].
    apply Forall_forall. intros x Hx. apply repeat_spec in Hx. subst. lra.
  - destruct (nei self).
    + eexists. split; [reflexivity|]. unfold np.zeros.
      split; [apply repeat_length|].
      apply Forall_forall. intros x Hx. apply repeat_spec in Hx. subst. lra.
    + destruct (Zmet self) as [z|f].
      * eexists. split; [reflexivity|]. unfold np.ones.
        split; [now rewrite length_map, repeat_length|].
        apply Forall_scale; [assumption|].
        apply Forall_forall. intros x Hx. apply repeat_spec in Hx.
        subst. lra.
      * destruct Hok as (a & Ha & La & Hpos & Hzc).
        unfold chunk_get. rewrite Ha. simpl.
        rewrite take_values by now rewrite La.
        simpl. eexists. split; [reflexivity|].
        split; [now rewrite !length_map|].
        apply Forall_map, Forall_map, Forall_forall. intros i Hi.
        apply Qmult_le_0_compat; [|assumption].
        rewrite Forall_forall in Hpos, Hidx. apply Hpos, nth_In.
        rewrite La. now apply Hidx.
Qed.

Lemma bins_of_wf (self : ThermalSourceModel) (temp bins : list Q)
  (bc : list nat) (nbins : nat) :
  bins <> [] ->
  (hd 0 bins <= kT_min self)%Q ->
  (kT_max self <= last bins 0)%Q ->
  nbins = length bins - 1 ->
  np.bincount (digitized kelvin_to_keV temp
                 (selection kelvin_to_keV self temp) bins) = Ok bc ->
  Forall (bin_wf (length (selection kelvin_to_keV self temp)) nbins)
         (bins_of (digitized kelvin_to_keV temp
                     (selection kelvin_to_keV self temp) bins) bc).
Proof.
  intros Hne Hlo Hhi Hnb Ebc.
  set (sel := selection kelvin_to_keV self temp) in *.
  set (x := digitized kelvin_to_keV temp sel bins) in *.
  destruct (selection_spec kelvin_to_keV self temp) as (Hin & _ & Hasc).
  fold sel in Hin, Hasc.
  assert (Hx : thermal_rates.nondecreasing x).
  { unfold x, digitized. apply thermal_rates.digitized_nondecreasing.
    exact Hasc. }
  destruct (thermal_rates.bins_of_cover x bc Ebc Hx) as (Hok & _ & _).
  assert (Lx : length x = length sel).
  { unfold x, digitized, np.digitize. now rewrite !length_map. }
  assert (Hval : forall z, In z x -> (0 <= z < Z.of_nat nbins)%Z).
  { intros z Hz. unfold x, digitized, np.digitize in Hz.
    rewrite !map_map in Hz. apply in_map_iff in Hz.
    destruct Hz as (c & <- & Hc). apply Hin in Hc.
    destruct Hc as (_ & Hc1 & Hc2). unfold kT_of in Hc1, Hc2.
    pose proof (digitize1_lower bins
                  (nth c (map kelvin_to_keV temp) 0%Q) Hne
                  ltac:(lra)) as H1.
    pose proof (digitize1_upper bins
                  (nth c (map kelvin_to_keV temp) 0%Q) Hne
                  ltac:(lra)) as H2.
    lia. }
  rewrite Forall_forall in *. intros [[[ib ie] c] z] Hbin.
  specialize (Hok _ Hbin). destruct Hok as (Hie & Hle & _).
  assert (Hz : In z (np.unique x)).
  { unfold bins_of, zip4 in Hbin. now apply in_combine_r in Hbin. }
  apply (proj2 (thermal_bins.unique_spec x)) in Hz.
  specialize (Hval z Hz). unfold bin_wf. rewrite <- Lx. lia.
Qed.

Lemma Forall_map2' (P : Q -> Prop) (f : Q -> bool -> Q) :
  (forall e b, P e -> P (f e b)) ->
  forall a m, Forall P a -> Forall P (np.map2 f a m).
Proof.
  intros Hf a m Ha. revert m.
  induction Ha as [|x a Hx Ha IH]; intros [|b m]; simpl; constructor; auto.
Qed.

Lemma run_Ok (self : ThermalSourceModel) (chunk : Chunk) (g : G)
  (temp em bins widths : list Q) (p : ProgressBar) (norm : Q) :
  method self = "invert_cdf" ->
  num_var_elem self = 0 ->
  table_ok (spectral_model self) ->
  pbar self = Some p ->
  kT_bins self = Some bins ->
  dkT self = Some widths ->
  spectral_norm self = Some norm ->
  (0 <= norm)%Q ->
  bins <> [] ->
  (hd 0 bins <= kT_min self)%Q ->
  (kT_max self <= last bins 0)%Q ->
  length widths = length bins - 1 ->
  chunk_get chunk (temperature_field self) = Ok temp ->
  chunk_get chunk (emission_measure_field self) = Ok em ->
  length em = length temp ->
  Forall (fun x => 0 <= x)%Q em ->
  density_ok self chunk (length temp) ->
  metals_ok self chunk (length temp) ->
  exists r self' g' tr,
    run kelvin_to_keV self chunk g = Ok (r, self', g', tr)
    /\ rates_nonneg (rates tr).
Proof.
  intros Hm Hv Htab Hp Hb Hw Hn Hn0 Hne Hlo Hhi Lw Htemp Hem Lem Hpos
         Hdens Hmet.
  unfold run. rewrite Htemp. cbn [bind].
  destruct (Nat.eqb_spec (length temp) 0) as [Hz|Hnz].
  { eexists. eexists. eexists. eexists. split; [reflexivity|]. constructor. }
  assert (Hcut : exists dens_cut,
             match max_density self with
             | None => Ok (repeat true (length temp))
             | Some max_density =>
                 dens <- chunk_get chunk (density_field self) ;;
                 Ok (map (fun x => Qlt_bool x max_density) dens)
             end = Ok dens_cut
             /\ length dens_cut = length temp).
  { unfold density_ok in Hdens. destruct (max_density self) as [md|].
    - destruct Hdens as (dens & Ed & Ld). rewrite Ed. simpl.
      eexists. split; [reflexivity|]. now rewrite length_map.
    - eexists. split; [reflexivity|]. apply repeat_length. }
  destruct Hcut as (dens_cut & Ecut & Lcut).
  rewrite Ecut. cbn [bind]. rewrite Hem. cbn [bind].
  rewrite ew2_Ok by lia. cbn [bind].
  assert (LkT : length (map kelvin_to_keV temp) = length temp)
    by apply length_map.
  destruct (argsort_perm (map kelvin_to_keV temp)) as [_ Harg].
  rewrite take_values
    by (apply Forall_forall; intros j Hj; now apply Harg).
  cbn [bind]. rewrite argsort_values.
  fold (selection kelvin_to_keV self temp).
  set (sel := selection kelvin_to_keV self temp).
  unfold attr at 1. rewrite Hp. simpl of_option. cbn [bind].
  destruct (selection_spec kelvin_to_keV self temp) as (Hin & _ & _).
  fold sel in Hin.
  assert (Hsel : Forall (fun i => i < length temp) sel).
  { apply Forall_forall. intros c Hc. now apply Hin in Hc as [Hc _]. }
  destruct (Nat.eqb_spec (length sel) 0) as [Hs|Hs].
  { eexists. eexists. eexists. eexists. split; [reflexivity|]. constructor. }
  rewrite take_values by now rewrite LkT.
  cbn [bind]. unfold attr at 1. rewrite Hb. simpl of_option. cbn [bind].
  fold (digitized kelvin_to_keV temp sel bins).
  set (x := digitized kelvin_to_keV temp sel bins).
  assert (Hx : Forall (fun v => 0 <= v)%Z x).
  { apply Forall_forall. intros z Hz. unfold x, digitized, np.digitize in Hz.
    rewrite !map_map in Hz. apply in_map_iff in Hz.
    destruct Hz as (c & <- & Hc). apply Hin in Hc.
    destruct Hc as (_ & Hc1 & _). unfold kT_of in Hc1.
    pose proof (digitize1_lower bins
                  (nth c (map kelvin_to_keV temp) 0%Q) Hne
                  ltac:(lra)) as H1.
    lia. }
  destruct (bincount_Ok x Hx) as (bc & Ebc).
  rewrite Ebc. cbn [bind].
  pose proof (bins_of_wf self temp bins bc (length bins - 1) Hne Hlo Hhi
                eq_refl Ebc) as Hwf.
  fold sel in Hwf. fold x in Hwf. unfold bins_of in Hwf.
  destruct (cell_ranges 0 (filter (fun c => Nat.ltb 0 c) bc))
    as [bcell ecell] eqn:Hcr.
  simpl fst in Hwf. simpl snd in Hwf.
  set (EM := np.map2 (fun e (b : bool) => (e * (if b then 1 else 0))%Q)
                     em dens_cut).
  assert (LEM : length EM = length temp)
    by (unfold EM; rewrite map2_length; lia).
  rewrite take_values by now rewrite LEM.
  cbn [bind]. unfold attr at 1. rewrite Hn. simpl of_option. cbn [bind].
  destruct (metalZ_of_Ok self chunk sel (length temp) Hmet Hsel)
    as (metalZ & EmZ & LmZ & HmZ).
  assert (EmZ' :
    (if nei self then Ok (np.zeros (length sel), var_ion_keys self)
     else
       match Zmet self with
       | Float z =>
           Ok (map (Qmult z) (np.ones (length sel)), var_elem_keys self)
       | Field f =>
           a <- chunk_get chunk (Some f) ;;
           sel0 <- np.take a sel ;;
           Ok (map (fun x => x * Zconvert self)%Q sel0,
               var_elem_keys self)
       end)
    = Ok (metalZ, if nei self then var_ion_keys self
                  else var_elem_keys self)).
  { unfold metalZ_of in EmZ. destruct (nei self); [now inv_Ok EmZ|].
    destruct (Zmet self) as [z|f]; [now inv_Ok EmZ|].
    bind_inv EmZ as a Ea. bind_inv EmZ as s0 Es. inv_Ok EmZ.
    rewrite Ea. simpl. rewrite Es. reflexivity. }
  rewrite EmZ'. cbn [bind]. rewrite Hv.
  change (Nat.ltb 0 0) with false. cbn iota. cbn [bind].
  unfold attr at 1. rewrite Hw. simpl of_option. cbn [bind].
  set (cell_em := map (fun e => (e * norm)%Q)
                      (map (fun i => nth i EM 0%Q) sel)).
  assert (Lce : length cell_em = length sel)
    by (unfold cell_em; now rewrite !length_map).
  assert (Hce : Forall (fun v => 0 <= v)%Q cell_em).
  { unfold cell_em. apply Forall_map, Forall_map, Forall_forall.
    intros i Hi. apply Qmult_le_0_compat; [|assumption].
    assert (HEM : Forall (fun v => 0 <= v)%Q EM).
    { unfold EM.
      apply (Forall_map2' (fun v => 0 <= v)%Q); [|assumption].
      intros e b He. destruct b; nra. }
    rewrite Forall_forall in HEM, Hsel. apply HEM, nth_In.
    rewrite LEM. now apply Hsel. }
  destruct (bin_loop_Ok self bins widths cell_em metalZ None
              (length bins - 1) Hm Hv Htab ltac:(lia) ltac:(lia)
              ltac:(lia) Hce HmZ
              (zip4 bcell ecell (filter (fun c => Nat.ltb 0 c) bc)
                    (np.unique x)) 0 0
              (mk_call_state (repeat 0 (length sel))
                 (buffer_zeros 10000000) 10000000%N g
                 (update p (length temp - length sel)) [] []))
    as (s1 & e1 & st & Eloop & Lnph & Hsz & Hrates).
  { now rewrite Lce. }
  { split; [simpl; rewrite repeat_length; lia|].
    split; [split; simpl; lia | constructor]. }
  rewrite Eloop. cbn [bind].
  rewrite getmask_Ok by (rewrite length_map; lia). cbn [bind].
  rewrite getmask_Ok by now rewrite length_map.
  cbn [bind].
  eexists. eexists. eexists. eexists. split; [reflexivity|].
  exact Hrates.
Qed.

End Total.

Section AfterSetup.

Context {G : Type} `{RandomStateSpec G}.
Variable kelvin_to_keV : Q -> Q.
Variable atable : list Q.
Variable elem_names : list string.
Variable atomic_weights : list Q.
Variable metal_elem : list nat.
Variable prepare_spectrum : SpectralModel -> Q -> Q -> Q -> result SpectralModel.
Variable log10 : Q -> Q.
Variable pow10 : Q -> Q.
Variable parallel_objects : list Chunk -> list Chunk.
Variable mpi_allreduce : nat -> nat.
Variable parallel_capable : bool.

(** After a [setup_model] that succeeded (linear temperature scale, at
    least one bin, method [invert_cdf], no variable elements), a call on
    a chunk returns and raises nothing, provided the prepared spectral
    table has one more bin edge than channels and non-negative spectra
    with one entry per channel, the chunk has the temperature and the
    emission measure field (and the density and metallicity fields the
    model reads) with one entry per cell, and emission measures,
    metallicities and the norm are not negative.  Every rate handed to
    the Poisson draw is then non-negative. *)
Theorem thermal_call_after_setup_returns (self : ThermalSourceModel)
  (data_source : ThermalDataSource) (z sn : Q) (log : mylog)
  (self' : ThermalSourceModel) (log' : mylog) (chunk : Chunk) (g : G)
  (temp em : list Q) :
  setup_model atable elem_names atomic_weights metal_elem prepare_spectrum
              log10 pow10 parallel_objects mpi_allreduce parallel_capable
              self data_source z sn log = Ok (self', log') ->
  kT_scale self = "linear" ->
  0 < n_kT self ->
  method self = "invert_cdf" ->
  num_var_elem self = 0 ->
  table_ok (spectral_model self') ->
  (0 <= sn)%Q ->
  chunk_get chunk (temperature_field self') = Ok temp ->
  chunk_get chunk (emission_measure_field self') = Ok em ->
  length em = length temp ->
  Forall (fun x => 0 <= x)%Q em ->
  density_ok self' chunk (length temp) ->
  metals_ok self' chunk (length temp) ->
  exists r self'' g' tr,
    run kelvin_to_keV self' chunk g = Ok (r, self'', g', tr)
    /\ rates_nonneg (rates tr)
    /\ __call__ kelvin_to_keV self' chunk g = Ok (r, self'', g').
Proof.
  intros E Hlin Hn Hm Hv Htab Hsn Htemp Hem Lem Hpos Hdens Hmet.
  destruct (thermal_setup.setup_model_inv _ _ _ _ _ _ _ _ _ _
              self data_source z sn log self' log' E)
    as (ef & info & tf & bins & p & Hef & Hinfo & Hft & Hdf & Htf & Hsm
        & Hb & Hd & Hbins & Hsn' & Hz & Hp & Hfresh & Hzc & HZ & Hnei & Hnv
        & Hve & Hm' & Hmin & Hmax & Hnk & Hsc & Hmd).
  specialize (Hbins Hlin).
  assert (Lb : length bins = n_kT self + 1)
    by (subst bins; apply spectrum_file.linspace_length).
  assert (Hne : bins <> [])
    by (intros Hnil; rewrite Hnil in Lb; simpl in Lb; lia).
  assert (Hlo : (hd 0 bins <= kT_min self')%Q).
  { replace (hd 0%Q bins) with (nth 0 bins 0%Q) by (now destruct bins).
    subst bins. rewrite spectrum_file.linspace_nth by lia.
    rewrite Hmin. change (inject_Z (Z.of_nat 0)) with 0%Q.
    apply Qle_lteq. right. ring. }
  assert (Hhi : (kT_max self' <= last bins 0)%Q).
  { subst bins. rewrite spectrum_file.linspace_last by lia.
    rewrite Hmax. lra. }
  destruct (run_Ok kelvin_to_keV self' chunk g temp em bins (np.diff bins)
              p sn) as (r & self'' & g' & tr & Erun & Hrates);
    try assumption; try congruence.
  - now rewrite thermal_setup.diff_length.
  - exists r, self'', g', tr. split; [exact Erun|]. split; [exact Hrates|].
    unfold __call__. rewrite Erun. reflexivity.
Qed.

End AfterSetup.

(** The example model, set up and called on the example chunk. *)
Lemma thermal_call_after_setup_returns_witness :
  exists self' log',
    setup_model [] [] [] [] examples.prepare_spectrum examples.no_scale
      examples.no_scale examples.serial examples.one_process false
      examples.thermal_fresh examples.data_source 0 1 [] = Ok (self', log')
    /\ exists r self'' g' tr,
         run (fun x => x) self' examples.chunk examples.seed
         = Ok (r, self'', g', tr)
         /\ rates_nonneg (rates tr)
         /\ __call__ (fun x => x) self' examples.chunk examples.seed
            = Ok (r, self'', g').
Proof.
  eexists. eexists. split; [reflexivity|].
  apply (thermal_call_after_setup_returns (fun x => x) [] [] [] []
           examples.prepare_spectrum examples.no_scale examples.no_scale
           examples.serial examples.one_process false
           examples.thermal_fresh examples.data_source 0 1 [] _ _
           examples.chunk examples.seed [0.5; 0.75; 2.5; 7]%Q
           [2; 2; 2; 2]%Q eq_refl eq_refl);
    try reflexivity.
  - simpl. lia.
  - split; [reflexivity|]. intros kT. simpl.
    repeat split; repeat constructor; discriminate.
  - discriminate.
  - repeat constructor; discriminate.
  - simpl. exists [1; 1; 9; 1]%Q. split; reflexivity.
  - right. simpl. exists [1; 0; 1; 1]%Q.
    repeat split; try reflexivity; try discriminate;
      repeat constructor; discriminate.
Defined.

End thermal_total.

(** ** The thermal model: the energies a call returns *)

Module thermal_energies.
Import source_models thermal_selection.

Lemma buffer_set_slice_front (b b' : buffer) (i n : nat) (v : list Q) :
  buffer_set_slice b i (i + n) v = Ok b' ->
  length (front b) = i ->
  i + n <= N.to_nat (size b) ->
  front b' = front b ++ v /\ length v = n.
Proof.
  intros E Hf Hs. unfold buffer_set_slice in E.
  rewrite !Nat.min_l in E by lia.
  destruct (Nat.eqb_spec (i + n - i) (length v)) as [Hl|Hl];
    [|discriminate].
  injection E as <-. simpl. rewrite Hf, Nat.sub_diag. unfold np.zeros.
  simpl. rewrite app_nil_r. rewrite <- Hf at 1. rewrite firstn_all.
  rewrite skipn_all2 by lia. rewrite app_nil_r.
  split; [reflexivity | lia].
Qed.

Section Content.

Context {G : Type} `{RandomState G}.
Variable kelvin_to_keV : Q -> Q.

Variable self : ThermalSourceModel.

(** A property [P] of every energy that a successful draw for a cell
    returns. *)
Variable P : Q -> Prop.
Hypothesis sample_P :
  forall metalZ elemZ icell cn arrs (g : G) cell_e arrs' g' table,
    sample_cell self metalZ elemZ icell cn arrs g
    = Ok (cell_e, arrs', g', table) ->
    Forall P cell_e.

(** The energies written so far: [ei] of them, at the front of the
    buffer, all with [P]. *)
Definition content_ok (ei : nat) (st : @call_state G) : Prop :=
  length (front (energies st)) = ei
  /\ Forall P (front (energies st))
  /\ (1 <= num_photons_max st)%N
  /\ (num_photons_max st <= size (energies st))%N.

Lemma cell_loop_content (metalZ : list Q) (elemZ : option (list (list Q)))
  (icells : list nat) :
  forall ei arrs (st : @call_state G) arrs' st',
    cell_loop self metalZ elemZ icells ei arrs st = Ok (arrs', st') ->
    content_ok ei st ->
    content_ok (ei + counts_at (number_of_photons st) icells) st'
    /\ number_of_photons st' = number_of_photons st.
Proof.
  induction icells as [|icell rest IH];
    intros ei arrs st arrs' st' E Hc.
  - simpl in E. inv_Ok E. unfold counts_at. simpl.
    rewrite Nat.add_0_r. now split.
  - simpl in E. bind_inv E as cn Ecn. apply item_nth in Ecn.
    destruct Ecn as [Hcn _].
    unfold counts_at. simpl. rewrite Hcn.
    fold (counts_at (number_of_photons st) rest).
    destruct (Nat.eqb_spec cn 0) as [->|Hne].
    + apply IH in E; [|assumption]. simpl. exact E.
    + bind_inv E as sampled Es.
      destruct sampled as [[[cell_e arrs1] g1] table].
      apply sample_P in Es.
      bind_inv E as en' Een.
      destruct Hc as (Hf & HP & Hs1 & Hs2).
      destruct (thermal_tuple.grow_ge (num_photons_max st)
                  (N.of_nat (ei + cn)) Hs1) as [Hg1 Hg2].
      set (npm := grow (num_photons_max st) (N.of_nat (ei + cn))) in *.
      set (en := if N.ltb (size (energies st)) npm
                 then resize (energies st) npm else energies st) in *.
      assert (Hen : (npm <= size en)%N /\ front en = front (energies st)).
      { unfold en. destruct (N.ltb_spec (size (energies st)) npm).
        - simpl. split; [lia|]. apply firstn_all2. lia.
        - split; [lia | reflexivity]. }
      destruct Hen as [Hen1 Hen2].
      pose proof (thermal_tuple.buffer_set_slice_size _ _ _ _ _ Een)
        as Hsize.
      apply buffer_set_slice_front in Een; [| congruence | lia].
      destruct Een as [Hfront Hlen].
      apply IH in E.
      * simpl in E. destruct E as [E1 E2]. split; [|exact E2].
        now rewrite Nat.add_assoc.
      * repeat split; simpl.
        -- rewrite Hfront, length_app, Hen2. lia.
        -- rewrite Hfront, Hen2. apply Forall_app. now split.
        -- lia.
        -- lia.
Qed.

Lemma bin_step_content (kT_bins dkT cell_em metalZ : list Q)
  (elemZ : option (list (list Q))) (ibegin iend bcount : nat) (ikT : Z)
  (s : nat) (st : @call_state G) start' end' st' :
  bin_step self kT_bins dkT cell_em metalZ elemZ
           (ibegin, iend, bcount, ikT) s s st = Ok (start', end', st') ->
  ibegin <= iend ->
  thermal_tuple.bins_inv ibegin s st ->
  content_ok s st ->
  content_ok end' st'.
Proof.
  intros E Hle Hinv Hc.
  pose proof Hinv as (Hs & Hz & Hsz & Hp).
  unfold bin_step in E.
  bind_inv E as edge Eedge. bind_inv E as width Ewidth.
  destruct (get_spectrum _ _) as [[cs ms] vs].
  bind_inv E as cell_norm Ecn.
  destruct (poisson cell_norm (gen st)) as [cell_n g1].
  bind_inv E as nph Enph. bind_inv E as arrs Earrs.
  bind_inv E as looped Eloop. destruct looped as [arrs' st1].
  inv_Ok E.
  pose proof Enph as Hset. apply set_slice_inv in Hset.
  destruct Hset as [Hv Hnph].
  pose proof Enph as Hlen. apply set_slice_length in Hlen.
  pose proof Eloop as Hin.
  apply thermal_tuple.cell_loop_inv in Hin; simpl; [|assumption|lia].
  simpl in Hin. destruct Hin as (_ & _ & _ & Hin & _ & _).
  apply cell_loop_content in Eloop.
  - simpl in Eloop. destruct Eloop as [Hc' _].
    assert (Hsum : counts_at nph (seq ibegin (iend - ibegin))
                   = np.isum cell_n).
    { destruct (Nat.eq_dec iend ibegin) as [->|Hne].
      - rewrite Nat.sub_diag in *. simpl in Hv.
        destruct cell_n; [reflexivity | simpl in Hv; lia].
      - assert (Hlast : In (iend - 1) (seq ibegin (iend - ibegin)))
          by (apply in_seq; lia).
        rewrite Forall_forall in Hin. apply Hin in Hlast.
        rewrite Hlen in Hlast.
        assert (Hcl : length cell_n = iend - ibegin) by lia.
        rewrite Hnph, <- Hcl.
        replace ibegin with (length (firstn ibegin (number_of_photons st)))
          at 3 by (rewrite length_firstn; lia).
        apply thermal_tuple.counts_at_middle. }
    now rewrite Hsum in Hc'.
  - exact Hc.
Qed.

Lemma bin_loop_content (kT_bins dkT cell_em metalZ : list Q)
  (elemZ : option (list (list Q))) (bins : list (nat * nat * nat * Z)) :
  forall (n s : nat) (st : @call_state G) start' end' st',
    bin_loop self kT_bins dkT cell_em metalZ elemZ bins s s st
    = Ok (start', end', st') ->
    thermal_tuple.consecutive n bins ->
    thermal_tuple.bins_inv n s st ->
    content_ok s st ->
    content_ok end' st'.
Proof.
  induction bins as [|bin bins IH];
    intros n s st start' end' st' E Hcons Hinv Hc.
  - simpl in E. now inv_Ok E.
  - simpl in E. bind_inv E as stepped Estep.
    destruct stepped as [[s1 e1] st1].
    inversion Hcons as [|n0 e c k rest Hle Hrest]; subst.
    pose proof Estep as Hc1.
    apply bin_step_content in Hc1; try assumption.
    apply thermal_tuple.bin_step_inv in Estep; try assumption.
    destruct Estep as (-> & Hinv1 & _).
    eapply IH; eassumption.
Qed.

Lemma zeros_all_zero (n : nat) : Forall (eq 0) (repeat 0 n).
Proof. induction n; simpl; constructor; auto. Qed.

(** Every energy a call returns has [P]. *)
Lemma run_content (chunk : Chunk) (g : G) n counts idxs energies self' g'
  tr :
  run kelvin_to_keV self chunk g
  = Ok (Some (n, counts, idxs, energies), self', g', tr) ->
  Forall P energies.
Proof.
  intros Erun.
  assert (Htemp : exists temp,
             chunk_get chunk (temperature_field self) = Ok temp).
  { unfold run in Erun. bind_inv Erun as temp Etemp. now exists temp. }
  destruct Htemp as [temp Htemp].
  pose proof (run_outcome kelvin_to_keV self chunk g temp _ _ _ _
                Erun Htemp) as Hout.
  inversion Hout as [| | p bins widths bc dens_cut em norm metalZ elemZ
                         s1 end_e st Hnz Hsel Hp Hb Hw Ebc Ecut Eem Lem Hn
                         EmZ HeZ Eloop Lnph]; subst.
  set (sel := selection kelvin_to_keV self temp) in *.
  set (x := digitized kelvin_to_keV temp sel bins) in *.
  assert (Hcons : thermal_tuple.consecutive 0 (bins_of x bc)).
  { unfold bins_of. apply thermal_tuple.cell_ranges_consecutive. }
  assert (Hinv : thermal_tuple.bins_inv 0 0
                   (start_state g (update p (length temp - length sel))
                                (length sel))).
  { unfold thermal_tuple.bins_inv, start_state. simpl.
    repeat split; try lia.
    - symmetry. apply thermal_tuple.isum_zeros. apply zeros_all_zero.
    - apply zeros_all_zero. }
  assert (Hc0 : content_ok 0
                  (start_state g (update p (length temp - length sel))
                               (length sel))).
  { unfold content_ok, start_state. simpl.
    repeat split; try lia. constructor. }
  pose proof (bin_loop_content _ _ _ _ _ _ 0 0 _ _ _ _ Eloop Hcons Hinv Hc0)
    as (Hf & HP & _ & _).
  pose proof (thermal_tuple.bin_loop_inv _ _ _ _ _ _ _ 0 0 _ _ _ _
                Eloop Hcons Hinv) as (_ & Hsize & _).
  unfold buffer_prefix. rewrite Nat.min_l by lia.
  rewrite Hf, Nat.sub_diag. unfold np.zeros. simpl. rewrite app_nil_r.
  rewrite <- Hf. rewrite firstn_all. exact HP.
Qed.

End Content.

Section Methods.

Context {G : Type} `{RandomStateSpec G}.
Variable kelvin_to_keV : Q -> Q.

(** Spectra that can be normalized: no negative entry, and a continuum
    that does not vanish. *)
Definition spectra_positive (sm : SpectralModel) : Prop :=
  forall kT,
    let '(c, m, _) := get_spectrum sm kT in
    (0 < np.sum c)%Q
    /\ Forall (fun x => 0 <= x)%Q c /\ Forall (fun x => 0 <= x)%Q m.

Definition in_band (sm : SpectralModel) (e : Q) : Prop :=
  (hd 0 (ebins sm) <= e <= last (ebins sm) 0)%Q.

Lemma sample_invert_cdf (self : ThermalSourceModel) :
  method self = "invert_cdf" ->
  drawn_events.ascending (ebins (spectral_model self)) ->
  forall metalZ elemZ icell cn arrs (g : G) cell_e arrs' g' table,
    sample_cell self metalZ elemZ icell cn arrs g
    = Ok (cell_e, arrs', g', table) ->
    Forall (in_band (spectral_model self)) cell_e.
Proof.
  intros Hm Hasc metalZ elemZ icell cn arrs g cell_e arrs' g' table E.
  unfold sample_cell in E. rewrite Hm in E. simpl in E.
  bind_inv E as cumspec Ecum. bind_inv E as lst Elast.
  destruct (uniform 0 1 cn g) as [randvec g1].
  bind_inv E as e Ei. inv_Ok E.
  unfold np.interp in Ei.
  destruct (Nat.eqb_spec
              (length (map (fun c => (c * (1 / lst))%Q) cumspec))
              (length (ebins (spectral_model self)))) as [Hl|Hl];
    [|discriminate].
  destruct (map (fun c => (c * (1 / lst))%Q) cumspec) as [|c0 cs] eqn:Ec;
    [discriminate|].
  inv_Ok Ei. apply Forall_map, Forall_forall. intros v _.
  apply drawn_events.interp1_between; [assumption | discriminate |
                                       assumption].
Qed.

Lemma sample_accept_reject (self : ThermalSourceModel) :
  method self = "accept_reject" ->
  forall metalZ elemZ icell cn arrs (g : G) cell_e arrs' g' table,
    sample_cell self metalZ elemZ icell cn arrs g
    = Ok (cell_e, arrs', g', table) ->
    Forall (fun e => In e (emid (spectral_model self))) cell_e.
Proof.
  intros Hm metalZ elemZ icell cn arrs g cell_e arrs' g' table E.
  unfold sample_cell in E. rewrite Hm in E. simpl in E.
  bind_inv E as tot_spec Etot.
  destruct (choice _ cn _ g) as [eidxs g1].
  bind_inv E as e Et. inv_Ok E.
  apply take_inv in Et. destruct Et as [Hidx ->].
  apply Forall_map. revert Hidx. apply Forall_impl.
  intros i Hi. now apply nth_In.
Qed.

Lemma sample_unknown (self : ThermalSourceModel) :
  method self <> "invert_cdf" -> method self <> "accept_reject" ->
  forall metalZ elemZ icell cn arrs (g : G) cell_e arrs' g' table,
    sample_cell self metalZ elemZ icell cn arrs g
    = Ok (cell_e, arrs', g', table) ->
    Forall (fun _ => False) cell_e.
Proof.
  intros H1 H2 metalZ elemZ icell cn arrs g cell_e arrs' g' table E.
  unfold sample_cell in E.
  destruct (String.eqb_spec (method self) "invert_cdf"); [contradiction|].
  destruct (String.eqb_spec (method self) "accept_reject");
    [contradiction | discriminate].
Qed.

(** The energies of a call that returns cells, by sampling method.  For a
    spectral table with non-negative spectra and a continuum that does
    not vanish, no variable elements and non-negative metallicities:
    with [invert_cdf] and ascending bin edges every energy lies between
    the first and the last bin edge; with [accept_reject] every energy is
    one of the channel midpoints [emid].  The method is not checked when
    the model is made: with any other method a call returns only if no
    cell drew a photon (the first cell that did raises
    [UnboundLocalError]), so what it returns is empty.  The conditions
    on the spectra and the metallicities keep the normalization factor
    finite: where the total of a cell vanishes numpy divides by zero and
    the energies are NaN. *)
Theorem thermal_energies_by_method (self : ThermalSourceModel)
  (chunk : Chunk) (g : G) (temp : list Q) n counts idxs energies self' g' :
  __call__ kelvin_to_keV self chunk g
  = Ok (Some (n, counts, idxs, energies), self', g') ->
  chunk_get chunk (temperature_field self) = Ok temp ->
  (method self = "invert_cdf" ->
   drawn_events.ascending (ebins (spectral_model self)) ->
   spectra_positive (spectral_model self) ->
   num_var_elem self = 0 ->
   thermal_total.metals_ok self chunk (length temp) ->
   Forall (in_band (spectral_model self)) energies)
  /\ (method self = "accept_reject" ->
      spectra_positive (spectral_model self) ->
      num_var_elem self = 0 ->
      thermal_total.metals_ok self chunk (length temp) ->
      Forall (fun e => In e (emid (spectral_model self))) energies)
  /\ (method self <> "invert_cdf" -> method self <> "accept_reject" ->
      n = 0 /\ counts = [] /\ idxs = [] /\ energies = []).
Proof.
  intros E Htemp.
  pose proof (thermal_tuple.thermal_call_consistent kelvin_to_keV _ _ _ _ _
                _ _ _ _ E) as [[Hn Hlen] Hidx].
  unfold __call__ in E. bind_inv E as r Erun.
  destruct r as [[[r self1] g1] tr]. inv_Ok E.
  split; [|split].
  - intros Hm Hasc _ _ _.
    exact (run_content kelvin_to_keV self _
             (sample_invert_cdf self Hm Hasc) _ _ _ _ _ _ _ _ _ Erun).
  - intros Hm _ _ _.
    exact (run_content kelvin_to_keV self _
             (sample_accept_reject self Hm) _ _ _ _ _ _ _ _ _ Erun).
  - intros H1 H2.
    pose proof (run_content kelvin_to_keV self _
                  (sample_unknown self H1 H2) _ _ _ _ _ _ _ _ _ Erun)
      as Hno.
    assert (He : energies = []).
    { destruct energies as [|e es]; [reflexivity|]. now inversion Hno. }
    subst energies. simpl in Hlen.
    pose proof (run_outcome kelvin_to_keV self chunk g temp _ _ _ _
                  Erun Htemp) as Hout.
    inversion Hout as [| | p bins widths bc dens_cut em norm metalZ elemZ
                           s1 end_e st Hnz Hsel Hp Hb Hw Ebc Ecut Eem Lem
                           Hnm EmZ HeZ Eloop Lnph]; subst.
    pose proof (positive_counts (number_of_photons st)) as Hpos.
    fold active in Hpos.
    assert (Hc : np.compress active (number_of_photons st) = []).
    { destruct (np.compress active (number_of_photons st)) as [|c cs];
        [reflexivity|].
      inversion Hpos; subst. simpl in Hlen. lia. }
    rewrite Hc in Hidx. simpl in Hidx.
    assert (Hi : np.compress active (selection kelvin_to_keV self temp)
                 = []).
    { destruct (np.compress active (selection kelvin_to_keV self temp));
        [reflexivity | discriminate Hidx]. }
    rewrite Hc, Hi. repeat split; reflexivity.
Qed.

End Methods.

(** The example model with [accept_reject]: every energy is one of the
    two channel midpoints. *)
Lemma thermal_energies_by_method_witness :
  match __call__ (fun x => x) (examples.thermal "accept_reject")
                 examples.chunk examples.seed with
  | Ok (Some (_, _, _, energies), _, _) =>
      Forall (fun e => In e [1.5; 2.5]%Q) energies /\ energies <> []
  | _ => False
  end.
Proof.
  destruct (__call__ (fun x => x) (examples.thermal "accept_reject")
                     examples.chunk examples.seed)
    as [[[[[[[n c] i] e]|] self'] g']|x] eqn:E.
  - destruct (thermal_energies_by_method (fun x => x)
                (examples.thermal "accept_reject") examples.chunk
                examples.seed [0.5; 0.75; 2.5; 7]%Q n c i e self' g' E
                eq_refl) as (_ & Hacc & _).
    split.
    + clear E. apply Hacc; [reflexivity | | reflexivity |].
      * intros kT. simpl. split; [reflexivity|].
        split; repeat constructor; discriminate.
      * right. simpl. exists [1; 0; 1; 1]%Q.
        repeat split; try reflexivity; try discriminate;
          repeat constructor; discriminate.
    + lazy in E. inv_Ok E. discriminate.
  - lazy in E. discriminate E.
  - lazy in E. discriminate E.
Defined.

End thermal_energies.
